(** * maplibre-gl-planetary-computer: layer lifecycle, tile URLs, presets, tokens

    A shallow embedding of the core of the widget:
    - [src/lib/api/render-presets.ts]  (preset registry),
    - [src/lib/api/titiler-client.ts]  (tile-URL builder),
    - [src/lib/api/sas-token.ts]       (token cache),
    - [src/lib/core/LayerManager.ts]   (layer registry),
    followed by the properties of the design specification that concern them.

    Conventions of the embedding.
    - A JavaScript string is a [string]; one character stands for one code
      unit, so the model is exact on ASCII text.
    - An optional field [f?: T] is an [option T]; [None] is "absent" (a key
      explicitly bound to [undefined] is not distinguished from an absent one).
    - A JavaScript object used as a dictionary whose enumeration order is
      observed ([Object.entries], [Object.keys]) is an association list in
      that order; the [Map] of the layer manager and of the token cache is a
      [gmap].
    - JavaScript numbers are kept abstract (class [JSNumber]): the code only
      stores, forwards and prints them.  Time values of [Date] are integral
      milliseconds and are integers of [Z]; an invalid [Date] is not modelled.
    - An [async] method is run to completion, one call after the other.
    - The methods that enumerate the registry ([getLayers],
      [removeAllLayers]) and [zoomToLayer] take no part in the properties and
      are not embedded. *)

From Stdlib Require Import ZArith Ascii DecimalString QArith Qminmax.
From Stdlib Require String.
From stdpp Require Import base option list gmap strings.

Local Open Scope Z_scope.
Set Warnings "-register-all".

(* ================================================================== *)
(** * JavaScript strings *)
(* ================================================================== *)

Module JS.

Definition is_upper (c : ascii) : bool :=
  let n := nat_of_ascii c in (65 <=? n)%nat && (n <=? 90)%nat.
Definition is_lower (c : ascii) : bool :=
  let n := nat_of_ascii c in (97 <=? n)%nat && (n <=? 122)%nat.
Definition is_digit (c : ascii) : bool :=
  let n := nat_of_ascii c in (48 <=? n)%nat && (n <=? 57)%nat.
Definition is_alnum (c : ascii) : bool :=
  is_upper c || is_lower c || is_digit c.

Definition map_chars (f : ascii → ascii) : string → string :=
  fix go s :=
    match s with
    | EmptyString => EmptyString
    | String c s' => String (f c) (go s')
    end.

(** [s.toLowerCase()] *)
Definition lower_char (c : ascii) : ascii :=
  if is_upper c then ascii_of_nat (nat_of_ascii c + 32) else c.
Definition toLowerCase : string → string := map_chars lower_char.

(** [s.includes(p)] *)
Fixpoint includes (s p : string) : bool :=
  String.prefix p s ||
  match s with
  | EmptyString => false
  | String _ s' => includes s' p
  end.

(** [s.slice(0, n)] *)
Fixpoint take (n : nat) (s : string) : string :=
  match n, s with
  | S n', String c s' => String c (take n' s')
  | _, _ => EmptyString
  end.

(** [s.slice(-n)] *)
Definition take_last (n : nat) (s : string) : string :=
  String.substring (String.length s - n) n s.

(** [xs.join(sep)] *)
Definition join (sep : string) (xs : list string) : string :=
  String.concat sep xs.

(** [s.replace(/[^a-zA-Z0-9-_]/g, '-')] *)
Definition id_char (c : ascii) : bool :=
  is_alnum c || Ascii.eqb c "-" || Ascii.eqb c "_".
Definition sanitize : string → string :=
  map_chars (λ c, if id_char c then c else "-"%char).

(** [s.replace(/\/$/, '')] *)
Fixpoint strip_trailing_slash (s : string) : string :=
  match s with
  | EmptyString => EmptyString
  | String c EmptyString => if Ascii.eqb c "/" then EmptyString else s
  | String c s' => String c (strip_trailing_slash s')
  end.

(** Truthiness of a string: every string but the empty one. *)
Definition truthy (s : string) : bool :=
  match s with EmptyString => false | _ => true end.

(** ** Percent encoding *)

Definition hex_digit (n : nat) : ascii :=
  match n with
  | 0 => "0" | 1 => "1" | 2 => "2" | 3 => "3" | 4 => "4" | 5 => "5"
  | 6 => "6" | 7 => "7" | 8 => "8" | 9 => "9" | 10 => "A" | 11 => "B"
  | 12 => "C" | 13 => "D" | 14 => "E" | _ => "F"
  end%nat%char.

Definition percent (c : ascii) : string :=
  let n := nat_of_ascii c in
  String "%" (String (hex_digit (n / 16)) (String (hex_digit (n mod 16)) EmptyString)).

Definition encode_with (keep : ascii → bool) (sp : option ascii) : string → string :=
  fix go s :=
    match s with
    | EmptyString => EmptyString
    | String c s' =>
        if keep c then String c (go s')
        else match sp with
             | Some plus => if Ascii.eqb c " " then String plus (go s')
                            else percent c +:+ go s'
             | None => percent c +:+ go s'
             end
    end.

Definition one_of (cs : string) (c : ascii) : bool :=
  existsb (Ascii.eqb c) (String.list_ascii_of_string cs).

(** [encodeURIComponent(s)]: letters, digits and [-_.!~*'()] are kept. *)
Definition uri_unreserved (c : ascii) : bool :=
  is_alnum c || one_of "-_.!~*'()" c.
Definition encodeURIComponent : string → string :=
  encode_with uri_unreserved None.

(** The [application/x-www-form-urlencoded] serializer used by
    [URLSearchParams.prototype.toString]: letters, digits and [*-._] are
    kept, a space becomes [+]. *)
Definition form_safe (c : ascii) : bool :=
  is_alnum c || one_of "*-._" c.
Definition form_encode : string → string :=
  encode_with form_safe (Some "+"%char).

End JS.

(** ** [URLSearchParams] *)

Module URLSearchParams.

Abbreviation t := (list (string * string)).

Definition empty : t := [].

Definition append (k v : string) (ps : t) : t := ps ++ [(k, v)].

(** [set]: overwrite the first entry named [k] and drop the others, or
    append when there is none. *)
Fixpoint set (k v : string) (ps : t) : t :=
  match ps with
  | [] => [(k, v)]
  | (k', v') :: ps' =>
      if String.eqb k' k
      then (k, v) :: filter (λ p, negb (String.eqb (fst p) k)) ps'
      else (k', v') :: set k v ps'
  end.

Definition entry (p : string * string) : string :=
  JS.form_encode (fst p) +:+ "=" +:+ JS.form_encode (snd p).

Definition toString (ps : t) : string := JS.join "&" (map entry ps).

(** All values under one name, in order ([getAll]). *)
Definition getAll (k : string) (ps : t) : list string :=
  map snd (filter (λ p, String.eqb (fst p) k) ps).

Definition has (k : string) (ps : t) : bool :=
  existsb (λ p, String.eqb (fst p) k) ps.

End URLSearchParams.

(* ================================================================== *)
(** * JavaScript numbers *)
(* ================================================================== *)

(** The code never computes with the numbers it handles (opacity, bounding
    boxes, nodata, tile size): it stores them, tests them for truthiness and
    prints them.  The class lists exactly these uses. *)
Class JSNumber (number : Type) := {
  (** a numeric literal of the source *)
  num_lit : Z → number;
  (** [String(n)], also the rendering of [n] by [Array.prototype.join] *)
  num_String : number → string;
  (** [JSON.stringify(n)] *)
  num_JSON : number → string;
  (** [ToBoolean(n)]: false at [0] and [NaN] only *)
  num_truthy : number → bool;
}.

Definition Z_String (n : Z) : string := NilEmpty.string_of_int (Z.to_int n).

(** Integers are the instance used for concrete runs. *)
#[export] Instance Z_JSNumber : JSNumber Z := {|
  num_lit := id;
  num_String := Z_String;
  num_JSON := Z_String;
  num_truthy := λ n, negb (n =? 0);
|}.

(** The token cache does compute: it subtracts two time values and compares
    the difference with its buffer.  A [Date] holds a time value, an integral
    number of milliseconds of magnitude at most 8.64e15, or is an Invalid Date
    ([None]), whose [getTime()] is [NaN]. *)
Abbreviation Date := (option Z).

(** A Number as the buffer of the token cache can be: [NaN], an infinity, or
    a finite double, held as the rational it is. *)
Inductive Double :=
| NaN
| Infinity (negative : bool)
| Finite (q : Q).

(** The double nearest to the integer [z], ties to the even significand:
    what the subtraction of two integral doubles returns when their exact
    difference is [z].  It is [z] itself up to [2^53]; the difference of two
    time values stays below [2^54] in magnitude, far from overflow. *)
Definition round_to_double (z : Z) : Z :=
  let e := Z.log2 (Z.abs z) - 52 in
  if e <=? 0 then z
  else
    let ulp := 2 ^ e in
    let q := z / ulp in
    let r := z mod ulp in
    if 2 * r <? ulp then q * ulp
    else if ulp <? 2 * r then (q + 1) * ulp
    else if Z.even q then q * ulp else (q + 1) * ulp.

(** [expiry.getTime() - now.getTime() > bufferMs], where [now] is the valid
    date [new Date()]: a comparison with [NaN] on either side is false. *)
Definition past_buffer (expiry : Date) (now : Z) (buffer : Double) : bool :=
  match expiry, buffer with
  | None, _ => false
  | Some _, NaN => false
  | Some _, Infinity negative => negative
  | Some t, Finite q => negb (Qle_bool (inject_Z (round_to_double (t - now))) q)
  end.

Section Model.

Context {number : Type} `{!JSNumber number}.

(** A value of type [unknown] (and a GeoJSON geometry). *)
Inductive json :=
| JNull
| JBool (b : bool)
| JNum (n : number)
| JStr (s : string)
| JArr (xs : list json)
| JObj (kvs : list (string * json)).

(* ================================================================== *)
(** * [src/lib/api/types.ts] *)
(* ================================================================== *)

(** [STACAsset]: the field read by the code is [type]. *)
Record STACAsset := {
  asset_href : string;
  asset_title : option string;
  asset_type : option string;
  asset_roles : option (list string);
}.

Record STACCollection := {
  coll_id : string;
  coll_title : option string;
  (** [extent.spatial.bbox] *)
  coll_extent_bbox : list (list number);
  coll_item_assets : option (list (string * STACAsset));
}.

Record STACItem := {
  item_id : string;
  item_bbox : list number;
  item_assets : list (string * STACAsset);
  item_collection : option string;
}.

Inductive SortDirection := asc | desc.

Inductive FilterLang := cql2_json | cql2_text.

Record STACSearchParams := {
  sp_collections : option (list string);
  sp_bbox : option (list number);
  sp_datetime : option string;
  sp_intersects : option json;
  sp_ids : option (list string);
  sp_limit : option number;
  sp_query : option json;
  sp_sortby : option (list (string * SortDirection));
  sp_filter : option json;
  sp_filter_lang : option FilterLang;
}.

Inductive Resampling := nearest | bilinear | cubic | lanczos.

Definition Resampling_String (r : Resampling) : string :=
  match r with
  | nearest => "nearest" | bilinear => "bilinear"
  | cubic => "cubic" | lanczos => "lanczos"
  end.

Record TileParams := {
  tp_assets : option (list string);
  tp_expression : option string;
  tp_rescale : option string;
  tp_colormap_name : option string;
  tp_colormap : option (list (string * list number));
  tp_nodata : option number;
  tp_resampling : option Resampling;
  tp_return_mask : option bool;
  tp_tile_size : option number;
  tp_asset_bidx : option (list (string * string));
}.

(** The object literal [{}]. *)
Definition no_params : TileParams :=
  {| tp_assets := None; tp_expression := None; tp_rescale := None;
     tp_colormap_name := None; tp_colormap := None; tp_nodata := None;
     tp_resampling := None; tp_return_mask := None; tp_tile_size := None;
     tp_asset_bidx := None |}.

(** [{ ...p, assets }] *)
Definition with_assets (a : list string) (p : TileParams) : TileParams :=
  {| tp_assets := Some a; tp_expression := tp_expression p;
     tp_rescale := tp_rescale p; tp_colormap_name := tp_colormap_name p;
     tp_colormap := tp_colormap p; tp_nodata := tp_nodata p;
     tp_resampling := tp_resampling p; tp_return_mask := tp_return_mask p;
     tp_tile_size := tp_tile_size p; tp_asset_bidx := tp_asset_bidx p |}.

(** One key of an object spread: the right operand wins where it has the key. *)
Definition spread1 {A} (l r : option A) : option A :=
  match r with Some _ => r | None => l end.

(** [{ ...p, ...q }] *)
Definition spread_params (p q : TileParams) : TileParams :=
  {| tp_assets := spread1 (tp_assets p) (tp_assets q);
     tp_expression := spread1 (tp_expression p) (tp_expression q);
     tp_rescale := spread1 (tp_rescale p) (tp_rescale q);
     tp_colormap_name := spread1 (tp_colormap_name p) (tp_colormap_name q);
     tp_colormap := spread1 (tp_colormap p) (tp_colormap q);
     tp_nodata := spread1 (tp_nodata p) (tp_nodata q);
     tp_resampling := spread1 (tp_resampling p) (tp_resampling q);
     tp_return_mask := spread1 (tp_return_mask p) (tp_return_mask q);
     tp_tile_size := spread1 (tp_tile_size p) (tp_tile_size q);
     tp_asset_bidx := spread1 (tp_asset_bidx p) (tp_asset_bidx q) |}.

Record RenderPreset := {
  preset_name : string;
  preset_label : string;
  preset_description : option string;
  preset_params : TileParams;
}.

Record CollectionRenderConfig := {
  cfg_collectionId : string;
  cfg_defaultPreset : string;
  cfg_presets : list RenderPreset;
}.

(** A response body that is an object: its [token], a string as the
    interface declares it, and the date [new Date(data['msft:expiry'])], which
    is an Invalid Date when the member is missing or does not parse. *)
Record SASTokenResponse := {
  resp_token : string;
  resp_expiry : Date;
}.

(* ================================================================== *)
(** * [src/lib/api/render-presets.ts] *)
(* ================================================================== *)

Definition preset (name label description : string)
    (assets : option (list string)) (expression rescale colormap_name : option string)
    (asset_bidx : option (list (string * string))) : RenderPreset :=
  {| preset_name := name; preset_label := label;
     preset_description := Some description;
     preset_params :=
       {| tp_assets := assets; tp_expression := expression;
          tp_rescale := rescale; tp_colormap_name := colormap_name;
          tp_colormap := None; tp_nodata := None; tp_resampling := None;
          tp_return_mask := None; tp_tile_size := None;
          tp_asset_bidx := asset_bidx |} |}.

Definition sentinel2L2aPresets : list RenderPreset :=
  [ preset "true-color" "True Color" "Natural color composite (RGB)"
      (Some ["visual"]) None None None None;
    preset "false-color" "False Color (Vegetation)"
      "NIR-Red-Green composite for vegetation analysis"
      (Some ["B08"; "B04"; "B03"]) None (Some "0,3000") None None;
    preset "ndvi" "NDVI" "Normalized Difference Vegetation Index"
      None (Some "(B08-B04)/(B08+B04)") (Some "-1,1") (Some "rdylgn") None;
    preset "ndwi" "NDWI" "Normalized Difference Water Index"
      None (Some "(B03-B08)/(B03+B08)") (Some "-1,1") (Some "blues") None;
    preset "swir" "SWIR Composite" "SWIR-NIR-Red for geology and moisture"
      (Some ["B12"; "B08"; "B04"]) None (Some "0,3000") None None ].

Definition landsatC2L2Presets : list RenderPreset :=
  [ preset "true-color" "True Color" "Natural color composite (RGB)"
      (Some ["red"; "green"; "blue"]) None (Some "0,20000") None None;
    preset "false-color" "False Color (Vegetation)" "NIR-Red-Green composite"
      (Some ["nir08"; "red"; "green"]) None (Some "0,20000") None None;
    preset "ndvi" "NDVI" "Normalized Difference Vegetation Index"
      None (Some "(nir08-red)/(nir08+red)") (Some "-1,1") (Some "rdylgn") None;
    preset "thermal" "Thermal" "Land surface temperature"
      (Some ["lwir11"]) None (Some "290,320") (Some "magma") None ].

Definition naipPresets : list RenderPreset :=
  [ preset "rgb" "RGB" "Natural color"
      (Some ["image"]) None None None (Some [("image", "1,2,3")]);
    preset "cir" "Color Infrared" "NIR-Red-Green composite"
      (Some ["image"]) None None None (Some [("image", "4,1,2")]);
    preset "ndvi" "NDVI" "Vegetation index from NAIP"
      None (Some "(image_b4-image_b1)/(image_b4+image_b1)") (Some "-1,1")
      (Some "rdylgn") None ].

Definition demPresets : list RenderPreset :=
  [ preset "elevation" "Elevation" "Color-coded elevation"
      (Some ["data"]) None (Some "0,4000") (Some "terrain") None;
    preset "hillshade" "Hillshade" "Shaded relief visualization"
      (Some ["data"]) None (Some "0,255") (Some "gray") None ].

Definition RENDER_CONFIGS : list CollectionRenderConfig :=
  [ {| cfg_collectionId := "sentinel-2-l2a"; cfg_defaultPreset := "true-color";
       cfg_presets := sentinel2L2aPresets |};
    {| cfg_collectionId := "landsat-c2-l2"; cfg_defaultPreset := "true-color";
       cfg_presets := landsatC2L2Presets |};
    {| cfg_collectionId := "naip"; cfg_defaultPreset := "rgb";
       cfg_presets := naipPresets |};
    {| cfg_collectionId := "cop-dem-glo-30"; cfg_defaultPreset := "elevation";
       cfg_presets := demPresets |};
    {| cfg_collectionId := "cop-dem-glo-90"; cfg_defaultPreset := "elevation";
       cfg_presets := demPresets |} ].

(** [RENDER_CONFIGS.find((config) => config.collectionId === collectionId)] *)
Definition getRenderConfig (collectionId : string) : option CollectionRenderConfig :=
  find (λ config, String.eqb (cfg_collectionId config) collectionId) RENDER_CONFIGS.

(** [config?.presets ?? []] *)
Definition getPresetsForCollection (collectionId : string) : list RenderPreset :=
  match getRenderConfig collectionId with
  | Some config => cfg_presets config
  | None => []
  end.

Definition getDefaultPreset (collectionId : string) : option RenderPreset :=
  match getRenderConfig collectionId with
  | None => None
  | Some config =>
      find (λ p, String.eqb (preset_name p) (cfg_defaultPreset config)) (cfg_presets config)
  end.

Definition getPreset (collectionId presetName : string) : option RenderPreset :=
  match getRenderConfig collectionId with
  | None => None
  | Some config =>
      find (λ p, String.eqb (preset_name p) presetName) (cfg_presets config)
  end.

(* ================================================================== *)
(** * [src/lib/api/titiler-client.ts] *)
(* ================================================================== *)

Definition DEFAULT_TILER_URL : string :=
  "https://planetarycomputer.microsoft.com/api/data/v1".

Record TiTilerClient := { baseUrl : string }.

(** [constructor(baseUrl = DEFAULT_TILER_URL)] *)
Definition new_TiTilerClient (url : option string) : TiTilerClient :=
  {| baseUrl := JS.strip_trailing_slash (default DEFAULT_TILER_URL url) |}.

Definition dquote : string := String (ascii_of_nat 34) EmptyString.

(** [JSON.stringify(colormap)] for a colormap [{ key: [n, ...], ... }]. *)
Definition JSON_stringify_colormap (cm : list (string * list number)) : string :=
  "{" +:+
  JS.join ","
    (map (λ kv, dquote +:+ fst kv +:+ dquote +:+ ":[" +:+
                JS.join "," (map num_JSON (snd kv)) +:+ "]") cm)
  +:+ "}".

Definition Boolean_String (b : bool) : string := if b then "true" else "false".

(** [if (v) searchParams.set(k, v)] for a string-valued parameter: the guard
    is JavaScript truthiness, so an empty string is skipped. *)
Definition truthy_string (v : option string) : option string :=
  match v with
  | Some s => if JS.truthy s then Some s else None
  | None => None
  end.

Definition set_if (k : string) (v : option string) (sp : URLSearchParams.t)
    : URLSearchParams.t :=
  match v with
  | Some s => URLSearchParams.set k s sp
  | None => sp
  end.

(** [values.forEach((v) => searchParams.append(k, v))] *)
Definition append_each (k : string) (values : list string) (sp : URLSearchParams.t)
    : URLSearchParams.t :=
  foldl (λ sp v, URLSearchParams.append k v sp) sp values.

(** The body of [buildQueryString] up to the final [toString()]: the
    [URLSearchParams] object it fills, statement by statement. *)
Definition buildQueryParams (params : TileParams) : URLSearchParams.t :=
  let searchParams := URLSearchParams.empty in
  (* if (params.assets?.length) *)
  let searchParams := append_each "assets" (default [] (tp_assets params)) searchParams in
  let searchParams := set_if "expression" (truthy_string (tp_expression params)) searchParams in
  let searchParams := set_if "rescale" (truthy_string (tp_rescale params)) searchParams in
  let searchParams :=
    set_if "colormap_name" (truthy_string (tp_colormap_name params)) searchParams in
  let searchParams :=
    set_if "colormap" (JSON_stringify_colormap <$> tp_colormap params) searchParams in
  (* if (params.nodata !== undefined) *)
  let searchParams := set_if "nodata" (num_String <$> tp_nodata params) searchParams in
  let searchParams :=
    set_if "resampling" (Resampling_String <$> tp_resampling params) searchParams in
  (* if (params.return_mask !== undefined) *)
  let searchParams :=
    set_if "return_mask" (Boolean_String <$> tp_return_mask params) searchParams in
  (* if (params.tile_size) *)
  let searchParams :=
    set_if "tile_size"
      (match tp_tile_size params with
       | Some n => if num_truthy n then Some (num_String n) else None
       | None => None
       end) searchParams in
  (* if (params.asset_bidx) Object.entries(params.asset_bidx).forEach(...) *)
  let searchParams :=
    append_each "asset_bidx"
      (map (λ ab, fst ab +:+ "|" +:+ snd ab) (default [] (tp_asset_bidx params)))
      searchParams in
  searchParams.

Definition buildQueryString (params : TileParams) : string :=
  URLSearchParams.toString (buildQueryParams params).

(** [buildSearchParams]: the list [parts] before the final [join('&')]. *)
Definition buildSearchParts (params : STACSearchParams) : list string :=
  let parts := [] in
  let parts :=
    match sp_datetime params with
    | Some d => if JS.truthy d
                then parts ++ ["datetime=" +:+ JS.encodeURIComponent d]
                else parts
    | None => parts
    end in
  let parts :=
    match sp_bbox params with
    | Some bbox => parts ++ ["bbox=" +:+ JS.join "," (map num_String bbox)]
    | None => parts
    end in
  parts.

Definition buildSearchParams (params : STACSearchParams) : string :=
  JS.join "&" (buildSearchParts params).

Definition getItemTileUrl (c : TiTilerClient) (collectionId itemId : string)
    (params : TileParams) : string :=
  let queryString := buildQueryString params in
  let query := if JS.truthy queryString then "?" +:+ queryString else EmptyString in
  baseUrl c +:+ "/item/tiles/WebMercatorQuad/{z}/{x}/{y}@1x?collection=" +:+
  JS.encodeURIComponent collectionId +:+ "&item=" +:+ JS.encodeURIComponent itemId +:+
  (if JS.truthy query then "&" +:+ queryString else EmptyString).

Definition getCollectionTileUrl (c : TiTilerClient) (collectionId : string)
    (params : TileParams) (searchParams : option STACSearchParams) : string :=
  let tileParams := buildQueryString params in
  let searchStr :=
    match searchParams with
    | Some sp => buildSearchParams sp
    | None => EmptyString
    end in
  let allParams :=
    JS.join "&"
      (filter (λ s, JS.truthy s)
         ["collection=" +:+ JS.encodeURIComponent collectionId; tileParams; searchStr]) in
  baseUrl c +:+ "/mosaic/tiles/WebMercatorQuad/{z}/{x}/{y}@1x?" +:+ allParams.

(* ================================================================== *)
(** * [src/lib/api/sas-token.ts] *)
(* ================================================================== *)

Definition SAS_TOKEN_URL : string :=
  "https://planetarycomputer.microsoft.com/api/sas/v1/token".

(** What a JavaScript call does: return a value or throw. *)
Inductive completion (A : Type) :=
| Normal (a : A)
| Throw (message : string).
Global Arguments Normal {A} a.
Global Arguments Throw {A} message.

Record TokenCache := { tc_token : string; tc_expiry : Date }.

Record SASTokenManager := {
  cache : gmap string TokenCache;
  bufferMs : Double;
}.

(** [constructor(bufferMs = 5 * 60 * 1000)] *)
Definition new_SASTokenManager (buffer : option Double) : SASTokenManager :=
  {| cache := ∅; bufferMs := default (Finite (inject_Z (5 * 60 * 1000))) buffer |}.

(** The answer of the network to one [fetch(url)], up to the body: the
    response is [ok] and [response.json()] resolves to an object; it is [ok]
    and [response.json()] rejects with [e]; it is [ok] and [response.json()]
    resolves to [null], so that reading [data.token] throws a [TypeError],
    whose message [e] is the engine's; it is not [ok]; or [fetch] rejects. *)
Inductive FetchResult :=
| fetch_ok (data : SASTokenResponse)
| fetch_ok_unparsed (e : string)
| fetch_ok_null (e : string)
| fetch_not_ok (statusText : string)
| fetch_rejected (message : string).

(** The outcome of one [getToken]: its completion, the manager afterwards
    and the URLs it fetched, in order. *)
Record TokenRun := {
  run_result : completion string;
  run_manager : SASTokenManager;
  run_fetched : list string;
}.

(** [getToken(collectionId)], run at clock value [now] against a network
    answering [fetch]. *)
Definition getToken (fetch : string → FetchResult) (now : Z) (collectionId : string)
    (m : SASTokenManager) : TokenRun :=
  let fresh (_ : unit) :=
    let url := SAS_TOKEN_URL +:+ "/" +:+ JS.encodeURIComponent collectionId in
    match fetch url with
    | fetch_rejected e =>
        {| run_result := Throw e; run_manager := m; run_fetched := [url] |}
    | fetch_not_ok statusText =>
        {| run_result :=
             Throw ("Failed to get SAS token for " +:+ collectionId +:+ ": " +:+ statusText);
           run_manager := m; run_fetched := [url] |}
    | fetch_ok_unparsed e | fetch_ok_null e =>
        {| run_result := Throw e; run_manager := m; run_fetched := [url] |}
    | fetch_ok data =>
        let token := resp_token data in
        let expiry := resp_expiry data in
        {| run_result := Normal token;
           run_manager :=
             {| cache := <[collectionId := {| tc_token := token; tc_expiry := expiry |}]> (cache m);
                bufferMs := bufferMs m |};
           run_fetched := [url] |}
    end in
  match cache m !! collectionId with
  | Some cached =>
      if past_buffer (tc_expiry cached) now (bufferMs m)
      then {| run_result := Normal (tc_token cached); run_manager := m; run_fetched := [] |}
      else fresh ()
  | None => fresh ()
  end.

(** [hasValidToken(collectionId)] *)
Definition hasValidToken (now : Z) (collectionId : string) (m : SASTokenManager) : bool :=
  match cache m !! collectionId with
  | None => false
  | Some cached => past_buffer (tc_expiry cached) now (bufferMs m)
  end.

(* ================================================================== *)
(** * The host map engine *)
(* ================================================================== *)

(** The values of the layout property [visibility]. *)
Inductive Visibility := vis_visible | vis_none.

(** A raster tile source, as [addSource] receives it. *)
Record RasterSource := {
  src_tiles : list string;
  src_tileSize : number;
  src_bounds : option (list number);
  src_attribution : string;
}.

(** A raster layer: its source, its visibility and its opacity. *)
Record RasterLayer := {
  lyr_source : string;
  (** [layout.visibility] *)
  lyr_visibility : option Visibility;
  (** [paint['raster-opacity']] *)
  lyr_opacity : option number;
}.

(** The mutations the host can be asked for. *)
Inductive HostCall :=
| call_addSource (id : string) (s : RasterSource)
| call_addLayer (id : string) (l : RasterLayer)
| call_removeLayer (id : string)
| call_removeSource (id : string)
| call_setLayoutProperty (id : string) (v : Visibility)
| call_setPaintProperty (id : string) (o : number).

(** Modelled from the spec: the host map-rendering engine (the [Map] of
    maplibre-gl) is an external collaborator, specified at its interface
    only: add and remove of raster sources and layers, reads and writes of a
    layer's visibility and opacity.  It is a store of sources and layers; a
    request it cannot serve (a second source or layer under one id, a layer
    over a missing source, removing or updating what is absent, removing a
    source a layer still uses) throws, and each mutation it serves is
    appended to [calls]. *)
Record MapLibreMap := {
  sources : gmap string RasterSource;
  liveLayers : gmap string RasterLayer;
  calls : list HostCall;
}.

(** Stateful JavaScript code: a function of the state that returns or throws,
    and leaves a state behind in both cases. *)
Definition JSM (S A : Type) : Type := S → completion A * S.

Definition ret {S A} (a : A) : JSM S A := λ s, (Normal a, s).
Definition bind {S A B} (m : JSM S A) (k : A → JSM S B) : JSM S B :=
  λ s, match m s with
       | (Normal a, s') => k a s'
       | (Throw e, s') => (Throw e, s')
       end.
Definition gets {S A} (f : S → A) : JSM S A := λ s, (Normal (f s), s).
Definition modify {S} (f : S → S) : JSM S unit := λ s, (Normal tt, f s).

Notation "'let*' x ':=' m 'in' k" := (bind m (λ x, k))
  (at level 10, x name, m at level 100, k at level 200, only parsing).
Notation "m ';;' k" := (bind m (λ _, k))
  (at level 100, k at level 200, right associativity, only parsing).

Definition served (c : HostCall) (src : gmap string RasterSource)
    (lyr : gmap string RasterLayer) (m : MapLibreMap) : MapLibreMap :=
  {| sources := src; liveLayers := lyr; calls := calls m ++ [c] |}.

Definition getSource (id : string) : JSM MapLibreMap (option RasterSource) :=
  gets (λ m, sources m !! id).

Definition getLayer (id : string) : JSM MapLibreMap (option RasterLayer) :=
  gets (λ m, liveLayers m !! id).

Definition addSource (id : string) (s : RasterSource) : JSM MapLibreMap unit :=
  λ m, match sources m !! id with
       | Some _ => (Throw "Source already exists", m)
       | None => (Normal tt, served (call_addSource id s) (<[id := s]> (sources m)) (liveLayers m) m)
       end.

Definition addLayer (id : string) (l : RasterLayer) : JSM MapLibreMap unit :=
  λ m, match liveLayers m !! id, sources m !! lyr_source l with
       | Some _, _ => (Throw "Layer already exists", m)
       | None, None => (Throw "Source not found", m)
       | None, Some _ =>
           (Normal tt, served (call_addLayer id l) (sources m) (<[id := l]> (liveLayers m)) m)
       end.

Definition host_removeLayer (id : string) : JSM MapLibreMap unit :=
  λ m, match liveLayers m !! id with
       | None => (Throw "Layer not found", m)
       | Some _ =>
           (Normal tt, served (call_removeLayer id) (sources m) (delete id (liveLayers m)) m)
       end.

(** Does some live layer draw from source [id]? *)
Definition source_in_use (id : string) (m : MapLibreMap) : bool :=
  bool_decide (map_Exists (λ _ l, lyr_source l = id) (liveLayers m)).

Definition removeSource (id : string) : JSM MapLibreMap unit :=
  λ m, match sources m !! id with
       | None => (Throw "There is no source with this ID", m)
       | Some _ =>
           if source_in_use id m
           then (Throw "Source cannot be removed while a layer is using it", m)
           else (Normal tt, served (call_removeSource id) (delete id (sources m)) (liveLayers m) m)
       end.

Definition setLayoutProperty (id : string) (v : Visibility) : JSM MapLibreMap unit :=
  λ m, match liveLayers m !! id with
       | None => (Throw "Layer not found", m)
       | Some l =>
           let l' := {| lyr_source := lyr_source l; lyr_visibility := Some v;
                        lyr_opacity := lyr_opacity l |} in
           (Normal tt, served (call_setLayoutProperty id v) (sources m) (<[id := l']> (liveLayers m)) m)
       end.

Definition setPaintProperty (id : string) (o : number) : JSM MapLibreMap unit :=
  λ m, match liveLayers m !! id with
       | None => (Throw "Layer not found", m)
       | Some l =>
           let l' := {| lyr_source := lyr_source l; lyr_visibility := lyr_visibility l;
                        lyr_opacity := Some o |} in
           (Normal tt, served (call_setPaintProperty id o) (sources m) (<[id := l']> (liveLayers m)) m)
       end.

(** [getLayoutProperty(id, 'visibility')] *)
Definition getLayoutProperty (id : string) : JSM MapLibreMap (option Visibility) :=
  λ m, match liveLayers m !! id with
       | None => (Throw "Layer not found", m)
       | Some l => (Normal (lyr_visibility l), m)
       end.

(** [getPaintProperty(id, 'raster-opacity')] *)
Definition getPaintProperty (id : string) : JSM MapLibreMap (option number) :=
  λ m, match liveLayers m !! id with
       | None => (Throw "Layer not found", m)
       | Some l => (Normal (lyr_opacity l), m)
       end.

(* ================================================================== *)
(** * [src/lib/core/types.ts]: the layer record *)
(* ================================================================== *)

Inductive LayerType := ty_item | ty_mosaic | ty_collection.

Record ActiveLayer := {
  layer_id : string;
  layer_type : LayerType;
  layer_sourceId : string;
  layer_item : option STACItem;
  layer_collection : option STACCollection;
  layer_mosaicId : option string;
  layer_visible : bool;
  layer_opacity : number;
  layer_assets : list string;
  layer_renderParams : TileParams;
  layer_presetName : option string;
}.

(** [Partial<ActiveLayer>] *)
Record LayerUpdates := {
  upd_id : option string;
  upd_type : option LayerType;
  upd_sourceId : option string;
  upd_item : option STACItem;
  upd_collection : option STACCollection;
  upd_mosaicId : option string;
  upd_visible : option bool;
  upd_opacity : option number;
  upd_assets : option (list string);
  upd_renderParams : option TileParams;
  upd_presetName : option string;
}.

(** [{ ...layer, ...updates }] *)
Definition spread_layer (layer : ActiveLayer) (updates : LayerUpdates) : ActiveLayer :=
  {| layer_id := default (layer_id layer) (upd_id updates);
     layer_type := default (layer_type layer) (upd_type updates);
     layer_sourceId := default (layer_sourceId layer) (upd_sourceId updates);
     layer_item := spread1 (layer_item layer) (upd_item updates);
     layer_collection := spread1 (layer_collection layer) (upd_collection updates);
     layer_mosaicId := spread1 (layer_mosaicId layer) (upd_mosaicId updates);
     layer_visible := default (layer_visible layer) (upd_visible updates);
     layer_opacity := default (layer_opacity layer) (upd_opacity updates);
     layer_assets := default (layer_assets layer) (upd_assets updates);
     layer_renderParams := default (layer_renderParams layer) (upd_renderParams updates);
     layer_presetName := spread1 (layer_presetName layer) (upd_presetName updates) |}.

(** The [options] argument of [addItemLayer]. *)
Record ItemLayerOptions := {
  opt_assets : option (list string);
  opt_renderParams : option TileParams;
  opt_presetName : option string;
}.

(** The [options] argument of [addCollectionLayer]. *)
Record CollectionLayerOptions := {
  copt_assets : option (list string);
  copt_renderParams : option TileParams;
  copt_bbox : option (list number);
  copt_presetName : option string;
}.

(* ================================================================== *)
(** * [src/lib/core/LayerManager.ts] *)
(* ================================================================== *)

Record LayerManager := {
  mgr_map : MapLibreMap;
  mgr_tilerClient : TiTilerClient;
  mgr_layers : gmap string ActiveLayer;
}.

(** [constructor(map, tilerClient)] *)
Definition new_LayerManager (m : MapLibreMap) (c : TiTilerClient) : LayerManager :=
  {| mgr_map := m; mgr_tilerClient := c; mgr_layers := ∅ |}.

(** A call [this.map.op(...)]. *)
Definition on_map {A} (op : JSM MapLibreMap A) : JSM LayerManager A :=
  λ st, let '(r, m') := op (mgr_map st) in
        (r, {| mgr_map := m'; mgr_tilerClient := mgr_tilerClient st;
               mgr_layers := mgr_layers st |}).

(** [this.layers.set(layerId, layer)] *)
Definition layers_set (layerId : string) (layer : ActiveLayer) : JSM LayerManager unit :=
  modify (λ st, {| mgr_map := mgr_map st; mgr_tilerClient := mgr_tilerClient st;
                   mgr_layers := <[layerId := layer]> (mgr_layers st) |}).

(** [this.layers.delete(layerId)] *)
Definition layers_delete (layerId : string) : JSM LayerManager unit :=
  modify (λ st, {| mgr_map := mgr_map st; mgr_tilerClient := mgr_tilerClient st;
                   mgr_layers := delete layerId (mgr_layers st) |}).

(** [obj[key]] on a dictionary. *)
Definition dict_get {A} (key : string) (obj : list (string * A)) : option A :=
  snd <$> find (λ kv, String.eqb (fst kv) key) obj.

Definition preferredAssets : list string := ["visual"; "data"; "image"; "cog_default"].

Definition excludePatterns : list string :=
  ["thumbnail"; "overview"; "metadata"; "tilejson"; "rendered_preview"].

(** [type.includes('tiff') || type.includes('geotiff') || type.includes('cog')]
    with [type = asset.type || ''] *)
Definition cog_type (asset : STACAsset) : bool :=
  let type := default EmptyString (asset_type asset) in
  JS.includes type "tiff" || JS.includes type "geotiff" || JS.includes type "cog".

(** [!excludePatterns.some((p) => key.toLowerCase().includes(p))] *)
Definition not_excluded (key : string) : bool :=
  negb (existsb (λ p, JS.includes (JS.toLowerCase key) p) excludePatterns).

(** The common body of [getDefaultAssets] and [getDefaultCollectionAssets]. *)
Definition defaultAssetsOf (assets : list (string * STACAsset)) : list string :=
  match find (λ asset, bool_decide (is_Some (dict_get asset assets))) preferredAssets with
  | Some asset => [asset]
  | None =>
      match find (λ kv, cog_type (snd kv)) assets with
      | Some (key, _) => [key]
      | None =>
          match find not_excluded (map fst assets) with
          | Some dataAsset => if JS.truthy dataAsset then [dataAsset] else []
          | None => []
          end
      end
  end.

Definition getDefaultAssets (item : STACItem) : list string :=
  defaultAssetsOf (item_assets item).

Definition getDefaultCollectionAssets (collection : STACCollection) : list string :=
  defaultAssetsOf (default [] (coll_item_assets collection)).

Definition getCollectionBounds (collection : STACCollection) : option (list number) :=
  match coll_extent_bbox collection with
  | (a :: b :: c :: d :: _) :: _ => Some [a; b; c; d]
  | _ => None
  end.

Definition ATTRIBUTION : string := "Microsoft Planetary Computer".

Definition raster_source (tileUrl : string) (bounds : option (list number)) : RasterSource :=
  {| src_tiles := [tileUrl]; src_tileSize := num_lit 256; src_bounds := bounds;
     src_attribution := ATTRIBUTION |}.

(** The parameter bundle, preset name and asset list that [addItemLayer]
    settles on (lines 47-63 of the source). *)
Definition resolveItemParams (item : STACItem) (options : option ItemLayerOptions)
    : TileParams * option string * list string :=
  let collectionId := default EmptyString (item_collection item) in
  let renderParams := default no_params (options ≫= opt_renderParams) in
  let presetName := options ≫= opt_presetName in
  let '(renderParams, presetName) :=
    match options ≫= opt_renderParams, options ≫= opt_assets, JS.truthy collectionId with
    | None, None, true =>
        match getDefaultPreset collectionId with
        | Some defaultPreset => (preset_params defaultPreset, Some (preset_name defaultPreset))
        | None => (renderParams, presetName)
        end
    | _, _, _ => (renderParams, presetName)
    end in
  let assets :=
    match options ≫= opt_assets with
    | Some a => a
    | None =>
        match tp_assets renderParams with
        | Some a => a
        | None => getDefaultAssets item
        end
    end in
  (with_assets assets renderParams, presetName, assets).

(** [`${name.replace(...).slice(0, 50)}-${generateId().slice(-6)}`];
    [generated] is what this call's [generateId()] returns. *)
Definition newLayerId (name generated : string) : string :=
  JS.take 50 (JS.sanitize name) +:+ "-" +:+ JS.take_last 6 generated.

(** [`${layerId}-source`] *)
Definition sourceIdOf (layerId : string) : string := layerId +:+ "-source".

(** The layer a fresh add registers with the host. *)
Definition fresh_layer (sourceId : string) : RasterLayer :=
  {| lyr_source := sourceId; lyr_visibility := None; lyr_opacity := Some (num_lit 1) |}.

(** [addItemLayer(item, options)] *)
Definition addItemLayer (generated : string) (item : STACItem)
    (options : option ItemLayerOptions) : JSM LayerManager ActiveLayer :=
  let layerId := newLayerId (item_id item) generated in
  let sourceId := sourceIdOf layerId in
  let collectionId := default EmptyString (item_collection item) in
  let '(renderParams, presetName, assets) := resolveItemParams item options in
  let* client := gets mgr_tilerClient in
  let tileUrl := getItemTileUrl client collectionId (item_id item) renderParams in
  on_map (addSource sourceId (raster_source tileUrl (Some (item_bbox item)))) ;;
  on_map (addLayer layerId (fresh_layer sourceId)) ;;
  let layer :=
    {| layer_id := layerId; layer_type := ty_item; layer_sourceId := sourceId;
       layer_item := Some item; layer_collection := None; layer_mosaicId := None;
       layer_visible := true; layer_opacity := num_lit 1; layer_assets := assets;
       layer_renderParams := renderParams; layer_presetName := presetName |} in
  layers_set layerId layer ;;
  ret layer.

(** The resolution of [addCollectionLayer] (lines 125-140 of the source). *)
Definition resolveCollectionParams (collection : STACCollection)
    (options : option CollectionLayerOptions) : TileParams * option string * list string :=
  let renderParams := default no_params (options ≫= copt_renderParams) in
  let presetName := options ≫= copt_presetName in
  let '(renderParams, presetName) :=
    match options ≫= copt_renderParams, options ≫= copt_assets with
    | None, None =>
        match getDefaultPreset (coll_id collection) with
        | Some defaultPreset => (preset_params defaultPreset, Some (preset_name defaultPreset))
        | None => (renderParams, presetName)
        end
    | _, _ => (renderParams, presetName)
    end in
  let assets :=
    match options ≫= copt_assets with
    | Some a => a
    | None =>
        match tp_assets renderParams with
        | Some a => a
        | None => getDefaultCollectionAssets collection
        end
    end in
  (with_assets assets renderParams, presetName, assets).

(** [collection.title || collection.id] *)
Definition collectionLayerName (collection : STACCollection) : string :=
  match coll_title collection with
  | Some title => if JS.truthy title then title else coll_id collection
  | None => coll_id collection
  end.

(** [addCollectionLayer(collection, options)] *)
Definition addCollectionLayer (generated : string) (collection : STACCollection)
    (options : option CollectionLayerOptions) : JSM LayerManager ActiveLayer :=
  let name := collectionLayerName collection in
  let layerId := newLayerId name generated in
  let sourceId := sourceIdOf layerId in
  let '(renderParams, presetName, assets) := resolveCollectionParams collection options in
  let* client := gets mgr_tilerClient in
  let tileUrl := getCollectionTileUrl client (coll_id collection) renderParams None in
  let bounds :=
    match options ≫= copt_bbox with
    | Some bbox => Some bbox
    | None => getCollectionBounds collection
    end in
  on_map (addSource sourceId (raster_source tileUrl bounds)) ;;
  on_map (addLayer layerId (fresh_layer sourceId)) ;;
  let layer :=
    {| layer_id := layerId; layer_type := ty_collection; layer_sourceId := sourceId;
       layer_item := None; layer_collection := Some collection; layer_mosaicId := None;
       layer_visible := true; layer_opacity := num_lit 1; layer_assets := assets;
       layer_renderParams := renderParams; layer_presetName := presetName |} in
  layers_set layerId layer ;;
  ret layer.

(** [removeLayer(layerId)] *)
Definition removeLayer (layerId : string) : JSM LayerManager unit :=
  let* layers := gets mgr_layers in
  match layers !! layerId with
  | None => ret tt
  | Some layer =>
      let* live := on_map (getLayer layerId) in
      match live with
      | Some _ => on_map (host_removeLayer layerId)
      | None => ret tt
      end ;;
      let* source := on_map (getSource (layer_sourceId layer)) in
      match source with
      | Some _ => on_map (removeSource (layer_sourceId layer))
      | None => ret tt
      end ;;
      layers_delete layerId
  end.

(** The tile URL rebuilt by [updateLayerSource]; [None] is its early [return]. *)
Definition rebuiltTileUrl (client : TiTilerClient) (layer : ActiveLayer)
    (updates : LayerUpdates) : option string :=
  let newParams :=
    spread_params (layer_renderParams layer) (default no_params (upd_renderParams updates)) in
  let newAssets := default (layer_assets layer) (upd_assets updates) in
  match layer_type layer, layer_item layer, layer_collection layer with
  | ty_item, Some item, _ =>
      let collectionId := default EmptyString (item_collection item) in
      Some (getItemTileUrl client collectionId (item_id item) (with_assets newAssets newParams))
  | ty_collection, _, Some collection =>
      Some (getCollectionTileUrl client (coll_id collection)
              (with_assets newAssets newParams) None)
  | _, _, _ => None
  end.

(** [updateLayerSource(layerId, updates)] *)
Definition updateLayerSource (layerId : string) (updates : LayerUpdates)
    : JSM LayerManager unit :=
  let* layers := gets mgr_layers in
  match layers !! layerId with
  | None => ret tt
  | Some layer =>
      let* client := gets mgr_tilerClient in
      match rebuiltTileUrl client layer updates with
      | None => ret tt
      | Some tileUrl =>
          let* visibility := on_map (getLayoutProperty layerId) in
          let* opacity := on_map (getPaintProperty layerId) in
          on_map (host_removeLayer layerId) ;;
          on_map (removeSource (layer_sourceId layer)) ;;
          let bounds :=
            match layer_item layer with
            | Some item => Some (item_bbox item)
            | None =>
                match layer_collection layer with
                | Some collection => getCollectionBounds collection
                | None => None
                end
            end in
          on_map (addSource (layer_sourceId layer) (raster_source tileUrl bounds)) ;;
          on_map (addLayer layerId
                    {| lyr_source := layer_sourceId layer; lyr_visibility := visibility;
                       lyr_opacity := Some (default (num_lit 1) opacity) |})
      end
  end.

(** [updateLayer(layerId, updates)] *)
Definition updateLayer (layerId : string) (updates : LayerUpdates) : JSM LayerManager unit :=
  let* layers := gets mgr_layers in
  match layers !! layerId with
  | None => ret tt
  | Some layer =>
      match upd_visible updates with
      | Some v => on_map (setLayoutProperty layerId (if v then vis_visible else vis_none))
      | None => ret tt
      end ;;
      match upd_opacity updates with
      | Some o => on_map (setPaintProperty layerId o)
      | None => ret tt
      end ;;
      match upd_renderParams updates, upd_assets updates with
      | None, None => ret tt
      | _, _ => updateLayerSource layerId updates
      end ;;
      layers_set layerId (spread_layer layer updates)
  end.

(* ================================================================== *)
(** * The other methods of the token cache *)
(* ================================================================== *)

(** [signUrl(url, collectionId)] *)
Definition signUrl (fetch : string → FetchResult) (now : Z) (url collectionId : string)
    (m : SASTokenManager) : TokenRun :=
  let run := getToken fetch now collectionId m in
  match run_result run with
  | Throw e => run
  | Normal token =>
      let separator := if JS.includes url "?" then "&" else "?" in
      {| run_result := Normal (url +:+ separator +:+ token);
         run_manager := run_manager run;
         run_fetched := run_fetched run |}
  end.

(** [clearCache()] *)
Definition clearCache (m : SASTokenManager) : SASTokenManager :=
  {| cache := ∅; bufferMs := bufferMs m |}.

(** [clearToken(collectionId)] *)
Definition clearToken (collectionId : string) (m : SASTokenManager) : SASTokenManager :=
  {| cache := delete collectionId (cache m); bufferMs := bufferMs m |}.

(** The names an object parsed from JSON inherits from [Object.prototype]:
    [obj[name]] is a function (or, for [__proto__], the prototype) unless the
    object has a member of its own under the name. *)
Definition Object_prototype_names : list string :=
  ["constructor"; "__defineGetter__"; "__defineSetter__"; "hasOwnProperty";
   "__lookupGetter__"; "__lookupSetter__"; "isPrototypeOf"; "propertyIsEnumerable";
   "toString"; "valueOf"; "__proto__"; "toLocaleString"].

(** [signUrl(undefined, collectionId)]: the token is awaited first, then
    [url.includes] throws a [TypeError], whose message [typeError] is the
    engine's. *)
Definition signUrl_undefined (fetch : string → FetchResult) (now : Z) (typeError : string)
    (collectionId : string) (m : SASTokenManager) : TokenRun :=
  let run := getToken fetch now collectionId m in
  match run_result run with
  | Throw e => run
  | Normal token =>
      {| run_result := Throw typeError; run_manager := run_manager run;
         run_fetched := run_fetched run |}
  end.

(** [getDownloadUrl(item, assetKey)] of the control, over its token manager.
    [item.assets[assetKey]] is the asset of the entry under the key; without
    one, it is the member inherited under that name, which is truthy and has
    no [href]; else it is [undefined]. *)
Definition getDownloadUrl (fetch : string → FetchResult) (now : Z) (typeError : string)
    (item : STACItem) (assetKey : string) (sas : SASTokenManager) : TokenRun :=
  let collectionId := default EmptyString (item_collection item) in
  match dict_get assetKey (item_assets item) with
  | Some asset => signUrl fetch now (asset_href asset) collectionId sas
  | None =>
      if bool_decide (assetKey ∈ Object_prototype_names)
      then signUrl_undefined fetch now typeError collectionId sas
      else {| run_result := Throw ("Asset '" +:+ assetKey +:+ "' not found");
              run_manager := sas; run_fetched := [] |}
  end.

(* ================================================================== *)
(** * Reading a query string back *)
(* ================================================================== *)

(** [s.split(sep)] for a separator of one character. *)
Fixpoint split_on (sep : ascii) (s : string) : list string :=
  match s with
  | EmptyString => [EmptyString]
  | String c s' =>
      if Ascii.eqb c sep then EmptyString :: split_on sep s'
      else match split_on sep s' with
           | x :: xs => String c x :: xs
           | [] => [String c EmptyString]
           end
  end.

Definition hex_value (c : ascii) : option nat :=
  let n := nat_of_ascii c in
  if JS.is_digit c then Some (n - 48)%nat
  else if (65 <=? n)%nat && (n <=? 70)%nat then Some (n - 55)%nat
  else if (97 <=? n)%nat && (n <=? 102)%nat then Some (n - 87)%nat
  else None.

(** The decoder of [application/x-www-form-urlencoded]: [+] is a space and
    [%XY] the character of code [XY]; anything else stands for itself. *)
Fixpoint form_decode (s : string) : string :=
  match s with
  | EmptyString => EmptyString
  | String c s' =>
      if Ascii.eqb c "+" then String " " (form_decode s')
      else if Ascii.eqb c "%" then
        match s' with
        | String h (String l s'') =>
            match hex_value h, hex_value l with
            | Some a, Some b => String (ascii_of_nat (16 * a + b)) (form_decode s'')
            | _, _ => String c (form_decode s')
            end
        | _ => String c (form_decode s')
        end
      else String c (form_decode s')
  end.

(** The parser of a query string: split at [&], then each piece at its first
    [=], then decode name and value. *)
Definition parse_entry (e : string) : string * string :=
  match split_on "=" e with
  | k :: vs => (form_decode k, form_decode (JS.join "=" vs))
  | [] => (EmptyString, EmptyString)
  end.

Definition parse_query (q : string) : URLSearchParams.t :=
  match q with
  | EmptyString => []
  | _ => map parse_entry (split_on "&" q)
  end.

(* ================================================================== *)
(** * The other methods of the layer manager *)
(* ================================================================== *)

(** [getLayer(layerId)] of the manager: [this.layers.get(layerId)]. *)
Definition layers_get (layerId : string) (st : LayerManager) : option ActiveLayer :=
  mgr_layers st !! layerId.

(** [removeAllLayers()].  [keys] is the sequence [this.layers.keys()] yields,
    in the insertion order of the [Map]; a key is yielded as long as it has not
    been deleted before it is reached, and the loop deletes only the key it is
    at. *)
Fixpoint removeAllLayers (keys : list string) : JSM LayerManager unit :=
  match keys with
  | [] => ret tt
  | layerId :: rest => removeLayer layerId ;; removeAllLayers rest
  end.

(** [zoomToLayer(layerId)]: the two corners it passes to [fitBounds] (always
    with [{ padding: 50 }]), or [None] when it makes no call.  [bounds[i]] of
    a short array is [undefined], here [None]. *)
Definition zoomToLayer (layerId : string) (st : LayerManager)
    : option (list (list (option number))) :=
  match mgr_layers st !! layerId with
  | None => None
  | Some layer =>
      let bounds :=
        match layer_item layer with
        | Some item => Some (item_bbox item)
        | None =>
            match layer_collection layer with
            | Some collection => getCollectionBounds collection
            | None => None
            end
        end in
      match bounds with
      | Some b => Some [[b !! 0%nat; b !! 1%nat]; [b !! 2%nat; b !! 3%nat]]
      | None => None
      end
  end.

(* ================================================================== *)
(** * [src/lib/api/stac-client.ts] *)
(* ================================================================== *)

Definition DEFAULT_STAC_URL : string :=
  "https://planetarycomputer.microsoft.com/api/stac/v1".

Inductive Method := GET | POST.

(** One call of the platform's [fetch] as the client makes it: the URL, the
    method, the body before [JSON.stringify] (a [POST] also carries the
    [Content-Type] of JSON), and the abort signal, named by the controller
    that owns it. *)
Record Request := {
  req_url : string;
  req_method : Method;
  req_body : option STACSearchParams;
  req_signal : option nat;
}.

(** The client together with the platform objects it creates: the
    [AbortController]s, each an identity with an [aborted] flag, numbered in
    the order of their creation, and the requests sent so far. *)
Record STACClient := {
  stac_baseUrl : string;
  stac_abortController : option nat;
  stac_controllers : nat;
  stac_aborted : gset nat;
  stac_sent : list Request;
}.

(** [constructor(baseUrl = DEFAULT_STAC_URL)] *)
Definition new_STACClient (url : option string) : STACClient :=
  {| stac_baseUrl := JS.strip_trailing_slash (default DEFAULT_STAC_URL url);
     stac_abortController := None; stac_controllers := 0;
     stac_aborted := ∅; stac_sent := [] |}.

(** [this.abortController?.abort()] *)
Definition abort_current (c : STACClient) : STACClient :=
  match stac_abortController c with
  | Some k =>
      {| stac_baseUrl := stac_baseUrl c; stac_abortController := stac_abortController c;
         stac_controllers := stac_controllers c;
         stac_aborted := {[ k ]} ∪ stac_aborted c; stac_sent := stac_sent c |}
  | None => c
  end.

(** [this.abortController = new AbortController()] *)
Definition new_controller (c : STACClient) : STACClient :=
  {| stac_baseUrl := stac_baseUrl c;
     stac_abortController := Some (stac_controllers c);
     stac_controllers := S (stac_controllers c);
     stac_aborted := stac_aborted c; stac_sent := stac_sent c |}.

(** The private [fetch(path, options)] up to its [await fetch(url, options)]:
    the request leaves. *)
Definition send (path : string) (method : Method) (body : option STACSearchParams)
    (signal : option nat) (c : STACClient) : STACClient :=
  {| stac_baseUrl := stac_baseUrl c; stac_abortController := stac_abortController c;
     stac_controllers := stac_controllers c; stac_aborted := stac_aborted c;
     stac_sent := stac_sent c ++
                  [{| req_url := stac_baseUrl c +:+ path; req_method := method;
                      req_body := body; req_signal := signal |}] |}.

(** The methods of the client, each up to its first suspension. *)
Inductive STACCall :=
| call_getCollections
| call_getCollection (collectionId : string)
| call_search (params : STACSearchParams)
| call_searchWithContext (params : STACSearchParams)
| call_getCollectionItems (collectionId : string) (limit : option number)
| call_getItem (collectionId itemId : string)
| call_cancelPending.

Definition stac_begin (call : STACCall) (c : STACClient) : STACClient :=
  match call with
  | call_getCollections => send "/collections" GET None None c
  | call_getCollection collectionId =>
      send ("/collections/" +:+ JS.encodeURIComponent collectionId) GET None None c
  | call_search params | call_searchWithContext params =>
      let c := new_controller (abort_current c) in
      send "/search" POST (Some params) (stac_abortController c) c
  | call_getCollectionItems collectionId limit =>
      send ("/collections/" +:+ JS.encodeURIComponent collectionId +:+ "/items?limit=" +:+
            num_String (default (num_lit 50) limit)) GET None None c
  | call_getItem collectionId itemId =>
      send ("/collections/" +:+ JS.encodeURIComponent collectionId +:+ "/items/" +:+
            JS.encodeURIComponent itemId) GET None None c
  | call_cancelPending =>
      let c := abort_current c in
      {| stac_baseUrl := stac_baseUrl c; stac_abortController := None;
         stac_controllers := stac_controllers c; stac_aborted := stac_aborted c;
         stac_sent := stac_sent c |}
  end.

(** A thrown value: an [Error] with its [name] and [message], or a value that
    is not an [Error]. *)
Inductive Thrown :=
| an_Error (name message : string)
| not_an_Error.

(** [new Error(message)] *)
Definition new_Error (message : string) : Thrown := an_Error "Error" message.

(** How a promise ends. *)
Inductive Settled (A : Type) :=
| resolved (a : A)
| rejected (e : Thrown).
Global Arguments resolved {A} a.
Global Arguments rejected {A} e.

(** What the platform does with one request: [fetch] rejects; or it resolves
    to a response that is not [ok], whose [text()] then resolves or rejects;
    or to a response that is [ok], whose [json()] then resolves or rejects. *)
Inductive FetchOutcome :=
| fetch_fails (e : Thrown)
| responds_not_ok (status : number) (statusText : string) (text : Settled string)
| responds_ok (body : Settled json).

(** The [catch] clause of the private [fetch]. *)
Definition fetch_catch (error : Thrown) : Thrown :=
  match error with
  | an_Error name _ =>
      if String.eqb name "AbortError" then new_Error "Request was cancelled" else error
  | not_an_Error => error
  end.

(** The private [fetch(path, options)] from its [await fetch(url, options)]
    on.  The promise of [response.json()] is returned from inside the [try]
    without an [await]: its rejection does not pass through the [catch]. *)
Definition fetch_settle (o : FetchOutcome) : Settled json :=
  match o with
  | fetch_fails e => rejected (fetch_catch e)
  | responds_not_ok status statusText (resolved errorText) =>
      rejected (fetch_catch
                  (new_Error ("STAC API error: " +:+ num_String status +:+ " " +:+
                              statusText +:+ " - " +:+ errorText)))
  | responds_not_ok _ _ (rejected e) => rejected (fetch_catch e)
  | responds_ok body => body
  end.

(* ================================================================== *)
(** * [src/lib/core/PlanetaryComputerControl.ts] *)
(* ================================================================== *)

(** The control without its panel: the state, the subscribers, the clients
    and the layer manager.  The DOM work ([_createPanel], [_renderContent],
    [_updatePanelVisibility], ...) reads the state and writes the page; it is
    left out.  A handler is named by a number; it is taken to return and not
    to call back into the control. *)

Inductive PlanetaryComputerEvent :=
| ev_collapse | ev_expand | ev_statechange
| ev_search | ev_search_start | ev_search_complete | ev_search_error
| ev_layer_add | ev_layer_remove | ev_layer_update
| ev_item_select | ev_collection_select | ev_collections_load
| ev_bbox_start | ev_bbox_complete | ev_error.

#[local] Instance PlanetaryComputerEvent_eq_dec : EqDecision PlanetaryComputerEvent.
Proof. solve_decision. Defined.

Inductive PanelView := view_collections | view_search | view_results | view_item | view_layers.

(** The options the modelled methods read, after the merge with
    [DEFAULT_OPTIONS]. *)
Record PlanetaryComputerOptions := {
  o_collapsed : bool;
  o_stacApiUrl : string;
  o_tilerApiUrl : string;
  o_maxSearchResults : number;
  o_autoLoadCollections : bool;
}.

Definition DEFAULT_OPTIONS : PlanetaryComputerOptions :=
  {| o_collapsed := true;
     o_stacApiUrl := "https://planetarycomputer.microsoft.com/api/stac/v1";
     o_tilerApiUrl := "https://planetarycomputer.microsoft.com/api/data/v1";
     o_maxSearchResults := num_lit 50;
     o_autoLoadCollections := true |}.

(** The fields of [PlanetaryComputerState] that the modelled methods read or
    write.  [activeLayers] is an array: the state holds a reference to it. *)
Record PlanetaryComputerState := {
  st_collapsed : bool;
  st_activeView : PanelView;
  st_collectionsLoading : bool;
  st_selectedCollection : option STACCollection;
  st_searchParams : STACSearchParams;
  st_searchResults : list STACItem;
  st_searchLoading : bool;
  st_selectedItem : option STACItem;
  st_activeLayers : nat;
  st_error : option string;
}.

Record PlanetaryComputerEventData := {
  evd_type : PlanetaryComputerEvent;
  evd_state : PlanetaryComputerState;
  evd_data : option json;
}.

Record PlanetaryComputerControl := {
  ctl_options : PlanetaryComputerOptions;
  ctl_state : PlanetaryComputerState;
  (** the arrays that a state's [activeLayers] can reference *)
  ctl_arrays : gmap nat (list ActiveLayer);
  (** [_eventHandlers]: the handlers of each event, in the order in which
      they were registered *)
  ctl_eventHandlers : PlanetaryComputerEvent → list nat;
  ctl_stacClient : STACClient;
  ctl_tilerClient : TiTilerClient;
  ctl_sasManager : SASTokenManager;
  ctl_layerManager : option LayerManager;
  (** [_map] is set *)
  ctl_map : bool;
  (** the calls [handler(eventData)] made so far *)
  ctl_called : list (nat * PlanetaryComputerEventData);
}.

(** Assignments to one field. *)
Definition set_state (f : PlanetaryComputerState → PlanetaryComputerState)
    (c : PlanetaryComputerControl) : PlanetaryComputerControl :=
  {| ctl_options := ctl_options c; ctl_state := f (ctl_state c); ctl_arrays := ctl_arrays c;
     ctl_eventHandlers := ctl_eventHandlers c; ctl_stacClient := ctl_stacClient c;
     ctl_tilerClient := ctl_tilerClient c; ctl_sasManager := ctl_sasManager c;
     ctl_layerManager := ctl_layerManager c; ctl_map := ctl_map c;
     ctl_called := ctl_called c |}.

Definition set_arrays (f : gmap nat (list ActiveLayer) → gmap nat (list ActiveLayer))
    (c : PlanetaryComputerControl) : PlanetaryComputerControl :=
  {| ctl_options := ctl_options c; ctl_state := ctl_state c; ctl_arrays := f (ctl_arrays c);
     ctl_eventHandlers := ctl_eventHandlers c; ctl_stacClient := ctl_stacClient c;
     ctl_tilerClient := ctl_tilerClient c; ctl_sasManager := ctl_sasManager c;
     ctl_layerManager := ctl_layerManager c; ctl_map := ctl_map c;
     ctl_called := ctl_called c |}.

Definition set_eventHandlers
    (f : (PlanetaryComputerEvent → list nat) → PlanetaryComputerEvent → list nat)
    (c : PlanetaryComputerControl) : PlanetaryComputerControl :=
  {| ctl_options := ctl_options c; ctl_state := ctl_state c; ctl_arrays := ctl_arrays c;
     ctl_eventHandlers := f (ctl_eventHandlers c); ctl_stacClient := ctl_stacClient c;
     ctl_tilerClient := ctl_tilerClient c; ctl_sasManager := ctl_sasManager c;
     ctl_layerManager := ctl_layerManager c; ctl_map := ctl_map c;
     ctl_called := ctl_called c |}.

Definition set_stacClient (f : STACClient → STACClient)
    (c : PlanetaryComputerControl) : PlanetaryComputerControl :=
  {| ctl_options := ctl_options c; ctl_state := ctl_state c; ctl_arrays := ctl_arrays c;
     ctl_eventHandlers := ctl_eventHandlers c; ctl_stacClient := f (ctl_stacClient c);
     ctl_tilerClient := ctl_tilerClient c; ctl_sasManager := ctl_sasManager c;
     ctl_layerManager := ctl_layerManager c; ctl_map := ctl_map c;
     ctl_called := ctl_called c |}.

Definition set_sasManager (f : SASTokenManager → SASTokenManager)
    (c : PlanetaryComputerControl) : PlanetaryComputerControl :=
  {| ctl_options := ctl_options c; ctl_state := ctl_state c; ctl_arrays := ctl_arrays c;
     ctl_eventHandlers := ctl_eventHandlers c; ctl_stacClient := ctl_stacClient c;
     ctl_tilerClient := ctl_tilerClient c; ctl_sasManager := f (ctl_sasManager c);
     ctl_layerManager := ctl_layerManager c; ctl_map := ctl_map c;
     ctl_called := ctl_called c |}.

Definition set_layerManager (mgr : option LayerManager)
    (c : PlanetaryComputerControl) : PlanetaryComputerControl :=
  {| ctl_options := ctl_options c; ctl_state := ctl_state c; ctl_arrays := ctl_arrays c;
     ctl_eventHandlers := ctl_eventHandlers c; ctl_stacClient := ctl_stacClient c;
     ctl_tilerClient := ctl_tilerClient c; ctl_sasManager := ctl_sasManager c;
     ctl_layerManager := mgr; ctl_map := ctl_map c;
     ctl_called := ctl_called c |}.

Definition set_map (m : bool) (c : PlanetaryComputerControl) : PlanetaryComputerControl :=
  {| ctl_options := ctl_options c; ctl_state := ctl_state c; ctl_arrays := ctl_arrays c;
     ctl_eventHandlers := ctl_eventHandlers c; ctl_stacClient := ctl_stacClient c;
     ctl_tilerClient := ctl_tilerClient c; ctl_sasManager := ctl_sasManager c;
     ctl_layerManager := ctl_layerManager c; ctl_map := m;
     ctl_called := ctl_called c |}.

Definition set_called
    (f : list (nat * PlanetaryComputerEventData) → list (nat * PlanetaryComputerEventData))
    (c : PlanetaryComputerControl) : PlanetaryComputerControl :=
  {| ctl_options := ctl_options c; ctl_state := ctl_state c; ctl_arrays := ctl_arrays c;
     ctl_eventHandlers := ctl_eventHandlers c; ctl_stacClient := ctl_stacClient c;
     ctl_tilerClient := ctl_tilerClient c; ctl_sasManager := ctl_sasManager c;
     ctl_layerManager := ctl_layerManager c; ctl_map := ctl_map c;
     ctl_called := f (ctl_called c) |}.

Definition set_collapsed (v : bool) (s : PlanetaryComputerState) : PlanetaryComputerState :=
  {| st_collapsed := v; st_activeView := st_activeView s;
     st_collectionsLoading := st_collectionsLoading s;
     st_selectedCollection := st_selectedCollection s; st_searchParams := st_searchParams s;
     st_searchResults := st_searchResults s; st_searchLoading := st_searchLoading s;
     st_selectedItem := st_selectedItem s; st_activeLayers := st_activeLayers s;
     st_error := st_error s |}.

Definition set_activeView (v : PanelView) (s : PlanetaryComputerState)
    : PlanetaryComputerState :=
  {| st_collapsed := st_collapsed s; st_activeView := v;
     st_collectionsLoading := st_collectionsLoading s;
     st_selectedCollection := st_selectedCollection s; st_searchParams := st_searchParams s;
     st_searchResults := st_searchResults s; st_searchLoading := st_searchLoading s;
     st_selectedItem := st_selectedItem s; st_activeLayers := st_activeLayers s;
     st_error := st_error s |}.

Definition set_collectionsLoading (v : bool) (s : PlanetaryComputerState)
    : PlanetaryComputerState :=
  {| st_collapsed := st_collapsed s; st_activeView := st_activeView s;
     st_collectionsLoading := v;
     st_selectedCollection := st_selectedCollection s; st_searchParams := st_searchParams s;
     st_searchResults := st_searchResults s; st_searchLoading := st_searchLoading s;
     st_selectedItem := st_selectedItem s; st_activeLayers := st_activeLayers s;
     st_error := st_error s |}.

Definition set_selectedCollection (v : option STACCollection) (s : PlanetaryComputerState)
    : PlanetaryComputerState :=
  {| st_collapsed := st_collapsed s; st_activeView := st_activeView s;
     st_collectionsLoading := st_collectionsLoading s;
     st_selectedCollection := v; st_searchParams := st_searchParams s;
     st_searchResults := st_searchResults s; st_searchLoading := st_searchLoading s;
     st_selectedItem := st_selectedItem s; st_activeLayers := st_activeLayers s;
     st_error := st_error s |}.

Definition set_searchParams (v : STACSearchParams) (s : PlanetaryComputerState)
    : PlanetaryComputerState :=
  {| st_collapsed := st_collapsed s; st_activeView := st_activeView s;
     st_collectionsLoading := st_collectionsLoading s;
     st_selectedCollection := st_selectedCollection s; st_searchParams := v;
     st_searchResults := st_searchResults s; st_searchLoading := st_searchLoading s;
     st_selectedItem := st_selectedItem s; st_activeLayers := st_activeLayers s;
     st_error := st_error s |}.

Definition set_searchResults (v : list STACItem) (s : PlanetaryComputerState)
    : PlanetaryComputerState :=
  {| st_collapsed := st_collapsed s; st_activeView := st_activeView s;
     st_collectionsLoading := st_collectionsLoading s;
     st_selectedCollection := st_selectedCollection s; st_searchParams := st_searchParams s;
     st_searchResults := v; st_searchLoading := st_searchLoading s;
     st_selectedItem := st_selectedItem s; st_activeLayers := st_activeLayers s;
     st_error := st_error s |}.

Definition set_searchLoading (v : bool) (s : PlanetaryComputerState)
    : PlanetaryComputerState :=
  {| st_collapsed := st_collapsed s; st_activeView := st_activeView s;
     st_collectionsLoading := st_collectionsLoading s;
     st_selectedCollection := st_selectedCollection s; st_searchParams := st_searchParams s;
     st_searchResults := st_searchResults s; st_searchLoading := v;
     st_selectedItem := st_selectedItem s; st_activeLayers := st_activeLayers s;
     st_error := st_error s |}.

Definition set_selectedItem (v : option STACItem) (s : PlanetaryComputerState)
    : PlanetaryComputerState :=
  {| st_collapsed := st_collapsed s; st_activeView := st_activeView s;
     st_collectionsLoading := st_collectionsLoading s;
     st_selectedCollection := st_selectedCollection s; st_searchParams := st_searchParams s;
     st_searchResults := st_searchResults s; st_searchLoading := st_searchLoading s;
     st_selectedItem := v; st_activeLayers := st_activeLayers s;
     st_error := st_error s |}.

Definition set_activeLayers (v : nat) (s : PlanetaryComputerState) : PlanetaryComputerState :=
  {| st_collapsed := st_collapsed s; st_activeView := st_activeView s;
     st_collectionsLoading := st_collectionsLoading s;
     st_selectedCollection := st_selectedCollection s; st_searchParams := st_searchParams s;
     st_searchResults := st_searchResults s; st_searchLoading := st_searchLoading s;
     st_selectedItem := st_selectedItem s; st_activeLayers := v;
     st_error := st_error s |}.

Definition set_error (v : option string) (s : PlanetaryComputerState)
    : PlanetaryComputerState :=
  {| st_collapsed := st_collapsed s; st_activeView := st_activeView s;
     st_collectionsLoading := st_collectionsLoading s;
     st_selectedCollection := st_selectedCollection s; st_searchParams := st_searchParams s;
     st_searchResults := st_searchResults s; st_searchLoading := st_searchLoading s;
     st_selectedItem := st_selectedItem s; st_activeLayers := st_activeLayers s;
     st_error := v |}.

(** The object literal [{}] as search parameters. *)
Definition no_search : STACSearchParams :=
  {| sp_collections := None; sp_bbox := None; sp_datetime := None; sp_intersects := None;
     sp_ids := None; sp_limit := None; sp_query := None; sp_sortby := None;
     sp_filter := None; sp_filter_lang := None |}.

(** [{ ...p, ...q, limit }] *)
Definition spread_search (p q : STACSearchParams) (limit : number) : STACSearchParams :=
  {| sp_collections := spread1 (sp_collections p) (sp_collections q);
     sp_bbox := spread1 (sp_bbox p) (sp_bbox q);
     sp_datetime := spread1 (sp_datetime p) (sp_datetime q);
     sp_intersects := spread1 (sp_intersects p) (sp_intersects q);
     sp_ids := spread1 (sp_ids p) (sp_ids q);
     sp_limit := Some limit;
     sp_query := spread1 (sp_query p) (sp_query q);
     sp_sortby := spread1 (sp_sortby p) (sp_sortby q);
     sp_filter := spread1 (sp_filter p) (sp_filter q);
     sp_filter_lang := spread1 (sp_filter_lang p) (sp_filter_lang q) |}.

(** [_getInitialState()]; the array of [activeLayers] is the first one. *)
Definition _getInitialState (options : PlanetaryComputerOptions) : PlanetaryComputerState :=
  {| st_collapsed := o_collapsed options; st_activeView := view_collections;
     st_collectionsLoading := false; st_selectedCollection := None;
     st_searchParams := no_search; st_searchResults := []; st_searchLoading := false;
     st_selectedItem := None; st_activeLayers := 0%nat; st_error := None |}.

(** [constructor(options)], [options] being merged with the defaults. *)
Definition new_PlanetaryComputerControl (options : PlanetaryComputerOptions)
    : PlanetaryComputerControl :=
  {| ctl_options := options;
     ctl_state := _getInitialState options;
     ctl_arrays := {[ 0%nat := [] ]};
     ctl_eventHandlers := λ _, [];
     ctl_stacClient := new_STACClient (Some (o_stacApiUrl options));
     ctl_tilerClient := new_TiTilerClient (Some (o_tilerApiUrl options));
     ctl_sasManager := new_SASTokenManager None;
     ctl_layerManager := None;
     ctl_map := false;
     ctl_called := [] |}.

(** [getState()]: a copy of the state object; the array is not copied. *)
Definition getState (c : PlanetaryComputerControl) : PlanetaryComputerState := ctl_state c.

(** What [state.activeLayers] holds when read in [c]. *)
Definition activeLayers_in (c : PlanetaryComputerControl) (state : PlanetaryComputerState)
    : list ActiveLayer :=
  default [] (ctl_arrays c !! st_activeLayers state).

(** [on(event, handler)]: the handlers of an event are a [Set]. *)
Definition control_on (event : PlanetaryComputerEvent) (handler : nat)
    (c : PlanetaryComputerControl) : PlanetaryComputerControl :=
  set_eventHandlers
    (λ handlers e,
       if decide (e = event)
       then if decide (handler ∈ handlers e) then handlers e else handlers e ++ [handler]
       else handlers e) c.


(** [_emit(event)]; no call of the source passes [data]. *)
Definition _emit (event : PlanetaryComputerEvent) : JSM PlanetaryComputerControl unit :=
  modify (λ c,
    let eventData := {| evd_type := event; evd_state := getState c; evd_data := None |} in
    set_called (λ called, called ++ map (λ handler, (handler, eventData))
                                        (ctl_eventHandlers c event)) c).

Definition throw {S A} (message : string) : JSM S A := λ s, (Throw message, s).

(** A call [this._layerManager?.op(...)]; the result is [None] when there is
    no manager. *)
Definition on_manager {A} (op : JSM LayerManager A)
    : JSM PlanetaryComputerControl (option A) :=
  λ c, match ctl_layerManager c with
       | None => (Normal None, c)
       | Some mgr =>
           let '(r, mgr') := op mgr in
           (match r with Normal a => Normal (Some a) | Throw e => Throw e end,
            set_layerManager (Some mgr') c)
       end.

(** [toggle()] *)
Definition control_toggle : JSM PlanetaryComputerControl unit :=
  modify (set_state (λ s, set_collapsed (negb (st_collapsed s)) s)) ;;
  let* collapsed := gets (λ c, st_collapsed (ctl_state c)) in
  _emit (if collapsed then ev_collapse else ev_expand) ;;
  _emit ev_statechange.

(** [expand()] *)
Definition control_expand : JSM PlanetaryComputerControl unit :=
  let* collapsed := gets (λ c, st_collapsed (ctl_state c)) in
  if collapsed then control_toggle else ret tt.

(** [collapse()] *)
Definition control_collapse : JSM PlanetaryComputerControl unit :=
  let* collapsed := gets (λ c, st_collapsed (ctl_state c)) in
  if collapsed then ret tt else control_toggle.

(** [this._state.activeLayers.push(layer)] *)
Definition activeLayers_push (layer : ActiveLayer) : JSM PlanetaryComputerControl unit :=
  modify (λ c, set_arrays (alter (λ layers, layers ++ [layer])
                                 (st_activeLayers (ctl_state c))) c).

(** [addItemLayer(item, options)] of the control *)
Definition control_addItemLayer (generated : string) (item : STACItem)
    (options : option ItemLayerOptions) : JSM PlanetaryComputerControl ActiveLayer :=
  let* added := on_manager (addItemLayer generated item options) in
  match added with
  | None => throw "Control not added to map"
  | Some layer =>
      activeLayers_push layer ;;
      _emit ev_layer_add ;;
      _emit ev_statechange ;;
      ret layer
  end.

(** [addCollectionLayer(collection, options)] of the control *)
Definition control_addCollectionLayer (generated : string) (collection : STACCollection)
    (options : option CollectionLayerOptions) : JSM PlanetaryComputerControl ActiveLayer :=
  let* added := on_manager (addCollectionLayer generated collection options) in
  match added with
  | None => throw "Control not added to map"
  | Some layer =>
      activeLayers_push layer ;;
      _emit ev_layer_add ;;
      _emit ev_statechange ;;
      ret layer
  end.

(** [removeLayer(layerId)] of the control; [filter] makes a new array. *)
Definition control_removeLayer (layerId : string) : JSM PlanetaryComputerControl unit :=
  on_manager (removeLayer layerId) ;;
  modify (λ c,
    let kept := filter (λ l, layer_id l ≠ layerId) (activeLayers_in c (ctl_state c)) in
    let array := fresh (dom (ctl_arrays c)) in
    set_state (set_activeLayers array) (set_arrays (insert array kept) c)) ;;
  _emit ev_layer_remove ;;
  _emit ev_statechange.

(** [layers[layerIndex] = { ...layers[layerIndex], ...updates }] at the
    [findIndex] of the id, when there is one. *)
Fixpoint update_found (layerId : string) (updates : LayerUpdates) (layers : list ActiveLayer)
    : list ActiveLayer :=
  match layers with
  | [] => []
  | l :: rest =>
      if String.eqb (layer_id l) layerId then spread_layer l updates :: rest
      else l :: update_found layerId updates rest
  end.

(** [updateLayer(layerId, updates)] of the control; the array is written in
    place. *)
Definition control_updateLayer (layerId : string) (updates : LayerUpdates)
    : JSM PlanetaryComputerControl unit :=
  on_manager (updateLayer layerId updates) ;;
  modify (λ c, set_arrays (alter (update_found layerId updates)
                                 (st_activeLayers (ctl_state c))) c) ;;
  _emit ev_layer_update ;;
  _emit ev_statechange.

(** [zoomToLayer(layerId)] of the control: the corners handed to [fitBounds],
    if the call is made. *)
Definition control_zoomToLayer (layerId : string) (c : PlanetaryComputerControl)
    : option (list (list (option number))) :=
  ctl_layerManager c ≫= zoomToLayer layerId.

(** [selectCollection(collection)] *)
Definition control_selectCollection (collection : option STACCollection)
    : JSM PlanetaryComputerControl unit :=
  modify (set_state (λ s,
    set_searchResults []
      (set_activeView match collection with Some _ => view_search | None => view_collections end
         (set_searchParams
            match collection with
            | Some c =>
                {| sp_collections := Some [coll_id c]; sp_bbox := None; sp_datetime := None;
                   sp_intersects := None; sp_ids := None; sp_limit := None; sp_query := None;
                   sp_sortby := None; sp_filter := None; sp_filter_lang := None |}
            | None => no_search
            end
            (set_selectedCollection collection s))))) ;;
  _emit ev_collection_select ;;
  _emit ev_statechange.

(** [selectItem(item)] *)
Definition control_selectItem (item : option STACItem) : JSM PlanetaryComputerControl unit :=
  modify (set_state (λ s,
    set_activeView match item with Some _ => view_item | None => view_results end
      (set_selectedItem item s))) ;;
  _emit ev_item_select ;;
  _emit ev_statechange.

(** [setView(view)] *)
Definition control_setView (view : PanelView) : JSM PlanetaryComputerControl unit :=
  modify (set_state (set_activeView view)) ;;
  _emit ev_statechange.

(** [_loadCollections()] up to its first suspension. *)
Definition _loadCollections_begin : JSM PlanetaryComputerControl unit :=
  modify (set_state (λ s, set_error None (set_collectionsLoading true s))) ;;
  _emit ev_statechange ;;
  modify (set_stacClient (stac_begin call_getCollections)).

(** [onAdd(map)] *)
Definition onAdd (m : MapLibreMap) : JSM PlanetaryComputerControl unit :=
  modify (λ c, set_layerManager (Some (new_LayerManager m (ctl_tilerClient c)))
                 (set_map true c)) ;;
  let* auto := gets (λ c, o_autoLoadCollections (ctl_options c)) in
  if auto then _loadCollections_begin else ret tt.

(** [onRemove()]; [keys] is what [this.layers.keys()] yields to
    [removeAllLayers]. *)
Definition onRemove (keys : list string) : JSM PlanetaryComputerControl unit :=
  modify (set_stacClient (stac_begin call_cancelPending)) ;;
  modify (set_sasManager clearCache) ;;
  on_manager (removeAllLayers keys) ;;
  modify (set_map false) ;;
  modify (set_eventHandlers (λ _ _, [])).

(** [search(params)] of the control up to its first suspension. *)
Definition control_search_begin (params : option STACSearchParams)
    : JSM PlanetaryComputerControl unit :=
  modify (λ c,
    let searchParams :=
      spread_search (st_searchParams (ctl_state c)) (default no_search params)
        (o_maxSearchResults (ctl_options c)) in
    set_state (λ s, set_error None (set_searchLoading true (set_searchParams searchParams s)))
      c) ;;
  _emit ev_search_start ;;
  _emit ev_statechange ;;
  modify (λ c, set_stacClient (stac_begin (call_search (st_searchParams (ctl_state c)))) c).

(** [search(params)] of the control from the point where
    [this._stacClient.search(searchParams)] has settled with [outcome]; the
    result is how the promise of [search] ends. *)
Definition control_search_end (outcome : Settled (list STACItem))
    (c : PlanetaryComputerControl) : Settled (list STACItem) * PlanetaryComputerControl :=
  let body :=
    match outcome with
    | resolved results =>
        modify (set_state (λ s, set_activeView view_results (set_searchResults results s))) ;;
        _emit ev_search_complete ;;
        _emit ev_search
    | rejected error =>
        let errorMessage :=
          match error with an_Error _ message => message | not_an_Error => "Search failed" end in
        modify (set_state (set_error (Some errorMessage))) ;;
        _emit ev_search_error ;;
        _emit ev_error
    end in
  (outcome,
   ((body ;; modify (set_state (set_searchLoading false)) ;; _emit ev_statechange) c).2).

(** [search(params)] of the client from the point where the platform is done
    with the request; [features] is the read of [response.features]. *)
Definition stac_search_end (features : json → list STACItem) (o : FetchOutcome)
    : Settled (list STACItem) :=
  match fetch_settle o with
  | resolved response => resolved (features response)
  | rejected e => rejected e
  end.

(* ================================================================== *)
(** * [src/lib/api/titiler-client.ts]: registering a mosaic *)
(* ================================================================== *)

(** The body of the registration request, before [JSON.stringify]. *)
Record MosaicRegistration := {
  reg_collections : option (list string);
  reg_filter : option json;
  reg_filter_lang : FilterLang;
  reg_sortby : option (list (string * SortDirection));
}.

(** The answer to the registration: a response that is [ok], with the [id]
    and the [searchid] of its body; a response that is [ok] and whose body
    does not parse or is [null], so that [response.json()] or the read of
    [data.id] throws [e]; a response that is not [ok]; a rejection. *)
Inductive RegisterResult :=
| register_ok (id searchid : option string)
| register_unreadable (e : string)
| register_not_ok (statusText : string)
| register_rejected (message : string).

(** The outcome of one [registerMosaic]: the [POST] it made, as URL and body,
    and its completion, a search id with a tile URL. *)
Record MosaicRun := {
  mosaic_request : string * MosaicRegistration;
  mosaic_result : completion (option string * string);
}.

(** [`${v}`] for a string that may be [undefined]. *)
Definition String_undefined (v : option string) : string := default "undefined" v.

(** [registerMosaic(searchParams, tileParams)] against a network answering
    [fetch]. *)
Definition registerMosaic (fetch : string → MosaicRegistration → RegisterResult)
    (c : TiTilerClient) (searchParams : STACSearchParams) (tileParams : TileParams)
    : MosaicRun :=
  let url := baseUrl c +:+ "/mosaic/register" in
  let body :=
    {| reg_collections := sp_collections searchParams;
       reg_filter := sp_filter searchParams;
       reg_filter_lang := default cql2_json (sp_filter_lang searchParams);
       reg_sortby := sp_sortby searchParams |} in
  {| mosaic_request := (url, body);
     mosaic_result :=
       match fetch url body with
       | register_rejected e | register_unreadable e => Throw e
       | register_not_ok statusText => Throw ("Failed to register mosaic: " +:+ statusText)
       | register_ok id searchid =>
           let searchId :=
             match truthy_string id with Some i => Some i | None => searchid end in
           let queryString := buildQueryString tileParams in
           Normal (searchId,
                   baseUrl c +:+ "/mosaic/tiles/WebMercatorQuad/{z}/{x}/{y}@1x?searchid=" +:+
                   String_undefined searchId +:+
                   (if JS.truthy queryString then "&" +:+ queryString else EmptyString))
       end |}.

(* ================================================================== *)
(** * [src/lib/utils/helpers.ts] *)
(* ================================================================== *)

(** [clamp(value, min, max)] on finite numbers. *)
Definition clamp (value min max : Q) : Q := Qmin (Qmax value min) max.

(** [truncate(text, maxLength)] for an integer [maxLength]. *)
Definition truncate (text : string) (maxLength : Z) : string :=
  if Z.of_nat (String.length text) <=? maxLength then text
  else JS.take (Z.to_nat maxLength) text +:+ "...".

(* ================================================================== *)
(** * The [Add to Map] button of the entry view *)
(* ================================================================== *)

(** The values of the visualization form: the preset select and the inputs
    of the custom visualization.  An input that is not there reads as the
    empty string. *)
Record VizForm := {
  viz_preset : string;
  viz_asset : string;
  viz_rescaleMin : string;
  viz_rescaleMax : string;
  viz_colormap : string;
  viz_expression : string;
}.

(** The options that the click handler of [.pc-add-to-map] passes to
    [addItemLayer] for the selected entry. *)
Definition addToMapOptions (item : STACItem) (form : VizForm) : option ItemLayerOptions :=
  let presets :=
    match truthy_string (item_collection item) with
    | Some collectionId => getPresetsForCollection collectionId
    | None => []
    end in
  if JS.truthy (viz_preset form) then
    match find (λ p, String.eqb (preset_name p) (viz_preset form)) presets with
    | Some preset =>
        Some {| opt_assets := None; opt_renderParams := Some (preset_params preset);
                opt_presetName := Some (viz_preset form) |}
    | None => None
    end
  else
    let assets := if JS.truthy (viz_asset form) then Some [viz_asset form] else None in
    let rescale :=
      if JS.truthy (viz_rescaleMin form) && JS.truthy (viz_rescaleMax form)
      then Some (viz_rescaleMin form +:+ "," +:+ viz_rescaleMax form) else None in
    let colormap_name :=
      if JS.truthy (viz_colormap form) then Some (viz_colormap form) else None in
    let '(expression, assets) :=
      if JS.truthy (viz_expression form) then (Some (viz_expression form), None)
      else (None, assets) in
    Some {| opt_assets := None;
            opt_renderParams :=
              Some {| tp_assets := assets; tp_expression := expression;
                      tp_rescale := rescale; tp_colormap_name := colormap_name;
                      tp_colormap := None; tp_nodata := None; tp_resampling := None;
                      tp_return_mask := None; tp_tile_size := None;
                      tp_asset_bidx := None |};
            opt_presetName := None |}.

(** The click handler: add the entry, then zoom to the new layer; the result
    is what [zoomToLayer] hands to [fitBounds]. *)
Definition addToMap (generated : string) (item : STACItem) (form : VizForm)
    : JSM PlanetaryComputerControl (option (list (list (option number)))) :=
  let* layer := control_addItemLayer generated item (addToMapOptions item form) in
  gets (control_zoomToLayer (layer_id layer)).

(* ================================================================== *)
(** * Vocabulary of the properties *)
(* ================================================================== *)

(** The first member of [l] that satisfies [P]. *)
Definition first_that {A} (P : A → bool) (l : list A) : option A :=
  head (filter (λ x, P x) l).

(** The media type of [asset] contains one of [words]. *)
Definition type_contains (words : list string) (asset : STACAsset) : bool :=
  existsb (JS.includes (default EmptyString (asset_type asset))) words.

(** [key] contains none of [words], letter case ignored. *)
Definition contains_none (words : list string) (key : string) : bool :=
  forallb (λ w, negb (JS.includes (JS.toLowerCase key) w)) words.

(** The default-asset heuristic as the specification words it: a preferred
    name that is a key, else an asset of a TIFF-like media type, else a key
    outside the exclusion list; the first of its kind each time. *)
Definition heuristic_as_specified (assets : list (string * STACAsset)) : list string :=
  let keys := map fst assets in
  match first_that (λ name, bool_decide (name ∈ keys))
                   ["visual"; "data"; "image"; "cog_default"] with
  | Some name => [name]
  | None =>
      match first_that (λ kv, type_contains ["tiff"; "geotiff"; "cog"] (snd kv)) assets with
      | Some kv => [fst kv]
      | None =>
          match first_that
                  (contains_none ["thumbnail"; "overview"; "metadata"; "tilejson";
                                  "rendered_preview"]) keys with
          | Some key => [key]
          | None => []
          end
      end
  end.

(** The claim on the default-asset heuristic, as the specification states
    it: the assets selected for [item] are those of the three-stage scan. *)
Definition selects_as_specified (item : STACItem) : Prop :=
  getDefaultAssets item = heuristic_as_specified (item_assets item).

(** The heuristic as amended: the same scan, except that an empty key found
    by the last stage selects nothing. *)
Definition heuristic_as_amended (assets : list (string * STACAsset)) : list string :=
  let keys := map fst assets in
  match first_that (λ name, bool_decide (name ∈ keys))
                   ["visual"; "data"; "image"; "cog_default"] with
  | Some name => [name]
  | None =>
      match first_that (λ kv, type_contains ["tiff"; "geotiff"; "cog"] (snd kv)) assets with
      | Some kv => [fst kv]
      | None =>
          match first_that
                  (contains_none ["thumbnail"; "overview"; "metadata"; "tilejson";
                                  "rendered_preview"]) keys with
          | Some key => if decide (key = EmptyString) then [] else [key]
          | None => []
          end
      end
  end.


(** The calls by which [updateLayer] applies visibility and opacity to the
    live layer. *)
Definition direct_calls (layerId : string) (updates : LayerUpdates) : list HostCall :=
  match upd_visible updates with
  | Some v => [call_setLayoutProperty layerId (if v then vis_visible else vis_none)]
  | None => []
  end ++
  match upd_opacity updates with
  | Some o => [call_setPaintProperty layerId o]
  | None => []
  end.

(** Every live layer draws from a source the host holds. *)
Definition host_wf (m : MapLibreMap) : Prop :=
  ∀ k l, liveLayers m !! k = Some l → is_Some (sources m !! lyr_source l).

(** The record's origin matches its kind, as every add leaves it. *)
Definition origin_ok (layer : ActiveLayer) : Prop :=
  match layer_type layer with
  | ty_item => is_Some (layer_item layer)
  | ty_collection => is_Some (layer_collection layer)
  | ty_mosaic => False
  end.

(** The search-parameter fields a mosaic URL is meant to carry. *)
Definition same_window (a b : STACSearchParams) : Prop :=
  sp_datetime a = sp_datetime b ∧ sp_bbox a = sp_bbox b.

(** The query parameter [datetime=d], serialized. *)
Definition datetime_entry (d : string) : string := "datetime=" +:+ JS.encodeURIComponent d.

(** The query parameter [bbox=w,s,e,n], serialized. *)
Definition bbox_entry (bbox : list number) : string :=
  "bbox=" +:+ JS.join "," (map num_String bbox).

(** No entry of the static table is for [collectionId]. *)
Definition unknown_collection (collectionId : string) : Prop :=
  ∀ config, config ∈ RENDER_CONFIGS → cfg_collectionId config ≠ collectionId.

(** No preset of [config] is called [name]. *)
Definition no_preset_named (name : string) (config : CollectionRenderConfig) : Prop :=
  ∀ p, p ∈ cfg_presets config → preset_name p ≠ name.

(** [expiry − now ≤ buffer], as JavaScript evaluates [<=]: the difference is
    the double the subtraction gives, and the comparison is false when the
    expiry is an Invalid Date or the buffer is [NaN]. *)
Definition within_buffer (expiry : Date) (now : Z) (buffer : Double) : Prop :=
  match expiry, buffer with
  | Some t, Finite q => (inject_Z (round_to_double (t - now)) <= q)%Q
  | Some _, Infinity negative => negative = false
  | _, _ => False
  end.

(** [expiry − now > buffer], likewise. *)
Definition beyond_buffer (expiry : Date) (now : Z) (buffer : Double) : Prop :=
  match expiry, buffer with
  | Some t, Finite q => (q < inject_Z (round_to_double (t - now)))%Q
  | Some _, Infinity negative => negative = true
  | _, _ => False
  end.

(** The difference [expiry − now] and the buffer cannot be compared: the
    expiry is an Invalid Date or the buffer is [NaN]. *)
Definition incomparable (expiry : Date) (buffer : Double) : Prop :=
  expiry = None ∨ buffer = NaN.

(** The condition under which the specification has [getToken] go to the
    network: no entry, or an entry that expires within the buffer. *)
Definition fetch_as_claimed (now : Z) (collectionId : string) (m : SASTokenManager) : Prop :=
  cache m !! collectionId = None ∨
  ∃ cached, cache m !! collectionId = Some cached ∧
            within_buffer (tc_expiry cached) now (bufferMs m).

(** The condition under which [getToken] does go to the network: no entry,
    or an entry that expires within the buffer, or an entry whose expiry
    cannot be compared with the buffer. *)
Definition must_fetch (now : Z) (collectionId : string) (m : SASTokenManager) : Prop :=
  cache m !! collectionId = None ∨
  ∃ cached, cache m !! collectionId = Some cached ∧
            (within_buffer (tc_expiry cached) now (bufferMs m) ∨
             incomparable (tc_expiry cached) (bufferMs m)).

(** The entry for [collectionId] is reusable at [now]. *)
Definition in_valid_window (now : Z) (collectionId : string) (m : SASTokenManager) : Prop :=
  ∃ cached, cache m !! collectionId = Some cached ∧
            beyond_buffer (tc_expiry cached) now (bufferMs m).

(** The query parameter [assets=a], serialized. *)
Definition assets_entry (a : string) : string := "assets=" +:+ JS.form_encode a.

(** An entry of a query that is neither an [assets] nor an [expression] one. *)
Definition other_key (kv : string * string) : Prop :=
  fst kv ≠ "assets" ∧ fst kv ≠ "expression".

(** The [expression] entry of a query, when there is one. *)
Definition expression_entries (params : TileParams) : URLSearchParams.t :=
  match truthy_string (tp_expression params) with
  | Some e => [("expression", e)]
  | None => []
  end.

(** The record [addItemLayer] builds. *)
Definition itemLayer (generated : string) (item : STACItem)
    (options : option ItemLayerOptions) : ActiveLayer :=
  let layerId := newLayerId (item_id item) generated in
  let '(renderParams, presetName, assets) := resolveItemParams item options in
  {| layer_id := layerId; layer_type := ty_item; layer_sourceId := sourceIdOf layerId;
     layer_item := Some item; layer_collection := None; layer_mosaicId := None;
     layer_visible := true; layer_opacity := num_lit 1; layer_assets := assets;
     layer_renderParams := renderParams; layer_presetName := presetName |}.

(** The source [addItemLayer] registers. *)
Definition itemSource (client : TiTilerClient) (item : STACItem)
    (options : option ItemLayerOptions) : RasterSource :=
  raster_source
    (getItemTileUrl client (default EmptyString (item_collection item)) (item_id item)
       (resolveItemParams item options).1.1)
    (Some (item_bbox item)).

(** The record [addCollectionLayer] builds. *)
Definition collectionLayer (generated : string) (collection : STACCollection)
    (options : option CollectionLayerOptions) : ActiveLayer :=
  let layerId := newLayerId (collectionLayerName collection) generated in
  let '(renderParams, presetName, assets) := resolveCollectionParams collection options in
  {| layer_id := layerId; layer_type := ty_collection; layer_sourceId := sourceIdOf layerId;
     layer_item := None; layer_collection := Some collection; layer_mosaicId := None;
     layer_visible := true; layer_opacity := num_lit 1; layer_assets := assets;
     layer_renderParams := renderParams; layer_presetName := presetName |}.

(** The source [addCollectionLayer] registers. *)
Definition collectionSource (client : TiTilerClient) (collection : STACCollection)
    (options : option CollectionLayerOptions) : RasterSource :=
  raster_source
    (getCollectionTileUrl client (coll_id collection)
       (resolveCollectionParams collection options).1.1 None)
    (match options ≫= copt_bbox with
     | Some bbox => Some bbox
     | None => getCollectionBounds collection
     end).

(** The manager after a successful add of [layer] over source [src]. *)
Definition registered (src : RasterSource) (layer : ActiveLayer) (st : LayerManager)
    : LayerManager :=
  let layerId := layer_id layer in
  let sourceId := layer_sourceId layer in
  {| mgr_map :=
       {| sources := <[sourceId := src]> (sources (mgr_map st));
          liveLayers := <[layerId := fresh_layer sourceId]> (liveLayers (mgr_map st));
          calls := calls (mgr_map st) ++
                   [call_addSource sourceId src; call_addLayer layerId (fresh_layer sourceId)] |};
     mgr_tilerClient := mgr_tilerClient st;
     mgr_layers := <[layerId := layer]> (mgr_layers st) |}.

(** The host holds neither the layer nor its source. *)
Definition fresh_ids (layerId : string) (st : LayerManager) : Prop :=
  sources (mgr_map st) !! sourceIdOf layerId = None ∧
  liveLayers (mgr_map st) !! layerId = None.


(** An item tile URL up to its rendering parameters. *)
Definition itemUrlBase (c : TiTilerClient) (collectionId itemId : string) : string :=
  baseUrl c +:+ "/item/tiles/WebMercatorQuad/{z}/{x}/{y}@1x?collection=" +:+
  JS.encodeURIComponent collectionId +:+ "&item=" +:+ JS.encodeURIComponent itemId.

(** Removing [layer] from [st] succeeds and leaves no trace of it: no record,
    no live layer, no source; the host served the removal of the layer first
    and of the source second. *)
Definition removed_cleanly (layer : ActiveLayer) (st : LayerManager) : Prop :=
  ∃ st',
    removeLayer (layer_id layer) st = (Normal tt, st') ∧
    mgr_layers st' !! layer_id layer = None ∧
    liveLayers (mgr_map st') !! layer_id layer = None ∧
    sources (mgr_map st') !! layer_sourceId layer = None ∧
    calls (mgr_map st') =
      calls (mgr_map st) ++
      [call_removeLayer (layer_id layer); call_removeSource (layer_sourceId layer)].

(** The manager with its map replaced. *)
Definition with_map (m : MapLibreMap) (st : LayerManager) : LayerManager :=
  {| mgr_map := m; mgr_tilerClient := mgr_tilerClient st; mgr_layers := mgr_layers st |}.

(** The manager with its registry replaced. *)
Definition with_layers (ls : gmap string ActiveLayer) (st : LayerManager) : LayerManager :=
  {| mgr_map := mgr_map st; mgr_tilerClient := mgr_tilerClient st; mgr_layers := ls |}.

(** The visibility value for a [visible] flag. *)
Definition visibility_of (v : bool) : Visibility := if v then vis_visible else vis_none.

(** The live layer once [updateLayer] has applied [visible] and [opacity] to
    it: its state just before a teardown. *)
Definition live_after_direct (l : RasterLayer) (updates : LayerUpdates) : RasterLayer :=
  {| lyr_source := lyr_source l;
     lyr_visibility :=
       match upd_visible updates with
       | Some v => Some (visibility_of v)
       | None => lyr_visibility l
       end;
     lyr_opacity :=
       match upd_opacity updates with
       | Some o => Some o
       | None => lyr_opacity l
       end |}.

(** The layer [updateLayerSource] re-adds after it found [before] live. *)
Definition recreated_layer (sourceId : string) (before : RasterLayer) : RasterLayer :=
  {| lyr_source := sourceId;
     lyr_visibility := lyr_visibility before;
     lyr_opacity := Some (default (num_lit 1) (lyr_opacity before)) |}.

(** The bounds [updateLayerSource] gives the new source. *)
Definition layer_bounds (layer : ActiveLayer) : option (list number) :=
  match layer_item layer with
  | Some item => Some (item_bbox item)
  | None =>
      match layer_collection layer with
      | Some collection => getCollectionBounds collection
      | None => None
      end
  end.

(** No live layer other than [layerId] draws from [sourceId]. *)
Definition sole_user (layerId sourceId : string) (m : MapLibreMap) : Prop :=
  ∀ k l, k ≠ layerId → liveLayers m !! k = Some l → lyr_source l ≠ sourceId.




(** [addItemLayer] succeeds and stores a record whose asset list, also
    written into its parameter bundle, is [assets]. *)
Definition added_with_assets (generated : string) (item : STACItem)
    (options : option ItemLayerOptions) (st : LayerManager) (assets : list string) : Prop :=
  ∃ layer st',
    addItemLayer generated item options st = (Normal layer, st') ∧
    mgr_layers st' !! layer_id layer = Some layer ∧
    layer_assets layer = assets ∧
    tp_assets (layer_renderParams layer) = Some assets.


(** The invariant of the data model: the record's asset list is the one in
    its parameter bundle. *)
Definition assets_in_sync (layer : ActiveLayer) : Prop :=
  tp_assets (layer_renderParams layer) = Some (layer_assets layer).

(** The update [{ renderParams }]. *)
Definition update_renderParams (p : TileParams) : LayerUpdates :=
  {| upd_id := None; upd_type := None; upd_sourceId := None; upd_item := None;
     upd_collection := None; upd_mosaicId := None; upd_visible := None;
     upd_opacity := None; upd_assets := None; upd_renderParams := Some p;
     upd_presetName := None |}.

(** The update [{ visible, opacity }]. *)
Definition update_direct (v : option bool) (o : option number) : LayerUpdates :=
  {| upd_id := None; upd_type := None; upd_sourceId := None; upd_item := None;
     upd_collection := None; upd_mosaicId := None; upd_visible := v;
     upd_opacity := o; upd_assets := None; upd_renderParams := None;
     upd_presetName := None |}.

(** The reading of the priority rule under which an [assets] list inside
    [options.renderParams] decides the assets of the layer. *)
Definition renderParams_first (item : STACItem) (options : option ItemLayerOptions) : Prop :=
  ∀ p a, options ≫= opt_renderParams = Some p → tp_assets p = Some a →
         (resolveItemParams item options).2 = a.

(** Character [c] occurs in [s]. *)
Fixpoint occurs (c : ascii) (s : string) : bool :=
  match s with
  | EmptyString => false
  | String x s' => Ascii.eqb x c || occurs c s'
  end.

(** What the form encoder writes for one character. *)
Definition form_encode_char (c : ascii) : string :=
  if JS.form_safe c then String c EmptyString
  else if Ascii.eqb c " " then "+"
  else JS.percent c.

(** The bundle has nothing that [buildQueryString] serializes: no asset, no
    non-empty string parameter, no colormap, nodata, resampling or mask flag,
    no truthy tile size and no band indices. *)
Definition nothing_to_serialize (p : TileParams) : Prop :=
  default [] (tp_assets p) = [] ∧
  truthy_string (tp_expression p) = None ∧
  truthy_string (tp_rescale p) = None ∧
  truthy_string (tp_colormap_name p) = None ∧
  tp_colormap p = None ∧
  tp_nodata p = None ∧
  tp_resampling p = None ∧
  tp_return_mask p = None ∧
  (∀ n, tp_tile_size p = Some n → num_truthy n = false) ∧
  default [] (tp_asset_bidx p) = [].

(** The search parameters have no non-empty [datetime] and no [bbox]. *)
Definition no_window (sp : STACSearchParams) : Prop :=
  truthy_string (sp_datetime sp) = None ∧ sp_bbox sp = None.

(** A mosaic tile URL up to its rendering and search parameters. *)
Definition mosaicUrlBase (c : TiTilerClient) (collectionId : string) : string :=
  baseUrl c +:+ "/mosaic/tiles/WebMercatorQuad/{z}/{x}/{y}@1x?collection=" +:+
  JS.encodeURIComponent collectionId.

(** The record [layer], registered under [id], is backed by the host: the
    layer [id] is live over the record's source, the source is there, and no
    other layer draws from it. *)
Definition backed (id : string) (layer : ActiveLayer) (m : MapLibreMap) : Prop :=
  (∃ l, liveLayers m !! id = Some l ∧ lyr_source l = layer_sourceId layer) ∧
  is_Some (sources m !! layer_sourceId layer) ∧
  sole_user id (layer_sourceId layer) m.

(** The invariant of the registry: every record is backed by the host (and
    the host itself is well formed). *)
Definition consistent (st : LayerManager) : Prop :=
  host_wf (mgr_map st) ∧
  ∀ id layer, mgr_layers st !! id = Some layer → backed id layer (mgr_map st).

(** The tile URL of the re-creation [updateLayer] performs, if it performs
    one: none without [renderParams] and [assets] in the updates, and none
    when [updateLayerSource] returns early. *)
Definition recreation (client : TiTilerClient) (layer : ActiveLayer)
    (updates : LayerUpdates) : option string :=
  match upd_renderParams updates, upd_assets updates with
  | None, None => None
  | _, _ => rebuiltTileUrl client layer updates
  end.

(** The manager after a successful [updateLayer] of the record [layer],
    registered under [layerId] and live as [l]. *)
Definition after_update (layerId : string) (updates : LayerUpdates) (layer : ActiveLayer)
    (l : RasterLayer) (st : LayerManager) : LayerManager :=
  let before := live_after_direct l updates in
  let m := mgr_map st in
  let sourceId := layer_sourceId layer in
  with_layers (<[layerId := spread_layer layer updates]> (mgr_layers st))
    (with_map
       match recreation (mgr_tilerClient st) layer updates with
       | None =>
           {| sources := sources m;
              liveLayers := <[layerId := before]> (liveLayers m);
              calls := calls m ++ direct_calls layerId updates |}
       | Some tileUrl =>
           {| sources := <[sourceId := raster_source tileUrl (layer_bounds layer)]> (sources m);
              liveLayers := <[layerId := recreated_layer sourceId before]> (liveLayers m);
              calls := calls m ++ direct_calls layerId updates ++
                       [call_removeLayer layerId;
                        call_removeSource sourceId;
                        call_addSource sourceId (raster_source tileUrl (layer_bounds layer));
                        call_addLayer layerId (recreated_layer sourceId before)] |}
       end st).

(** The record and its live layer show the same visibility and opacity. *)
Definition view_in_sync (layer : ActiveLayer) (l : RasterLayer) : Prop :=
  lyr_opacity l = Some (layer_opacity layer) ∧
  (layer_visible layer = true ↔ lyr_visibility l ≠ Some vis_none).

(** Every record shows the visibility and opacity of its live layer. *)
Definition views_in_sync (st : LayerManager) : Prop :=
  ∀ id layer l, mgr_layers st !! id = Some layer →
                liveLayers (mgr_map st) !! id = Some l → view_in_sync layer l.

(** [st'] differs from [st] at most at the record and the live layer [id]
    and at the source [sourceId]. *)
Definition same_elsewhere (id sourceId : string) (st st' : LayerManager) : Prop :=
  mgr_tilerClient st' = mgr_tilerClient st ∧
  (∀ other, other ≠ id →
     mgr_layers st' !! other = mgr_layers st !! other ∧
     liveLayers (mgr_map st') !! other = liveLayers (mgr_map st) !! other) ∧
  (∀ other, other ≠ sourceId →
     sources (mgr_map st') !! other = sources (mgr_map st) !! other).

(** The manager once the host has served [addSource sourceId src] and
    nothing else. *)
Definition source_left_behind (sourceId : string) (src : RasterSource) (st : LayerManager)
    : LayerManager :=
  with_map (served (call_addSource sourceId src) (<[sourceId := src]> (sources (mgr_map st)))
              (liveLayers (mgr_map st)) (mgr_map st)) st.

(** The three ways an add that uses [layerId] over source [src] can end. *)
Definition add_outcome (run : completion ActiveLayer * LayerManager) (layerId : string)
    (src : RasterSource) (st : LayerManager) : Prop :=
  ((∃ layer, run.1 = Normal layer) ↔ fresh_ids layerId st) ∧
  (is_Some (sources (mgr_map st) !! sourceIdOf layerId) → ∃ e, run = (Throw e, st)) ∧
  (sources (mgr_map st) !! sourceIdOf layerId = None →
   is_Some (liveLayers (mgr_map st) !! layerId) →
   ∃ e, run = (Throw e, source_left_behind (sourceIdOf layerId) src st) ∧
        mgr_layers run.2 = mgr_layers st ∧
        sources (mgr_map run.2) !! sourceIdOf layerId = Some src ∧
        (mgr_layers st !! layerId = None → removeLayer layerId run.2 = (Normal tt, run.2))).

(** The parameter bundle [updateLayerSource] renders with: the bundle of the
    updates merged over the record's, under the asset list of the updates or
    else of the record. *)
Definition rebuilt_params (layer : ActiveLayer) (updates : LayerUpdates) : TileParams :=
  with_assets (default (layer_assets layer) (upd_assets updates))
    (spread_params (layer_renderParams layer) (default no_params (upd_renderParams updates))).

(** The tile URL of [params] for the origin of [layer]. *)
Definition origin_url (client : TiTilerClient) (layer : ActiveLayer) (params : TileParams)
    (url : string) : Prop :=
  match layer_type layer, layer_item layer, layer_collection layer with
  | ty_item, Some item, _ =>
      url = getItemTileUrl client (default EmptyString (item_collection item)) (item_id item)
              params
  | ty_collection, _, Some collection =>
      url = getCollectionTileUrl client (coll_id collection) params None
  | _, _, _ => False
  end.

(** The update [{ assets }]. *)
Definition update_assets (a : list string) : LayerUpdates :=
  {| upd_id := None; upd_type := None; upd_sourceId := None; upd_item := None;
     upd_collection := None; upd_mosaicId := None; upd_visible := None;
     upd_opacity := None; upd_assets := Some a; upd_renderParams := None;
     upd_presetName := None |}.

(** Some record registered under one of [keys] draws from [sourceId]. *)
Definition source_of_some (keys : list string) (st : LayerManager) (sourceId : string) : Prop :=
  ∃ k layer, k ∈ keys ∧ mgr_layers st !! k = Some layer ∧ layer_sourceId layer = sourceId.

(** Every character of [s] satisfies [P]. *)
Fixpoint all_chars (P : ascii → bool) (s : string) : bool :=
  match s with
  | EmptyString => true
  | String c s' => P c && all_chars P s'
  end.

(** The two corners [zoomToLayer] hands to [fitBounds] for the box [b]. *)
Definition corners (b : list number) : list (list (option number)) :=
  [[b !! 0%nat; b !! 1%nat]; [b !! 2%nat; b !! 3%nat]].

(** The bounds [addCollectionLayer] gives its source. *)
Definition collection_source_bounds (collection : STACCollection)
    (options : option CollectionLayerOptions) : option (list number) :=
  match options ≫= copt_bbox with
  | Some bbox => Some bbox
  | None => getCollectionBounds collection
  end.

(** The client after a sequence of calls, each run up to its first
    suspension. *)
Definition stac_run (calls : list STACCall) (c : STACClient) : STACClient :=
  foldl (λ c call, stac_begin call c) c calls.

(** The bookkeeping of abort controllers: the controller held was created and
    is not aborted; a request with a signal has a created controller, which is
    the one held unless it was aborted; no two requests share a controller;
    aborted controllers were created; signals go with [POST] requests, and
    every URL extends the base URL. *)
Definition stac_inv (c : STACClient) : Prop :=
  (∀ k, stac_abortController c = Some k →
        (k < stac_controllers c)%nat ∧ k ∉ stac_aborted c) ∧
  (∀ i r k, stac_sent c !! i = Some r → req_signal r = Some k →
            (k < stac_controllers c)%nat ∧
            (k ∉ stac_aborted c → stac_abortController c = Some k)) ∧
  (∀ i j r r' k, stac_sent c !! i = Some r → stac_sent c !! j = Some r' →
                 req_signal r = Some k → req_signal r' = Some k → i = j) ∧
  (∀ k, k ∈ stac_aborted c → (k < stac_controllers c)%nat) ∧
  (∀ i r, stac_sent c !! i = Some r →
          (is_Some (req_signal r) ↔ req_method r = POST) ∧
          ∃ path, req_url r = stac_baseUrl c +:+ path).

(** The list [layers] shows the registry: one entry per record, under the
    id of the record. *)
Definition mirrors (layers : list ActiveLayer) (registry : gmap string ActiveLayer) : Prop :=
  NoDup (layer_id <$> layers) ∧
  ∀ id layer, registry !! id = Some layer ↔ layer ∈ layers ∧ layer_id layer = id.

(** The invariant of the control: its [activeLayers] array exists; without a
    manager it is empty, and with one it shows the registry of a consistent
    manager. *)
Definition control_inv (c : PlanetaryComputerControl) : Prop :=
  is_Some (ctl_arrays c !! st_activeLayers (ctl_state c)) ∧
  match ctl_layerManager c with
  | None => activeLayers_in c (ctl_state c) = []
  | Some mgr => consistent mgr ∧ mirrors (activeLayers_in c (ctl_state c)) (mgr_layers mgr)
  end.

(** The calls [_emit(event)] makes in [c]. *)
Definition calls_of (event : PlanetaryComputerEvent) (c : PlanetaryComputerControl)
    : list (nat * PlanetaryComputerEventData) :=
  map (λ handler, (handler, {| evd_type := event; evd_state := ctl_state c;
                               evd_data := None |}))
      (ctl_eventHandlers c event).

(** The control after [_emit] of each of [events], in order. *)
Definition emitted (events : list PlanetaryComputerEvent) (c : PlanetaryComputerControl)
    : PlanetaryComputerControl :=
  set_called (λ called, called ++ flat_map (λ event, calls_of event c) events) c.

(** The control after a successful add that left the manager as [mgr]. *)
Definition after_add (layer : ActiveLayer) (mgr : LayerManager)
    (c : PlanetaryComputerControl) : PlanetaryComputerControl :=
  emitted [ev_layer_add; ev_statechange]
    (set_arrays (alter (λ layers, layers ++ [layer]) (st_activeLayers (ctl_state c)))
       (set_layerManager (Some mgr) c)).

(** The control after a [removeLayer] that found the manager, if any, and left
    it as [mgr]. *)
Definition after_remove (layerId : string) (mgr : option LayerManager)
    (c : PlanetaryComputerControl) : PlanetaryComputerControl :=
  emitted [ev_layer_remove; ev_statechange]
    (set_state (set_activeLayers (fresh (dom (ctl_arrays c))))
       (set_arrays (insert (fresh (dom (ctl_arrays c)))
                      (filter (λ l, layer_id l ≠ layerId) (activeLayers_in c (ctl_state c))))
          (set_layerManager mgr c))).

(** The control after an [updateLayer] that left the manager as [mgr]. *)
Definition after_layer_update (layerId : string) (updates : LayerUpdates)
    (mgr : option LayerManager) (c : PlanetaryComputerControl) : PlanetaryComputerControl :=
  emitted [ev_layer_update; ev_statechange]
    (set_arrays (alter (update_found layerId updates) (st_activeLayers (ctl_state c)))
       (set_layerManager mgr c)).

(** The control after [onAdd(map)]. *)
Definition after_onAdd (m : MapLibreMap) (c : PlanetaryComputerControl)
    : PlanetaryComputerControl :=
  let attached :=
    set_layerManager (Some (new_LayerManager m (ctl_tilerClient c))) (set_map true c) in
  if o_autoLoadCollections (ctl_options c)
  then set_stacClient (stac_begin call_getCollections)
         (emitted [ev_statechange]
            (set_state (λ s, set_error None (set_collectionsLoading true s)) attached))
  else attached.

(** The request a search with body [params] sends under controller [k]. *)
Definition search_request (client : STACClient) (params : STACSearchParams) (k : nat)
    : Request :=
  {| req_url := stac_baseUrl client +:+ "/search"; req_method := POST;
     req_body := Some params; req_signal := Some k |}.

(** The search parameters [{ collections: [id], limit }]. *)
Definition collection_search (collectionId : string) (limit : number) : STACSearchParams :=
  {| sp_collections := Some [collectionId]; sp_bbox := None; sp_datetime := None;
     sp_intersects := None; sp_ids := None; sp_limit := Some limit; sp_query := None;
     sp_sortby := None; sp_filter := None; sp_filter_lang := None |}.

(** The control after [search] has caught an error with [message]. *)
Definition after_search_error (message : string) (c : PlanetaryComputerControl)
    : PlanetaryComputerControl :=
  emitted [ev_statechange]
    (set_state (set_searchLoading false)
       (emitted [ev_search_error; ev_error] (set_state (set_error (Some message)) c))).

(** Two searches agree on what a registration sends. *)
Definition same_registration (a b : STACSearchParams) : Prop :=
  sp_collections a = sp_collections b ∧ sp_filter a = sp_filter b ∧
  sp_filter_lang a = sp_filter_lang b ∧ sp_sortby a = sp_sortby b.

(** A registered-mosaic tile URL up to its rendering parameters. *)
Definition searchUrlBase (c : TiTilerClient) (searchId : option string) : string :=
  baseUrl c +:+ "/mosaic/tiles/WebMercatorQuad/{z}/{x}/{y}@1x?searchid=" +:+
  String_undefined searchId.

(* ================================================================== *)
(** * Sample data *)
(* ================================================================== *)

Definition sample_asset (type : string) : STACAsset :=
  {| asset_href := "https://example.blob.core.windows.net/c/a.tif";
     asset_title := None; asset_type := Some type; asset_roles := None |}.

Definition sample_bbox : list number :=
  [num_lit (-123); num_lit 37; num_lit (-122); num_lit 38].

(** An entry with assets [{thumbnail, data}], [data] being a GeoTIFF. *)
Definition sample_item : STACItem :=
  {| item_id := "S2A_MSIL2A.1";
     item_bbox := sample_bbox;
     item_assets := [("thumbnail", sample_asset "image/png");
                     ("data", sample_asset "image/tiff; application=geotiff")];
     item_collection := Some "my-collection" |}.

(** An entry of a collection with presets, with band assets only. *)
Definition sentinel_item : STACItem :=
  {| item_id := "S2B_T10";
     item_bbox := sample_bbox;
     item_assets := [("B04", sample_asset "image/tiff"); ("B08", sample_asset "image/tiff")];
     item_collection := Some "sentinel-2-l2a" |}.

Definition empty_map : MapLibreMap :=
  {| sources := ∅; liveLayers := ∅; calls := [] |}.

Definition sample_client : TiTilerClient := new_TiTilerClient None.

Definition empty_manager : LayerManager := new_LayerManager empty_map sample_client.

Definition sample_generated : string := "lx3k2a-9f8e7d".

Definition item_options (assets : option (list string)) (renderParams : option TileParams)
    : option ItemLayerOptions :=
  Some {| opt_assets := assets; opt_renderParams := renderParams; opt_presetName := None |}.

Definition sample_search (limit : option number) (ids : option (list string))
    : STACSearchParams :=
  {| sp_collections := Some ["sentinel-2-l2a"]; sp_bbox := Some sample_bbox;
     sp_datetime := Some "2024-01-01/2024-12-31"; sp_intersects := None;
     sp_ids := ids; sp_limit := limit; sp_query := None; sp_sortby := None;
     sp_filter := None; sp_filter_lang := None |}.

(** A manager whose entry for [naip] expires at 1000000 ms. *)
Definition stale_manager : SASTokenManager :=
  {| cache := {[ "naip" := {| tc_token := "sv=old"; tc_expiry := Some 1000000 |} ]};
     bufferMs := Finite (inject_Z 300000) |}.

(** A token service whose answer has an expiry that is not a date. *)
Definition undated_service (url : string) : FetchResult :=
  fetch_ok {| resp_token := "sv=undated"; resp_expiry := None |}.

(** The manager that answer leaves: its entry for [naip] has an Invalid Date
    as expiry. *)
Definition undated_manager : SASTokenManager :=
  {| cache := {[ "naip" := {| tc_token := "sv=undated"; tc_expiry := None |} ]};
     bufferMs := Finite (inject_Z 300000) |}.

(** A token service whose answer is [ok] and whose body is not JSON. *)
Definition garbled_service (url : string) : FetchResult :=
  fetch_ok_unparsed "Unexpected token < in JSON at position 0".

(** A token service that always answers with the same fresh token. *)
Definition token_service (url : string) : FetchResult :=
  fetch_ok {| resp_token := "sv=new"; resp_expiry := Some 5000000 |}.

(** The parameters of the [false-color] preset of Sentinel-2. *)
Definition false_color : TileParams :=
  preset_params (preset "false-color" "False Color (Vegetation)" "NIR-Red-Green composite"
                   (Some ["B08"; "B04"; "B03"]) None (Some "0,3000") None None).

(** The parameters of the [true-color] preset of Sentinel-2. *)
Definition true_color : TileParams := with_assets ["visual"] no_params.

(** A band-math bundle: an expression and no assets. *)
Definition ndvi : TileParams :=
  preset_params (preset "ndvi" "NDVI" "Normalized Difference Vegetation Index"
                   None (Some "(B08-B04)/(B08+B04)") (Some "-1,1") (Some "rdylgn") None).

(** The id [addItemLayer] gives [sample_item] when [generateId()] returns
    [sample_generated]. *)
Definition sample_layerId : string := "S2A_MSIL2A-1-9f8e7d".

(** The manager after [sample_item] was added to the empty one. *)
Definition sample_manager : LayerManager :=
  (addItemLayer sample_generated sample_item None empty_manager).2.

(** An entry whose only asset sits under the empty key. *)
Definition nameless_item : STACItem :=
  {| item_id := "nameless"; item_bbox := sample_bbox;
     item_assets := [(EmptyString, sample_asset "text/plain")];
     item_collection := None |}.

(** A record of kind [mosaic], which no add produces. *)
Definition mosaic_record : ActiveLayer :=
  {| layer_id := "m-1"; layer_type := ty_mosaic; layer_sourceId := "m-1-source";
     layer_item := None; layer_collection := None; layer_mosaicId := Some "abc";
     layer_visible := true; layer_opacity := num_lit 1; layer_assets := ["data"];
     layer_renderParams := with_assets ["data"] no_params; layer_presetName := None |}.

(** A collection of the preset table, with a title, an extent and one asset
    description. *)
Definition sample_collection : STACCollection :=
  {| coll_id := "naip";
     coll_title := Some "NAIP: National Agriculture Imagery Program";
     coll_extent_bbox := [[num_lit (-125); num_lit 24; num_lit (-66); num_lit 50; num_lit 0]];
     coll_item_assets := Some [("image", sample_asset "image/tiff; application=geotiff")] |}.

(** A collection outside the preset table, without a title, an extent or
    asset descriptions. *)
Definition bare_collection : STACCollection :=
  {| coll_id := "my-collection"; coll_title := None; coll_extent_bbox := [];
     coll_item_assets := None |}.

(** Options of [addCollectionLayer] that carry a [bbox] and nothing else. *)
Definition bbox_options : CollectionLayerOptions :=
  {| copt_assets := None; copt_renderParams := None; copt_bbox := Some sample_bbox;
     copt_presetName := None |}.

(** The id [addCollectionLayer] gives [sample_collection] when [generateId()]
    returns [sample_generated]. *)
Definition sample_mosaicId : string := "NAIP--National-Agriculture-Imagery-Program-9f8e7d".

(** A host that holds a layer under [sample_layerId] already, over a source of
    its own. *)
Definition crowded_map : MapLibreMap :=
  {| sources := {[ "basemap" := raster_source "https://tiles.example.org/{z}/{x}/{y}.png" None ]};
     liveLayers := {[ sample_layerId := fresh_layer "basemap" ]};
     calls := [] |}.

(** A token service that refuses. *)
Definition refusing_service (url : string) : FetchResult := fetch_not_ok "Forbidden".

(** A tiler that registers every mosaic under one id. *)
Definition register_service (url : string) (body : MosaicRegistration) : RegisterResult :=
  register_ok (Some "abc123") None.

(** A control with one subscriber to [layer:add] and one to [statechange],
    added to an empty map without loading the collections. *)
Definition quiet_options : PlanetaryComputerOptions :=
  {| o_collapsed := true;
     o_stacApiUrl := "https://planetarycomputer.microsoft.com/api/stac/v1";
     o_tilerApiUrl := "https://planetarycomputer.microsoft.com/api/data/v1";
     o_maxSearchResults := num_lit 50;
     o_autoLoadCollections := false |}.

Definition subscribed_control : PlanetaryComputerControl :=
  control_on ev_layer_add 7%nat
    (control_on ev_statechange 3%nat (new_PlanetaryComputerControl quiet_options)).

Definition sample_control : PlanetaryComputerControl :=
  after_onAdd empty_map subscribed_control.

(** [sample_control] after [sample_item] was added to it. *)
Definition layered_control : PlanetaryComputerControl :=
  after_add (itemLayer sample_generated sample_item None)
    (registered (itemSource sample_client sample_item None)
       (itemLayer sample_generated sample_item None) empty_manager)
    sample_control.

(** The custom visualization form with the asset [thumbnail] selected, a
    rescale range, and [expression] typed in. *)
Definition sample_form (expression : string) : VizForm :=
  {| viz_preset := EmptyString; viz_asset := "thumbnail"; viz_rescaleMin := "0";
     viz_rescaleMax := "3000"; viz_colormap := EmptyString; viz_expression := expression |}.

(** The update [{ visible: false }]. *)
Definition hide : LayerUpdates := update_direct (Some false) None.



(* ================================================================== *)
(** * Properties *)
(* ================================================================== *)

(** ** Lists *)

Lemma find_first_that {A} (P : A → bool) (l : list A) :
  find P l = first_that P l.
Proof.
  unfold first_that. induction l as [|x l IH]; [done|].
  simpl. rewrite filter_cons. destruct (P x) eqn:E.
  - by rewrite decide_True.
  - rewrite decide_False; [done | by intros []].
Qed.

Lemma find_Some_elem {A} (P : A → bool) (l : list A) (x : A) :
  find P l = Some x → x ∈ l ∧ P x = true.
Proof. intros H. apply find_some in H as [H1 H2]. by rewrite list_elem_of_In. Qed.

Lemma find_None_elem {A} (P : A → bool) (l : list A) :
  find P l = None ↔ ∀ x, x ∈ l → P x = false.
Proof.
  split.
  - intros H x Hx. apply (find_none P l H). by apply list_elem_of_In.
  - intros H. destruct (find P l) as [x|] eqn:E; [|done].
    apply find_Some_elem in E as [E1 E2]. rewrite (H x E1) in E2. done.
Qed.

(** ** Preset registry *)

Lemma getRenderConfig_None (collectionId : string) :
  getRenderConfig collectionId = None ↔ unknown_collection collectionId.
Proof.
  unfold getRenderConfig, unknown_collection. rewrite find_None_elem.
  split; intros H config Hin.
  - specialize (H config Hin). by apply String.eqb_neq in H.
  - apply String.eqb_neq. by apply H.
Qed.

(** Collection ids are keys of the table: [find] returns the one entry. *)
Lemma getRenderConfig_Some (collectionId : string) (config : CollectionRenderConfig) :
  getRenderConfig collectionId = Some config ↔
  config ∈ RENDER_CONFIGS ∧ cfg_collectionId config = collectionId.
Proof.
  split.
  - intros H. apply find_Some_elem in H as [H1 H2]. by apply String.eqb_eq in H2.
  - intros [Hin <-]. unfold RENDER_CONFIGS in Hin.
    repeat (apply elem_of_cons in Hin as [-> | Hin]; [reflexivity|]).
    by apply elem_of_nil in Hin.
Qed.

Lemma find_preset_Some (name : string) (presets : list RenderPreset) (p : RenderPreset) :
  find (λ q, String.eqb (preset_name q) name) presets = Some p →
  p ∈ presets ∧ preset_name p = name.
Proof. intros H. apply find_Some_elem in H as [H1 H2]. by apply String.eqb_eq in H2. Qed.

Lemma find_preset_None (name : string) (presets : list RenderPreset) :
  find (λ q, String.eqb (preset_name q) name) presets = None ↔
  ∀ p, p ∈ presets → preset_name p ≠ name.
Proof.
  rewrite find_None_elem. split; intros H p Hp.
  - specialize (H p Hp). by apply String.eqb_neq in H.
  - apply String.eqb_neq. by apply H.
Qed.

Lemma getPreset_Some (collectionId name : string) (p : RenderPreset) :
  getPreset collectionId name = Some p →
  ∃ config, config ∈ RENDER_CONFIGS ∧ cfg_collectionId config = collectionId ∧
            p ∈ cfg_presets config ∧ preset_name p = name.
Proof.
  unfold getPreset. destruct (getRenderConfig collectionId) as [config|] eqn:E; [|done].
  intros H. apply find_preset_Some in H. apply getRenderConfig_Some in E.
  exists config. tauto.
Qed.

Lemma getPreset_None (collectionId name : string) :
  getPreset collectionId name = None ↔
  unknown_collection collectionId ∨
  ∃ config, config ∈ RENDER_CONFIGS ∧ cfg_collectionId config = collectionId ∧
            no_preset_named name config.
Proof.
  unfold getPreset. destruct (getRenderConfig collectionId) as [config|] eqn:E.
  - rewrite find_preset_None. split.
    + intros H. right. exists config. apply getRenderConfig_Some in E. tauto.
    + intros [H | (config' & H1 & H2 & H3)].
      * apply getRenderConfig_None in H. congruence.
      * assert (getRenderConfig collectionId = Some config') as E'
          by by apply getRenderConfig_Some.
        assert (config' = config) as -> by congruence. exact H3.
  - apply getRenderConfig_None in E. tauto.
Qed.

Lemma getDefaultPreset_getPreset (collectionId : string) (config : CollectionRenderConfig) :
  getRenderConfig collectionId = Some config →
  getDefaultPreset collectionId = getPreset collectionId (cfg_defaultPreset config).
Proof. intros E. unfold getDefaultPreset, getPreset. by rewrite E. Qed.

(** C9. [getPresetsForCollection] answers the empty list for an id that is
    not in the static table; [getDefaultPreset] answers a preset of the
    collection whose name is the collection's declared default, and nothing
    exactly when the collection is unknown or none of its presets carries that
    name; [getPreset] answers a preset of the collection with the requested
    name, and nothing exactly when the collection is unknown or has no preset of
    that name. *)
Theorem preset_registry_lookups (collectionId : string) :
  (unknown_collection collectionId → getPresetsForCollection collectionId = []) ∧
  (∀ p, getDefaultPreset collectionId = Some p →
        ∃ config, config ∈ RENDER_CONFIGS ∧ cfg_collectionId config = collectionId ∧
                  p ∈ cfg_presets config ∧ preset_name p = cfg_defaultPreset config) ∧
  (getDefaultPreset collectionId = None ↔
     unknown_collection collectionId ∨
     ∃ config, config ∈ RENDER_CONFIGS ∧ cfg_collectionId config = collectionId ∧
               no_preset_named (cfg_defaultPreset config) config) ∧
  (∀ name p, getPreset collectionId name = Some p →
        ∃ config, config ∈ RENDER_CONFIGS ∧ cfg_collectionId config = collectionId ∧
                  p ∈ cfg_presets config ∧ preset_name p = name) ∧
  (∀ name, getPreset collectionId name = None ↔
     unknown_collection collectionId ∨
     ∃ config, config ∈ RENDER_CONFIGS ∧ cfg_collectionId config = collectionId ∧
               no_preset_named name config).
Proof.
  split_and!.
  - intros H. apply getRenderConfig_None in H. unfold getPresetsForCollection. by rewrite H.
  - intros p H. destruct (getRenderConfig collectionId) as [config|] eqn:E.
    + rewrite (getDefaultPreset_getPreset _ _ E) in H.
      apply getPreset_Some in H as (config' & H1 & H2 & H3 & H4).
      assert (config' = config) as ->.
      { assert (getRenderConfig collectionId = Some config')
          by by apply getRenderConfig_Some.
        congruence. }
      by exists config.
    + unfold getDefaultPreset in H. by rewrite E in H.
  - destruct (getRenderConfig collectionId) as [config|] eqn:E.
    + rewrite (getDefaultPreset_getPreset _ _ E), getPreset_None.
      assert (∀ config', config' ∈ RENDER_CONFIGS →
                cfg_collectionId config' = collectionId → config' = config) as Hu.
      { intros config' H1 H2.
        assert (getRenderConfig collectionId = Some config')
          by by apply getRenderConfig_Some.
        congruence. }
      split; (intros [H | (config' & H1 & H2 & H3)]; [by left|]);
        right; exists config'; split_and!; try done;
        by rewrite (Hu config' H1 H2) in *.
    + unfold getDefaultPreset. rewrite E. apply getRenderConfig_None in E. tauto.
  - apply getPreset_Some.
  - apply getPreset_None.
Qed.

(** ** Token cache *)

Lemma round_to_double_exact (z : Z) : Z.abs z < 2 ^ 53 → round_to_double z = z.
Proof.
  intros Hz. unfold round_to_double.
  assert (Z.log2 (Z.abs z) - 52 ≤ 0) as He.
  { destruct (decide (Z.abs z = 0)) as [-> | Hne]; [done|].
    assert (Z.log2 (Z.abs z) < 53) by (apply Z.log2_lt_pow2; lia). lia. }
  by rewrite (proj2 (Z.leb_le _ _) He).
Qed.

Lemma past_buffer_true expiry now buffer :
  past_buffer expiry now buffer = true ↔ beyond_buffer expiry now buffer.
Proof.
  destruct expiry as [t|], buffer as [|negative|q]; simpl; try done.
  rewrite negb_true_iff, <- not_true_iff_false, Qle_bool_iff.
  split; [apply Qnot_le_lt | apply Qlt_not_le].
Qed.

Lemma past_buffer_false expiry now buffer :
  past_buffer expiry now buffer = false ↔
  within_buffer expiry now buffer ∨ incomparable expiry buffer.
Proof.
  unfold incomparable.
  destruct expiry as [t|], buffer as [|negative|q]; simpl;
    try (split; [intros _; right; by (left + right) | done]).
  - destruct negative; split; try done; [|by left].
    by intros [? | [? | ?]].
  - rewrite negb_false_iff, Qle_bool_iff. split; [by left|]. by intros [? | [? | ?]].
Qed.

Lemma getToken_hit fetch now collectionId m cached :
  cache m !! collectionId = Some cached →
  beyond_buffer (tc_expiry cached) now (bufferMs m) →
  getToken fetch now collectionId m =
    {| run_result := Normal (tc_token cached); run_manager := m; run_fetched := [] |}.
Proof.
  intros Hc Hlt. unfold getToken. rewrite Hc.
  by rewrite (proj2 (past_buffer_true _ _ _) Hlt).
Qed.

Lemma getToken_miss fetch now collectionId m :
  must_fetch now collectionId m →
  run_fetched (getToken fetch now collectionId m) =
    [SAS_TOKEN_URL +:+ "/" +:+ JS.encodeURIComponent collectionId].
Proof.
  intros [Hc | (cached & Hc & Hle)]; unfold getToken; rewrite Hc.
  - by destruct (fetch _).
  - rewrite (proj2 (past_buffer_false _ _ _) Hle). by destruct (fetch _).
Qed.

Lemma valid_or_must_fetch now collectionId m :
  in_valid_window now collectionId m ∨ must_fetch now collectionId m.
Proof.
  unfold in_valid_window, must_fetch.
  destruct (cache m !! collectionId) as [cached|] eqn:Hc; [|by right; left].
  destruct (past_buffer (tc_expiry cached) now (bufferMs m)) eqn:Hp.
  - left. exists cached. split; [done|]. by apply past_buffer_true.
  - right. right. exists cached. split; [done|]. by apply past_buffer_false.
Qed.

Lemma valid_window_not_must_fetch now collectionId m :
  in_valid_window now collectionId m → ¬ must_fetch now collectionId m.
Proof.
  intros (c & Hc & Hlt) [Hn | (c' & Hc' & Hle)]; [congruence|].
  assert (c' = c) as -> by congruence.
  apply past_buffer_true in Hlt. apply past_buffer_false in Hle. congruence.
Qed.

(** A successful call leaves its answer in the cache, unless it answered
    from the cache. *)
Lemma getToken_Normal fetch now collectionId m token :
  run_result (getToken fetch now collectionId m) = Normal token →
  ∃ cached, cache (run_manager (getToken fetch now collectionId m)) !! collectionId
              = Some cached ∧
            tc_token cached = token ∧
            bufferMs (run_manager (getToken fetch now collectionId m)) = bufferMs m.
Proof.
  unfold getToken.
  destruct (cache m !! collectionId) as [cached|] eqn:Hc.
  - destruct (past_buffer _ _ _).
    + simpl. intros [= <-]. by exists cached.
    + destruct (fetch _) as [data| | | |]; simpl; [|done..].
      intros [= <-]. eexists. by rewrite lookup_insert_eq.
  - destruct (fetch _) as [data| | | |]; simpl; [|done..].
    intros [= <-]. eexists. by rewrite lookup_insert_eq.
Qed.

(** C5, as amended.  [getToken] goes to the network exactly when the cache
    has no entry for the collection, or the entry's expiry minus the current
    time is at most the buffer, or the two cannot be compared (the expiry is
    an Invalid Date, or the buffer is [NaN]); it then fetches the token URL
    once.  For an entry with a valid expiry and a buffer that is a number this
    is the condition of the specification, and with a difference below [2^53]
    the plain inequality [expiry − now ≤ buffer].  The buffer defaults to
    300000 ms; and a second call made while the entry left by a successful
    first call is in its valid window returns the same token, without a fetch
    and without changing the manager. *)
Theorem getToken_fetch_iff_stale fetch now collectionId m :
  (run_fetched (getToken fetch now collectionId m) ≠ [] ↔ must_fetch now collectionId m) ∧
  (must_fetch now collectionId m →
     run_fetched (getToken fetch now collectionId m) =
       [SAS_TOKEN_URL +:+ "/" +:+ JS.encodeURIComponent collectionId]) ∧
  ((∀ cached, cache m !! collectionId = Some cached →
              ¬ incomparable (tc_expiry cached) (bufferMs m)) →
     (run_fetched (getToken fetch now collectionId m) ≠ [] ↔
      fetch_as_claimed now collectionId m)) ∧
  (∀ cached t q,
     cache m !! collectionId = Some cached →
     tc_expiry cached = Some t → bufferMs m = Finite q → Z.abs (t - now) < 2 ^ 53 →
     (run_fetched (getToken fetch now collectionId m) ≠ [] ↔ (inject_Z (t - now) <= q)%Q)) ∧
  bufferMs (new_SASTokenManager None) = Finite (inject_Z 300000) ∧
  (∀ token fetch' now',
     run_result (getToken fetch now collectionId m) = Normal token →
     in_valid_window now' collectionId (run_manager (getToken fetch now collectionId m)) →
     getToken fetch' now' collectionId (run_manager (getToken fetch now collectionId m)) =
       {| run_result := Normal token;
          run_manager := run_manager (getToken fetch now collectionId m);
          run_fetched := [] |}).
Proof.
  assert (run_fetched (getToken fetch now collectionId m) ≠ [] ↔
          must_fetch now collectionId m) as Hiff.
  { split.
    - intros Hf. destruct (valid_or_must_fetch now collectionId m) as [(c & H1 & H2)|]; [|done].
      by rewrite (getToken_hit _ _ _ _ _ H1 H2) in Hf.
    - intros H. by rewrite getToken_miss. }
  split_and!.
  - exact Hiff.
  - apply getToken_miss.
  - intros Hcomparable. rewrite Hiff. unfold must_fetch, fetch_as_claimed. split.
    + intros [Hn | (c & Hc & [Hle | Hinc])]; [by left | right; by exists c |].
      destruct (Hcomparable c Hc Hinc).
    + intros [Hn | (c & Hc & Hle)]; [by left|]. right. exists c. split; [done|]. by left.
  - intros cached t q Hc Ht Hq Hsmall. rewrite Hiff. unfold must_fetch.
    rewrite Hc, Hq. split.
    + intros [[=] | (c & [= <-] & [Hle | [Hinc | [=]]])].
      * rewrite Ht in Hle. simpl in Hle. by rewrite round_to_double_exact in Hle.
      * by rewrite Ht in Hinc.
    + intros Hle. right. exists cached. split; [done|]. left.
      rewrite Ht. simpl. by rewrite round_to_double_exact.
  - reflexivity.
  - intros token fetch' now' Hres (cached & Hc & Hlt).
    apply getToken_Normal in Hres as (cached' & Hc' & <- & _).
    rewrite (getToken_hit _ _ _ _ cached Hc Hlt). congruence.
Qed.

(** ** Tile-URL builder *)

Lemma app_assoc_string (a b c : string) : (a +:+ b) +:+ c = a +:+ (b +:+ c).
Proof.
  induction a as [|x a IH]; [done|].
  change ((String x a +:+ b) +:+ c) with (String x ((a +:+ b) +:+ c)).
  by rewrite IH.
Qed.

Lemma app_empty_r (s : string) : s +:+ EmptyString = s.
Proof.
  induction s as [|x s IH]; [done|].
  change (String x s +:+ EmptyString) with (String x (s +:+ EmptyString)). by rewrite IH.
Qed.

Lemma set_fresh k v (ps : URLSearchParams.t) :
  Forall (λ kv, fst kv ≠ k) ps → URLSearchParams.set k v ps = ps ++ [(k, v)].
Proof.
  induction 1 as [|[k' v'] ps Hk _ IH]; [done|].
  simpl in *. apply String.eqb_neq in Hk. rewrite Hk. by rewrite IH.
Qed.

Lemma set_prefix k v (pre ps : URLSearchParams.t) :
  Forall (λ kv, fst kv ≠ k) pre →
  URLSearchParams.set k v (pre ++ ps) = pre ++ URLSearchParams.set k v ps.
Proof.
  induction 1 as [|[k' v'] pre Hk _ IH]; [done|].
  simpl in *. apply String.eqb_neq in Hk. rewrite Hk. by rewrite IH.
Qed.

Lemma set_if_prefix k v (pre ps : URLSearchParams.t) :
  Forall (λ kv, fst kv ≠ k) pre → set_if k v (pre ++ ps) = pre ++ set_if k v ps.
Proof. intros H. destruct v; [by apply set_prefix | done]. Qed.

Lemma append_each_app k vs (ps : URLSearchParams.t) :
  append_each k vs ps = ps ++ map (pair k) vs.
Proof.
  unfold append_each. revert ps. induction vs as [|v vs IH]; intros ps; simpl.
  - by rewrite app_nil_r.
  - rewrite IH. unfold URLSearchParams.append. by rewrite <- app_assoc.
Qed.

Lemma set_Forall (P : string * string → Prop) k v (ps : URLSearchParams.t) :
  P (k, v) → Forall P ps → Forall P (URLSearchParams.set k v ps).
Proof.
  intros Hk. induction 1 as [|[k' v'] ps Hp Hps IH]; simpl.
  - by constructor.
  - destruct (String.eqb k' k).
    + constructor; [done|]. apply Forall_forall.
      intros x [_ Hx]%list_elem_of_filter. by apply (proj1 (Forall_forall P ps) Hps).
    + by constructor.
Qed.

Lemma set_if_Forall (P : string * string → Prop) k v (ps : URLSearchParams.t) :
  (∀ s, P (k, s)) → Forall P ps → Forall P (set_if k v ps).
Proof. intros Hk Hps. destruct v; [by apply set_Forall | done]. Qed.

Lemma assets_keys k (assets : list string) :
  k ≠ "assets" → Forall (λ kv : string * string, fst kv ≠ k) (map (pair "assets") assets).
Proof. intros Hk. apply Forall_map, Forall_true. simpl. congruence. Qed.

Lemma toString_assets (assets : list string) (rest : URLSearchParams.t) :
  URLSearchParams.toString (map (pair "assets") assets ++ rest) =
  JS.join "&" (map assets_entry assets ++ map URLSearchParams.entry rest).
Proof.
  unfold URLSearchParams.toString. rewrite map_app, map_map. reflexivity.
Qed.

(** The shape of every query: the assets in order, then the expression,
    then parameters under other names. *)
Lemma buildQueryParams_shape (params : TileParams) :
  ∃ rest : URLSearchParams.t,
    Forall other_key rest ∧
    buildQueryParams params =
      map (pair "assets") (default [] (tp_assets params)) ++
      expression_entries params ++ rest.
Proof.
  unfold buildQueryParams. rewrite !append_each_app. unfold URLSearchParams.empty. simpl.
  set (pre := map (pair "assets") (default [] (tp_assets params))).
  assert (set_if "expression" (truthy_string (tp_expression params)) pre
          = pre ++ expression_entries params) as ->.
  { unfold expression_entries. destruct (truthy_string _) as [e|]; simpl.
    - apply set_fresh. by apply assets_keys.
    - by rewrite app_nil_r. }
  set (head := pre ++ expression_entries params).
  assert (∀ k, k ≠ "assets" → k ≠ "expression" →
               Forall (λ kv : string * string, fst kv ≠ k) head) as Hhead.
  { intros k H1 H2. apply Forall_app. split; [by apply assets_keys|].
    unfold expression_entries. destruct (truthy_string _); repeat constructor.
    simpl. congruence. }
  eexists. split; cycle 1.
  - rewrite <- (app_nil_r head) at 1.
    rewrite !set_if_prefix by (by apply Hhead).
    unfold head. rewrite <- !app_assoc. reflexivity.
  - apply Forall_app. split.
    + repeat (apply set_if_Forall; [by intros s; split|]). constructor.
    + apply Forall_map, Forall_true. intros ab. by split.
Qed.

Lemma getAll_assets (assets : list string) (rest : URLSearchParams.t) :
  Forall (λ kv, fst kv ≠ "assets") rest →
  URLSearchParams.getAll "assets" (map (pair "assets") assets ++ rest) = assets.
Proof.
  intros Hrest. unfold URLSearchParams.getAll. rewrite filter_app, map_app.
  assert (filter (λ p : string * string, String.eqb (fst p) "assets") rest = []) as ->.
  { induction Hrest as [|kv rest Hk _ IH]; [done|].
    rewrite filter_cons_False; [done|]. apply String.eqb_neq in Hk.
    simpl in *. rewrite Hk. by intros []. }
  rewrite app_nil_r. induction assets as [|a assets IH]; [done|].
  rewrite map_cons, filter_cons_True by done. rewrite map_cons. by rewrite IH.
Qed.

Lemma has_app k (ps qs : URLSearchParams.t) :
  URLSearchParams.has k (ps ++ qs) = URLSearchParams.has k ps || URLSearchParams.has k qs.
Proof. apply existsb_app. Qed.

Lemma has_false k (ps : URLSearchParams.t) :
  Forall (λ kv, fst kv ≠ k) ps → URLSearchParams.has k ps = false.
Proof.
  induction 1 as [|kv ps Hk _ IH]; [done|].
  simpl. apply String.eqb_neq in Hk. by rewrite Hk.
Qed.

(** C7. A bundle with a non-empty [assets] list and no [expression] is
    serialized to a query that starts with one [assets] parameter per member
    of the list, in the order of the list; the parameters after them are under
    other names, none of them [expression]. *)
Theorem query_lists_assets_in_order (params : TileParams) (assets : list string) :
  tp_assets params = Some assets → assets ≠ [] → tp_expression params = None →
  ∃ rest : URLSearchParams.t,
    Forall other_key rest ∧
    buildQueryParams params = map (pair "assets") assets ++ rest ∧
    buildQueryString params =
      JS.join "&" (map assets_entry assets ++ map URLSearchParams.entry rest) ∧
    URLSearchParams.getAll "assets" (buildQueryParams params) = assets ∧
    URLSearchParams.has "expression" (buildQueryParams params) = false.
Proof.
  intros Ha _ He.
  destruct (buildQueryParams_shape params) as (rest & Hrest & Heq).
  unfold expression_entries in Heq. rewrite Ha, He in Heq. simpl in Heq.
  exists rest. unfold buildQueryString. rewrite Heq. split_and!; [done..| | |].
  - apply toString_assets.
  - apply getAll_assets. eapply Forall_impl; [done|]. by intros kv [? _].
  - rewrite has_app, !has_false; [done| |by apply assets_keys].
    eapply Forall_impl; [done|]. by intros kv [_ ?].
Qed.

(** The mosaic URL for a search-parameter set is the URL without one,
    followed by the serialized search parameters if there are any. *)
Lemma getCollectionTileUrl_search (c : TiTilerClient) (collectionId : string)
    (params : TileParams) (sp : STACSearchParams) :
  getCollectionTileUrl c collectionId params (Some sp) =
    getCollectionTileUrl c collectionId params None +:+
    (if JS.truthy (buildSearchParams sp) then "&" +:+ buildSearchParams sp else EmptyString).
Proof.
  unfold getCollectionTileUrl.
  destruct (buildSearchParams sp) as [|x search], (buildQueryString params) as [|y query];
    simpl; rewrite ?app_empty_r, ?app_assoc_string; reflexivity.
Qed.

(** C8. The mosaic tile URL for a search-parameter set is the URL without
    search parameters followed by the serialized window: [&datetime=...] for a
    non-empty [datetime], then [&bbox=...] for a [bbox], and nothing else.
    Two search-parameter sets that agree on [datetime] and [bbox] give the
    same URL, whatever their [query], [filter], [sortby], [intersects], [ids],
    [limit], [collections] and [filter-lang] are. *)
Theorem mosaic_url_window_only (c : TiTilerClient) (collectionId : string)
    (params : TileParams) (a : STACSearchParams) :
  let bare := getCollectionTileUrl c collectionId params None in
  (∀ b, same_window a b →
     getCollectionTileUrl c collectionId params (Some a) =
       getCollectionTileUrl c collectionId params (Some b) ∧
     buildSearchParams a = buildSearchParams b) ∧
  (∀ datetime bbox,
     sp_datetime a = Some datetime → datetime ≠ EmptyString → sp_bbox a = Some bbox →
     buildSearchParams a = datetime_entry datetime +:+ "&" +:+ bbox_entry bbox ∧
     getCollectionTileUrl c collectionId params (Some a) =
       bare +:+ "&" +:+ datetime_entry datetime +:+ "&" +:+ bbox_entry bbox) ∧
  (∀ datetime,
     sp_datetime a = Some datetime → datetime ≠ EmptyString → sp_bbox a = None →
     getCollectionTileUrl c collectionId params (Some a) =
       bare +:+ "&" +:+ datetime_entry datetime) ∧
  (∀ bbox,
     truthy_string (sp_datetime a) = None → sp_bbox a = Some bbox →
     getCollectionTileUrl c collectionId params (Some a) = bare +:+ "&" +:+ bbox_entry bbox) ∧
  (no_window a → getCollectionTileUrl c collectionId params (Some a) = bare).
Proof.
  intros bare. split_and!.
  - intros b [Hd Hb].
    assert (buildSearchParams a = buildSearchParams b) as Heq.
    { unfold buildSearchParams, buildSearchParts. by rewrite Hd, Hb. }
    split; [|done]. unfold getCollectionTileUrl. by rewrite Heq.
  - intros datetime bbox Hd Hne Hb.
    assert (buildSearchParams a = datetime_entry datetime +:+ "&" +:+ bbox_entry bbox) as Hs.
    { unfold buildSearchParams, buildSearchParts. rewrite Hd, Hb.
      by destruct datetime. }
    split; [done|]. rewrite getCollectionTileUrl_search, Hs. reflexivity.
  - intros datetime Hd Hne Hb. rewrite getCollectionTileUrl_search.
    unfold buildSearchParams, buildSearchParts. rewrite Hd, Hb.
    by destruct datetime.
  - intros bbox Hd Hb. rewrite getCollectionTileUrl_search.
    unfold buildSearchParams, buildSearchParts. rewrite Hb.
    unfold truthy_string in Hd. destruct (sp_datetime a) as [d|]; [|done].
    by destruct (JS.truthy d).
  - intros [Hd Hb]. rewrite getCollectionTileUrl_search.
    unfold buildSearchParams, buildSearchParts. rewrite Hb.
    unfold truthy_string in Hd. destruct (sp_datetime a) as [d|].
    + destruct (JS.truthy d); [done|]. apply app_empty_r.
    + apply app_empty_r.
Qed.

(** ** Layer registry: adding *)

(** The tail shared by both adds: register the source, the layer, the record. *)
Lemma add_tail_run (layerId : string) (src : RasterSource) (layer : ActiveLayer)
    (st : LayerManager) :
  layer_id layer = layerId → layer_sourceId layer = sourceIdOf layerId →
  (on_map (addSource (sourceIdOf layerId) src) ;;
   on_map (addLayer layerId (fresh_layer (sourceIdOf layerId))) ;;
   layers_set layerId layer ;;
   ret layer) st =
  match sources (mgr_map st) !! sourceIdOf layerId, liveLayers (mgr_map st) !! layerId with
  | None, None => (Normal layer, registered src layer st)
  | Some _, _ => (Throw "Source already exists", st)
  | None, Some _ =>
      (Throw "Layer already exists",
       {| mgr_map := served (call_addSource (sourceIdOf layerId) src)
                       (<[sourceIdOf layerId := src]> (sources (mgr_map st)))
                       (liveLayers (mgr_map st)) (mgr_map st);
          mgr_tilerClient := mgr_tilerClient st; mgr_layers := mgr_layers st |})
  end.
Proof.
  intros Hid Hsid. unfold bind, on_map, addSource, addLayer, layers_set, modify, ret.
  destruct st as [m c ls]. simpl.
  destruct (sources m !! sourceIdOf layerId) eqn:Hs; [done|]. simpl.
  destruct (liveLayers m !! layerId) eqn:Hl; [done|].
  rewrite lookup_insert_eq. simpl. unfold registered, served. simpl.
  rewrite Hid, Hsid. by rewrite <- app_assoc.
Qed.

Lemma addItemLayer_run generated item options (st : LayerManager) :
  fresh_ids (newLayerId (item_id item) generated) st →
  addItemLayer generated item options st =
    (Normal (itemLayer generated item options),
     registered (itemSource (mgr_tilerClient st) item options)
                (itemLayer generated item options) st).
Proof.
  intros [Hs Hl]. unfold addItemLayer, itemLayer, itemSource.
  destruct (resolveItemParams item options) as [[renderParams presetName] assets].
  unfold bind at 1. unfold gets at 1. rewrite add_tail_run by done.
  by rewrite Hs, Hl.
Qed.

Lemma addItemLayer_Normal generated item options (st st' : LayerManager) layer :
  addItemLayer generated item options st = (Normal layer, st') →
  fresh_ids (newLayerId (item_id item) generated) st.
Proof.
  unfold addItemLayer, fresh_ids.
  destruct (resolveItemParams item options) as [[renderParams presetName] assets].
  unfold bind at 1. unfold gets at 1. rewrite add_tail_run by done.
  destruct (sources _ !! _); [done|]. by destruct (liveLayers _ !! _).
Qed.

Lemma addCollectionLayer_run generated collection options (st : LayerManager) :
  fresh_ids (newLayerId (collectionLayerName collection) generated) st →
  addCollectionLayer generated collection options st =
    (Normal (collectionLayer generated collection options),
     registered (collectionSource (mgr_tilerClient st) collection options)
                (collectionLayer generated collection options) st).
Proof.
  intros [Hs Hl]. unfold addCollectionLayer, collectionLayer, collectionSource.
  destruct (resolveCollectionParams collection options) as [[renderParams presetName] assets].
  unfold bind at 1. unfold gets at 1. rewrite add_tail_run by done.
  by rewrite Hs, Hl.
Qed.

Lemma addCollectionLayer_Normal generated collection options (st st' : LayerManager) layer :
  addCollectionLayer generated collection options st = (Normal layer, st') →
  fresh_ids (newLayerId (collectionLayerName collection) generated) st.
Proof.
  unfold addCollectionLayer, fresh_ids.
  destruct (resolveCollectionParams collection options) as [[renderParams presetName] assets].
  unfold bind at 1. unfold gets at 1. rewrite add_tail_run by done.
  destruct (sources _ !! _); [done|]. by destruct (liveLayers _ !! _).
Qed.

(** ** Default-asset heuristic *)

Lemma prefix_app (p s : string) :
  String.prefix p s = true ↔ ∃ post, s = p +:+ post.
Proof.
  revert s. induction p as [|a p IH]; intros s.
  - split; [intros _; by exists s | by destruct s].
  - destruct s as [|b s]; simpl; [split; [done | by intros [post ?]]|].
    destruct (ascii_dec a b) as [->|Hne].
    + rewrite IH. split; intros [post H]; exists post; [by rewrite H|].
      by injection H.
    + split; [done|]. intros [post H]. injection H as H1 H2. by subst.
Qed.

(** [JS.includes s p] holds exactly when [p] occurs in [s]. *)
Lemma includes_occurs (s p : string) :
  JS.includes s p = true ↔ ∃ pre post, s = pre +:+ p +:+ post.
Proof.
  induction s as [|a s IH].
  - change (JS.includes EmptyString p) with (String.prefix p EmptyString || false).
    rewrite orb_false_r, prefix_app. split.
    + intros [post H]. by exists EmptyString, post.
    + intros (pre & post & H). destruct pre; [by exists post|done].
  - change (JS.includes (String a s) p)
      with (String.prefix p (String a s) || JS.includes s p).
    rewrite orb_true_iff, IH, prefix_app. split.
    + intros [[post H] | (pre & post & ->)].
      * by exists EmptyString, post.
      * by exists (String a pre), post.
    + intros (pre & post & H). destruct pre as [|b pre].
      * left. by exists post.
      * right. injection H as -> ->. by exists pre, post.
Qed.

Lemma first_that_ext {A} (P Q : A → bool) (l : list A) :
  (∀ x, x ∈ l → P x = Q x) → first_that P l = first_that Q l.
Proof.
  rewrite <- !find_first_that. induction l as [|x l IH]; intros H; [done|].
  simpl. rewrite <- (H x) by (apply elem_of_cons; by left).
  destruct (P x); [done|]. apply IH. intros y Hy. apply H. apply elem_of_cons. by right.
Qed.

Lemma dict_get_is_Some {A} (key : string) (obj : list (string * A)) :
  is_Some (dict_get key obj) ↔ key ∈ map fst obj.
Proof.
  unfold dict_get. induction obj as [|[k v] obj IH]; simpl.
  - split; [by intros [? ?] | by intros ?%elem_of_nil].
  - destruct (String.eqb k key) eqn:E; simpl.
    + apply String.eqb_eq in E as ->.
      split; [intros _; apply elem_of_cons; by left | by eexists].
    + rewrite IH. apply String.eqb_neq in E. rewrite elem_of_cons.
      split; [by right | by intros [?|?]].
Qed.

Lemma cog_type_contains (asset : STACAsset) :
  cog_type asset = type_contains ["tiff"; "geotiff"; "cog"] asset.
Proof. unfold cog_type, type_contains. simpl. by rewrite orb_false_r, orb_assoc. Qed.

Lemma not_excluded_contains_none (key : string) :
  not_excluded key = contains_none excludePatterns key.
Proof.
  unfold not_excluded, contains_none, excludePatterns. simpl.
  by rewrite !negb_orb.
Qed.

(** The code's scan is the amended one. *)
Lemma defaultAssetsOf_as_amended (assets : list (string * STACAsset)) :
  defaultAssetsOf assets = heuristic_as_amended assets.
Proof.
  unfold defaultAssetsOf, heuristic_as_amended.
  rewrite !find_first_that.
  rewrite (first_that_ext _ (λ name, bool_decide (name ∈ map fst assets)) preferredAssets).
  2:{ intros x _. apply bool_decide_ext, dict_get_is_Some. }
  change preferredAssets with ["visual"; "data"; "image"; "cog_default"].
  destruct (first_that _ ["visual"; "data"; "image"; "cog_default"]); [done|].
  rewrite (first_that_ext _ (λ kv, type_contains ["tiff"; "geotiff"; "cog"] (snd kv)) assets)
    by (intros; apply cog_type_contains).
  destruct (first_that _ assets) as [[key asset]|]; [done|].
  rewrite (first_that_ext _ (contains_none excludePatterns) (map fst assets))
    by (intros; apply not_excluded_contains_none).
  change excludePatterns
    with ["thumbnail"; "overview"; "metadata"; "tilejson"; "rendered_preview"].
  destruct (first_that _ (map fst assets)) as [key|]; [|done].
  by destruct key.
Qed.

(** The amended scan is the specified one, for asset maps without an empty
    key. *)
Lemma heuristic_as_amended_specified (assets : list (string * STACAsset)) :
  Forall (λ kv, fst kv ≠ EmptyString) assets →
  heuristic_as_amended assets = heuristic_as_specified assets.
Proof.
  intros Hkeys. unfold heuristic_as_amended, heuristic_as_specified.
  destruct (first_that _ ["visual"; "data"; "image"; "cog_default"]); [done|].
  destruct (first_that _ assets) as [[key asset]|]; [done|].
  destruct (first_that _ (map fst assets)) as [key|] eqn:E; [|done].
  rewrite <- find_first_that in E. apply find_Some_elem in E as [Hin _].
  apply list_elem_of_In, in_map_iff in Hin as (kv & <- & Hin).
  rewrite Forall_forall in Hkeys. apply list_elem_of_In in Hin.
  specialize (Hkeys kv Hin).
  by destruct (decide (fst kv = EmptyString)).
Qed.

Lemma resolveItemParams_default (item : STACItem) (options : option ItemLayerOptions) :
  options ≫= opt_renderParams = None →
  options ≫= opt_assets = None →
  getDefaultPreset (default EmptyString (item_collection item)) = None →
  resolveItemParams item options =
    (with_assets (getDefaultAssets item) no_params, options ≫= opt_presetName,
     getDefaultAssets item).
Proof.
  intros Hr Ha Hp. unfold resolveItemParams. rewrite Hr, Ha, Hp. simpl.
  by destruct (JS.truthy _).
Qed.

(** C6, as amended.  Without [renderParams], without [assets] and without
    a default preset for the collection, the assets of an added entry are
    those of the three-stage scan: the first preferred name ([visual],
    [data], [image], [cog_default]) that is a key of the asset map; else the
    first asset whose media type contains [tiff], [geotiff] or [cog]; else the
    first key that contains none of the excluded words, letter case ignored,
    unless this key is the empty string, in which case no asset is selected.
    For an asset map without an empty key this is the scan of the
    specification.  An entry with assets [{thumbnail, data}] gets [["data"]]. *)
Theorem default_asset_heuristic (item : STACItem) (options : option ItemLayerOptions) :
  options ≫= opt_renderParams = None →
  options ≫= opt_assets = None →
  getDefaultPreset (default EmptyString (item_collection item)) = None →
  getDefaultAssets item = heuristic_as_amended (item_assets item) ∧
  (Forall (λ kv, fst kv ≠ EmptyString) (item_assets item) →
     getDefaultAssets item = heuristic_as_specified (item_assets item)) ∧
  (∀ generated (st : LayerManager),
     fresh_ids (newLayerId (item_id item) generated) st →
     added_with_assets generated item options st
       (heuristic_as_amended (item_assets item))) ∧
  (∀ thumbnail data,
     item_assets item = [("thumbnail", thumbnail); ("data", data)] →
     JS.includes (default EmptyString (asset_type data)) "geotiff" = true →
     getDefaultAssets item = ["data"]).
Proof.
  intros Hr Ha Hp.
  assert (getDefaultAssets item = heuristic_as_amended (item_assets item)) as Hspec
    by apply defaultAssetsOf_as_amended.
  split_and!; [done| | |].
  - intros Hkeys. by rewrite Hspec, heuristic_as_amended_specified.
  - intros generated st Hfresh. unfold added_with_assets. eexists _, _.
    split; [by apply addItemLayer_run|].
    unfold itemLayer, registered.
    rewrite (resolveItemParams_default item options Hr Ha Hp). simpl.
    by rewrite lookup_insert_eq, Hspec.
  - intros thumbnail data Hassets _. unfold getDefaultAssets. by rewrite Hassets.
Qed.

(** ** Resolution of assets and parameters *)

Lemma getDefaultPreset_empty : getDefaultPreset EmptyString = None.
Proof. reflexivity. Qed.

(** C2, as amended.  The asset list of an added entry is [options.assets]
    when supplied; else the [assets] of [options.renderParams] when supplied;
    else, when neither was supplied, the [assets] of the collection's default
    preset; else the heuristic selection.  The other parameters are those of
    [options.renderParams] when supplied, else (with neither [renderParams]
    nor [assets] supplied) those of the default preset, else none; the
    resolved asset list is written into the bundle. *)
Theorem asset_resolution_order (item : STACItem) (options : option ItemLayerOptions) :
  let collectionId := default EmptyString (item_collection item) in
  let renderParams := (resolveItemParams item options).1.1 in
  let presetName := (resolveItemParams item options).1.2 in
  let assets := (resolveItemParams item options).2 in
  tp_assets renderParams = Some assets ∧
  (∀ a, options ≫= opt_assets = Some a →
        assets = a ∧
        renderParams = with_assets a (default no_params (options ≫= opt_renderParams))) ∧
  (∀ p, options ≫= opt_assets = None → options ≫= opt_renderParams = Some p →
        assets = default (getDefaultAssets item) (tp_assets p) ∧
        renderParams = with_assets assets p) ∧
  (∀ dp, options ≫= opt_assets = None → options ≫= opt_renderParams = None →
         getDefaultPreset collectionId = Some dp →
         assets = default (getDefaultAssets item) (tp_assets (preset_params dp)) ∧
         renderParams = with_assets assets (preset_params dp) ∧
         presetName = Some (preset_name dp)) ∧
  (options ≫= opt_assets = None → options ≫= opt_renderParams = None →
   getDefaultPreset collectionId = None →
   assets = getDefaultAssets item ∧ renderParams = with_assets assets no_params).
Proof.
  simpl. split_and!.
  - unfold resolveItemParams.
    by repeat (case_match; simplify_eq/=).
  - intros a Ha. unfold resolveItemParams. rewrite Ha.
    by repeat (case_match; simplify_eq/=).
  - intros p Ha Hr. unfold resolveItemParams. rewrite Ha, Hr. simpl.
    by destruct (tp_assets p).
  - intros dp Ha Hr Hp. unfold resolveItemParams. rewrite Ha, Hr.
    destruct (JS.truthy _) eqn:Ht.
    + rewrite Hp. simpl. by destruct (tp_assets (preset_params dp)).
    + destruct (default EmptyString (item_collection item)); [|done].
      by rewrite getDefaultPreset_empty in Hp.
  - intros Ha Hr Hp. by rewrite (resolveItemParams_default item options Hr Ha Hp).
Qed.

Lemma getItemTileUrl_query (c : TiTilerClient) (collectionId itemId : string)
    (params : TileParams) :
  JS.truthy (buildQueryString params) = true →
  getItemTileUrl c collectionId itemId params =
    itemUrlBase c collectionId itemId +:+ "&" +:+ buildQueryString params.
Proof.
  intros H. unfold getItemTileUrl, itemUrlBase. rewrite H.
  change (JS.truthy ("?" +:+ buildQueryString params)) with true.
  by rewrite !app_assoc_string.
Qed.



(** ** Layer registry: removing *)

Lemma source_in_use_false (id : string) (m : MapLibreMap) :
  source_in_use id m = false ↔
  ∀ k l, liveLayers m !! k = Some l → lyr_source l ≠ id.
Proof.
  unfold source_in_use. rewrite bool_decide_eq_false. unfold map_Exists. split.
  - intros H k l Hk Hl. apply H. by exists k, l.
  - intros H (k & l & Hk & Hl). by apply (H k l).
Qed.

(** A source that the host does not hold is used by no layer. *)
Lemma host_wf_unused (id : string) (m : MapLibreMap) :
  host_wf m → sources m !! id = None →
  ∀ k l, liveLayers m !! k = Some l → lyr_source l ≠ id.
Proof.
  intros Hwf Hs k l Hk <-. destruct (Hwf k l Hk) as [s Hs']. congruence.
Qed.

(** ** Running the host operations *)

Lemma with_map_id (st : LayerManager) : with_map (mgr_map st) st = st.
Proof. by destruct st. Qed.

Lemma bind_Normal {S A B} (m : JSM S A) (k : A → JSM S B) (s s' : S) (a : A) :
  m s = (Normal a, s') → bind m k s = k a s'.
Proof. intros H. unfold bind. by rewrite H. Qed.


Lemma on_map_run {A} (op : JSM MapLibreMap A) (st : LayerManager) :
  on_map op st = ((op (mgr_map st)).1, with_map (op (mgr_map st)).2 st).
Proof. unfold on_map. by destruct (op (mgr_map st)). Qed.

Lemma run_getLayer (id : string) (st : LayerManager) :
  on_map (getLayer id) st = (Normal (liveLayers (mgr_map st) !! id), st).
Proof. rewrite on_map_run. simpl. by rewrite with_map_id. Qed.

Lemma run_getSource (id : string) (st : LayerManager) :
  on_map (getSource id) st = (Normal (sources (mgr_map st) !! id), st).
Proof. rewrite on_map_run. simpl. by rewrite with_map_id. Qed.

Lemma run_getLayoutProperty (id : string) (st : LayerManager) (l : RasterLayer) :
  liveLayers (mgr_map st) !! id = Some l →
  on_map (getLayoutProperty id) st = (Normal (lyr_visibility l), st).
Proof.
  intros H. rewrite on_map_run. unfold getLayoutProperty. rewrite H. simpl.
  by rewrite with_map_id.
Qed.

Lemma run_getPaintProperty (id : string) (st : LayerManager) (l : RasterLayer) :
  liveLayers (mgr_map st) !! id = Some l →
  on_map (getPaintProperty id) st = (Normal (lyr_opacity l), st).
Proof.
  intros H. rewrite on_map_run. unfold getPaintProperty. rewrite H. simpl.
  by rewrite with_map_id.
Qed.

Lemma run_removeLayer (id : string) (st : LayerManager) (l : RasterLayer) :
  liveLayers (mgr_map st) !! id = Some l →
  on_map (host_removeLayer id) st =
    (Normal tt,
     with_map (served (call_removeLayer id) (sources (mgr_map st))
                 (delete id (liveLayers (mgr_map st))) (mgr_map st)) st).
Proof. intros H. rewrite on_map_run. unfold host_removeLayer. by rewrite H. Qed.

Lemma run_removeSource (id : string) (st : LayerManager) (s : RasterSource) :
  sources (mgr_map st) !! id = Some s →
  (∀ k l, liveLayers (mgr_map st) !! k = Some l → lyr_source l ≠ id) →
  on_map (removeSource id) st =
    (Normal tt,
     with_map (served (call_removeSource id) (delete id (sources (mgr_map st)))
                 (liveLayers (mgr_map st)) (mgr_map st)) st).
Proof.
  intros H Hfree. apply source_in_use_false in Hfree.
  rewrite on_map_run. unfold removeSource. by rewrite H, Hfree.
Qed.

Lemma run_addSource (id : string) (src : RasterSource) (st : LayerManager) :
  sources (mgr_map st) !! id = None →
  on_map (addSource id src) st =
    (Normal tt,
     with_map (served (call_addSource id src) (<[id := src]> (sources (mgr_map st)))
                 (liveLayers (mgr_map st)) (mgr_map st)) st).
Proof. intros H. rewrite on_map_run. unfold addSource. by rewrite H. Qed.

Lemma run_addLayer (id : string) (l : RasterLayer) (st : LayerManager) (s : RasterSource) :
  liveLayers (mgr_map st) !! id = None →
  sources (mgr_map st) !! lyr_source l = Some s →
  on_map (addLayer id l) st =
    (Normal tt,
     with_map (served (call_addLayer id l) (sources (mgr_map st))
                 (<[id := l]> (liveLayers (mgr_map st))) (mgr_map st)) st).
Proof. intros H1 H2. rewrite on_map_run. unfold addLayer. by rewrite H1, H2. Qed.

Lemma run_setLayoutProperty (id : string) (v : Visibility) (st : LayerManager)
    (l : RasterLayer) :
  liveLayers (mgr_map st) !! id = Some l →
  on_map (setLayoutProperty id v) st =
    (Normal tt,
     with_map (served (call_setLayoutProperty id v) (sources (mgr_map st))
                 (<[id := {| lyr_source := lyr_source l; lyr_visibility := Some v;
                             lyr_opacity := lyr_opacity l |}]> (liveLayers (mgr_map st)))
                 (mgr_map st)) st).
Proof. intros H. rewrite on_map_run. unfold setLayoutProperty. by rewrite H. Qed.

Lemma run_setPaintProperty (id : string) (o : number) (st : LayerManager)
    (l : RasterLayer) :
  liveLayers (mgr_map st) !! id = Some l →
  on_map (setPaintProperty id o) st =
    (Normal tt,
     with_map (served (call_setPaintProperty id o) (sources (mgr_map st))
                 (<[id := {| lyr_source := lyr_source l; lyr_visibility := lyr_visibility l;
                             lyr_opacity := Some o |}]> (liveLayers (mgr_map st)))
                 (mgr_map st)) st).
Proof. intros H. rewrite on_map_run. unfold setPaintProperty. by rewrite H. Qed.

(** One statement of a method body: run it with lemma [L], continue. *)
Ltac step L := erewrite bind_Normal; [| apply L ]; cbv beta.

Lemma gets_run {S A} (f : S → A) (s : S) : gets f s = (Normal (f s), s).
Proof. done. Qed.

Lemma removeLayer_run (layerId : string) (st : LayerManager) (layer : ActiveLayer)
    (l : RasterLayer) (s : RasterSource) :
  mgr_layers st !! layerId = Some layer →
  liveLayers (mgr_map st) !! layerId = Some l →
  sources (mgr_map st) !! layer_sourceId layer = Some s →
  (∀ k l', k ≠ layerId → liveLayers (mgr_map st) !! k = Some l' →
           lyr_source l' ≠ layer_sourceId layer) →
  removeLayer layerId st =
    (Normal tt,
     with_layers (delete layerId (mgr_layers st))
       (with_map
          {| sources := delete (layer_sourceId layer) (sources (mgr_map st));
             liveLayers := delete layerId (liveLayers (mgr_map st));
             calls := calls (mgr_map st) ++
                      [call_removeLayer layerId; call_removeSource (layer_sourceId layer)] |}
          st)).
Proof.
  intros Hrec Hlive Hsrc Honly. unfold removeLayer.
  step @gets_run. rewrite Hrec.
  step run_getLayer. rewrite Hlive.
  erewrite bind_Normal; [| by eapply run_removeLayer]. cbv beta.
  step run_getSource. simpl. rewrite Hsrc.
  erewrite bind_Normal; cycle 1.
  { eapply run_removeSource; simpl; [done|].
    intros k l' Hk. apply lookup_delete_Some in Hk as [Hne Hk]. by apply (Honly k l'). }
  cbv beta. unfold layers_delete, modify, with_layers, with_map, served. simpl.
  by rewrite <- app_assoc.
Qed.

Lemma removeLayer_registered (src : RasterSource) (layer : ActiveLayer) (st : LayerManager) :
  host_wf (mgr_map st) →
  sources (mgr_map st) !! layer_sourceId layer = None →
  removed_cleanly layer (registered src layer st).
Proof.
  intros Hwf Hs. unfold removed_cleanly.
  erewrite removeLayer_run.
  - eexists. split; [reflexivity|]. simpl. rewrite !lookup_delete_eq.
    by split_and!.
  - unfold registered. simpl. apply lookup_insert_eq.
  - unfold registered. simpl. apply lookup_insert_eq.
  - unfold registered. simpl. apply lookup_insert_eq.
  - unfold registered. simpl. intros k l' Hne Hk.
    rewrite lookup_insert_ne in Hk by done.
    exact (host_wf_unused _ (mgr_map st) Hwf Hs k l' Hk).
Qed.


(** C4. A layer that was just added (entry or collection), over a host in
    which every live layer has its source, is removed completely by
    [removeLayer] on the returned id: the call succeeds, the registry has no
    record under the id, the host has neither the layer nor its source, and
    the host was asked to remove the layer before the source.  [removeLayer]
    on an id that is not registered returns without changing anything. *)
Theorem add_then_remove_leaves_nothing :
  (∀ generated item options (st st1 : LayerManager) layer,
     host_wf (mgr_map st) →
     addItemLayer generated item options st = (Normal layer, st1) →
     removed_cleanly layer st1) ∧
  (∀ generated collection options (st st1 : LayerManager) layer,
     host_wf (mgr_map st) →
     addCollectionLayer generated collection options st = (Normal layer, st1) →
     removed_cleanly layer st1) ∧
  (∀ layerId (st : LayerManager),
     mgr_layers st !! layerId = None → removeLayer layerId st = (Normal tt, st)).
Proof.
  split_and!.
  - intros generated item options st st1 layer Hwf Hadd.
    pose proof (addItemLayer_Normal _ _ _ _ _ _ Hadd) as Hfresh.
    rewrite (addItemLayer_run _ _ _ _ Hfresh) in Hadd. injection Hadd as <- <-.
    apply removeLayer_registered; [done|].
    destruct Hfresh as [Hs _]. unfold itemLayer.
    by destruct (resolveItemParams item options) as [[? ?] ?].
  - intros generated collection options st st1 layer Hwf Hadd.
    pose proof (addCollectionLayer_Normal _ _ _ _ _ _ Hadd) as Hfresh.
    rewrite (addCollectionLayer_run _ _ _ _ Hfresh) in Hadd. injection Hadd as <- <-.
    apply removeLayer_registered; [done|].
    destruct Hfresh as [Hs _]. unfold collectionLayer.
    by destruct (resolveCollectionParams collection options) as [[? ?] ?].
  - intros layerId st Hnone. unfold removeLayer, bind, gets. by rewrite Hnone.
Qed.

(** ** Layer registry: updating *)

(** The first two statements of [updateLayer] on a live layer. *)
Lemma direct_updates_run (layerId : string) (updates : LayerUpdates) (st : LayerManager)
    (l : RasterLayer) (k : JSM LayerManager unit) :
  liveLayers (mgr_map st) !! layerId = Some l →
  (match upd_visible updates with
   | Some v => on_map (setLayoutProperty layerId (if v then vis_visible else vis_none))
   | None => ret tt
   end ;;
   match upd_opacity updates with
   | Some o => on_map (setPaintProperty layerId o)
   | None => ret tt
   end ;;
   k) st =
  k (with_map
       {| sources := sources (mgr_map st);
          liveLayers := <[layerId := live_after_direct l updates]> (liveLayers (mgr_map st));
          calls := calls (mgr_map st) ++ direct_calls layerId updates |} st).
Proof.
  intros Hlive. unfold direct_calls, live_after_direct.
  destruct st as [[srcs live cs] c ls]. simpl in Hlive.
  destruct (upd_visible updates) as [v|], (upd_opacity updates) as [o|].
  - erewrite bind_Normal; [|by eapply run_setLayoutProperty].
    erewrite bind_Normal; [|eapply run_setPaintProperty; simpl; apply lookup_insert_eq].
    unfold with_map, served. simpl. by rewrite insert_insert_eq, <- app_assoc.
  - erewrite bind_Normal; [|by eapply run_setLayoutProperty].
    erewrite bind_Normal; [|reflexivity].
    unfold with_map, served. simpl. by destruct l.
  - erewrite bind_Normal; [|reflexivity].
    erewrite bind_Normal; [|by eapply run_setPaintProperty].
    unfold with_map, served. simpl. by destruct l.
  - erewrite bind_Normal; [|reflexivity].
    erewrite bind_Normal; [|reflexivity].
    unfold with_map. simpl. rewrite app_nil_r.
    destruct l. simpl. by rewrite insert_id.
Qed.

Lemma rebuiltTileUrl_origin_ok (client : TiTilerClient) (layer : ActiveLayer)
    (updates : LayerUpdates) :
  origin_ok layer → is_Some (rebuiltTileUrl client layer updates).
Proof.
  unfold origin_ok, rebuiltTileUrl.
  destruct (layer_type layer); [| done |].
  - intros [item ->]. by eexists.
  - intros [collection ->]. destruct (layer_item layer); by eexists.
Qed.

(** [updateLayerSource] on a registered layer that is live over its source. *)
Lemma updateLayerSource_run (layerId : string) (updates : LayerUpdates) (st : LayerManager)
    (layer : ActiveLayer) (l : RasterLayer) (s : RasterSource) (tileUrl : string) :
  mgr_layers st !! layerId = Some layer →
  rebuiltTileUrl (mgr_tilerClient st) layer updates = Some tileUrl →
  liveLayers (mgr_map st) !! layerId = Some l →
  sources (mgr_map st) !! layer_sourceId layer = Some s →
  sole_user layerId (layer_sourceId layer) (mgr_map st) →
  updateLayerSource layerId updates st =
    (Normal tt,
     with_map
       {| sources :=
            <[layer_sourceId layer := raster_source tileUrl (layer_bounds layer)]>
              (sources (mgr_map st));
          liveLayers :=
            <[layerId := recreated_layer (layer_sourceId layer) l]> (liveLayers (mgr_map st));
          calls :=
            calls (mgr_map st) ++
            [call_removeLayer layerId;
             call_removeSource (layer_sourceId layer);
             call_addSource (layer_sourceId layer)
               (raster_source tileUrl (layer_bounds layer));
             call_addLayer layerId (recreated_layer (layer_sourceId layer) l)] |} st).
Proof.
  intros Hrec Hurl Hlive Hsrc Hsole. unfold updateLayerSource.
  step @gets_run. rewrite Hrec.
  step @gets_run. rewrite Hurl.
  erewrite bind_Normal; [|by eapply run_getLayoutProperty]. cbv beta.
  erewrite bind_Normal; [|by eapply run_getPaintProperty]. cbv beta.
  erewrite bind_Normal; [|by eapply run_removeLayer]. cbv beta.
  erewrite bind_Normal; cycle 1.
  { eapply run_removeSource; simpl; [done|].
    intros k l' Hk. apply lookup_delete_Some in Hk as [Hne Hk]. by apply (Hsole k l'). }
  cbv beta.
  erewrite bind_Normal; cycle 1.
  { eapply run_addSource. simpl. apply lookup_delete_eq. }
  cbv beta.
  erewrite run_addLayer; cycle 1.
  { simpl. apply lookup_delete_eq. }
  { simpl. apply lookup_insert_eq. }
  unfold with_map, served, recreated_layer, layer_bounds. simpl.
  rewrite insert_delete_eq, insert_delete_eq, <- !app_assoc. simpl.
  reflexivity.
Qed.


(** [updateLayerSource] returns early on a record whose origin does not
    match its kind. *)
Lemma updateLayerSource_skip (layerId : string) (updates : LayerUpdates) (st : LayerManager)
    (layer : ActiveLayer) :
  mgr_layers st !! layerId = Some layer →
  rebuiltTileUrl (mgr_tilerClient st) layer updates = None →
  updateLayerSource layerId updates st = (Normal tt, st).
Proof.
  intros Hrec Hurl. unfold updateLayerSource.
  step @gets_run. rewrite Hrec. step @gets_run. by rewrite Hurl.
Qed.





(** ** The host invariant and the state after an add *)

Lemma host_wf_empty : host_wf empty_map.
Proof. intros k l Hk. simpl in Hk. by rewrite lookup_empty in Hk. Qed.

Lemma host_wf_addSource (id : string) (s : RasterSource) (m : MapLibreMap) :
  host_wf m → host_wf (addSource id s m).2.
Proof.
  intros Hwf. unfold addSource. destruct (sources m !! id) eqn:E; [done|].
  intros k l Hk. simpl in *. destruct (Hwf k l Hk) as [s' Hs'].
  destruct (decide (lyr_source l = id)) as [Heq|Hne]; [congruence|].
  rewrite lookup_insert_ne by done. by exists s'.
Qed.

Lemma host_wf_addLayer (id : string) (l : RasterLayer) (m : MapLibreMap) :
  host_wf m → host_wf (addLayer id l m).2.
Proof.
  intros Hwf. unfold addLayer.
  destruct (liveLayers m !! id) eqn:E; [done|].
  destruct (sources m !! lyr_source l) eqn:Es; [|done].
  intros k l' Hk. simpl in *. apply lookup_insert_Some in Hk as [[_ <-] | [_ Hk]].
  - by eexists.
  - by apply (Hwf k).
Qed.

Lemma host_wf_removeLayer (id : string) (m : MapLibreMap) :
  host_wf m → host_wf (host_removeLayer id m).2.
Proof.
  intros Hwf. unfold host_removeLayer. destruct (liveLayers m !! id) eqn:E; [|done].
  intros k l Hk. simpl in *. apply lookup_delete_Some in Hk as [_ Hk]. by apply (Hwf k).
Qed.

Lemma host_wf_removeSource (id : string) (m : MapLibreMap) :
  host_wf m → host_wf (removeSource id m).2.
Proof.
  intros Hwf. unfold removeSource. destruct (sources m !! id) eqn:E; [|done].
  destruct (source_in_use id m) eqn:Hu; [done|].
  intros k l Hk. simpl in *. rewrite lookup_delete_ne; [by apply (Hwf k)|].
  intros Heq. by apply (proj1 (source_in_use_false id m) Hu k l).
Qed.

Lemma host_wf_setLayoutProperty (id : string) (v : Visibility) (m : MapLibreMap) :
  host_wf m → host_wf (setLayoutProperty id v m).2.
Proof.
  intros Hwf. unfold setLayoutProperty. destruct (liveLayers m !! id) as [l0|] eqn:E; [|done].
  intros k l Hk. simpl in *. apply lookup_insert_Some in Hk as [[_ <-] | [_ Hk]].
  - simpl. by apply (Hwf id l0).
  - by apply (Hwf k).
Qed.

Lemma host_wf_setPaintProperty (id : string) (o : number) (m : MapLibreMap) :
  host_wf m → host_wf (setPaintProperty id o m).2.
Proof.
  intros Hwf. unfold setPaintProperty. destruct (liveLayers m !! id) as [l0|] eqn:E; [|done].
  intros k l Hk. simpl in *. apply lookup_insert_Some in Hk as [[_ <-] | [_ Hk]].
  - simpl. by apply (Hwf id l0).
  - by apply (Hwf k).
Qed.

(** After an add over a well-formed host, the new layer is registered, live
    over its source, and the only user of that source. *)
Lemma registered_ready (src : RasterSource) (layer : ActiveLayer) (st : LayerManager) :
  host_wf (mgr_map st) →
  sources (mgr_map st) !! layer_sourceId layer = None →
  let st1 := registered src layer st in
  mgr_layers st1 !! layer_id layer = Some layer ∧
  liveLayers (mgr_map st1) !! layer_id layer = Some (fresh_layer (layer_sourceId layer)) ∧
  sources (mgr_map st1) !! layer_sourceId layer = Some src ∧
  sole_user (layer_id layer) (layer_sourceId layer) (mgr_map st1).
Proof.
  intros Hwf Hs. simpl. rewrite !lookup_insert_eq. split_and!; try done.
  intros k l Hne Hk. simpl in Hk. rewrite lookup_insert_ne in Hk by done.
  exact (host_wf_unused _ (mgr_map st) Hwf Hs k l Hk).
Qed.

(** Both adds store a record that satisfies the invariant. *)
Lemma itemLayer_in_sync generated item options :
  assets_in_sync (itemLayer generated item options).
Proof.
  unfold assets_in_sync, itemLayer, resolveItemParams.
  by repeat (case_match; simplify_eq/=).
Qed.

Lemma collectionLayer_in_sync generated collection options :
  assets_in_sync (collectionLayer generated collection options).
Proof.
  unfold assets_in_sync, collectionLayer, resolveCollectionParams.
  by repeat (case_match; simplify_eq/=).
Qed.

(** The shallow merge of [updateLayer] does not carry a new asset list from
    one field of the record to the other. *)
Lemma spread_layer_out_of_sync (layer : ActiveLayer) (updates : LayerUpdates) :
  assets_in_sync layer →
  (∀ p, upd_renderParams updates = Some p → upd_assets updates = None →
        tp_assets p ≠ Some (layer_assets layer) →
        ¬ assets_in_sync (spread_layer layer updates)) ∧
  (∀ a, upd_assets updates = Some a → upd_renderParams updates = None →
        a ≠ layer_assets layer →
        ¬ assets_in_sync (spread_layer layer updates)).
Proof.
  unfold assets_in_sync, spread_layer. intros Hsync. split.
  - intros p -> -> Hp. simpl. exact Hp.
  - intros a -> -> Ha. simpl. rewrite Hsync. congruence.
Qed.

(* ------------------------------------------------------------------ *)
(** ** More on the token cache *)

Lemma hasValidToken_window now collectionId m :
  hasValidToken now collectionId m = true ↔ in_valid_window now collectionId m.
Proof.
  unfold hasValidToken, in_valid_window.
  destruct (cache m !! collectionId) as [cached|]; [|by split; [|intros [? [? _]]]].
  rewrite past_buffer_true. split; [intros H; by exists cached | by intros (c & [= <-] & H)].
Qed.

(** [hasValidToken] predicts [getToken]: it answers [true] exactly when
    [getToken] would return the cached token without a fetch and without
    touching the manager, and [false] exactly when [getToken] fetches. *)
Lemma hasValidToken_cases fetch now collectionId m :
  (hasValidToken now collectionId m = true ↔
     run_fetched (getToken fetch now collectionId m) = []) ∧
  (hasValidToken now collectionId m = true →
     ∃ cached, cache m !! collectionId = Some cached ∧
               getToken fetch now collectionId m =
                 {| run_result := Normal (tc_token cached); run_manager := m;
                    run_fetched := [] |}) ∧
  (hasValidToken now collectionId m = false ↔ must_fetch now collectionId m).
Proof.
  split_and!.
  - rewrite hasValidToken_window. split.
    + intros (c & Hc & Hlt). by rewrite (getToken_hit _ _ _ _ c).
    + intros Hf. destruct (valid_or_must_fetch now collectionId m) as [|Hm]; [done|].
      by rewrite (getToken_miss _ _ _ _ Hm) in Hf.
  - intros (c & Hc & Hlt)%hasValidToken_window. exists c. split; [done|].
    by apply getToken_hit.
  - rewrite <- not_true_iff_false, hasValidToken_window. split.
    + intros Hn. by destruct (valid_or_must_fetch now collectionId m).
    + intros Hm Hv. by apply (valid_window_not_must_fetch _ _ _ Hv).
Qed.

(** The run of a [getToken] that has to fetch. *)
Lemma getToken_fresh fetch now collectionId m :
  must_fetch now collectionId m →
  let url := SAS_TOKEN_URL +:+ "/" +:+ JS.encodeURIComponent collectionId in
  getToken fetch now collectionId m =
    match fetch url with
    | fetch_rejected e | fetch_ok_unparsed e | fetch_ok_null e =>
        {| run_result := Throw e; run_manager := m; run_fetched := [url] |}
    | fetch_not_ok statusText =>
        {| run_result :=
             Throw ("Failed to get SAS token for " +:+ collectionId +:+ ": " +:+ statusText);
           run_manager := m; run_fetched := [url] |}
    | fetch_ok data =>
        {| run_result := Normal (resp_token data);
           run_manager :=
             {| cache := <[collectionId := {| tc_token := resp_token data;
                                              tc_expiry := resp_expiry data |}]> (cache m);
                bufferMs := bufferMs m |};
           run_fetched := [url] |}
    end.
Proof.
  intros [Hc | (cached & Hc & Hle)] url; unfold getToken; fold url; rewrite Hc.
  - by destruct (fetch url).
  - rewrite (proj2 (past_buffer_false _ _ _) Hle). by destruct (fetch url).
Qed.

(** What a [getToken] that throws has done. *)
Lemma getToken_Throw fetch now collectionId m e :
  run_result (getToken fetch now collectionId m) = Throw e →
  let url := SAS_TOKEN_URL +:+ "/" +:+ JS.encodeURIComponent collectionId in
  run_manager (getToken fetch now collectionId m) = m ∧
  run_fetched (getToken fetch now collectionId m) = [url] ∧
  must_fetch now collectionId m ∧
  (fetch url = fetch_rejected e ∨ fetch url = fetch_ok_unparsed e ∨
   fetch url = fetch_ok_null e ∨
   ∃ statusText, fetch url = fetch_not_ok statusText ∧
     e = "Failed to get SAS token for " +:+ collectionId +:+ ": " +:+ statusText).
Proof.
  intros Hres url.
  destruct (valid_or_must_fetch now collectionId m) as [(c & Hc & Hlt) | Hm].
  { by rewrite (getToken_hit _ _ _ _ c Hc Hlt) in Hres. }
  revert Hres. rewrite (getToken_fresh fetch _ _ _ Hm). fold url.
  destruct (fetch url) as [d|msg|msg|st|msg]; simpl; [done|..]; intros [= <-];
    split_and!; try done; eauto 6.
Qed.

(** [getToken] for one collection reads and writes the entry of that
    collection only: the entries of the others and the buffer are the same
    afterwards, and the entry it leaves after a fetch is the answer of the
    service, its expiry as it came, a date or not.  When it throws it has
    found nothing reusable and has made exactly one fetch, which was rejected,
    or answered by a response that was not [ok], or by one that was [ok] with
    a body that did not parse or was [null]; each of these makes it throw, and
    it has left the manager as it was: a failure of the token service never
    erases or replaces an entry. *)
Theorem getToken_changes_its_entry_only fetch now collectionId m :
  let url := SAS_TOKEN_URL +:+ "/" +:+ JS.encodeURIComponent collectionId in
  bufferMs (run_manager (getToken fetch now collectionId m)) = bufferMs m ∧
  (∀ other, other ≠ collectionId →
     cache (run_manager (getToken fetch now collectionId m)) !! other = cache m !! other) ∧
  (∀ data, must_fetch now collectionId m → fetch url = fetch_ok data →
     run_result (getToken fetch now collectionId m) = Normal (resp_token data) ∧
     cache (run_manager (getToken fetch now collectionId m)) !! collectionId =
       Some {| tc_token := resp_token data; tc_expiry := resp_expiry data |}) ∧
  (∀ e, run_result (getToken fetch now collectionId m) = Throw e →
     run_manager (getToken fetch now collectionId m) = m ∧
     run_fetched (getToken fetch now collectionId m) = [url] ∧
     must_fetch now collectionId m ∧
     (fetch url = fetch_rejected e ∨ fetch url = fetch_ok_unparsed e ∨
      fetch url = fetch_ok_null e ∨
      ∃ statusText,
        fetch url = fetch_not_ok statusText ∧
        e = "Failed to get SAS token for " +:+ collectionId +:+ ": " +:+ statusText)) ∧
  (∀ e, must_fetch now collectionId m →
     fetch url = fetch_rejected e ∨ fetch url = fetch_ok_unparsed e ∨
     fetch url = fetch_ok_null e →
     run_result (getToken fetch now collectionId m) = Throw e) ∧
  (∀ statusText, must_fetch now collectionId m → fetch url = fetch_not_ok statusText →
     run_result (getToken fetch now collectionId m) =
       Throw ("Failed to get SAS token for " +:+ collectionId +:+ ": " +:+ statusText)).
Proof.
  intros url.
  assert (run_manager (getToken fetch now collectionId m) = m ∨
          ∃ data, run_manager (getToken fetch now collectionId m) =
                    {| cache := <[collectionId := {| tc_token := resp_token data;
                                                     tc_expiry := resp_expiry data |}]>
                                  (cache m);
                       bufferMs := bufferMs m |}) as Hmgr.
  { destruct (valid_or_must_fetch now collectionId m) as [(c & Hc & Hlt) | Hm].
    - left. by rewrite (getToken_hit _ _ _ _ c Hc Hlt).
    - rewrite (getToken_fresh fetch _ _ _ Hm).
      destruct (fetch _) as [d| | | |]; [right; by exists d | by left..]. }
  split_and!.
  - by destruct Hmgr as [-> | [d ->]].
  - intros other Hne. destruct Hmgr as [-> | [d ->]]; [done|].
    simpl. by rewrite lookup_insert_ne.
  - intros data Hm Hf. rewrite (getToken_fresh fetch _ _ _ Hm). fold url. rewrite Hf.
    simpl. by rewrite lookup_insert_eq.
  - intros e He. exact (getToken_Throw fetch now collectionId m e He).
  - intros e Hm Hf. rewrite (getToken_fresh fetch _ _ _ Hm). fold url.
    by destruct Hf as [-> | [-> | ->]].
  - intros statusText Hm Hf. rewrite (getToken_fresh fetch _ _ _ Hm). fold url.
    by rewrite Hf.
Qed.

(** [clearToken] makes the next [getToken] of that collection fetch and
    leaves the validity of every other collection as it was; after
    [clearCache] no collection has a valid token. *)
Lemma clearing_cases fetch now collectionId m :
  hasValidToken now collectionId (clearToken collectionId m) = false ∧
  run_fetched (getToken fetch now collectionId (clearToken collectionId m)) =
    [SAS_TOKEN_URL +:+ "/" +:+ JS.encodeURIComponent collectionId] ∧
  (∀ other, other ≠ collectionId →
     hasValidToken now other (clearToken collectionId m) = hasValidToken now other m) ∧
  (∀ any, hasValidToken now any (clearCache m) = false ∧
          run_fetched (getToken fetch now any (clearCache m)) =
            [SAS_TOKEN_URL +:+ "/" +:+ JS.encodeURIComponent any]).
Proof.
  split_and!.
  - unfold hasValidToken, clearToken. simpl. by rewrite lookup_delete_eq.
  - apply getToken_miss. left. simpl. apply lookup_delete_eq.
  - intros other Hne. unfold hasValidToken, clearToken. simpl.
    by rewrite lookup_delete_ne.
  - intros any. split; [done|]. apply getToken_miss. by left.
Qed.

(** [hasValidToken] predicts [getToken]: it answers [true] exactly when
    [getToken] would return the cached token without a fetch and without
    touching the manager, and [false] exactly when [getToken] fetches, which
    is when there is no entry, or the entry expires within the buffer, or its
    expiry is an Invalid Date, or the buffer is [NaN].  An entry with an
    Invalid Date is never valid, at no time and under no buffer.
    [clearToken] makes it [false] for its collection, so that the next
    [getToken] fetches, and leaves its answer for every other collection as it
    was; after [clearCache] it is [false] for every collection. *)
Theorem hasValidToken_predicts_getToken fetch now collectionId m :
  ((hasValidToken now collectionId m = true ↔
     run_fetched (getToken fetch now collectionId m) = []) ∧
  (hasValidToken now collectionId m = true →
     ∃ cached, cache m !! collectionId = Some cached ∧
               getToken fetch now collectionId m =
                 {| run_result := Normal (tc_token cached); run_manager := m;
                    run_fetched := [] |}) ∧
  (hasValidToken now collectionId m = false ↔ must_fetch now collectionId m) ∧
  (∀ cached, cache m !! collectionId = Some cached →
     incomparable (tc_expiry cached) (bufferMs m) →
     hasValidToken now collectionId m = false)) ∧
  (hasValidToken now collectionId (clearToken collectionId m) = false ∧
  run_fetched (getToken fetch now collectionId (clearToken collectionId m)) =
    [SAS_TOKEN_URL +:+ "/" +:+ JS.encodeURIComponent collectionId] ∧
  (∀ other, other ≠ collectionId →
     hasValidToken now other (clearToken collectionId m) = hasValidToken now other m) ∧
  (∀ any, hasValidToken now any (clearCache m) = false ∧
          run_fetched (getToken fetch now any (clearCache m)) =
            [SAS_TOKEN_URL +:+ "/" +:+ JS.encodeURIComponent any])).
Proof.
  destruct (hasValidToken_cases fetch now collectionId m) as (H1 & H2 & H3).
  split; [split_and!; [exact H1 | exact H2 | exact H3 |] | apply clearing_cases].
  intros cached Hc Hinc. apply H3. right. exists cached. split; [done|]. by right.
Qed.

Lemma includes_app_l (a b p : string) :
  JS.includes a p = true → JS.includes (a +:+ b) p = true.
Proof.
  rewrite !includes_occurs. intros (pre & post & ->). exists pre, (post +:+ b).
  by rewrite !app_assoc_string.
Qed.

Lemma includes_app_mid (a b p : string) : JS.includes (a +:+ p +:+ b) p = true.
Proof. apply includes_occurs. by exists a, b. Qed.

(** [signUrl] goes to the network exactly as [getToken] does and leaves the
    same manager; it throws what [getToken] throws; when [getToken] returns a
    token the result is the URL, one separator and the token, the separator
    being [&] when the URL contains a [?] and [?] otherwise, so that the
    result always contains a [?]. *)
Lemma signUrl_cases fetch now url collectionId m :
  run_fetched (signUrl fetch now url collectionId m) =
    run_fetched (getToken fetch now collectionId m) ∧
  run_manager (signUrl fetch now url collectionId m) =
    run_manager (getToken fetch now collectionId m) ∧
  (∀ e, run_result (getToken fetch now collectionId m) = Throw e →
        run_result (signUrl fetch now url collectionId m) = Throw e) ∧
  (∀ token, run_result (getToken fetch now collectionId m) = Normal token →
     ∃ signed, run_result (signUrl fetch now url collectionId m) = Normal signed ∧
       signed = url +:+ (if JS.includes url "?" then "&" else "?") +:+ token ∧
       JS.includes signed "?" = true).
Proof.
  unfold signUrl. destruct (run_result (getToken fetch now collectionId m)) as [t|e] eqn:E.
  - split_and!; [done..|]. intros token [= <-]. eexists. split_and!; [done..|].
    destruct (JS.includes url "?") eqn:Hq.
    + by apply includes_app_l.
    + apply includes_app_mid.
  - split_and!; [done..| |done]. intros e' [= <-]. done.
Qed.

(** [getDownloadUrl] on an asset key the entry has is [signUrl] on the
    asset's [href] under the entry's collection. *)
Lemma getDownloadUrl_cases fetch now typeError (item : STACItem) assetKey sas :
  assetKey ∈ map fst (item_assets item) →
  ∃ asset, dict_get assetKey (item_assets item) = Some asset ∧
    getDownloadUrl fetch now typeError item assetKey sas =
      signUrl fetch now (asset_href asset)
        (default EmptyString (item_collection item)) sas ∧
    (hasValidToken now (default EmptyString (item_collection item)) sas = true →
       ∃ cached,
         cache sas !! default EmptyString (item_collection item) = Some cached ∧
         getDownloadUrl fetch now typeError item assetKey sas =
           {| run_result :=
                Normal (asset_href asset +:+
                        (if JS.includes (asset_href asset) "?" then "&" else "?") +:+
                        tc_token cached);
              run_manager := sas; run_fetched := [] |}).
Proof.
  unfold getDownloadUrl. intros Hk.
  apply dict_get_is_Some in Hk as [a Ha]. exists a. rewrite Ha. split_and!; [done..|].
  intros (c & Hc & Hlt)%hasValidToken_window. exists c. split; [done|].
  unfold signUrl. by rewrite (getToken_hit _ _ _ _ c Hc Hlt).
Qed.

(** [getDownloadUrl] on a key the entry does not have: a name inherited from
    [Object.prototype] passes the test, and the call then awaits the token
    and throws a [TypeError]; any other key throws [not found] at once. *)
Lemma getDownloadUrl_missing fetch now typeError (item : STACItem) assetKey sas :
  assetKey ∉ map fst (item_assets item) →
  getDownloadUrl fetch now typeError item assetKey sas =
    if bool_decide (assetKey ∈ Object_prototype_names)
    then signUrl_undefined fetch now typeError (default EmptyString (item_collection item)) sas
    else {| run_result := Throw ("Asset '" +:+ assetKey +:+ "' not found");
            run_manager := sas; run_fetched := [] |}.
Proof.
  intros Hk. unfold getDownloadUrl.
  destruct (dict_get assetKey (item_assets item)) as [a|] eqn:E; [|done].
  exfalso. apply Hk, dict_get_is_Some. by eexists.
Qed.

(** [getDownloadUrl] throws [not found] for an asset key that the entry does
    not have and that is not a name inherited from [Object.prototype],
    without a fetch and without touching the token manager.  For a key the
    entry has, it is [signUrl] on the asset's [href] under the entry's
    collection.  For an inherited name that is not a key of the entry
    ([toString], say) it finds the inherited member: it goes to the network
    and leaves the manager exactly as [getToken] does, so that a token may be
    fetched and cached, and never returns a URL: it throws what [getToken]
    throws, or else a [TypeError].  [signUrl] goes to the network exactly as
    [getToken] does and leaves the same manager; it throws what [getToken]
    throws; when [getToken] returns a token the result is the URL, one
    separator and the token, the separator being [&] when the URL contains a
    [?] and [?] otherwise, so that the result always contains a [?]. *)
Theorem getDownloadUrl_signs_the_asset fetch now typeError (item : STACItem) assetKey sas :
  let collectionId := default EmptyString (item_collection item) in
  ((assetKey ∉ map fst (item_assets item) → assetKey ∉ Object_prototype_names →
     getDownloadUrl fetch now typeError item assetKey sas =
       {| run_result := Throw ("Asset '" +:+ assetKey +:+ "' not found");
          run_manager := sas; run_fetched := [] |}) ∧
  (assetKey ∈ map fst (item_assets item) →
     ∃ asset, dict_get assetKey (item_assets item) = Some asset ∧
       getDownloadUrl fetch now typeError item assetKey sas =
         signUrl fetch now (asset_href asset) collectionId sas ∧
       (hasValidToken now collectionId sas = true →
          ∃ cached,
            cache sas !! collectionId = Some cached ∧
            getDownloadUrl fetch now typeError item assetKey sas =
              {| run_result :=
                   Normal (asset_href asset +:+
                           (if JS.includes (asset_href asset) "?" then "&" else "?") +:+
                           tc_token cached);
                 run_manager := sas; run_fetched := [] |})) ∧
  (assetKey ∉ map fst (item_assets item) → assetKey ∈ Object_prototype_names →
     run_fetched (getDownloadUrl fetch now typeError item assetKey sas) =
       run_fetched (getToken fetch now collectionId sas) ∧
     run_manager (getDownloadUrl fetch now typeError item assetKey sas) =
       run_manager (getToken fetch now collectionId sas) ∧
     (∀ e, run_result (getToken fetch now collectionId sas) = Throw e →
           run_result (getDownloadUrl fetch now typeError item assetKey sas) = Throw e) ∧
     (∀ token, run_result (getToken fetch now collectionId sas) = Normal token →
           run_result (getDownloadUrl fetch now typeError item assetKey sas) =
             Throw typeError) ∧
     (∀ url, run_result (getDownloadUrl fetch now typeError item assetKey sas) ≠
               Normal url))) ∧
  (∀ url collectionId m,
     run_fetched (signUrl fetch now url collectionId m) =
       run_fetched (getToken fetch now collectionId m) ∧
     run_manager (signUrl fetch now url collectionId m) =
       run_manager (getToken fetch now collectionId m) ∧
     (∀ e, run_result (getToken fetch now collectionId m) = Throw e →
           run_result (signUrl fetch now url collectionId m) = Throw e) ∧
     (∀ token, run_result (getToken fetch now collectionId m) = Normal token →
        ∃ signed, run_result (signUrl fetch now url collectionId m) = Normal signed ∧
          signed = url +:+ (if JS.includes url "?" then "&" else "?") +:+ token ∧
          JS.includes signed "?" = true)).
Proof.
  intros collectionId. split; [split_and!|intros; apply signUrl_cases].
  - intros Hk Hp. rewrite (getDownloadUrl_missing _ _ _ _ _ _ Hk).
    by rewrite bool_decide_eq_false_2.
  - apply getDownloadUrl_cases.
  - intros Hk Hp. rewrite (getDownloadUrl_missing _ _ _ _ _ _ Hk).
    rewrite bool_decide_eq_true_2 by done. fold collectionId. unfold signUrl_undefined.
    destruct (run_result (getToken fetch now collectionId sas)) as [t|e] eqn:E;
      simpl; split_and!; try done.
    + by intros e' [= <-].
    + intros url. by rewrite E.
Qed.

(* ------------------------------------------------------------------ *)
(** ** The query string read back *)

Lemma occurs_app c (a b : string) : occurs c (a +:+ b) = occurs c a || occurs c b.
Proof.
  induction a as [|x a IH]; [done|].
  change (String x a +:+ b) with (String x (a +:+ b)). simpl. by rewrite IH, orb_assoc.
Qed.

Lemma occurs_cons c x (s : string) : occurs c (String x s) = Ascii.eqb x c || occurs c s.
Proof. done. Qed.

Lemma split_on_free sep (s : string) : occurs sep s = false → split_on sep s = [s].
Proof.
  induction s as [|x s IH]; [done|]. simpl.
  intros [Hx Hs]%orb_false_iff. by rewrite Hx, (IH Hs).
Qed.

Lemma split_on_app sep (a b : string) :
  occurs sep a = false → split_on sep (a +:+ String sep b) = a :: split_on sep b.
Proof.
  induction a as [|x a IH].
  - intros _. change (EmptyString +:+ String sep b) with (String sep b). simpl.
    by rewrite Ascii.eqb_refl.
  - change (String x a +:+ String sep b) with (String x (a +:+ String sep b)). simpl.
    intros [Hx Ha]%orb_false_iff. by rewrite Hx, (IH Ha).
Qed.

Lemma split_on_join sep (x : string) (xs : list string) :
  Forall (λ s, occurs sep s = false) (x :: xs) →
  split_on sep (JS.join (String sep EmptyString) (x :: xs)) = x :: xs.
Proof.
  revert x. induction xs as [|y xs IH]; intros x Hall.
  - apply split_on_free. by inversion Hall.
  - inversion Hall as [|? ? Hx Hrest]; subst.
    change (JS.join (String sep EmptyString) (x :: y :: xs))
      with (x +:+ String sep (JS.join (String sep EmptyString) (y :: xs))).
    by rewrite split_on_app, IH.
Qed.

Lemma form_encode_cons c (s : string) :
  JS.form_encode (String c s) = form_encode_char c +:+ JS.form_encode s.
Proof.
  unfold form_encode_char, JS.form_encode. simpl.
  destruct (JS.form_safe c); [done|]. by destruct (Ascii.eqb c " ").
Qed.

Lemma hex_digit_alnum n : JS.is_alnum (JS.hex_digit n) = true.
Proof. do 15 (destruct n as [|n]; [reflexivity|]). reflexivity. Qed.

Lemma alnum_not sep x : JS.is_alnum sep = false → JS.is_alnum x = true → Ascii.eqb x sep = false.
Proof.
  intros Hs Hx. destruct (Ascii.eqb x sep) eqn:E; [|done].
  apply Ascii.eqb_eq in E as ->. congruence.
Qed.

(** A character that the encoder neither keeps nor writes itself does not
    occur in an encoded string. *)
Lemma form_encode_free sep (s : string) :
  JS.form_safe sep = false → sep ≠ "+"%char → sep ≠ "%"%char →
  occurs sep (JS.form_encode s) = false.
Proof.
  intros Hsafe Hplus Hpct.
  assert (JS.is_alnum sep = false) as Halnum.
  { unfold JS.form_safe in Hsafe. by apply orb_false_iff in Hsafe as [? _]. }
  induction s as [|c s IH]; [done|].
  rewrite form_encode_cons, occurs_app, IH, orb_false_r.
  unfold form_encode_char. destruct (JS.form_safe c) eqn:Hc.
  - rewrite occurs_cons, orb_false_r. apply Ascii.eqb_neq. congruence.
  - destruct (Ascii.eqb c " ").
    + change "+" with (String "+"%char EmptyString).
      rewrite occurs_cons, orb_false_r. apply Ascii.eqb_neq. congruence.
    + unfold JS.percent. rewrite !occurs_cons.
      rewrite !(alnum_not sep (JS.hex_digit _) Halnum (hex_digit_alnum _)).
      rewrite !orb_false_r. apply Ascii.eqb_neq. congruence.
Qed.

Lemma form_decode_char c (rest : string) :
  form_decode (form_encode_char c +:+ rest) = String c (form_decode rest).
Proof. destruct c as [[] [] [] [] [] [] [] []]; reflexivity. Qed.

Lemma form_decode_encode (s : string) : form_decode (JS.form_encode s) = s.
Proof.
  induction s as [|c s IH]; [done|].
  by rewrite form_encode_cons, form_decode_char, IH.
Qed.

Lemma parse_entry_entry (kv : string * string) :
  parse_entry (URLSearchParams.entry kv) = kv.
Proof.
  destruct kv as [k v]. unfold parse_entry, URLSearchParams.entry. simpl.
  change (JS.form_encode k +:+ "=" +:+ JS.form_encode v)
    with (JS.form_encode k +:+ String "=" (JS.form_encode v)).
  rewrite split_on_app by by apply form_encode_free.
  rewrite split_on_free by by apply form_encode_free.
  change (JS.join "=" [JS.form_encode v]) with (JS.form_encode v).
  by rewrite !form_decode_encode.
Qed.

Lemma entry_free_amp (kv : string * string) :
  occurs "&" (URLSearchParams.entry kv) = false.
Proof.
  unfold URLSearchParams.entry. rewrite !occurs_app.
  by rewrite !form_encode_free.
Qed.

Lemma entry_nonempty (kv : string * string) :
  ∃ c r, URLSearchParams.entry kv = String c r.
Proof.
  unfold URLSearchParams.entry. destruct (JS.form_encode (fst kv)) as [|c r]; by eexists _, _.
Qed.

Lemma parse_query_toString (ps : URLSearchParams.t) :
  parse_query (URLSearchParams.toString ps) = ps.
Proof.
  destruct ps as [|kv ps]; [done|].
  unfold parse_query, URLSearchParams.toString.
  assert (∃ c r, JS.join "&" (map URLSearchParams.entry (kv :: ps)) = String c r)
    as (c & r & Hq).
  { destruct (entry_nonempty kv) as (c & r & He). simpl. rewrite He.
    destruct (map URLSearchParams.entry ps); by eexists _, _. }
  rewrite Hq, <- Hq.
  change (map URLSearchParams.entry (kv :: ps))
    with (URLSearchParams.entry kv :: map URLSearchParams.entry ps).
  rewrite split_on_join.
  - rewrite <- (map_cons URLSearchParams.entry), map_map.
    rewrite <- (map_id (kv :: ps)) at 2. apply map_ext. apply parse_entry_entry.
  - rewrite <- (map_cons URLSearchParams.entry). apply Forall_map, Forall_true.
    apply entry_free_amp.
Qed.

(** The query string of a parameter bundle, split at [&] and [=] and
    decoded, is the list of parameters that [buildQueryString] set, names and
    values intact and in order: no asset name, expression or other value can
    add, drop or split a parameter. *)
Theorem query_string_round_trip (params : TileParams) :
  parse_query (buildQueryString params) = buildQueryParams params ∧
  (buildQueryParams params ≠ [] →
   split_on "&" (buildQueryString params) =
     map URLSearchParams.entry (buildQueryParams params)) ∧
  (buildQueryString params = EmptyString ↔ buildQueryParams params = []).
Proof.
  split_and!.
  - apply parse_query_toString.
  - unfold buildQueryString, URLSearchParams.toString.
    destruct (buildQueryParams params) as [|kv ps]; [done|]. intros _.
    change (map URLSearchParams.entry (kv :: ps))
      with (URLSearchParams.entry kv :: map URLSearchParams.entry ps).
    apply split_on_join.
    rewrite <- (map_cons URLSearchParams.entry). apply Forall_map, Forall_true.
    apply entry_free_amp.
  - split.
    + intros Hq. rewrite <- (parse_query_toString (buildQueryParams params)).
      fold (buildQueryString params). by rewrite Hq.
    + intros Hp. unfold buildQueryString. by rewrite Hp.
Qed.

(* ------------------------------------------------------------------ *)
(** ** Tile URLs without parameters *)

Lemma set_if_nil k v (ps : URLSearchParams.t) :
  set_if k v ps = [] ↔ v = None ∧ ps = [].
Proof.
  destruct v as [s|]; simpl; [|by split; [|intros [_ ?]]].
  split; [|by intros [? _]]. destruct ps as [|[k' v'] ps]; simpl; [done|].
  by destruct (String.eqb k' k).
Qed.

Lemma append_each_nil k vs (ps : URLSearchParams.t) :
  append_each k vs ps = [] ↔ vs = [] ∧ ps = [].
Proof.
  rewrite append_each_app. split.
  - intros [-> Hm]%app_eq_nil. split; [|done]. by destruct vs.
  - by intros [-> ->].
Qed.

Lemma buildQueryParams_nil (params : TileParams) :
  buildQueryParams params = [] ↔ nothing_to_serialize params.
Proof.
  unfold buildQueryParams, nothing_to_serialize, URLSearchParams.empty.
  rewrite append_each_nil, !set_if_nil, append_each_nil.
  rewrite !fmap_None.
  assert (map (λ ab : string * string, ab.1 +:+ "|" +:+ ab.2)
              (default [] (tp_asset_bidx params)) = []
          ↔ default [] (tp_asset_bidx params) = []) as ->
    by (split; [apply map_eq_nil | by intros ->]).
  assert (match tp_tile_size params with
          | Some n => if num_truthy n then Some (num_String n) else None
          | None => None
          end = None ↔ ∀ n, tp_tile_size params = Some n → num_truthy n = false) as ->.
  { destruct (tp_tile_size params) as [n|]; [|by split].
    destruct (num_truthy n) eqn:E.
    - split; [done|]. intros H. specialize (H n eq_refl). congruence.
    - split; [|done]. by intros _ ? [= <-]. }
  tauto.
Qed.

Lemma truthy_empty (s : string) : JS.truthy s = false ↔ s = EmptyString.
Proof. by destruct s. Qed.

(** A tile URL carries rendering parameters exactly when the bundle has
    something to serialize.  With nothing to serialize the entry URL ends at
    its [item] parameter and the mosaic URL at its [collection] parameter,
    without a dangling [&] or [?]; search parameters without a non-empty
    [datetime] and without a [bbox] add nothing either.  Otherwise the query
    follows after one [&]. *)
Theorem tile_url_without_parameters (c : TiTilerClient) (collectionId itemId : string)
    (params : TileParams) :
  (buildQueryString params = EmptyString ↔ nothing_to_serialize params) ∧
  (nothing_to_serialize params →
     getItemTileUrl c collectionId itemId params = itemUrlBase c collectionId itemId ∧
     getCollectionTileUrl c collectionId params None = mosaicUrlBase c collectionId ∧
     ∀ sp, no_window sp →
       getCollectionTileUrl c collectionId params (Some sp) = mosaicUrlBase c collectionId) ∧
  (¬ nothing_to_serialize params →
     getItemTileUrl c collectionId itemId params =
       itemUrlBase c collectionId itemId +:+ "&" +:+ buildQueryString params ∧
     getCollectionTileUrl c collectionId params None =
       mosaicUrlBase c collectionId +:+ "&" +:+ buildQueryString params).
Proof.
  assert (buildQueryString params = EmptyString ↔ nothing_to_serialize params) as Hiff.
  { rewrite <- buildQueryParams_nil. split.
    - intros Hq. rewrite <- (parse_query_toString (buildQueryParams params)).
      fold (buildQueryString params). by rewrite Hq.
    - intros Hp. unfold buildQueryString. by rewrite Hp. }
  split_and!; [done| |].
  - intros Hq%Hiff. split_and!.
    + unfold getItemTileUrl, itemUrlBase. rewrite Hq. simpl.
      by rewrite app_empty_r.
    + unfold getCollectionTileUrl, mosaicUrlBase. rewrite Hq.
      try rewrite !app_assoc_string; reflexivity.
    + intros sp [Hd Hb]. unfold getCollectionTileUrl, mosaicUrlBase.
      rewrite Hq. unfold buildSearchParams, buildSearchParts. rewrite Hb.
      unfold truthy_string in Hd. destruct (sp_datetime sp) as [d|].
      * destruct (JS.truthy d); [done|]. try rewrite !app_assoc_string; reflexivity.
      * try rewrite !app_assoc_string; reflexivity.
  - intros Hn. assert (JS.truthy (buildQueryString params) = true) as Ht.
    { destruct (JS.truthy _) eqn:E; [done|]. by apply truthy_empty, Hiff in E. }
    split; [by apply getItemTileUrl_query|].
    unfold getCollectionTileUrl, mosaicUrlBase.
    destruct (buildQueryString params) as [|x q]; [done|].
    try rewrite !app_assoc_string; reflexivity.
Qed.

(* ------------------------------------------------------------------ *)
(** ** The invariant of the registry *)

Lemma consistent_new (m : MapLibreMap) (c : TiTilerClient) :
  host_wf m → consistent (new_LayerManager m c).
Proof. intros Hwf. split; [done|]. intros id layer H. simpl in H. by rewrite lookup_empty in H. Qed.

Lemma registered_consistent (src : RasterSource) (layer : ActiveLayer) (st : LayerManager) :
  consistent st →
  sources (mgr_map st) !! layer_sourceId layer = None →
  consistent (registered src layer st).
Proof.
  intros [Hwf Hback] Hs.
  pose proof (host_wf_unused _ _ Hwf Hs) as Hunused.
  split.
  - intros k l Hk. simpl in *. apply lookup_insert_Some in Hk as [[_ <-] | [_ Hk]].
    + simpl. rewrite lookup_insert_eq. by eexists.
    + apply lookup_insert_is_Some'. right. by apply (Hwf k).
  - intros id layer' Hrec. simpl in Hrec.
    apply lookup_insert_Some in Hrec as [[<- <-] | [Hne Hrec]].
    + split_and!; simpl.
      * eexists. by rewrite lookup_insert_eq.
      * rewrite lookup_insert_eq. by eexists.
      * intros k l Hk Hl. simpl in Hl. rewrite lookup_insert_ne in Hl by done.
        by apply (Hunused k).
    + destruct (Hback id layer' Hrec) as ((l & Hl & Hsrc) & [s' Hs'] & Hsole).
      assert (layer_sourceId layer' ≠ layer_sourceId layer) as Hdiff by congruence.
      split_and!; simpl.
      * exists l. by rewrite lookup_insert_ne.
      * rewrite lookup_insert_ne by done. by eexists.
      * intros k l' Hk Hl'. simpl in Hl'.
        apply lookup_insert_Some in Hl' as [[_ <-] | [_ Hl']]; [by simpl|].
        by apply (Hsole k).
Qed.

(** What [removeLayer] does on a consistent manager. *)
Lemma removeLayer_consistent (layerId : string) (st : LayerManager) :
  consistent st →
  ∃ st', removeLayer layerId st = (Normal tt, st') ∧
         consistent st' ∧
         mgr_layers st' = delete layerId (mgr_layers st) ∧
         match mgr_layers st !! layerId with
         | Some layer =>
             liveLayers (mgr_map st') = delete layerId (liveLayers (mgr_map st)) ∧
             sources (mgr_map st') = delete (layer_sourceId layer) (sources (mgr_map st)) ∧
             calls (mgr_map st') =
               calls (mgr_map st) ++
               [call_removeLayer layerId; call_removeSource (layer_sourceId layer)]
         | None => st' = st
         end.
Proof.
  intros [Hwf Hback].
  destruct (mgr_layers st !! layerId) as [layer|] eqn:Hrec; cycle 1.
  { exists st. split_and!; [|done| |done].
    - unfold removeLayer, bind, gets. by rewrite Hrec.
    - by rewrite delete_id. }
  destruct (Hback layerId layer Hrec) as ((l & Hl & Hsrc) & [s Hs] & Hsole).
  eexists. split; [by apply (removeLayer_run _ _ layer l s)|].
  split_and!; [|done..]. split.
  - intros k l' Hk. simpl in *. apply lookup_delete_Some in Hk as [Hne Hk].
    rewrite lookup_delete_ne; [by apply (Hwf k)|]. intros Heq.
    by apply (Hsole k l').
  - intros id layer' Hrec'. simpl in Hrec'.
    apply lookup_delete_Some in Hrec' as [Hne Hrec'].
    destruct (Hback id layer' Hrec') as ((l' & Hl' & Hsrc') & [s' Hs'] & Hsole').
    assert (layer_sourceId layer' ≠ layer_sourceId layer) as Hdiff.
    { rewrite <- Hsrc'. by apply (Hsole id l'). }
    split_and!; simpl.
    + exists l'. by rewrite lookup_delete_ne.
    + rewrite lookup_delete_ne by done. by eexists.
    + intros k l'' Hk Hl''. simpl in Hl''. apply lookup_delete_Some in Hl'' as [_ Hl''].
      by apply (Hsole' k).
Qed.

(** [updateLayer] on a registered record whose layer is live, whose source
    is there and has no other user: it succeeds, and the state it leaves. *)
Lemma updateLayer_run (layerId : string) (updates : LayerUpdates) (st : LayerManager)
    (layer : ActiveLayer) (l : RasterLayer) (s : RasterSource) :
  mgr_layers st !! layerId = Some layer →
  liveLayers (mgr_map st) !! layerId = Some l →
  sources (mgr_map st) !! layer_sourceId layer = Some s →
  sole_user layerId (layer_sourceId layer) (mgr_map st) →
  updateLayer layerId updates st = (Normal tt, after_update layerId updates layer l st).
Proof.
  intros Hrec Hlive Hsrc Hsole. unfold updateLayer, after_update, recreation.
  erewrite bind_Normal; [|apply gets_run]. cbv beta. rewrite Hrec.
  rewrite (direct_updates_run _ _ _ l) by done.
  set (st1 := with_map _ st).
  assert (mgr_layers st1 !! layerId = Some layer) as Hrec1 by done.
  assert (match upd_renderParams updates, upd_assets updates with
          | None, None => ret tt
          | _, _ => updateLayerSource layerId updates
          end st1 =
          match match upd_renderParams updates, upd_assets updates with
                | None, None => None
                | _, _ => rebuiltTileUrl (mgr_tilerClient st) layer updates
                end with
          | None => (Normal tt, st1)
          | Some tileUrl => updateLayerSource layerId updates st1
          end) as Hsrcstep.
  { destruct (rebuiltTileUrl (mgr_tilerClient st) layer updates) as [url|] eqn:Hurl.
    - by destruct (upd_renderParams updates), (upd_assets updates).
    - destruct (upd_renderParams updates), (upd_assets updates);
        try done; by apply (updateLayerSource_skip _ _ _ layer). }
  unfold bind at 1. rewrite Hsrcstep.
  destruct (match upd_renderParams updates, upd_assets updates with
            | None, None => None
            | _, _ => rebuiltTileUrl (mgr_tilerClient st) layer updates
            end) as [tileUrl|] eqn:Hre.
  - assert (rebuiltTileUrl (mgr_tilerClient st1) layer updates = Some tileUrl) as Hurl.
    { destruct (upd_renderParams updates), (upd_assets updates); done. }
    rewrite (updateLayerSource_run _ _ _ layer (live_after_direct l updates) s tileUrl);
      [|done|done| | |].
    + unfold layers_set, modify, st1, with_layers, with_map. simpl.
      by rewrite insert_insert_eq, <- app_assoc.
    + unfold st1. simpl. apply lookup_insert_eq.
    + done.
    + intros k l' Hne Hk. unfold st1 in Hk. simpl in Hk.
      rewrite lookup_insert_ne in Hk by done. by apply (Hsole k l').
  - done.
Qed.

Lemma after_update_consistent (layerId : string) (updates : LayerUpdates)
    (st : LayerManager) (layer : ActiveLayer) (l : RasterLayer) :
  consistent st →
  mgr_layers st !! layerId = Some layer →
  liveLayers (mgr_map st) !! layerId = Some l →
  lyr_source l = layer_sourceId layer →
  upd_sourceId updates = None →
  consistent (after_update layerId updates layer l st).
Proof.
  intros [Hwf Hback] Hrec Hlive Hlsrc Hupd.
  destruct (Hback layerId layer Hrec) as (_ & [s Hs] & Hsole).
  set (st' := after_update layerId updates layer l st).
  assert (∃ L, liveLayers (mgr_map st') = <[layerId := L]> (liveLayers (mgr_map st)) ∧
               lyr_source L = layer_sourceId layer) as (L & HL & HLsrc).
  { unfold st', after_update. destruct (recreation _ _ _); eexists; by split. }
  assert (∀ x, is_Some (sources (mgr_map st) !! x) → is_Some (sources (mgr_map st') !! x))
    as Hmono.
  { intros x Hx. unfold st', after_update. destruct (recreation _ _ _); simpl; [|done].
    apply lookup_insert_is_Some'. by right. }
  assert (mgr_layers st' = <[layerId := spread_layer layer updates]> (mgr_layers st))
    as Hlayers by done.
  assert (layer_sourceId (spread_layer layer updates) = layer_sourceId layer) as Hsid.
  { unfold spread_layer. simpl. by rewrite Hupd. }
  clearbody st'. split.
  - intros k l' Hk. rewrite HL in Hk.
    apply lookup_insert_Some in Hk as [[_ <-] | [_ Hk]].
    + rewrite HLsrc. apply Hmono. by eexists.
    + apply Hmono. by apply (Hwf k).
  - intros id layer' Hrec'. rewrite Hlayers in Hrec'.
    apply lookup_insert_Some in Hrec' as [[<- <-] | [Hne Hrec']].
    + unfold backed. rewrite Hsid, HL. split_and!.
      * exists L. by rewrite lookup_insert_eq.
      * apply Hmono. by eexists.
      * intros k l' Hk Hl'. simpl in Hl'. rewrite HL in Hl'.
        rewrite lookup_insert_ne in Hl' by done. by apply (Hsole k).
    + destruct (Hback id layer' Hrec') as ((l' & Hl' & Hsrc') & Hs' & Hsole').
      split_and!.
      * exists l'. by rewrite HL, lookup_insert_ne.
      * by apply Hmono.
      * intros k l'' Hk Hl''. rewrite HL in Hl''.
        apply lookup_insert_Some in Hl'' as [[<- <-] | [_ Hl'']]; [|by apply (Hsole' k)].
        rewrite HLsrc, <- Hlsrc. by apply (Hsole' layerId l).
Qed.

(** The invariant of the registry holds for a new manager and is kept by
    every operation that returns; on a consistent manager [removeLayer] and
    [updateLayer] (without a [sourceId] among the updates) always return. *)
Theorem registry_stays_consistent :
  (∀ m c, host_wf m → consistent (new_LayerManager m c)) ∧
  (∀ generated item options (st st' : LayerManager) layer,
     consistent st →
     addItemLayer generated item options st = (Normal layer, st') → consistent st') ∧
  (∀ generated collection options (st st' : LayerManager) layer,
     consistent st →
     addCollectionLayer generated collection options st = (Normal layer, st') →
     consistent st') ∧
  (∀ layerId (st : LayerManager),
     consistent st →
     ∃ st', removeLayer layerId st = (Normal tt, st') ∧ consistent st') ∧
  (∀ layerId updates (st : LayerManager),
     consistent st → upd_sourceId updates = None →
     ∃ st', updateLayer layerId updates st = (Normal tt, st') ∧ consistent st').
Proof.
  split_and!.
  - apply consistent_new.
  - intros generated item options st st' layer Hc Hadd.
    pose proof (addItemLayer_Normal _ _ _ _ _ _ Hadd) as Hfresh.
    rewrite (addItemLayer_run _ _ _ _ Hfresh) in Hadd. injection Hadd as <- <-.
    apply registered_consistent; [done|]. destruct Hfresh as [Hs _].
    unfold itemLayer. by destruct (resolveItemParams item options) as [[? ?] ?].
  - intros generated collection options st st' layer Hc Hadd.
    pose proof (addCollectionLayer_Normal _ _ _ _ _ _ Hadd) as Hfresh.
    rewrite (addCollectionLayer_run _ _ _ _ Hfresh) in Hadd. injection Hadd as <- <-.
    apply registered_consistent; [done|]. destruct Hfresh as [Hs _].
    unfold collectionLayer.
    by destruct (resolveCollectionParams collection options) as [[? ?] ?].
  - intros layerId st Hc.
    destruct (removeLayer_consistent layerId st Hc) as (st' & H1 & H2 & _). by exists st'.
  - intros layerId updates st Hc Hupd.
    destruct (mgr_layers st !! layerId) as [layer|] eqn:Hrec; cycle 1.
    { exists st. split; [|done]. unfold updateLayer, bind, gets. by rewrite Hrec. }
    destruct (proj2 Hc layerId layer Hrec) as ((l & Hl & Hsrc) & [s Hs] & Hsole).
    eexists. split; [by apply (updateLayer_run _ _ _ layer l s)|].
    by apply after_update_consistent.
Qed.

(** On a consistent manager [removeLayer] and [updateLayer] of one layer
    leave every other record, every other live layer and every other source
    as they were. *)
Theorem operations_touch_one_layer (layerId : string) (st : LayerManager) (layer : ActiveLayer) :
  consistent st →
  mgr_layers st !! layerId = Some layer →
  (∃ st', removeLayer layerId st = (Normal tt, st') ∧
          same_elsewhere layerId (layer_sourceId layer) st st') ∧
  (∀ updates, ∃ st', updateLayer layerId updates st = (Normal tt, st') ∧
                     same_elsewhere layerId (layer_sourceId layer) st st').
Proof.
  intros Hc Hrec. split.
  - destruct (removeLayer_consistent layerId st Hc) as (st' & Hrun & _ & Hl & Hrest).
    rewrite Hrec in Hrest. destruct Hrest as (Hlive & Hsrc & _).
    exists st'. split; [done|]. split_and!.
    + destruct (proj2 Hc layerId layer Hrec) as ((l & Hl' & _) & [s Hs] & Hsole).
      rewrite (removeLayer_run _ _ layer l s Hrec Hl' Hs Hsole) in Hrun.
      by injection Hrun as <-.
    + intros other Hne. rewrite Hl, Hlive. by rewrite !lookup_delete_ne.
    + intros other Hne. rewrite Hsrc. by rewrite lookup_delete_ne.
  - intros updates.
    destruct (proj2 Hc layerId layer Hrec) as ((l & Hl & _) & [s Hs] & Hsole).
    eexists. split; [by apply (updateLayer_run _ _ _ layer l s)|].
    unfold after_update. split_and!; [done| |].
    + intros other Hne. simpl. rewrite lookup_insert_ne by done. split; [done|].
      destruct (recreation _ _ _); simpl; by rewrite lookup_insert_ne.
    + intros other Hne. destruct (recreation _ _ _); simpl; [|done].
      by rewrite lookup_insert_ne.
Qed.

Lemma after_update_view (layerId : string) (updates : LayerUpdates)
    (st : LayerManager) (layer : ActiveLayer) (l : RasterLayer) :
  view_in_sync layer l →
  ∃ L, liveLayers (mgr_map (after_update layerId updates layer l st)) !! layerId = Some L ∧
       view_in_sync (spread_layer layer updates) L.
Proof.
  intros [Ho Hv].
  assert (view_in_sync (spread_layer layer updates) (live_after_direct l updates)) as Hsync.
  { unfold view_in_sync, spread_layer, live_after_direct. simpl. split.
    - destruct (upd_opacity updates); simpl; [done|]. by rewrite Ho.
    - destruct (upd_visible updates) as [[]|]; simpl; [by split| |done].
      split; [done|]. by intros []. }
  unfold after_update. destruct (recreation _ _ _); simpl; rewrite lookup_insert_eq.
  - eexists. split; [done|]. destruct Hsync as [Ho' Hv']. split; [|done].
    change (lyr_opacity (recreated_layer (layer_sourceId layer) (live_after_direct l updates)))
      with (Some (default (num_lit 1) (lyr_opacity (live_after_direct l updates)))).
    by rewrite Ho'.
  - by eexists.
Qed.

(** The record of every layer shows the visibility and the opacity of its
    live layer: this holds after each add and is kept by each update and
    each removal on a consistent manager. *)
Theorem visibility_and_opacity_stay_in_sync :
  (∀ generated item options (st st' : LayerManager) layer,
     consistent st → views_in_sync st →
     addItemLayer generated item options st = (Normal layer, st') → views_in_sync st') ∧
  (∀ generated collection options (st st' : LayerManager) layer,
     consistent st → views_in_sync st →
     addCollectionLayer generated collection options st = (Normal layer, st') →
     views_in_sync st') ∧
  (∀ layerId updates (st st' : LayerManager),
     consistent st → views_in_sync st →
     updateLayer layerId updates st = (Normal tt, st') → views_in_sync st') ∧
  (∀ layerId (st st' : LayerManager),
     consistent st → views_in_sync st →
     removeLayer layerId st = (Normal tt, st') → views_in_sync st').
Proof.
  assert (∀ src layer (st : LayerManager),
            views_in_sync st → layer_visible layer = true →
            layer_opacity layer = num_lit 1 →
            views_in_sync (registered src layer st)) as Hreg.
  { intros src layer st Hv Hvis Hop id layer' l' Hrec Hlive. simpl in *.
    destruct (decide (id = layer_id layer)) as [->|Hne].
    - rewrite lookup_insert_eq in Hrec. rewrite lookup_insert_eq in Hlive.
      injection Hrec as <-. injection Hlive as <-.
      split; simpl; [by rewrite Hop|]. by rewrite Hvis.
    - rewrite lookup_insert_ne in Hrec by done. rewrite lookup_insert_ne in Hlive by done.
      by apply (Hv id). }
  split_and!.
  - intros generated item options st st' layer Hc Hv Hadd.
    pose proof (addItemLayer_Normal _ _ _ _ _ _ Hadd) as Hfresh.
    rewrite (addItemLayer_run _ _ _ _ Hfresh) in Hadd. injection Hadd as <- <-.
    apply Hreg; [done|..]; unfold itemLayer;
      by destruct (resolveItemParams item options) as [[? ?] ?].
  - intros generated collection options st st' layer Hc Hv Hadd.
    pose proof (addCollectionLayer_Normal _ _ _ _ _ _ Hadd) as Hfresh.
    rewrite (addCollectionLayer_run _ _ _ _ Hfresh) in Hadd. injection Hadd as <- <-.
    apply Hreg; [done|..]; unfold collectionLayer;
      by destruct (resolveCollectionParams collection options) as [[? ?] ?].
  - intros layerId updates st st' Hc Hv Hupd.
    destruct (mgr_layers st !! layerId) as [layer|] eqn:Hrec; cycle 1.
    { unfold updateLayer, bind, gets in Hupd. rewrite Hrec in Hupd.
      by injection Hupd as <-. }
    destruct (proj2 Hc layerId layer Hrec) as ((l & Hl & _) & [s Hs] & Hsole).
    rewrite (updateLayer_run _ _ _ layer l s Hrec Hl Hs Hsole) in Hupd.
    injection Hupd as <-.
    destruct (after_update_view layerId updates st layer l (Hv _ _ _ Hrec Hl))
      as (L & HL & Hsync).
    intros id layer' l' Hrec' Hlive'.
    destruct (decide (id = layerId)) as [->|Hne].
    + rewrite HL in Hlive'. injection Hlive' as <-.
      unfold after_update in Hrec'. simpl in Hrec'.
      rewrite lookup_insert_eq in Hrec'. by injection Hrec' as <-.
    + unfold after_update in Hrec', Hlive'. simpl in Hrec'.
      rewrite lookup_insert_ne in Hrec' by done.
      destruct (recreation _ _ _); simpl in Hlive';
        rewrite lookup_insert_ne in Hlive' by done; by apply (Hv id).
  - intros layerId st st' Hc Hv Hrem.
    destruct (removeLayer_consistent layerId st Hc) as (st'' & Hrun & _ & Hl & Hrest).
    rewrite Hrun in Hrem. injection Hrem as <-.
    intros id layer' l' Hrec' Hlive'. rewrite Hl in Hrec'.
    apply lookup_delete_Some in Hrec' as [Hne Hrec'].
    destruct (mgr_layers st !! layerId) as [layer|].
    + destruct Hrest as (Hlive & _). rewrite Hlive in Hlive'.
      rewrite lookup_delete_ne in Hlive' by done. by apply (Hv id).
    + subst st''. by apply (Hv id).
Qed.

(** An id that is not registered: [updateLayer] and [updateLayerSource]
    return without touching the manager, whatever the updates are;
    [zoomToLayer] asks for no fit, and [getLayer] answers nothing. *)
Lemma unknown_layer_is_ignored (layerId : string) (updates : LayerUpdates)
    (st : LayerManager) :
  mgr_layers st !! layerId = None →
  updateLayer layerId updates st = (Normal tt, st) ∧
  updateLayerSource layerId updates st = (Normal tt, st) ∧
  zoomToLayer layerId st = None ∧
  layers_get layerId st = None.
Proof.
  intros Hrec. unfold updateLayer, updateLayerSource, zoomToLayer, layers_get, bind, gets.
  by rewrite Hrec.
Qed.

(* ------------------------------------------------------------------ *)
(** ** Adds that fail *)

Lemma add_tail_outcome (layerId : string) (src : RasterSource) (layer : ActiveLayer)
    (st : LayerManager) :
  layer_id layer = layerId → layer_sourceId layer = sourceIdOf layerId →
  add_outcome ((on_map (addSource (sourceIdOf layerId) src) ;;
                on_map (addLayer layerId (fresh_layer (sourceIdOf layerId))) ;;
                layers_set layerId layer ;;
                ret layer) st) layerId src st.
Proof.
  intros Hid Hsid. rewrite (add_tail_run _ _ _ _ Hid Hsid). unfold add_outcome, fresh_ids.
  destruct (sources (mgr_map st) !! sourceIdOf layerId) as [s|] eqn:Hs.
  { split_and!.
    - split; [by intros [? ?] | by intros [? _]].
    - intros _. by eexists.
    - done. }
  destruct (liveLayers (mgr_map st) !! layerId) as [l|] eqn:Hl.
  - split_and!.
    + split; [by intros [? ?] | by intros [_ ?]].
    + by intros [? ?].
    + intros _ _. eexists. split_and!; [done|done| |].
      * simpl. apply lookup_insert_eq.
      * intros Hrec. simpl. unfold removeLayer, bind, gets. simpl. by rewrite Hrec.
  - split_and!.
    + split; [done|]. intros _. by eexists.
    + by intros [? ?].
    + by intros _ [? ?].
Qed.

Lemma registered_layers (src : RasterSource) (layer : ActiveLayer) (st : LayerManager) :
  mgr_layers (registered src layer st) = <[layer_id layer := layer]> (mgr_layers st).
Proof. done. Qed.

Lemma addItemLayer_outcome generated item options (st : LayerManager) :
  add_outcome (addItemLayer generated item options st)
    (newLayerId (item_id item) generated)
    (itemSource (mgr_tilerClient st) item options) st.
Proof.
  unfold addItemLayer, itemSource.
  destruct (resolveItemParams item options) as [[renderParams presetName] assets].
  unfold bind at 1. unfold gets at 1. by apply add_tail_outcome.
Qed.

Lemma addCollectionLayer_outcome generated collection options (st : LayerManager) :
  add_outcome (addCollectionLayer generated collection options st)
    (newLayerId (collectionLayerName collection) generated)
    (collectionSource (mgr_tilerClient st) collection options) st.
Proof.
  unfold addCollectionLayer, collectionSource.
  destruct (resolveCollectionParams collection options) as [[renderParams presetName] assets].
  unfold bind at 1. unfold gets at 1. by apply add_tail_outcome.
Qed.

(** An add returns exactly when the host holds neither the source id nor the
    layer id it is about to use.  When the source id is taken it throws and
    changes nothing.  When only the layer id is taken it throws after the host
    has served [addSource]: no record is stored, the source stays with the
    host, and [removeLayer] on the id does not reach it. *)
Theorem failed_add_stores_no_record (generated : string) (st : LayerManager) :
  (∀ item options,
     add_outcome (addItemLayer generated item options st)
       (newLayerId (item_id item) generated)
       (itemSource (mgr_tilerClient st) item options) st) ∧
  (∀ collection options,
     add_outcome (addCollectionLayer generated collection options st)
       (newLayerId (collectionLayerName collection) generated)
       (collectionSource (mgr_tilerClient st) collection options) st).
Proof.
  split.
  - intros item options. apply addItemLayer_outcome.
  - intros collection options. apply addCollectionLayer_outcome.
Qed.

(* ------------------------------------------------------------------ *)
(** ** What a re-created source is built from *)

Lemma getAll_assets_query (params : TileParams) :
  URLSearchParams.getAll "assets" (buildQueryParams params) = default [] (tp_assets params).
Proof.
  destruct (buildQueryParams_shape params) as (rest & Hrest & ->).
  apply getAll_assets. apply Forall_app. split.
  - unfold expression_entries. destruct (truthy_string _); by repeat constructor.
  - eapply Forall_impl; [exact Hrest|]. by intros kv [? _].
Qed.

Lemma rebuiltTileUrl_origin (client : TiTilerClient) (layer : ActiveLayer)
    (updates : LayerUpdates) (url : string) :
  rebuiltTileUrl client layer updates = Some url ↔
  origin_url client layer (rebuilt_params layer updates) url.
Proof.
  unfold rebuiltTileUrl, origin_url, rebuilt_params.
  destruct (layer_type layer), (layer_item layer), (layer_collection layer);
    split; try done; try (by intros [= <-]); by intros ->.
Qed.

(** An update that carries [renderParams] or [assets], on a consistent
    manager and a record whose origin matches its kind, leaves a source whose
    tile URL is the one of the record's origin under the merged bundle, and
    whose bounds are those of the origin.  The assets the URL asks for are the
    [assets] of the updates or else of the old record, whatever asset list the
    [renderParams] of the updates hold; the record stores the [renderParams]
    of the updates as they came, not the merged bundle. *)
Theorem recreated_source_follows_record (layerId : string) (updates : LayerUpdates)
    (st : LayerManager) (layer : ActiveLayer) :
  consistent st →
  mgr_layers st !! layerId = Some layer →
  origin_ok layer →
  is_Some (upd_renderParams updates) ∨ is_Some (upd_assets updates) →
  ∃ st' url stored,
    updateLayer layerId updates st = (Normal tt, st') ∧
    sources (mgr_map st') !! layer_sourceId layer =
      Some (raster_source url (layer_bounds layer)) ∧
    origin_url (mgr_tilerClient st) layer (rebuilt_params layer updates) url ∧
    URLSearchParams.getAll "assets" (buildQueryParams (rebuilt_params layer updates)) =
      default (layer_assets layer) (upd_assets updates) ∧
    mgr_layers st' !! layerId = Some stored ∧
    layer_renderParams stored = default (layer_renderParams layer) (upd_renderParams updates) ∧
    layer_assets stored = default (layer_assets layer) (upd_assets updates).
Proof.
  intros Hc Hrec Horigin Hupd.
  destruct (proj2 Hc layerId layer Hrec) as ((l & Hl & _) & [s Hs] & Hsole).
  destruct (rebuiltTileUrl_origin_ok (mgr_tilerClient st) layer updates Horigin)
    as [url Hurl].
  exists (after_update layerId updates layer l st), url, (spread_layer layer updates).
  split; [by apply (updateLayer_run _ _ _ layer l s)|].
  assert (recreation (mgr_tilerClient st) layer updates = Some url) as Hre.
  { unfold recreation. destruct Hupd as [[? ->] | [? ->]]; [done|].
    by destruct (upd_renderParams updates). }
  split_and!.
  - unfold after_update. rewrite Hre. simpl. apply lookup_insert_eq.
  - by apply rebuiltTileUrl_origin.
  - by rewrite getAll_assets_query.
  - unfold after_update. simpl. apply lookup_insert_eq.
  - done.
  - done.
Qed.

(** A collection layer added with a [bbox] option has a source with these
    bounds; the first update that carries [renderParams] or [assets] replaces
    the source by one bounded by the extent of the collection, and the [bbox]
    of the add is gone. *)
Theorem recreation_reverts_to_collection_extent (generated : string)
    (collection : STACCollection) (options : CollectionLayerOptions) (bbox : list number)
    (updates : LayerUpdates) (st : LayerManager) :
  consistent st →
  fresh_ids (newLayerId (collectionLayerName collection) generated) st →
  copt_bbox options = Some bbox →
  is_Some (upd_renderParams updates) ∨ is_Some (upd_assets updates) →
  ∃ layer st1 src1 st2 src2,
    addCollectionLayer generated collection (Some options) st = (Normal layer, st1) ∧
    sources (mgr_map st1) !! layer_sourceId layer = Some src1 ∧
    src_bounds src1 = Some bbox ∧
    updateLayer (layer_id layer) updates st1 = (Normal tt, st2) ∧
    sources (mgr_map st2) !! layer_sourceId layer = Some src2 ∧
    src_bounds src2 = getCollectionBounds collection.
Proof.
  intros Hc Hfresh Hbbox Hupd.
  set (layer := collectionLayer generated collection (Some options)).
  set (src := collectionSource (mgr_tilerClient st) collection (Some options)).
  assert (layer_sourceId layer = sourceIdOf (newLayerId (collectionLayerName collection) generated)
          ∧ layer_id layer = newLayerId (collectionLayerName collection) generated
          ∧ layer_type layer = ty_collection ∧ layer_item layer = None
          ∧ layer_collection layer = Some collection) as (Hsid & Hid & Hty & Hitem & Hcoll).
  { unfold layer, collectionLayer.
    by destruct (resolveCollectionParams collection (Some options)) as [[? ?] ?]. }
  assert (sources (mgr_map st) !! layer_sourceId layer = None) as Hnone.
  { rewrite Hsid. apply Hfresh. }
  pose proof (registered_consistent src layer st Hc Hnone) as Hc1.
  assert (mgr_layers (registered src layer st) !! layer_id layer = Some layer) as Hrec1.
  { simpl. apply lookup_insert_eq. }
  assert (origin_ok layer) as Horigin.
  { unfold origin_ok. rewrite Hty, Hcoll. by eexists. }
  destruct (proj2 Hc1 (layer_id layer) layer Hrec1) as ((l & Hl & _) & [s Hs] & Hsole).
  destruct (rebuiltTileUrl_origin_ok (mgr_tilerClient (registered src layer st)) layer updates
              Horigin) as [url Hurl].
  assert (recreation (mgr_tilerClient (registered src layer st)) layer updates = Some url)
    as Hre.
  { unfold recreation. destruct Hupd as [[? ->] | [? ->]]; [done|].
    by destruct (upd_renderParams updates). }
  exists layer, (registered src layer st), src,
    (after_update (layer_id layer) updates layer l (registered src layer st)),
    (raster_source url (layer_bounds layer)).
  split_and!.
  - by apply addCollectionLayer_run.
  - simpl. apply lookup_insert_eq.
  - unfold src, collectionSource. simpl. by rewrite Hbbox.
  - by apply (updateLayer_run _ _ _ layer l s).
  - unfold after_update. rewrite Hre. simpl. apply lookup_insert_eq.
  - simpl. unfold layer_bounds. by rewrite Hitem, Hcoll.
Qed.

(* ------------------------------------------------------------------ *)
(** ** Removing every layer *)

Lemma removeLayer_effect (layerId : string) (st : LayerManager) :
  consistent st →
  ∃ st', removeLayer layerId st = (Normal tt, st') ∧
         consistent st' ∧
         mgr_tilerClient st' = mgr_tilerClient st ∧
         mgr_layers st' = delete layerId (mgr_layers st) ∧
         match mgr_layers st !! layerId with
         | Some layer =>
             liveLayers (mgr_map st') = delete layerId (liveLayers (mgr_map st)) ∧
             sources (mgr_map st') = delete (layer_sourceId layer) (sources (mgr_map st))
         | None => st' = st
         end.
Proof.
  intros Hc.
  destruct (removeLayer_consistent layerId st Hc) as (st' & Hrun & Hc' & Hl & Hrest).
  exists st'. split_and!; [done..| |done|].
  - destruct (mgr_layers st !! layerId) as [layer|] eqn:Hrec; [|by subst].
    destruct (proj2 Hc layerId layer Hrec) as ((l & Hl' & _) & [s Hs] & Hsole).
    rewrite (removeLayer_run _ _ layer l s Hrec Hl' Hs Hsole) in Hrun.
    by injection Hrun as <-.
  - destruct (mgr_layers st !! layerId); [|done]. by destruct Hrest as (? & ? & _).
Qed.

Lemma removeAllLayers_run (keys : list string) (st : LayerManager) :
  consistent st →
  ∃ st', removeAllLayers keys st = (Normal tt, st') ∧
         consistent st' ∧
         mgr_tilerClient st' = mgr_tilerClient st ∧
         (∀ k, k ∈ keys → mgr_layers st' !! k = None) ∧
         (∀ k, k ∉ keys → mgr_layers st' !! k = mgr_layers st !! k) ∧
         (∀ k, k ∈ keys → is_Some (mgr_layers st !! k) →
               liveLayers (mgr_map st') !! k = None) ∧
         (∀ k, k ∉ keys ∨ mgr_layers st !! k = None →
               liveLayers (mgr_map st') !! k = liveLayers (mgr_map st) !! k) ∧
         (∀ s, sources (mgr_map st') !! s = None ∨
               sources (mgr_map st') !! s = sources (mgr_map st) !! s) ∧
         (∀ s, source_of_some keys st s → sources (mgr_map st') !! s = None) ∧
         (∀ s, ¬ source_of_some keys st s →
               sources (mgr_map st') !! s = sources (mgr_map st) !! s).
Proof.
  revert st. induction keys as [|k0 rest IH]; intros st Hc.
  { exists st. split_and!; try done.
    - by intros k Hk%elem_of_nil.
    - by intros k Hk%elem_of_nil.
    - by right.
    - by intros s (k & layer & Hk%elem_of_nil & _). }
  destruct (removeLayer_effect k0 st Hc) as (st1 & Hrun1 & Hc1 & Hcl1 & Hl1 & Hrest1).
  destruct (IH st1 Hc1)
    as (st' & Hrun & Hc' & Hcl & Hin & Hout & Hlin & Hlout & Hsany & Hsin & Hsout).
  assert (∀ k, k ≠ k0 → mgr_layers st1 !! k = mgr_layers st !! k) as Hreg1.
  { intros k Hne. by rewrite Hl1, lookup_delete_ne. }
  assert (mgr_layers st1 !! k0 = None) as Hreg0.
  { by rewrite Hl1, lookup_delete_eq. }
  assert (∀ k, k ≠ k0 → liveLayers (mgr_map st1) !! k = liveLayers (mgr_map st) !! k)
    as Hlive1.
  { intros k Hne. destruct (mgr_layers st !! k0); [|by subst].
    destruct Hrest1 as [-> _]. by rewrite lookup_delete_ne. }
  assert (∀ s, sources (mgr_map st1) !! s = None ∨
               sources (mgr_map st1) !! s = sources (mgr_map st) !! s) as Hsrc1.
  { intros s. destruct (mgr_layers st !! k0) as [layer0|]; [|subst; by right].
    destruct Hrest1 as [_ ->]. destruct (decide (s = layer_sourceId layer0)) as [->|Hne].
    - left. apply lookup_delete_eq.
    - right. by rewrite lookup_delete_ne. }
  exists st'. split_and!.
  - simpl. unfold bind. by rewrite Hrun1.
  - done.
  - congruence.
  - intros k Hk. destruct (decide (k ∈ rest)) as [Hr|Hr]; [by apply Hin|].
    apply elem_of_cons in Hk as [->|Hk]; [|done]. by rewrite Hout.
  - intros k Hk. apply not_elem_of_cons in Hk as [Hne Hk]. rewrite Hout by done.
    by apply Hreg1.
  - intros k Hk Hreg. destruct (decide (k = k0)) as [->|Hne].
    + rewrite Hlout by (by right). destruct (mgr_layers st !! k0); [|by destruct Hreg].
      destruct Hrest1 as [-> _]. apply lookup_delete_eq.
    + apply elem_of_cons in Hk as [?|Hk]; [done|]. apply Hlin; [done|].
      by rewrite Hreg1.
  - intros k Hk. destruct (decide (k = k0)) as [->|Hne].
    + destruct Hk as [Hk|Hk]; [by apply not_elem_of_cons in Hk as [? _]|].
      rewrite Hlout by (by right). rewrite Hk in Hrest1. by subst.
    + rewrite Hlout, Hlive1; [done..|].
      destruct Hk as [Hk|Hk]; [left; by apply not_elem_of_cons in Hk as [_ ?]|].
      right. by rewrite Hreg1.
  - intros s. destruct (Hsany s) as [?|Heq]; [by left|]. rewrite Heq. apply Hsrc1.
  - intros s (k & layer & Hk & Hreg & Hsid). destruct (decide (k = k0)) as [->|Hne].
    + destruct (Hsany s) as [?|Heq]; [done|]. rewrite Heq. rewrite Hreg in Hrest1.
      destruct Hrest1 as [_ ->]. rewrite Hsid. apply lookup_delete_eq.
    + apply elem_of_cons in Hk as [?|Hk]; [done|]. apply Hsin.
      exists k, layer. by rewrite Hreg1.
  - intros s Hnot. rewrite Hsout.
    + destruct (mgr_layers st !! k0) as [layer0|] eqn:Hreg; [|by subst].
      destruct Hrest1 as [_ ->]. rewrite lookup_delete_ne; [done|]. intros <-.
      apply Hnot. exists k0, layer0. split_and!; [|done..]. apply elem_of_cons. by left.
    + intros (k & layer & Hk & Hreg & Hsid). apply Hnot. exists k, layer.
      assert (k ≠ k0) as Hne by (intros ->; congruence).
      split_and!; [|by rewrite <- Hreg1|done]. apply elem_of_cons. by right.
Qed.

(** On a consistent manager [removeAllLayers] returns, whatever the order in
    which the keys of the registry come: the registry is empty afterwards,
    the live layer and the source of every record are gone, and every layer
    and source of the host that no record named is still there. *)
Theorem removeAllLayers_empties_registry (keys : list string) (st : LayerManager) :
  consistent st →
  (∀ k, is_Some (mgr_layers st !! k) → k ∈ keys) →
  ∃ st', removeAllLayers keys st = (Normal tt, st') ∧
         mgr_layers st' = ∅ ∧
         consistent st' ∧
         (∀ k layer, mgr_layers st !! k = Some layer →
            liveLayers (mgr_map st') !! k = None ∧
            sources (mgr_map st') !! layer_sourceId layer = None) ∧
         (∀ k, mgr_layers st !! k = None →
            liveLayers (mgr_map st') !! k = liveLayers (mgr_map st) !! k) ∧
         (∀ s, (∀ k layer, mgr_layers st !! k = Some layer → layer_sourceId layer ≠ s) →
            sources (mgr_map st') !! s = sources (mgr_map st) !! s).
Proof.
  intros Hc Hkeys.
  destruct (removeAllLayers_run keys st Hc)
    as (st' & Hrun & Hc' & _ & Hin & Hout & Hlin & Hlout & _ & Hsin & Hsout).
  exists st'. split_and!; [done| |done|..].
  - apply map_eq. intros k. rewrite lookup_empty.
    destruct (decide (k ∈ keys)) as [Hk|Hk]; [by apply Hin|].
    rewrite Hout by done. destruct (mgr_layers st !! k) eqn:E; [|done].
    exfalso. apply Hk, Hkeys. by eexists.
  - intros k layer Hreg. split.
    + apply Hlin; [|by eexists]. apply Hkeys. by eexists.
    + apply Hsin. exists k, layer. split_and!; [|done..]. apply Hkeys. by eexists.
  - intros k Hreg. apply Hlout. by right.
  - intros s Hforeign. apply Hsout. intros (k & layer & _ & Hreg & Hsid).
    by apply (Hforeign k layer).
Qed.

(* ------------------------------------------------------------------ *)
(** ** The shape of a layer id *)

Lemma length_app_string (a b : string) :
  String.length (a +:+ b) = (String.length a + String.length b)%nat.
Proof.
  induction a as [|x a IH]; [done|].
  change (String x a +:+ b) with (String x (a +:+ b)). simpl. by rewrite IH.
Qed.

Lemma length_take (n : nat) (s : string) :
  String.length (JS.take n s) = (n `min` String.length s)%nat.
Proof.
  revert s. induction n as [|n IH]; intros [|c s]; simpl; try done. by rewrite IH.
Qed.

Lemma length_substring (n m : nat) (s : string) :
  (String.length (String.substring n m s) ≤ m)%nat.
Proof.
  revert n m. induction s as [|c s IH]; intros [|n] [|m]; simpl; try lia.
  - specialize (IH 0%nat m). lia.
  - apply IH.
  - apply IH.
Qed.

Lemma all_chars_app (P : ascii → bool) (a b : string) :
  all_chars P (a +:+ b) = all_chars P a && all_chars P b.
Proof.
  induction a as [|x a IH]; [done|].
  change (String x a +:+ b) with (String x (a +:+ b)). simpl. rewrite IH.
  by rewrite andb_assoc.
Qed.

Lemma all_chars_take (P : ascii → bool) (n : nat) (s : string) :
  all_chars P s = true → all_chars P (JS.take n s) = true.
Proof.
  revert s. induction n as [|n IH]; intros [|c s]; simpl; try done.
  intros [Hc Hs]%andb_prop. rewrite Hc. simpl. by apply IH.
Qed.

Lemma all_chars_sanitize (s : string) : all_chars JS.id_char (JS.sanitize s) = true.
Proof.
  induction s as [|c s IH]; [done|].
  change (JS.sanitize (String c s))
    with (String (if JS.id_char c then c else "-"%char) (JS.sanitize s)).
  simpl. rewrite IH, andb_true_r. by destruct (JS.id_char c) eqn:E.
Qed.

Lemma app_inj_l (s a b : string) : s +:+ a = s +:+ b → a = b.
Proof.
  induction s as [|x s IH]; [done|].
  change (String x s +:+ a) with (String x (s +:+ a)).
  change (String x s +:+ b) with (String x (s +:+ b)).
  intros [= H]. by apply IH.
Qed.

Lemma app_inj_r (a b t : string) : a +:+ t = b +:+ t → a = b.
Proof.
  revert b. induction a as [|x a IH]; intros [|y b] H.
  - done.
  - exfalso. apply (f_equal String.length) in H.
    change (EmptyString +:+ t) with t in H. rewrite length_app_string in H. simpl in H. lia.
  - exfalso. apply (f_equal String.length) in H.
    change (EmptyString +:+ t) with t in H. rewrite length_app_string in H. simpl in H. lia.
  - change (String x a +:+ t) with (String x (a +:+ t)) in H.
    change (String y b +:+ t) with (String y (b +:+ t)) in H.
    injection H as -> H. f_equal. by apply IH.
Qed.

(** A layer id is at most 50 characters of the sanitized name, a dash, and at
    most the last six characters of the generated id: never longer than 57
    characters, made of letters, digits, [-] and [_] whenever the generated
    part is.  Two ids under one name are equal exactly when the last six
    characters of the two generated ids are; a source id determines its layer
    id and is never a layer id's own. *)
Theorem layer_id_shape (name generated : string) :
  (String.length (newLayerId name generated) ≤ 57)%nat ∧
  (String.length (newLayerId name generated) =
     (50 `min` String.length name) + 1 + String.length (JS.take_last 6 generated))%nat ∧
  (all_chars JS.id_char (JS.take_last 6 generated) = true →
     all_chars JS.id_char (newLayerId name generated) = true) ∧
  (∀ generated', newLayerId name generated = newLayerId name generated' ↔
                 JS.take_last 6 generated = JS.take_last 6 generated') ∧
  (∀ name', JS.take 50 (JS.sanitize name) = JS.take 50 (JS.sanitize name') →
            newLayerId name generated = newLayerId name' generated) ∧
  (∀ layerId layerId', sourceIdOf layerId = sourceIdOf layerId' → layerId = layerId') ∧
  (∀ layerId, sourceIdOf layerId ≠ layerId).
Proof.
  assert (String.length (JS.sanitize name) = String.length name) as Hlen.
  { induction name as [|c s IH]; [done|].
    change (JS.sanitize (String c s))
      with (String (if JS.id_char c then c else "-"%char) (JS.sanitize s)).
    simpl. by rewrite IH. }
  assert (String.length (newLayerId name generated) =
            (50 `min` String.length name) + 1 + String.length (JS.take_last 6 generated))%nat
    as Hid.
  { unfold newLayerId. rewrite !length_app_string, length_take, Hlen. simpl. lia. }
  split_and!.
  - rewrite Hid. pose proof (length_substring (String.length generated - 6) 6 generated).
    unfold JS.take_last. lia.
  - done.
  - intros Hg. unfold newLayerId. rewrite !all_chars_app, Hg.
    rewrite (all_chars_take _ _ _ (all_chars_sanitize name)). done.
  - intros generated'. unfold newLayerId. split.
    + intros H. apply app_inj_l in H. by apply (app_inj_l "-") in H.
    + by intros ->.
  - intros name' H. unfold newLayerId. by rewrite H.
  - intros a b H. by apply (app_inj_r _ _ "-source").
  - intros a H. apply (f_equal String.length) in H. unfold sourceIdOf in H.
    rewrite length_app_string in H. simpl in H. lia.
Qed.

(** Two entries whose ids sanitize to the same fifty characters (the same
    entry twice, say) get ids that differ in the generated suffix alone.
    After the first is added, the second add throws and changes nothing when
    the two suffixes agree, and registers a second record beside the first
    when they differ. *)
Theorem ids_differ_by_suffix_only (generated1 generated2 : string) (item1 item2 : STACItem)
    (options1 options2 : option ItemLayerOptions) (st : LayerManager) :
  JS.take 50 (JS.sanitize (item_id item1)) = JS.take 50 (JS.sanitize (item_id item2)) →
  fresh_ids (newLayerId (item_id item1) generated1) st →
  ∃ layer1 st1,
    addItemLayer generated1 item1 options1 st = (Normal layer1, st1) ∧
    (JS.take_last 6 generated1 = JS.take_last 6 generated2 →
       ∃ e, addItemLayer generated2 item2 options2 st1 = (Throw e, st1)) ∧
    (JS.take_last 6 generated1 ≠ JS.take_last 6 generated2 →
     fresh_ids (newLayerId (item_id item2) generated2) st →
       ∃ layer2 st2,
         addItemLayer generated2 item2 options2 st1 = (Normal layer2, st2) ∧
         layer_id layer2 ≠ layer_id layer1 ∧
         mgr_layers st2 !! layer_id layer1 = Some layer1 ∧
         mgr_layers st2 !! layer_id layer2 = Some layer2).
Proof.
  intros Hname Hfresh.
  set (id1 := newLayerId (item_id item1) generated1).
  set (id2 := newLayerId (item_id item2) generated2).
  set (layer1 := itemLayer generated1 item1 options1).
  set (src1 := itemSource (mgr_tilerClient st) item1 options1).
  assert (layer_id layer1 = id1 ∧ layer_sourceId layer1 = sourceIdOf id1) as [Hid1 Hsid1].
  { unfold layer1, itemLayer. by destruct (resolveItemParams item1 options1) as [[? ?] ?]. }
  assert (id1 = id2 ↔ JS.take_last 6 generated1 = JS.take_last 6 generated2) as Hiff.
  { unfold id1, id2, newLayerId. rewrite Hname. split.
    - intros H. apply app_inj_l in H. by apply (app_inj_l "-") in H.
    - by intros ->. }
  exists layer1, (registered src1 layer1 st).
  split; [by apply addItemLayer_run|]. split.
  - intros Hsuf%Hiff.
    destruct (addItemLayer_outcome generated2 item2 options2 (registered src1 layer1 st))
      as (_ & Htaken & _).
    apply Htaken. fold id2. rewrite <- Hsuf. simpl. rewrite Hsid1, lookup_insert_eq.
    by eexists.
  - intros Hsuf [Hs2 Hl2].
    assert (id2 ≠ id1) as Hne by (intros H; by apply Hsuf, Hiff).
    assert (sourceIdOf id2 ≠ sourceIdOf id1) as Hsne.
    { intros H. by apply (app_inj_r _ _ "-source") in H. }
    assert (fresh_ids id2 (registered src1 layer1 st)) as Hfresh2.
    { split; simpl.
      - rewrite Hsid1. by rewrite lookup_insert_ne.
      - rewrite Hid1. by rewrite lookup_insert_ne. }
    set (layer2 := itemLayer generated2 item2 options2).
    assert (layer_id layer2 = id2) as Hid2.
    { unfold layer2, itemLayer. by destruct (resolveItemParams item2 options2) as [[? ?] ?]. }
    exists layer2,
      (registered (itemSource (mgr_tilerClient st) item2 options2) layer2
         (registered src1 layer1 st)).
    split; [exact (addItemLayer_run generated2 item2 options2 _ Hfresh2)|].
    rewrite !registered_layers, Hid1, Hid2. split_and!.
    + done.
    + rewrite lookup_insert_ne by done. apply lookup_insert_eq.
    + apply lookup_insert_eq.
Qed.

(* ------------------------------------------------------------------ *)
(** ** Collection layers and zooming *)

Lemma getDefaultAssets_nil : defaultAssetsOf [] = [].
Proof. reflexivity. Qed.

(** The resolution of [addCollectionLayer]: [options.assets] when supplied;
    else the [assets] of [options.renderParams]; else, with neither supplied,
    those of the default preset of [collection.id]; else the heuristic over
    the collection's [item_assets].  The resolved list is written into the
    bundle.  A collection without [item_assets] and without a preset, added
    without options, resolves to no asset at all, and its tile URL ends at the
    [collection] parameter. *)
Theorem collection_resolution_order (collection : STACCollection)
    (options : option CollectionLayerOptions) (client : TiTilerClient) :
  let renderParams := (resolveCollectionParams collection options).1.1 in
  let presetName := (resolveCollectionParams collection options).1.2 in
  let assets := (resolveCollectionParams collection options).2 in
  tp_assets renderParams = Some assets ∧
  (∀ a, options ≫= copt_assets = Some a →
        assets = a ∧
        renderParams = with_assets a (default no_params (options ≫= copt_renderParams)) ∧
        presetName = options ≫= copt_presetName) ∧
  (∀ p, options ≫= copt_assets = None → options ≫= copt_renderParams = Some p →
        assets = default (getDefaultCollectionAssets collection) (tp_assets p) ∧
        renderParams = with_assets assets p ∧
        presetName = options ≫= copt_presetName) ∧
  (∀ dp, options ≫= copt_assets = None → options ≫= copt_renderParams = None →
         getDefaultPreset (coll_id collection) = Some dp →
         assets = default (getDefaultCollectionAssets collection)
                    (tp_assets (preset_params dp)) ∧
         renderParams = with_assets assets (preset_params dp) ∧
         presetName = Some (preset_name dp)) ∧
  (options ≫= copt_assets = None → options ≫= copt_renderParams = None →
   getDefaultPreset (coll_id collection) = None →
   assets = getDefaultCollectionAssets collection ∧
   renderParams = with_assets assets no_params ∧
   presetName = options ≫= copt_presetName ∧
   (default [] (coll_item_assets collection) = [] →
      assets = [] ∧
      getCollectionTileUrl client (coll_id collection) renderParams None =
        mosaicUrlBase client (coll_id collection))).
Proof.
  simpl. split_and!.
  - unfold resolveCollectionParams. by repeat (case_match; simplify_eq/=).
  - intros a Ha. unfold resolveCollectionParams. rewrite Ha.
    by repeat (case_match; simplify_eq/=).
  - intros p Ha Hr. unfold resolveCollectionParams. rewrite Ha, Hr. simpl.
    by destruct (tp_assets p).
  - intros dp Ha Hr Hp. unfold resolveCollectionParams. rewrite Ha, Hr, Hp. simpl.
    by destruct (tp_assets (preset_params dp)).
  - intros Ha Hr Hp. unfold resolveCollectionParams. rewrite Ha, Hr, Hp. simpl.
    split_and!; [done..|]. intros Hnil. unfold getDefaultCollectionAssets.
    rewrite Hnil, getDefaultAssets_nil. split; [done|].
    unfold getCollectionTileUrl, mosaicUrlBase.
    change (buildQueryString (with_assets [] no_params)) with EmptyString.
    try rewrite !app_assoc_string; reflexivity.
Qed.

Lemma getCollectionBounds_Some (collection : STACCollection) (b : list number) :
  getCollectionBounds collection = Some b ↔
  ∃ more rest, length b = 4%nat ∧ coll_extent_bbox collection = (b ++ more) :: rest.
Proof.
  unfold getCollectionBounds. split.
  - destruct (coll_extent_bbox collection) as [|[|x [|y [|z [|w more]]]] rest]; try done.
    intros [= <-]. by exists more, rest.
  - intros (more & rest & Hlen & ->).
    destruct b as [|x [|y [|z [|w [|? ?]]]]]; simplify_eq/=. done.
Qed.

(** [zoomToLayer] fits the view to the origin of the record, not to the
    bounds of its source.  For an added entry both are the entry's box.  For
    an added collection the source is bounded by the [bbox] option when there
    is one, while [zoomToLayer] fits to the first four numbers of the first
    box of the collection's extent, and asks for nothing when that box is
    missing or shorter. *)
Theorem zoom_uses_origin_bounds :
  (∀ generated item options (st st' : LayerManager) layer,
     addItemLayer generated item options st = (Normal layer, st') →
     zoomToLayer (layer_id layer) st' = Some (corners (item_bbox item)) ∧
     ∃ src, sources (mgr_map st') !! layer_sourceId layer = Some src ∧
            src_bounds src = Some (item_bbox item)) ∧
  (∀ generated collection options (st st' : LayerManager) layer,
     addCollectionLayer generated collection options st = (Normal layer, st') →
     zoomToLayer (layer_id layer) st' = corners <$> getCollectionBounds collection ∧
     ∃ src, sources (mgr_map st') !! layer_sourceId layer = Some src ∧
            src_bounds src = collection_source_bounds collection options) ∧
  (∀ collection b,
     getCollectionBounds collection = Some b ↔
     ∃ more rest, length b = 4%nat ∧ coll_extent_bbox collection = (b ++ more) :: rest).
Proof.
  split_and!.
  - intros generated item options st st' layer Hadd.
    pose proof (addItemLayer_Normal _ _ _ _ _ _ Hadd) as Hfresh.
    rewrite (addItemLayer_run _ _ _ _ Hfresh) in Hadd. injection Hadd as <- <-.
    split.
    + unfold zoomToLayer. rewrite registered_layers, lookup_insert_eq.
      unfold itemLayer. by destruct (resolveItemParams item options) as [[? ?] ?].
    + eexists. split; [apply lookup_insert_eq|done].
  - intros generated collection options st st' layer Hadd.
    pose proof (addCollectionLayer_Normal _ _ _ _ _ _ Hadd) as Hfresh.
    rewrite (addCollectionLayer_run _ _ _ _ Hfresh) in Hadd. injection Hadd as <- <-.
    split.
    + unfold zoomToLayer. rewrite registered_layers, lookup_insert_eq.
      unfold collectionLayer.
      destruct (resolveCollectionParams collection options) as [[? ?] ?]. simpl.
      by destruct (getCollectionBounds collection).
    + eexists. split; [apply lookup_insert_eq|done].
  - apply getCollectionBounds_Some.
Qed.

(* ------------------------------------------------------------------ *)
(** ** The catalog client *)

Lemma stac_inv_new (url : option string) : stac_inv (new_STACClient url).
Proof. by split_and!. Qed.

Lemma stac_inv_send (path : string) (c : STACClient) :
  stac_inv c → stac_inv (send path GET None None c).
Proof.
  intros (HA & HB & HC & HE & HD). split_and!; simpl; try done.
  - intros i r k [Hi | [_ Hi]]%lookup_app_Some Hk; [by apply (HB i r k)|].
    apply list_lookup_singleton_Some in Hi as [_ <-]. done.
  - intros i j r r' k [Hi | [_ Hi]]%lookup_app_Some [Hj | [_ Hj]]%lookup_app_Some Hk Hk'.
    + by apply (HC i j r r' k).
    + apply list_lookup_singleton_Some in Hj as [_ <-]. done.
    + apply list_lookup_singleton_Some in Hi as [_ <-]. done.
    + apply list_lookup_singleton_Some in Hi as [_ <-]. done.
  - intros i r [Hi | [_ Hi]]%lookup_app_Some; [by apply (HD i r)|].
    apply list_lookup_singleton_Some in Hi as [_ <-]. simpl. split.
    + split; [by intros [? ?] | done].
    + by eexists.
Qed.

Lemma stac_inv_search (params : STACSearchParams) (c : STACClient) :
  stac_inv c →
  stac_inv (send "/search" POST (Some params) (Some (stac_controllers c))
              (new_controller (abort_current c))).
Proof.
  intros (HA & HB & HC & HE & HD).
  assert (stac_controllers (abort_current c) = stac_controllers c) as Hn.
  { unfold abort_current. by destruct (stac_abortController c). }
  assert (stac_sent (abort_current c) = stac_sent c) as Hs.
  { unfold abort_current. by destruct (stac_abortController c). }
  assert (stac_baseUrl (abort_current c) = stac_baseUrl c) as Hb.
  { unfold abort_current. by destruct (stac_abortController c). }
  assert (∀ k, k ∈ stac_aborted (abort_current c) →
               k ∈ stac_aborted c ∨ stac_abortController c = Some k) as Hab.
  { intros k. unfold abort_current. destruct (stac_abortController c) as [k0|]; simpl.
    - intros [->%elem_of_singleton | ?]%elem_of_union; [by right | by left].
    - by left. }
  assert (∀ k, stac_abortController c = Some k → k ∈ stac_aborted (abort_current c)) as Hcur.
  { intros k Hk. unfold abort_current. rewrite Hk. simpl. apply elem_of_union. left.
    by apply elem_of_singleton. }
  assert (∀ k, k ∈ stac_aborted (abort_current c) → (k < stac_controllers c)%nat) as Hlt.
  { intros k [Hk | Hk]%Hab; [by apply HE | by apply HA]. }
  split_and!; simpl; rewrite ?Hn, ?Hs, ?Hb.
  - intros k [= <-]. split; [lia|]. intros Hin%Hlt. lia.
  - intros i r k [Hi | [_ Hi]]%lookup_app_Some Hk.
    + destruct (HB i r k Hi Hk) as [Hlt' Hlive]. split; [lia|].
      intros Hnot. exfalso. apply Hnot, Hcur, Hlive. intros Hin. apply Hnot.
      unfold abort_current. destruct (stac_abortController c); simpl; [|done].
      apply elem_of_union. by right.
    + apply list_lookup_singleton_Some in Hi as [_ <-]. simpl in Hk. injection Hk as <-.
      split; [lia|done].
  - intros i j r r' k [Hi | [Hi1 Hi]]%lookup_app_Some [Hj | [Hj1 Hj]]%lookup_app_Some Hk Hk'.
    + by apply (HC i j r r' k).
    + apply list_lookup_singleton_Some in Hj as [_ <-]. simpl in Hk'. injection Hk' as <-.
      destruct (HB i r _ Hi Hk) as [? _]. lia.
    + apply list_lookup_singleton_Some in Hi as [_ <-]. simpl in Hk. injection Hk as <-.
      destruct (HB j r' _ Hj Hk') as [? _]. lia.
    + apply list_lookup_singleton_Some in Hi as [Hi _].
      apply list_lookup_singleton_Some in Hj as [Hj _]. lia.
  - intros k Hk%Hlt. lia.
  - intros i r [Hi | [_ Hi]]%lookup_app_Some; [by apply (HD i r)|].
    apply list_lookup_singleton_Some in Hi as [_ <-]. simpl. split.
    + split; [done | by eexists].
    + by eexists.
Qed.

Lemma stac_inv_cancel (c : STACClient) : stac_inv c → stac_inv (stac_begin call_cancelPending c).
Proof.
  intros (HA & HB & HC & HE & HD). unfold stac_begin, abort_current.
  destruct (stac_abortController c) as [k0|] eqn:Hcur; simpl.
  - split_and!; simpl; try done.
    + intros i r k Hi Hk. destruct (HB i r k Hi Hk) as [Hlt Hlive]. split; [done|].
      intros Hnot. exfalso. apply Hnot. apply elem_of_union.
      destruct (decide (k ∈ stac_aborted c)) as [?|Hnin]; [by right|].
      left. apply elem_of_singleton. specialize (Hlive Hnin). congruence.
    + intros k [->%elem_of_singleton | ?]%elem_of_union; [by apply HA | by apply HE].
  - split_and!; simpl; done.
Qed.

Lemma stac_begin_inv (call : STACCall) (c : STACClient) :
  stac_inv c → stac_inv (stac_begin call c).
Proof.
  intros Hinv. destruct call; try (by apply stac_inv_send); try (by apply stac_inv_cancel).
  - assert (stac_abortController (new_controller (abort_current c)) =
              Some (stac_controllers c)) as Hk.
    { unfold new_controller, abort_current. by destruct (stac_abortController c). }
    unfold stac_begin. rewrite Hk. by apply stac_inv_search.
  - assert (stac_abortController (new_controller (abort_current c)) =
              Some (stac_controllers c)) as Hk.
    { unfold new_controller, abort_current. by destruct (stac_abortController c). }
    unfold stac_begin. rewrite Hk. by apply stac_inv_search.
Qed.

Lemma stac_begin_baseUrl (call : STACCall) (c : STACClient) :
  stac_baseUrl (stac_begin call c) = stac_baseUrl c.
Proof.
  destruct call; simpl; try done; unfold abort_current; by destruct (stac_abortController c).
Qed.

Lemma stac_run_inv (calls : list STACCall) (c : STACClient) :
  stac_inv c → stac_inv (stac_run calls c) ∧ stac_baseUrl (stac_run calls c) = stac_baseUrl c.
Proof.
  revert c. induction calls as [|call calls IH]; intros c Hinv; [done|]. simpl.
  destruct (IH (stac_begin call c) (stac_begin_inv call c Hinv)) as [H1 H2].
  split; [done|]. by rewrite H2, stac_begin_baseUrl.
Qed.

(** Whatever calls a new client has served: a request carries a signal
    exactly when it is a [POST], and its URL extends the base URL of the
    client; two requests whose controllers are not aborted are the same
    request, and its controller is the one the client holds, so that at most
    one search can still deliver; when the client holds no controller, every
    search sent so far is aborted; and one more search aborts every search
    before it and is itself not aborted. *)
Theorem only_latest_search_is_live (url : option string) (calls : list STACCall) :
  let c := stac_run calls (new_STACClient url) in
  (∀ i r, stac_sent c !! i = Some r →
     (is_Some (req_signal r) ↔ req_method r = POST) ∧
     ∃ path, req_url r = JS.strip_trailing_slash (default DEFAULT_STAC_URL url) +:+ path) ∧
  (∀ i j r r' k k',
     stac_sent c !! i = Some r → stac_sent c !! j = Some r' →
     req_signal r = Some k → req_signal r' = Some k' →
     k ∉ stac_aborted c → k' ∉ stac_aborted c →
     i = j ∧ stac_abortController c = Some k) ∧
  (stac_abortController c = None →
     ∀ i r k, stac_sent c !! i = Some r → req_signal r = Some k → k ∈ stac_aborted c) ∧
  (∀ params,
     let c' := stac_begin (call_search params) c in
     ∃ k, stac_sent c' =
            stac_sent c ++ [{| req_url := stac_baseUrl c +:+ "/search"; req_method := POST;
                               req_body := Some params; req_signal := Some k |}] ∧
          stac_abortController c' = Some k ∧
          (k ∉ stac_aborted c') ∧
          (∀ i r k', stac_sent c !! i = Some r → req_signal r = Some k' →
                     k' ∈ stac_aborted c')).
Proof.
  intros c.
  destruct (stac_run_inv calls (new_STACClient url) (stac_inv_new url)) as [Hinv Hbase].
  fold c in Hinv, Hbase. simpl in Hbase.
  pose proof Hinv as (HA & HB & HC & HE & HD). split_and!.
  - intros i r Hi. rewrite <- Hbase. by apply (HD i r).
  - intros i j r r' k k' Hi Hj Hk Hk' Hlive Hlive'.
    destruct (HB i r k Hi Hk) as [_ Hcur]. destruct (HB j r' k' Hj Hk') as [_ Hcur'].
    specialize (Hcur Hlive). specialize (Hcur' Hlive').
    assert (k' = k) as -> by congruence. split; [|done]. by apply (HC i j r r' k).
  - intros Hnone i r k Hi Hk. destruct (HB i r k Hi Hk) as [_ Hcur].
    destruct (decide (k ∈ stac_aborted c)) as [|Hnot]; [done|].
    specialize (Hcur Hnot). congruence.
  - intros params c'.
    pose proof (stac_begin_inv (call_search params) c Hinv) as (HA' & HB' & _).
    assert (stac_abortController (new_controller (abort_current c)) =
              Some (stac_controllers c)) as Hk.
    { unfold new_controller, abort_current. by destruct (stac_abortController c). }
    assert (stac_sent c' =
              stac_sent c ++ [{| req_url := stac_baseUrl c +:+ "/search"; req_method := POST;
                                 req_body := Some params;
                                 req_signal := Some (stac_controllers c) |}]) as Hsent.
    { unfold c', stac_begin. rewrite Hk. unfold send, new_controller, abort_current.
      by destruct (stac_abortController c). }
    assert (stac_abortController c' = Some (stac_controllers c)) as Hcur.
    { unfold c', stac_begin. rewrite Hk. simpl. done. }
    exists (stac_controllers c). split_and!; [done|done|by apply HA'|].
    intros i r k' Hi Hk'.
    destruct (decide (k' ∈ stac_aborted c')) as [|Hnot]; [done|]. exfalso.
    assert (stac_sent c' !! i = Some r) as Hi'.
    { rewrite Hsent. apply lookup_app_Some. by left. }
    destruct (HB' i r k' Hi' Hk') as [_ Hlive]. specialize (Hlive Hnot).
    destruct (HB i r k' Hi Hk') as [Hlt _]. unfold c' in Hcur. rewrite Hcur in Hlive.
    injection Hlive as Heq. lia.
Qed.

(** The private [fetch] resolves exactly when the response is [ok] and its
    body parses.  A rejection named [AbortError] is reported as
    [Request was cancelled] when it comes from [fetch] itself or from reading
    the text of a response that is not [ok]; the only rejection named
    [AbortError] that gets through is one from reading the body of an [ok]
    response.  A response that is not [ok] is reported with its status, status
    text and body text. *)
Theorem abort_is_renamed_before_the_body (o : FetchOutcome) :
  (∀ v, fetch_settle o = resolved v ↔ o = responds_ok (resolved v)) ∧
  (∀ m, fetch_settle o = rejected (an_Error "AbortError" m) ↔
        o = responds_ok (rejected (an_Error "AbortError" m))) ∧
  (∀ m, o = fetch_fails (an_Error "AbortError" m) ∨
        (∃ status statusText,
            o = responds_not_ok status statusText (rejected (an_Error "AbortError" m))) →
        fetch_settle o = rejected (new_Error "Request was cancelled")) ∧
  (∀ status statusText errorText,
     o = responds_not_ok status statusText (resolved errorText) →
     fetch_settle o =
       rejected (new_Error ("STAC API error: " +:+ num_String status +:+ " " +:+
                            statusText +:+ " - " +:+ errorText))).
Proof.
  assert (∀ e m, fetch_catch e ≠ an_Error "AbortError" m) as Hcatch.
  { intros [name msg|] m; simpl; [|done].
    destruct (String.eqb name "AbortError") eqn:E; [done|].
    intros [= -> _]. by rewrite String.eqb_refl in E. }
  split_and!.
  - intros v. split; [|by intros ->].
    destruct o as [e|status statusText [t|e]|[b|e]]; simpl; try done. by intros [= ->].
  - intros m. split; [|by intros ->].
    destruct o as [e|status statusText [t|e]|[b|e]]; simpl; try done.
    + intros [= H]. by apply Hcatch in H.
    + intros [= H]. by apply Hcatch in H.
    + by intros [= ->].
  - intros m [-> | (status & statusText & ->)]; done.
  - by intros status statusText errorText ->.
Qed.

(* ------------------------------------------------------------------ *)
(** ** The control *)

Lemma emit_run (event : PlanetaryComputerEvent) (c : PlanetaryComputerControl) :
  _emit event c = (Normal tt, emitted [event] c).
Proof. unfold _emit, modify, emitted, calls_of, getState. simpl. by rewrite app_nil_r. Qed.

Lemma emit2_run (e1 e2 : PlanetaryComputerEvent) {A} (k : JSM PlanetaryComputerControl A)
    (c : PlanetaryComputerControl) :
  (_emit e1 ;; _emit e2 ;; k) c = k (emitted [e1; e2] c).
Proof.
  unfold bind. rewrite emit_run. rewrite emit_run.
  unfold emitted, calls_of, set_called. simpl. by rewrite app_nil_r, <- app_assoc.
Qed.

Lemma emit2_end (e1 e2 : PlanetaryComputerEvent) (c : PlanetaryComputerControl) :
  (_emit e1 ;; _emit e2) c = (Normal tt, emitted [e1; e2] c).
Proof.
  unfold bind. rewrite emit_run. rewrite emit_run.
  unfold emitted, calls_of, set_called. simpl. by rewrite app_nil_r, <- app_assoc.
Qed.

Lemma on_manager_None {A} (op : JSM LayerManager A) (c : PlanetaryComputerControl) :
  ctl_layerManager c = None → on_manager op c = (Normal None, c).
Proof. intros H. unfold on_manager. by rewrite H. Qed.

Lemma on_manager_Some {A} (op : JSM LayerManager A) (c : PlanetaryComputerControl)
    (mgr mgr' : LayerManager) (r : completion A) :
  ctl_layerManager c = Some mgr → op mgr = (r, mgr') →
  on_manager op c =
    (match r with Normal a => Normal (Some a) | Throw e => Throw e end,
     set_layerManager (Some mgr') c).
Proof. intros H Hop. unfold on_manager. by rewrite H, Hop. Qed.

Lemma set_layerManager_id (c : PlanetaryComputerControl) (mgr : option LayerManager) :
  ctl_layerManager c = mgr → set_layerManager mgr c = c.
Proof. intros <-. by destruct c. Qed.

Lemma control_add_run (add : JSM LayerManager ActiveLayer) (c : PlanetaryComputerControl) :
  (let* added := on_manager add in
   match added with
   | None => throw "Control not added to map"
   | Some layer =>
       activeLayers_push layer ;; _emit ev_layer_add ;; _emit ev_statechange ;; ret layer
   end) c =
  match ctl_layerManager c with
  | None => (Throw "Control not added to map", c)
  | Some mgr =>
      match add mgr with
      | (Normal layer, mgr') => (Normal layer, after_add layer mgr' c)
      | (Throw e, mgr') => (Throw e, set_layerManager (Some mgr') c)
      end
  end.
Proof.
  unfold bind at 1. unfold on_manager.
  destruct (ctl_layerManager c) as [mgr|] eqn:Hmgr; [|done].
  destruct (add mgr) as [[layer|e] mgr']; [|done].
  unfold bind at 1. unfold activeLayers_push, modify. by rewrite emit2_run.
Qed.

Lemma control_removeLayer_run (layerId : string) (c : PlanetaryComputerControl) :
  control_removeLayer layerId c =
  match ctl_layerManager c with
  | None => (Normal tt, after_remove layerId None c)
  | Some mgr =>
      match removeLayer layerId mgr with
      | (Normal _, mgr') => (Normal tt, after_remove layerId (Some mgr') c)
      | (Throw e, mgr') => (Throw e, set_layerManager (Some mgr') c)
      end
  end.
Proof.
  unfold control_removeLayer. unfold bind at 1. unfold on_manager.
  destruct (ctl_layerManager c) as [mgr|] eqn:Hmgr.
  - destruct (removeLayer layerId mgr) as [[[]|e] mgr']; [|done].
    unfold bind at 1. unfold modify. rewrite emit2_end. done.
  - unfold bind at 1. unfold modify. rewrite emit2_end. unfold after_remove.
    by rewrite (set_layerManager_id c None).
Qed.

Lemma control_updateLayer_run (layerId : string) (updates : LayerUpdates)
    (c : PlanetaryComputerControl) :
  control_updateLayer layerId updates c =
  match ctl_layerManager c with
  | None => (Normal tt, after_layer_update layerId updates None c)
  | Some mgr =>
      match updateLayer layerId updates mgr with
      | (Normal _, mgr') => (Normal tt, after_layer_update layerId updates (Some mgr') c)
      | (Throw e, mgr') => (Throw e, set_layerManager (Some mgr') c)
      end
  end.
Proof.
  unfold control_updateLayer. unfold bind at 1. unfold on_manager.
  destruct (ctl_layerManager c) as [mgr|] eqn:Hmgr.
  - destruct (updateLayer layerId updates mgr) as [[[]|e] mgr']; [|done].
    unfold bind at 1. unfold modify. rewrite emit2_end. done.
  - unfold bind at 1. unfold modify. rewrite emit2_end. unfold after_layer_update.
    by rewrite (set_layerManager_id c None).
Qed.

Lemma updateLayer_effect (layerId : string) (updates : LayerUpdates) (st : LayerManager) :
  consistent st → upd_sourceId updates = None →
  ∃ st', updateLayer layerId updates st = (Normal tt, st') ∧
         consistent st' ∧
         mgr_layers st' =
           match mgr_layers st !! layerId with
           | Some layer => <[layerId := spread_layer layer updates]> (mgr_layers st)
           | None => mgr_layers st
           end.
Proof.
  intros Hc Hupd.
  destruct (mgr_layers st !! layerId) as [layer|] eqn:Hrec; cycle 1.
  { exists st. split_and!; [|done..]. unfold updateLayer, bind, gets. by rewrite Hrec. }
  destruct (proj2 Hc layerId layer Hrec) as ((l & Hl & Hsrc) & [s Hs] & Hsole).
  eexists. split; [by apply (updateLayer_run _ _ _ layer l s)|].
  split; [by apply after_update_consistent|done].
Qed.

Lemma mirrors_add (layers : list ActiveLayer) (registry : gmap string ActiveLayer)
    (layer : ActiveLayer) :
  mirrors layers registry → registry !! layer_id layer = None →
  mirrors (layers ++ [layer]) (<[layer_id layer := layer]> registry).
Proof.
  intros [Hnd Hiff] Hnone. split.
  - rewrite fmap_app. apply NoDup_app. split_and!; [done| |apply NoDup_singleton].
    intros id (l & -> & Hl)%list_elem_of_fmap Hin%list_elem_of_singleton.
    assert (registry !! layer_id l = Some l) as Hreg by by apply Hiff.
    rewrite Hin in Hreg. congruence.
  - intros id l. rewrite lookup_insert_Some, elem_of_app, list_elem_of_singleton, Hiff.
    split.
    + intros [[<- <-] | [Hne [Hl <-]]]; [by split; [right|] | by split; [left|]].
    + intros [[Hl | ->] <-]; [|by left]. right. split_and!; [|done..].
      intros Heq. assert (registry !! layer_id l = Some l) as Hreg by by apply Hiff.
      rewrite <- Heq in Hreg. congruence.
Qed.

Lemma NoDup_fmap_filter {A B} (f : A → B) (P : A → Prop) `{!∀ x, Decision (P x)}
    (l : list A) :
  NoDup (f <$> l) → NoDup (f <$> filter P l).
Proof.
  induction l as [|x l IH]; [done|]. rewrite fmap_cons. intros [Hx Hl]%NoDup_cons.
  destruct (decide (P x)) as [HP|HP].
  - rewrite filter_cons_True by done. rewrite fmap_cons. apply NoDup_cons. split; [|by apply IH].
    intros (y & Hy & [_ Hin]%list_elem_of_filter)%list_elem_of_fmap. apply Hx.
    apply list_elem_of_fmap. by exists y.
  - rewrite filter_cons_False by done. by apply IH.
Qed.

Lemma mirrors_remove (layerId : string) (layers : list ActiveLayer)
    (registry : gmap string ActiveLayer) :
  mirrors layers registry →
  mirrors (filter (λ l, layer_id l ≠ layerId) layers) (delete layerId registry).
Proof.
  intros [Hnd Hiff]. split; [by apply NoDup_fmap_filter|].
  intros id l. rewrite lookup_delete_Some, list_elem_of_filter, Hiff. split.
  - intros [Hne [Hl <-]]. by split_and!.
  - intros [[Hne Hl] <-]. by split_and!.
Qed.

Lemma update_found_ids (layerId : string) (updates : LayerUpdates)
    (layers : list ActiveLayer) :
  upd_id updates = None →
  layer_id <$> update_found layerId updates layers = layer_id <$> layers.
Proof.
  intros Hupd. induction layers as [|l layers IH]; [done|]. simpl.
  destruct (String.eqb (layer_id l) layerId).
  - rewrite fmap_cons. simpl. by rewrite Hupd.
  - rewrite fmap_cons. by rewrite IH.
Qed.

Lemma update_found_absent (layerId : string) (updates : LayerUpdates)
    (layers : list ActiveLayer) :
  (∀ l, l ∈ layers → layer_id l ≠ layerId) →
  update_found layerId updates layers = layers.
Proof.
  induction layers as [|l layers IH]; [done|]. intros Hall. simpl.
  destruct (String.eqb (layer_id l) layerId) eqn:E.
  - apply String.eqb_eq in E. exfalso. apply (Hall l); [|done]. apply elem_of_cons. by left.
  - rewrite IH; [done|]. intros l' Hl'. apply Hall. apply elem_of_cons. by right.
Qed.

Lemma elem_of_update_found (layerId : string) (updates : LayerUpdates)
    (layers : list ActiveLayer) (layer x : ActiveLayer) :
  NoDup (layer_id <$> layers) → layer ∈ layers → layer_id layer = layerId →
  x ∈ update_found layerId updates layers ↔
  (x ∈ layers ∧ layer_id x ≠ layerId) ∨ x = spread_layer layer updates.
Proof.
  intros Hnd Hin Hid. induction layers as [|l layers IH]; [by apply elem_of_nil in Hin|].
  rewrite fmap_cons in Hnd. apply NoDup_cons in Hnd as [Hl Hnd]. simpl.
  destruct (String.eqb (layer_id l) layerId) eqn:E.
  - apply String.eqb_eq in E.
    assert (layer = l) as ->.
    { apply elem_of_cons in Hin as [?|Hin]; [done|]. exfalso. apply Hl.
      apply list_elem_of_fmap. exists layer. split; [congruence|done]. }
    rewrite !elem_of_cons. split.
    + intros [-> | Hx]; [by right|]. left. split; [by right|]. intros Heq. apply Hl.
      apply list_elem_of_fmap. exists x. split; [congruence|done].
    + intros [[[-> | Hx] Hne] | ->]; [done|by right|by left].
  - apply String.eqb_neq in E.
    assert (layer ∈ layers) as Hin'.
    { apply elem_of_cons in Hin as [->|?]; [done|done]. }
    rewrite !elem_of_cons, (IH Hnd Hin'). split.
    + intros [-> | [[Hx Hne] | ->]]; [left; split; [by left|done] | left; split; [by right|done]
                                      | by right].
    + intros [[[-> | Hx] Hne] | ->]; [by left | right; by left | right; by right].
Qed.

Lemma mirrors_update (layerId : string) (updates : LayerUpdates) (layers : list ActiveLayer)
    (registry : gmap string ActiveLayer) :
  mirrors layers registry → upd_id updates = None →
  mirrors (update_found layerId updates layers)
    match registry !! layerId with
    | Some layer => <[layerId := spread_layer layer updates]> registry
    | None => registry
    end.
Proof.
  intros [Hnd Hiff] Hupd. destruct (registry !! layerId) as [layer|] eqn:Hreg.
  - apply Hiff in Hreg as Hin. destruct Hin as [Hin Hid].
    split; [by rewrite update_found_ids|].
    intros id x. rewrite lookup_insert_Some, (elem_of_update_found _ _ _ layer) by done.
    rewrite Hiff. split.
    + intros [[<- <-] | [Hne [Hx <-]]].
      * split; [by right|]. simpl. by rewrite Hupd.
      * split; [left; by split|done].
    + intros [[[Hx Hne] | ->] <-].
      * right. by split_and!.
      * left. split; [|done]. simpl. by rewrite Hupd.
  - rewrite update_found_absent; [done|]. intros l Hl Heq.
    assert (registry !! layerId = Some l) as Hreg' by by apply Hiff. congruence.
Qed.

Lemma activeLayers_in_emitted (events : list PlanetaryComputerEvent)
    (c : PlanetaryComputerControl) (s : PlanetaryComputerState) :
  activeLayers_in (emitted events c) s = activeLayers_in c s.
Proof. done. Qed.

Lemma onAdd_run (m : MapLibreMap) (c : PlanetaryComputerControl) :
  onAdd m c = (Normal tt, after_onAdd m c).
Proof.
  unfold onAdd, after_onAdd, bind, modify, gets. simpl.
  destruct (o_autoLoadCollections (ctl_options c)); [|done].
  unfold _loadCollections_begin, bind, modify. by rewrite emit_run.
Qed.

Lemma control_add_inv :
  ∀ (add : JSM LayerManager ActiveLayer) c c' layer,
  (∀ mgr mgr' layer, consistent mgr → add mgr = (Normal layer, mgr') →
                     ∃ src, mgr' = registered src layer mgr ∧
                            sources (mgr_map mgr) !! layer_sourceId layer = None ∧
                            liveLayers (mgr_map mgr) !! layer_id layer = None) →
  control_inv c →
  match ctl_layerManager c with
  | None => (Throw "Control not added to map", c)
  | Some mgr =>
      match add mgr with
      | (Normal layer, mgr') => (Normal layer, after_add layer mgr' c)
      | (Throw e, mgr') => (Throw e, set_layerManager (Some mgr') c)
      end
  end = (Normal layer, c') →
  control_inv c' ∧ layer ∈ activeLayers_in c' (getState c').
Proof.
  intros add c c' layer Hreg [[layers Harr] Hinv] Hrun.
  destruct (ctl_layerManager c) as [mgr|] eqn:Hmgr; [|done].
  destruct Hinv as [Hc Hmir].
  destruct (add mgr) as [[layer'|e] mgr'] eqn:Hr; [|done]. injection Hrun as -> <-.
  destruct (Hreg mgr mgr' layer Hc Hr) as (src & -> & Hs & Hl).
  assert (activeLayers_in (after_add layer (registered src layer mgr) c) (ctl_state c) =
            activeLayers_in c (ctl_state c) ++ [layer]) as Hlist.
  { unfold activeLayers_in, after_add. simpl. rewrite lookup_alter_eq, Harr. done. }
  split; [split|].
  - simpl. rewrite lookup_alter_eq, Harr. by eexists.
  - change (ctl_layerManager (after_add layer (registered src layer mgr) c))
      with (Some (registered src layer mgr)).
    split; [by apply registered_consistent|].
    change (ctl_state (after_add layer (registered src layer mgr) c)) with (ctl_state c).
    rewrite Hlist, registered_layers. apply mirrors_add; [done|].
    destruct (mgr_layers mgr !! layer_id layer) as [old|] eqn:Hold; [|done].
    destruct (proj2 Hc _ _ Hold) as ((l & Hl' & _) & _). congruence.
  - change (getState (after_add layer (registered src layer mgr) c)) with (ctl_state c).
    rewrite Hlist. apply elem_of_app. right. by apply list_elem_of_singleton.
Qed.

Lemma control_inv_new (options : PlanetaryComputerOptions) :
  control_inv (new_PlanetaryComputerControl options).
Proof. split; [by eexists|done]. Qed.

Lemma control_inv_handlers (c c' : PlanetaryComputerControl) :
  ctl_state c' = ctl_state c → ctl_arrays c' = ctl_arrays c →
  ctl_layerManager c' = ctl_layerManager c →
  control_inv c → control_inv c'.
Proof.
  intros Hs Ha Hm. unfold control_inv, activeLayers_in. by rewrite Hs, Ha, Hm.
Qed.

Lemma control_inv_onAdd (m : MapLibreMap) (c : PlanetaryComputerControl) :
  control_inv c → ctl_layerManager c = None → host_wf m → control_inv (after_onAdd m c).
Proof.
  intros [[layers Harr] Hinv] Hmgr Hwf. rewrite Hmgr in Hinv.
  assert (mirrors [] (mgr_layers (new_LayerManager m (ctl_tilerClient c)))) as Hmir.
  { split; [constructor|]. intros id layer. simpl. rewrite lookup_empty.
    split; [done|]. by intros [?%elem_of_nil _]. }
  unfold after_onAdd. destruct (o_autoLoadCollections (ctl_options c)).
  - split; [by eexists|]. split; [by apply consistent_new|].
    unfold activeLayers_in in *. simpl. by rewrite Hinv.
  - split; [by eexists|]. split; [by apply consistent_new|].
    unfold activeLayers_in in *. simpl. by rewrite Hinv.
Qed.

(** The control shows the registry.  The invariant holds for a new control,
    is established by [onAdd] over a well-formed host and is kept by every
    add that returns, by [removeLayer] and by [updateLayer] (without an [id]
    or a [sourceId] among the updates), which always return under it. *)
Theorem control_mirrors_registry :
  (∀ options, control_inv (new_PlanetaryComputerControl options)) ∧
  (∀ m c, control_inv c → ctl_layerManager c = None → host_wf m →
          ∃ c', onAdd m c = (Normal tt, c') ∧ control_inv c' ∧
                ctl_layerManager c' = Some (new_LayerManager m (ctl_tilerClient c))) ∧
  (∀ generated item options c c' layer,
     control_inv c →
     control_addItemLayer generated item options c = (Normal layer, c') →
     control_inv c' ∧ layer ∈ activeLayers_in c' (getState c')) ∧
  (∀ generated collection options c c' layer,
     control_inv c →
     control_addCollectionLayer generated collection options c = (Normal layer, c') →
     control_inv c' ∧ layer ∈ activeLayers_in c' (getState c')) ∧
  (∀ layerId c,
     control_inv c →
     ∃ c', control_removeLayer layerId c = (Normal tt, c') ∧ control_inv c' ∧
           ∀ l, l ∈ activeLayers_in c' (getState c') → layer_id l ≠ layerId) ∧
  (∀ layerId updates c,
     control_inv c → upd_id updates = None → upd_sourceId updates = None →
     ∃ c', control_updateLayer layerId updates c = (Normal tt, c') ∧ control_inv c').
Proof.
  pose proof control_add_inv as Hadd.
  split_and!.
  - apply control_inv_new.
  - intros m c Hinv Hmgr Hwf.
    exists (after_onAdd m c). split; [apply onAdd_run|].
    split; [by apply control_inv_onAdd|].
    unfold after_onAdd. by destruct (o_autoLoadCollections (ctl_options c)).
  - intros generated item options c c' layer Hinv Hrun.
    unfold control_addItemLayer in Hrun. rewrite control_add_run in Hrun.
    apply (Hadd (addItemLayer generated item options) c c' layer); [|done..].
    intros mgr mgr' layer' Hc Hr.
    pose proof (addItemLayer_Normal _ _ _ _ _ _ Hr) as Hfresh.
    rewrite (addItemLayer_run _ _ _ _ Hfresh) in Hr. injection Hr as <- <-.
    eexists. split; [done|]. destruct Hfresh as [Hs Hl]. unfold itemLayer.
    by destruct (resolveItemParams item options) as [[? ?] ?].
  - intros generated collection options c c' layer Hinv Hrun.
    unfold control_addCollectionLayer in Hrun. rewrite control_add_run in Hrun.
    apply (Hadd (addCollectionLayer generated collection options) c c' layer); [|done..].
    intros mgr mgr' layer' Hc Hr.
    pose proof (addCollectionLayer_Normal _ _ _ _ _ _ Hr) as Hfresh.
    rewrite (addCollectionLayer_run _ _ _ _ Hfresh) in Hr. injection Hr as <- <-.
    eexists. split; [done|]. destruct Hfresh as [Hs Hl]. unfold collectionLayer.
    by destruct (resolveCollectionParams collection options) as [[? ?] ?].
  - intros layerId c [[layers Harr] Hinv]. rewrite control_removeLayer_run.
    assert (∀ mgr, activeLayers_in (after_remove layerId mgr c)
                     (ctl_state (after_remove layerId mgr c)) =
                   filter (λ l, layer_id l ≠ layerId) (activeLayers_in c (ctl_state c)))
      as Hlist.
    { intros mgr. unfold activeLayers_in at 1. simpl. by rewrite lookup_insert_eq. }
    assert (∀ mgr, is_Some (ctl_arrays (after_remove layerId mgr c)
                              !! st_activeLayers (ctl_state (after_remove layerId mgr c))))
      as Hsome.
    { intros mgr. simpl. rewrite lookup_insert_eq. by eexists. }
    destruct (ctl_layerManager c) as [mgr|] eqn:Hmgr.
    + destruct Hinv as [Hc Hmir].
      destruct (removeLayer_effect layerId mgr Hc) as (mgr' & Hrun & Hc' & _ & Hl & _).
      rewrite Hrun. eexists. split; [done|]. split; [split; [done|]|].
      * change (ctl_layerManager (after_remove layerId (Some mgr') c)) with (Some mgr').
        split; [done|]. rewrite Hlist, Hl. by apply mirrors_remove.
      * intros l. unfold getState. rewrite Hlist. by intros [? _]%list_elem_of_filter.
    + eexists. split; [done|]. split; [split; [done|]|].
      * change (ctl_layerManager (after_remove layerId None c)) with (@None LayerManager).
        rewrite Hlist, Hinv. done.
      * intros l. unfold getState. rewrite Hlist. by intros [? _]%list_elem_of_filter.
  - intros layerId updates c [[layers Harr] Hinv] Hid Hsid. rewrite control_updateLayer_run.
    assert (∀ mgr, activeLayers_in (after_layer_update layerId updates mgr c)
                     (ctl_state (after_layer_update layerId updates mgr c)) =
                   update_found layerId updates (activeLayers_in c (ctl_state c)))
      as Hlist.
    { intros mgr. unfold activeLayers_in. simpl. rewrite lookup_alter_eq, Harr. done. }
    assert (∀ mgr, is_Some (ctl_arrays (after_layer_update layerId updates mgr c)
                              !! st_activeLayers
                                   (ctl_state (after_layer_update layerId updates mgr c))))
      as Hsome.
    { intros mgr. simpl. rewrite lookup_alter_eq, Harr. by eexists. }
    destruct (ctl_layerManager c) as [mgr|] eqn:Hmgr.
    + destruct Hinv as [Hc Hmir].
      destruct (updateLayer_effect layerId updates mgr Hc Hsid) as (mgr' & Hrun & Hc' & Hl).
      rewrite Hrun. eexists. split; [done|]. split; [done|].
      change (ctl_layerManager (after_layer_update layerId updates (Some mgr') c))
        with (Some mgr').
      split; [done|]. rewrite Hlist, Hl. by apply mirrors_update.
    + eexists. split; [done|]. split; [done|].
      change (ctl_layerManager (after_layer_update layerId updates None c))
        with (@None LayerManager).
      rewrite Hlist, Hinv. done.
Qed.

Lemma calls_of_same (event : PlanetaryComputerEvent) (c c' : PlanetaryComputerControl) :
  ctl_state c' = ctl_state c → ctl_eventHandlers c' = ctl_eventHandlers c →
  calls_of event c' = calls_of event c.
Proof. intros Hs Hh. unfold calls_of. by rewrite Hs, Hh. Qed.

(** What the subscribers hear of the layer operations.  An add that returns
    calls the handlers of [layer:add] and then those of [statechange], each
    once and in the order of registration, with the state and no data; the
    last entry of the [activeLayers] they see is the new record.  An add that
    throws calls nobody and leaves state and arrays alone.  [removeLayer] and
    [updateLayer] call the handlers of [layer:remove] (or [layer:update]) and
    [statechange] whether or not the id is known and whether or not the
    control has a map; the removed id is not passed along. *)
Theorem layer_events_reach_subscribers (c : PlanetaryComputerControl) :
  control_inv c →
  (∀ (add : JSM PlanetaryComputerControl ActiveLayer),
     (∃ generated item options, add = control_addItemLayer generated item options) ∨
     (∃ generated collection options,
        add = control_addCollectionLayer generated collection options) →
     (∀ layer c', add c = (Normal layer, c') →
        ctl_state c' = ctl_state c ∧
        ctl_called c' = ctl_called c ++ calls_of ev_layer_add c ++ calls_of ev_statechange c ∧
        last (activeLayers_in c' (ctl_state c')) = Some layer) ∧
     (∀ e c', add c = (Throw e, c') →
        ctl_state c' = ctl_state c ∧ ctl_arrays c' = ctl_arrays c ∧
        ctl_called c' = ctl_called c)) ∧
  (∀ layerId, ∃ c',
     control_removeLayer layerId c = (Normal tt, c') ∧
     ctl_called c' =
       ctl_called c ++ calls_of ev_layer_remove c' ++ calls_of ev_statechange c') ∧
  (∀ layerId updates, upd_sourceId updates = None → ∃ c',
     control_updateLayer layerId updates c = (Normal tt, c') ∧
     ctl_state c' = ctl_state c ∧
     ctl_called c' =
       ctl_called c ++ calls_of ev_layer_update c ++ calls_of ev_statechange c) ∧
  (∀ event handler data,
     (handler, data) ∈ calls_of event c ↔
     handler ∈ ctl_eventHandlers c event ∧
     data = {| evd_type := event; evd_state := getState c; evd_data := None |}).
Proof.
  intros [[layers Harr] Hinv].
  assert (∀ (add : JSM LayerManager ActiveLayer),
            (∀ layer c',
               match ctl_layerManager c with
               | None => (Throw "Control not added to map", c)
               | Some mgr =>
                   match add mgr with
                   | (Normal layer, mgr') => (Normal layer, after_add layer mgr' c)
                   | (Throw e, mgr') => (Throw e, set_layerManager (Some mgr') c)
                   end
               end = (Normal layer, c') →
               ctl_state c' = ctl_state c ∧
               ctl_called c' =
                 ctl_called c ++ calls_of ev_layer_add c ++ calls_of ev_statechange c ∧
               last (activeLayers_in c' (ctl_state c')) = Some layer) ∧
            (∀ e c',
               match ctl_layerManager c with
               | None => (Throw "Control not added to map", c)
               | Some mgr =>
                   match add mgr with
                   | (Normal layer, mgr') => (Normal layer, after_add layer mgr' c)
                   | (Throw e, mgr') => (Throw e, set_layerManager (Some mgr') c)
                   end
               end = (Throw e, c') →
               ctl_state c' = ctl_state c ∧ ctl_arrays c' = ctl_arrays c ∧
               ctl_called c' = ctl_called c)) as Hadd.
  { intros add. split.
    - intros layer c' Hrun. destruct (ctl_layerManager c) as [mgr|]; [|done].
      destruct (add mgr) as [[layer'|e] mgr']; [|done]. injection Hrun as -> <-.
      split_and!; [done| |].
      + unfold after_add, emitted. simpl. by rewrite app_nil_r.
      + unfold activeLayers_in. simpl. rewrite lookup_alter_eq, Harr. simpl.
        apply last_snoc.
    - intros e c' Hrun. destruct (ctl_layerManager c) as [mgr|]; [|by injection Hrun as _ <-].
      destruct (add mgr) as [[layer'|e'] mgr']; [done|]. by injection Hrun as _ <-. }
  split_and!.
  - intros add [(generated & item & options & ->) | (generated & collection & options & ->)].
    + unfold control_addItemLayer. rewrite control_add_run. apply Hadd.
    + unfold control_addCollectionLayer. rewrite control_add_run. apply Hadd.
  - intros layerId. rewrite control_removeLayer_run.
    assert (∀ mgr, ctl_called (after_remove layerId mgr c) =
                   ctl_called c ++ calls_of ev_layer_remove (after_remove layerId mgr c) ++
                   calls_of ev_statechange (after_remove layerId mgr c)) as Hcalled.
    { intros mgr. unfold after_remove, emitted. simpl. by rewrite app_nil_r. }
    destruct (ctl_layerManager c) as [mgr|] eqn:Hmgr; [|by eexists].
    destruct Hinv as [Hc _].
    destruct (removeLayer_effect layerId mgr Hc) as (mgr' & Hrun & _). rewrite Hrun.
    by eexists.
  - intros layerId updates Hsid. rewrite control_updateLayer_run.
    assert (∀ mgr, ctl_called (after_layer_update layerId updates mgr c) =
                   ctl_called c ++ calls_of ev_layer_update c ++ calls_of ev_statechange c)
      as Hcalled.
    { intros mgr. unfold after_layer_update, emitted. simpl. by rewrite app_nil_r. }
    destruct (ctl_layerManager c) as [mgr|] eqn:Hmgr; [|by eexists].
    destruct Hinv as [Hc _].
    destruct (updateLayer_effect layerId updates mgr Hc Hsid) as (mgr' & Hrun & _).
    rewrite Hrun. by eexists.
  - intros event handler data. unfold calls_of. rewrite list_elem_of_fmap. split.
    + by intros (h & [= -> ->] & Hh).
    + intros [Hh ->]. by exists handler.
Qed.


(** A state handed out by [getState] shares the [activeLayers] array with the
    control.  After an add that returns, the earlier state shows the new
    record; after an [updateLayer] it shows the merged record; after a
    [removeLayer] it still shows the removed one, since the control moved on to
    a new array. *)
Theorem snapshots_share_the_layer_array (c : PlanetaryComputerControl) :
  control_inv c →
  let before := getState c in
  (∀ generated item options layer c',
     control_addItemLayer generated item options c = (Normal layer, c') →
     activeLayers_in c' before = activeLayers_in c before ++ [layer] ∧
     activeLayers_in c' (getState c') = activeLayers_in c' before) ∧
  (∀ layerId updates c',
     control_updateLayer layerId updates c = (Normal tt, c') →
     activeLayers_in c' before = update_found layerId updates (activeLayers_in c before) ∧
     activeLayers_in c' (getState c') = activeLayers_in c' before) ∧
  (∀ layerId c',
     control_removeLayer layerId c = (Normal tt, c') →
     activeLayers_in c' before = activeLayers_in c before ∧
     activeLayers_in c' (getState c') =
       filter (λ l, layer_id l ≠ layerId) (activeLayers_in c before) ∧
     st_activeLayers (getState c') ≠ st_activeLayers before).
Proof.
  intros [[layers Harr] Hinv] before. unfold before, getState. split_and!.
  - intros generated item options layer c' Hrun.
    unfold control_addItemLayer in Hrun. rewrite control_add_run in Hrun.
    destruct (ctl_layerManager c) as [mgr|]; [|done].
    destruct (addItemLayer generated item options mgr) as [[layer'|e] mgr']; [|done].
    injection Hrun as -> <-. split; [|done].
    unfold activeLayers_in. simpl. by rewrite lookup_alter_eq, Harr.
  - intros layerId updates c' Hrun. rewrite control_updateLayer_run in Hrun.
    assert (∀ mgr, activeLayers_in (after_layer_update layerId updates mgr c) (ctl_state c) =
                   update_found layerId updates (activeLayers_in c (ctl_state c))) as Hlist.
    { intros mgr. unfold activeLayers_in. simpl. by rewrite lookup_alter_eq, Harr. }
    destruct (ctl_layerManager c) as [mgr|].
    + destruct (updateLayer layerId updates mgr) as [[[]|e] mgr']; [|done].
      injection Hrun as <-. by split.
    + injection Hrun as <-. by split.
  - intros layerId c' Hrun. rewrite control_removeLayer_run in Hrun.
    assert (fresh (dom (ctl_arrays c)) ≠ st_activeLayers (ctl_state c)) as Hfresh.
    { intros Heq. apply (is_fresh (dom (ctl_arrays c))). rewrite Heq.
      apply elem_of_dom. by eexists. }
    assert (∀ mgr, activeLayers_in (after_remove layerId mgr c) (ctl_state c) =
                   activeLayers_in c (ctl_state c) ∧
                   activeLayers_in (after_remove layerId mgr c)
                     (ctl_state (after_remove layerId mgr c)) =
                   filter (λ l, layer_id l ≠ layerId) (activeLayers_in c (ctl_state c)) ∧
                   st_activeLayers (ctl_state (after_remove layerId mgr c)) ≠
                   st_activeLayers (ctl_state c)) as Hlist.
    { intros mgr. split_and!.
      - unfold activeLayers_in. simpl. by rewrite lookup_insert_ne.
      - unfold activeLayers_in at 1. simpl. by rewrite lookup_insert_eq.
      - done. }
    destruct (ctl_layerManager c) as [mgr|].
    + destruct (removeLayer layerId mgr) as [[[]|e] mgr']; [|done].
      injection Hrun as <-. apply Hlist.
    + injection Hrun as <-. apply Hlist.
Qed.

(** [toggle] flips [collapsed] and nothing else of the state, and tells the
    handlers of [collapse] or [expand], whichever the panel now is, and then
    those of [statechange].  [expand] on an expanded panel and [collapse] on a
    collapsed one do nothing at all; otherwise they are [toggle]. *)
Theorem expand_and_collapse_are_idempotent (c : PlanetaryComputerControl) :
  (∃ c', control_toggle c = (Normal tt, c') ∧
         ctl_state c' = set_collapsed (negb (st_collapsed (ctl_state c))) (ctl_state c) ∧
         ctl_called c' =
           ctl_called c ++
           calls_of (if st_collapsed (ctl_state c) then ev_expand else ev_collapse) c' ++
           calls_of ev_statechange c' ∧
         ∃ c'', control_toggle c' = (Normal tt, c'') ∧ ctl_state c'' = ctl_state c) ∧
  (∃ c', control_expand c = (Normal tt, c') ∧ st_collapsed (ctl_state c') = false ∧
         control_expand c' = (Normal tt, c') ∧
         (st_collapsed (ctl_state c) = false → c' = c) ∧
         (st_collapsed (ctl_state c) = true → control_toggle c = (Normal tt, c'))) ∧
  (∃ c', control_collapse c = (Normal tt, c') ∧ st_collapsed (ctl_state c') = true ∧
         control_collapse c' = (Normal tt, c') ∧
         (st_collapsed (ctl_state c) = true → c' = c) ∧
         (st_collapsed (ctl_state c) = false → control_toggle c = (Normal tt, c'))).
Proof.
  assert (∀ c0, control_toggle c0 =
                (Normal tt,
                 emitted [if st_collapsed (ctl_state c0) then ev_expand else ev_collapse;
                          ev_statechange]
                   (set_state (λ s, set_collapsed (negb (st_collapsed s)) s) c0))) as Htoggle.
  { intros c0. unfold control_toggle. unfold bind at 1. unfold modify.
    unfold bind at 1. unfold gets. rewrite emit2_end. simpl.
    by destruct (st_collapsed (ctl_state c0)). }
  split_and!.
  - eexists. split; [apply Htoggle|]. split_and!; [done| |].
    + unfold emitted. simpl. by rewrite app_nil_r.
    + eexists. split; [apply Htoggle|]. simpl. destruct (ctl_state c) as [[] ? ? ? ? ? ? ? ? ?]; done.
  - unfold control_expand, bind, gets. destruct (st_collapsed (ctl_state c)) eqn:E.
    + eexists. split; [apply Htoggle|]. split_and!; [by simpl; rewrite E| |done|done].
      simpl. by rewrite E.
    + exists c. split_and!; [done|done| |done|done]. by rewrite E.
  - unfold control_collapse, bind, gets. destruct (st_collapsed (ctl_state c)) eqn:E.
    + exists c. split_and!; [done|done| |done|done]. by rewrite E.
    + eexists. split; [apply Htoggle|]. split_and!; [by simpl; rewrite E| |done|done].
      simpl. by rewrite E.
Qed.

(** [onRemove] on a control that shows the registry of its manager: the
    layers and sources of the registry leave the host and the registry is
    empty, the token cache is cleared, the pending search is aborted, the
    map is unset and no handler is left, so that nobody is called.  The
    [activeLayers] of the state are not touched: with a layer on show the
    control no longer shows its registry.  The manager stays in place: a
    later add does not throw for the missing map, and nobody hears of it. *)
Theorem onRemove_keeps_the_layer_list (keys : list string) (c : PlanetaryComputerControl)
    (mgr : LayerManager) :
  control_inv c →
  ctl_layerManager c = Some mgr →
  (∀ k, is_Some (mgr_layers mgr !! k) → k ∈ keys) →
  ∃ c' mgr',
    onRemove keys c = (Normal tt, c') ∧
    ctl_layerManager c' = Some mgr' ∧ mgr_layers mgr' = ∅ ∧
    (∀ k layer, mgr_layers mgr !! k = Some layer →
       liveLayers (mgr_map mgr') !! k = None ∧
       sources (mgr_map mgr') !! layer_sourceId layer = None) ∧
    ctl_map c' = false ∧
    (∀ e, ctl_eventHandlers c' e = []) ∧
    cache (ctl_sasManager c') = ∅ ∧
    stac_abortController (ctl_stacClient c') = None ∧
    (∀ k, stac_abortController (ctl_stacClient c) = Some k →
          k ∈ stac_aborted (ctl_stacClient c')) ∧
    ctl_called c' = ctl_called c ∧
    getState c' = getState c ∧
    activeLayers_in c' (getState c') = activeLayers_in c (getState c) ∧
    (activeLayers_in c (getState c) ≠ [] → ¬ control_inv c') ∧
    (∀ generated item options,
       fresh_ids (newLayerId (item_id item) generated) mgr' →
       ∃ layer c'', control_addItemLayer generated item options c' = (Normal layer, c'') ∧
                    ctl_called c'' = ctl_called c).
Proof.
  intros [Harr Hinv] Hmgr Hkeys. rewrite Hmgr in Hinv. destruct Hinv as [Hc Hmir].
  destruct (removeAllLayers_run keys mgr Hc)
    as (mgr' & Hrun & Hc' & _ & Hin & Hout & Hlin & _ & _ & Hsin & _).
  assert (mgr_layers mgr' = ∅) as Hempty.
  { apply map_eq. intros k. rewrite lookup_empty.
    destruct (decide (k ∈ keys)) as [Hk|Hk]; [by apply Hin|].
    rewrite Hout by done. destruct (mgr_layers mgr !! k) eqn:E; [|done].
    exfalso. apply Hk, Hkeys. by eexists. }
  set (c' := set_eventHandlers (λ _ _, [])
               (set_map false
                  (set_layerManager (Some mgr')
                     (set_sasManager clearCache
                        (set_stacClient (stac_begin call_cancelPending) c))))).
  assert (onRemove keys c = (Normal tt, c')) as Hrem.
  { unfold onRemove. unfold bind at 1. unfold modify at 1.
    unfold bind at 1. unfold modify at 1.
    unfold bind at 1.
    rewrite (on_manager_Some _ _ mgr mgr' (Normal tt)) by done. done. }
  exists c', mgr'. split_and!; try done.
  - intros k layer Hreg. split.
    + apply Hlin; [|by eexists]. apply Hkeys. by eexists.
    + apply Hsin. exists k, layer. split_and!; [|done..]. apply Hkeys. by eexists.
  - intros k Hk. simpl. unfold abort_current. rewrite Hk. simpl.
    apply elem_of_union. left. by apply elem_of_singleton.
  - intros Hne [_ Hinv']. change (ctl_layerManager c') with (Some mgr') in Hinv'.
    destruct Hinv' as [_ [_ Hiff]].
    change (activeLayers_in c' (ctl_state c')) with (activeLayers_in c (ctl_state c)) in Hiff.
    unfold getState in Hne.
    destruct (activeLayers_in c (ctl_state c)) as [|l ls]; [done|].
    assert (mgr_layers mgr' !! layer_id l = Some l) as Hl.
    { apply Hiff. split; [|done]. apply elem_of_cons. by left. }
    by rewrite Hempty, lookup_empty in Hl.
  - intros generated item options Hfresh.
    unfold control_addItemLayer. rewrite control_add_run.
    change (ctl_layerManager c') with (Some mgr'). cbv beta iota.
    rewrite (addItemLayer_run _ _ _ _ Hfresh). eexists _, _. split; [done|].
    unfold after_add, emitted, calls_of. simpl. by rewrite app_nil_r.
Qed.

Lemma control_search_begin_run (params : option STACSearchParams)
    (c : PlanetaryComputerControl) :
  let searchParams :=
    spread_search (st_searchParams (ctl_state c)) (default no_search params)
      (o_maxSearchResults (ctl_options c)) in
  control_search_begin params c =
    (Normal tt,
     set_stacClient (stac_begin (call_search searchParams))
       (emitted [ev_search_start; ev_statechange]
          (set_state (λ s, set_error None (set_searchLoading true
                                             (set_searchParams searchParams s))) c))).
Proof.
  simpl. unfold control_search_begin. unfold bind at 1. unfold modify at 1.
  rewrite emit2_run. done.
Qed.

Lemma stac_search_run (params : STACSearchParams) (client : STACClient) :
  let k := stac_controllers client in
  stac_sent (stac_begin (call_search params) client) =
    stac_sent client ++ [search_request client params k] ∧
  stac_abortController (stac_begin (call_search params) client) = Some k ∧
  stac_controllers (stac_begin (call_search params) client) = S k ∧
  stac_baseUrl (stac_begin (call_search params) client) = stac_baseUrl client ∧
  stac_aborted (stac_begin (call_search params) client) =
    match stac_abortController client with
    | Some k0 => {[ k0 ]} ∪ stac_aborted client
    | None => stac_aborted client
    end.
Proof.
  unfold stac_begin, send, new_controller, abort_current, search_request.
  by destruct (stac_abortController client).
Qed.

(** [search] of the control sends the stored parameters overlaid with the
    ones it is given, under the configured limit whatever limit the caller
    asked for, stores them, raises [searchLoading], clears the error, and
    aborts the search that was pending; parameters of earlier searches that
    the caller does not override are sent again.  After [selectCollection] a
    search without parameters asks for that collection alone. *)
Theorem search_sends_the_configured_limit (params : option STACSearchParams)
    (c : PlanetaryComputerControl) :
  let max := o_maxSearchResults (ctl_options c) in
  let sent := spread_search (st_searchParams (ctl_state c)) (default no_search params) max in
  (∃ c', control_search_begin params c = (Normal tt, c') ∧
     sp_limit sent = Some max ∧
     sp_bbox sent = spread1 (sp_bbox (st_searchParams (ctl_state c))) (params ≫= sp_bbox) ∧
     sp_datetime sent =
       spread1 (sp_datetime (st_searchParams (ctl_state c))) (params ≫= sp_datetime) ∧
     sp_collections sent =
       spread1 (sp_collections (st_searchParams (ctl_state c))) (params ≫= sp_collections) ∧
     sp_intersects sent =
       spread1 (sp_intersects (st_searchParams (ctl_state c))) (params ≫= sp_intersects) ∧
     sp_ids sent = spread1 (sp_ids (st_searchParams (ctl_state c))) (params ≫= sp_ids) ∧
     sp_query sent = spread1 (sp_query (st_searchParams (ctl_state c))) (params ≫= sp_query) ∧
     sp_sortby sent =
       spread1 (sp_sortby (st_searchParams (ctl_state c))) (params ≫= sp_sortby) ∧
     sp_filter sent =
       spread1 (sp_filter (st_searchParams (ctl_state c))) (params ≫= sp_filter) ∧
     sp_filter_lang sent =
       spread1 (sp_filter_lang (st_searchParams (ctl_state c))) (params ≫= sp_filter_lang) ∧
     st_searchParams (ctl_state c') = sent ∧
     st_searchLoading (ctl_state c') = true ∧
     st_error (ctl_state c') = None ∧
     stac_sent (ctl_stacClient c') =
       stac_sent (ctl_stacClient c) ++
       [search_request (ctl_stacClient c) sent (stac_controllers (ctl_stacClient c))] ∧
     stac_abortController (ctl_stacClient c') = Some (stac_controllers (ctl_stacClient c)) ∧
     (∀ k, stac_abortController (ctl_stacClient c) = Some k →
           k ∈ stac_aborted (ctl_stacClient c')) ∧
     ctl_called c' =
       ctl_called c ++ calls_of ev_search_start c' ++ calls_of ev_statechange c') ∧
  (∀ collection,
     ∃ c1 c2, control_selectCollection (Some collection) c = (Normal tt, c1) ∧
              st_searchResults (ctl_state c1) = [] ∧
              st_activeView (ctl_state c1) = view_search ∧
              control_search_begin None c1 = (Normal tt, c2) ∧
              st_searchParams (ctl_state c2) = collection_search (coll_id collection) max).
Proof.
  intros max sent. split.
  - eexists. split; [apply control_search_begin_run|].
    destruct (stac_search_run sent (ctl_stacClient c)) as (Hs & Hk & _ & _ & Hab).
    split_and!; try done;
      try (unfold sent, spread_search; simpl; by destruct params).
    + intros k Hcur. simpl. unfold abort_current. rewrite Hcur. simpl.
      apply elem_of_union. left. by apply elem_of_singleton.
    + unfold emitted. simpl. by rewrite app_nil_r.
  - intros collection. eexists _, _. split.
    { unfold control_selectCollection. unfold bind at 1. unfold modify at 1.
      apply emit2_end. }
    split_and!; [done|done| |].
    + apply control_search_begin_run.
    + done.
Qed.

Lemma control_search_end_rejected (name message : string) (c : PlanetaryComputerControl) :
  control_search_end (rejected (an_Error name message)) c =
    (rejected (an_Error name message), after_search_error message c).
Proof.
  unfold control_search_end, after_search_error. f_equal.
  unfold bind, modify. rewrite !emit_run. simpl.
  unfold emitted, calls_of, set_called, set_state. simpl. rewrite !app_nil_r.
  by rewrite <- !app_assoc.
Qed.

(** A search that the client has aborted for a newer one, and whose request
    the platform then rejects with an [AbortError]: its promise is rejected
    with [Request was cancelled]; the control records this message as its
    error, calls the handlers of [search:error], [error] and [statechange],
    and lowers [searchLoading], while the newer search is still under way. *)
Theorem superseded_search_reports_an_error (features : json → list STACItem)
    (first second : option STACSearchParams) (message : string)
    (c : PlanetaryComputerControl) :
  stac_inv (ctl_stacClient c) →
  let c1 := (control_search_begin first c).2 in
  let c2 := (control_search_begin second c1).2 in
  let outcome := stac_search_end features (fetch_fails (an_Error "AbortError" message)) in
  let c3 := (control_search_end outcome c2).2 in
  ∃ k1 k2 r1 r2,
    stac_sent (ctl_stacClient c3) = stac_sent (ctl_stacClient c) ++ [r1; r2] ∧
    req_signal r1 = Some k1 ∧ req_signal r2 = Some k2 ∧
    k1 ∈ stac_aborted (ctl_stacClient c3) ∧
    (k2 ∉ stac_aborted (ctl_stacClient c3)) ∧
    stac_abortController (ctl_stacClient c3) = Some k2 ∧
    outcome = rejected (new_Error "Request was cancelled") ∧
    (control_search_end outcome c2).1 = outcome ∧
    st_error (ctl_state c3) = Some "Request was cancelled" ∧
    st_searchLoading (ctl_state c3) = false ∧
    st_searchResults (ctl_state c3) = st_searchResults (ctl_state c) ∧
    ∃ during,
      st_error during = Some "Request was cancelled" ∧ st_searchLoading during = true ∧
      ctl_called c3 =
        ctl_called c2 ++
        map (λ h, (h, {| evd_type := ev_search_error; evd_state := during;
                         evd_data := None |})) (ctl_eventHandlers c ev_search_error) ++
        map (λ h, (h, {| evd_type := ev_error; evd_state := during;
                         evd_data := None |})) (ctl_eventHandlers c ev_error) ++
        calls_of ev_statechange c3.
Proof.
  intros Hinv c1 c2 outcome c3.
  set (p1 := spread_search (st_searchParams (ctl_state c)) (default no_search first)
               (o_maxSearchResults (ctl_options c))).
  set (p2 := spread_search (st_searchParams (ctl_state c1)) (default no_search second)
               (o_maxSearchResults (ctl_options c1))).
  set (s0 := ctl_stacClient c) in *.
  set (s1 := stac_begin (call_search p1) s0).
  set (s2 := stac_begin (call_search p2) s1).
  assert (ctl_stacClient c2 = s2) as Hs2 by reflexivity.
  assert (ctl_eventHandlers c2 = ctl_eventHandlers c) as Hh2 by reflexivity.
  assert (st_searchLoading (ctl_state c2) = true) as Hl2 by reflexivity.
  assert (st_searchResults (ctl_state c2) = st_searchResults (ctl_state c)) as Hr2
    by reflexivity.
  assert (outcome = rejected (new_Error "Request was cancelled")) as Ho by reflexivity.
  assert (control_search_end outcome c2 =
            (outcome, after_search_error "Request was cancelled" c2)) as Hend.
  { rewrite Ho. apply control_search_end_rejected. }
  assert (c3 = after_search_error "Request was cancelled" c2) as Hc3.
  { unfold c3. by rewrite Hend. }
  clearbody c3 c2. subst c3.
  destruct (stac_search_run p1 s0) as (Hsent1 & Hk1 & Hn1 & Hb1 & Hab1).
  destruct (stac_search_run p2 s1) as (Hsent2 & Hk2 & Hn2 & Hb2 & Hab2).
  fold s1 in Hsent1, Hk1, Hn1, Hb1, Hab1. fold s2 in Hsent2, Hk2, Hn2, Hb2, Hab2.
  pose proof (stac_begin_inv (call_search p1) s0 Hinv) as Hinv1. fold s1 in Hinv1.
  pose proof (stac_begin_inv (call_search p2) s1 Hinv1) as Hinv2. fold s2 in Hinv2.
  exists (stac_controllers s0), (stac_controllers s1),
    (search_request s0 p1 (stac_controllers s0)), (search_request s1 p2 (stac_controllers s1)).
  change (ctl_stacClient (after_search_error "Request was cancelled" c2))
    with (ctl_stacClient c2).
  rewrite Hs2. split_and!; try done.
  - rewrite Hsent2, Hsent1, <- app_assoc. done.
  - rewrite Hab2, Hk1. apply elem_of_union. left. by apply elem_of_singleton.
  - destruct Hinv2 as (HA & _). by apply HA.
  - exists (set_error (Some "Request was cancelled") (ctl_state c2)).
    split_and!; [done|done|].
    unfold after_search_error, emitted, calls_of. simpl. rewrite !app_nil_r, Hh2.
    by rewrite <- !app_assoc.
Qed.

(* ------------------------------------------------------------------ *)
(** ** Registering a mosaic *)

(** [registerMosaic] makes one [POST] to [/mosaic/register] whose body has
    the [collections], [filter], [filter-lang] and [sortby] of the search
    parameters, as they are, and nothing else of them: searches that agree on
    these four register alike, whatever their [bbox], [datetime], [ids] or
    [limit].  The filter language is the one given, and [cql2-json] without
    one.  It throws what the network or the reading of the body throws, and a
    message with the status text for a response that is not [ok].  Otherwise the search id is the [id] of the answer or else its
    [searchid], written into the tile URL as it is, [undefined] included, and
    followed by the rendering parameters if there are any. *)
Theorem registerMosaic_sends_four_fields (fetch : string → MosaicRegistration → RegisterResult)
    (c : TiTilerClient) (searchParams : STACSearchParams) (tileParams : TileParams) :
  let run := registerMosaic fetch c searchParams tileParams in
  (∀ other, same_registration searchParams other →
            registerMosaic fetch c other tileParams = run) ∧
  (mosaic_request run).1 = baseUrl c +:+ "/mosaic/register" ∧
  reg_collections (mosaic_request run).2 = sp_collections searchParams ∧
  reg_filter (mosaic_request run).2 = sp_filter searchParams ∧
  reg_sortby (mosaic_request run).2 = sp_sortby searchParams ∧
  (∀ lang, sp_filter_lang searchParams = Some lang →
     reg_filter_lang (mosaic_request run).2 = lang) ∧
  (sp_filter_lang searchParams = None →
     reg_filter_lang (mosaic_request run).2 = cql2_json) ∧
  (∀ statusText, fetch (mosaic_request run).1 (mosaic_request run).2 =
                   register_not_ok statusText →
     mosaic_result run = Throw ("Failed to register mosaic: " +:+ statusText)) ∧
  (∀ e, fetch (mosaic_request run).1 (mosaic_request run).2 = register_rejected e ∨
        fetch (mosaic_request run).1 (mosaic_request run).2 = register_unreadable e →
     mosaic_result run = Throw e) ∧
  (∀ id searchid, fetch (mosaic_request run).1 (mosaic_request run).2 =
                    register_ok id searchid →
     ∃ searchId tileUrl,
       mosaic_result run = Normal (searchId, tileUrl) ∧
       (∀ i, id = Some i → i ≠ EmptyString → searchId = Some i) ∧
       (truthy_string id = None → searchId = searchid) ∧
       (nothing_to_serialize tileParams → tileUrl = searchUrlBase c searchId) ∧
       (¬ nothing_to_serialize tileParams →
          tileUrl = searchUrlBase c searchId +:+ "&" +:+ buildQueryString tileParams)).
Proof.
  intros run. split_and!.
  - intros other (H1 & H2 & H3 & H4). unfold run, registerMosaic. by rewrite H1, H2, H3, H4.
  - done.
  - done.
  - done.
  - done.
  - intros lang H. simpl. by rewrite H.
  - intros H. simpl. by rewrite H.
  - intros statusText H. unfold run, registerMosaic in *. simpl in *. by rewrite H.
  - intros e [H | H]; unfold run, registerMosaic in *; simpl in *; by rewrite H.
  - intros id searchid H. unfold run, registerMosaic in *. simpl in *. rewrite H.
    eexists _, _. split; [reflexivity|]. split_and!.
    + intros i -> Hi. unfold truthy_string. by destruct i.
    + by intros ->.
    + intros Hn. apply buildQueryParams_nil in Hn.
      unfold buildQueryString. rewrite Hn. simpl. unfold searchUrlBase.
      by rewrite !app_empty_r.
    + intros Hn. unfold searchUrlBase.
      destruct (JS.truthy (buildQueryString tileParams)) eqn:E.
      * by rewrite !app_assoc_string.
      * exfalso. apply Hn, buildQueryParams_nil. apply truthy_empty in E.
        rewrite <- (parse_query_toString (buildQueryParams tileParams)).
        fold (buildQueryString tileParams). by rewrite E.
Qed.

(* ------------------------------------------------------------------ *)
(** ** Helpers *)

Lemma take_take_app (n : nat) (s t : string) :
  (n ≤ String.length s)%nat → JS.take n (JS.take n s +:+ t) = JS.take n s.
Proof.
  revert s. induction n as [|n IH]; intros [|c s] Hlen; simpl in *; try done; try lia.
  rewrite IH; [done|lia].
Qed.

Lemma take_prefix (n : nat) (s : string) : String.prefix (JS.take n s) s = true.
Proof.
  revert s. induction n as [|n IH]; intros [|c s]; simpl; try done.
  destruct (ascii_dec c c); [apply IH|done].
Qed.

(** [truncate] returns a text that fits unchanged.  Otherwise it keeps the
    first [maxLength] characters (none for a negative [maxLength]) and adds
    three dots, so that the result is three characters longer than
    [maxLength] allows, and longer than the text itself when the text exceeds
    [maxLength] by one or two characters.  Truncating twice is truncating
    once. *)
Theorem truncate_is_idempotent (text : string) (maxLength : Z) :
  truncate (truncate text maxLength) maxLength = truncate text maxLength ∧
  (Z.of_nat (String.length text) ≤ maxLength → truncate text maxLength = text) ∧
  (maxLength < Z.of_nat (String.length text) →
     ∃ kept, truncate text maxLength = kept +:+ "..." ∧
             String.prefix kept text = true ∧
             Z.of_nat (String.length kept) = Z.max 0 maxLength ∧
             Z.of_nat (String.length (truncate text maxLength)) = Z.max 0 maxLength + 3) ∧
  (0 ≤ maxLength < Z.of_nat (String.length text) →
   Z.of_nat (String.length text) < maxLength + 3 →
     (String.length text < String.length (truncate text maxLength))%nat).
Proof.
  assert (maxLength < Z.of_nat (String.length text) →
          truncate text maxLength = JS.take (Z.to_nat maxLength) text +:+ "..." ∧
          Z.of_nat (String.length (JS.take (Z.to_nat maxLength) text)) = Z.max 0 maxLength)
    as Hcut.
  { intros Hlt. unfold truncate. rewrite (proj2 (Z.leb_gt _ _)) by lia. split; [done|].
    rewrite length_take. lia. }
  split_and!.
  - destruct (Z.leb_spec (Z.of_nat (String.length text)) maxLength) as [Hle|Hlt].
    + unfold truncate at 2. rewrite (proj2 (Z.leb_le _ _) Hle).
      unfold truncate. by rewrite (proj2 (Z.leb_le _ _) Hle).
    + destruct (Hcut Hlt) as [-> Hlen]. unfold truncate.
      rewrite length_app_string. rewrite (proj2 (Z.leb_gt _ _)).
      * rewrite take_take_app; [done|lia].
      * simpl. lia.
  - intros Hle. unfold truncate. by rewrite (proj2 (Z.leb_le _ _) Hle).
  - intros Hlt. destruct (Hcut Hlt) as [-> Hlen]. eexists. split_and!; [done| |done|].
    + apply take_prefix.
    + rewrite length_app_string. simpl. lia.
  - intros Hlt Hclose. destruct (Hcut (proj2 Hlt)) as [-> Hlen].
    rewrite length_app_string. simpl. lia.
Qed.

(** [clamp] on finite numbers: with [min <= max] the result lies between the
    two and is the value itself when the value does; with [max < min] it is
    [max], whatever the value.  Clamping twice is clamping once, and a larger
    value never gives a smaller result. *)
Theorem clamp_stays_in_range (value min max : Q) :
  ((min <= max)%Q → (min <= clamp value min max)%Q ∧ (clamp value min max <= max)%Q) ∧
  ((min <= value)%Q → (value <= max)%Q → (clamp value min max == value)%Q) ∧
  ((max < min)%Q → (clamp value min max == max)%Q) ∧
  (clamp (clamp value min max) min max == clamp value min max)%Q ∧
  (∀ larger, (value <= larger)%Q → (clamp value min max <= clamp larger min max)%Q).
Proof.
  unfold clamp. split_and!.
  - intros H. split.
    + apply Q.min_glb; [apply Q.le_max_r | done].
    + apply Q.le_min_r.
  - intros Hlo Hhi. rewrite (Q.max_l value min) by done. by apply Q.min_l.
  - intros H. apply Q.min_r.
    eapply Qle_trans; [apply Qlt_le_weak, H | apply Q.le_max_r].
  - destruct (Qlt_le_dec max min) as [Hlt|Hle].
    + rewrite (Q.min_r (Qmax value min) max)
        by (eapply Qle_trans; [apply Qlt_le_weak, Hlt | apply Q.le_max_r]).
      rewrite (Q.max_r max min) by by apply Qlt_le_weak.
      apply Q.min_r. by apply Qlt_le_weak.
    + rewrite (Q.max_l (Qmin (Qmax value min) max) min)
        by (apply Q.min_glb; [apply Q.le_max_r | done]).
      apply Q.min_l. apply Q.le_min_r.
  - intros larger H. apply Q.min_le_compat_r. by apply Q.max_le_compat_r.
Qed.

(* ------------------------------------------------------------------ *)
(** ** The [Add to Map] button *)

Lemma expression_in_query (params : TileParams) (e : string) :
  tp_expression params = Some e → e ≠ EmptyString →
  ("expression", e) ∈ buildQueryParams params.
Proof.
  intros He Hne. destruct (buildQueryParams_shape params) as (rest & _ & ->).
  apply elem_of_app. right. apply elem_of_app. left.
  unfold expression_entries, truthy_string. rewrite He.
  destruct e; [done|]. simpl. apply elem_of_cons. by left.
Qed.

(** The custom visualization form.  With an expression typed in, the asset
    selected in the form is dropped from the bundle; [addItemLayer] then puts
    the assets of the default heuristic in its place, so that the layer
    renders the expression with assets the user did not pick.  Without an
    expression the selected asset is the asset of the layer.  A preset that is
    selected and exists passes its parameters and its name. *)
Theorem expression_drops_the_selected_asset (item : STACItem) (form : VizForm) :
  (viz_preset form = EmptyString → viz_expression form ≠ EmptyString →
     ∃ p, addToMapOptions item form =
            Some {| opt_assets := None; opt_renderParams := Some p; opt_presetName := None |} ∧
          tp_assets p = None ∧
          tp_expression p = Some (viz_expression form) ∧
          (resolveItemParams item (addToMapOptions item form)).2 = getDefaultAssets item ∧
          URLSearchParams.getAll "assets"
            (buildQueryParams (resolveItemParams item (addToMapOptions item form)).1.1) =
            getDefaultAssets item ∧
          ("expression", viz_expression form) ∈
            buildQueryParams (resolveItemParams item (addToMapOptions item form)).1.1) ∧
  (viz_preset form = EmptyString → viz_expression form = EmptyString →
   viz_asset form ≠ EmptyString →
     (resolveItemParams item (addToMapOptions item form)).2 = [viz_asset form] ∧
     (resolveItemParams item (addToMapOptions item form)).1.2 = None) ∧
  (∀ preset collectionId,
     viz_preset form ≠ EmptyString →
     item_collection item = Some collectionId → collectionId ≠ EmptyString →
     getPreset collectionId (viz_preset form) = Some preset →
     addToMapOptions item form =
       Some {| opt_assets := None; opt_renderParams := Some (preset_params preset);
               opt_presetName := Some (viz_preset form) |}) ∧
  (∀ generated c mgr,
     control_inv c → ctl_layerManager c = Some mgr →
     fresh_ids (newLayerId (item_id item) generated) mgr →
     ∃ c', addToMap generated item form c = (Normal (Some (corners (item_bbox item))), c') ∧
           last (activeLayers_in c' (getState c')) =
             Some (itemLayer generated item (addToMapOptions item form))).
Proof.
  split_and!; cycle 3.
  { intros generated c mgr [[layers Harr] _] Hmgr Hfresh.
    unfold addToMap. unfold bind at 1. unfold control_addItemLayer.
    rewrite control_add_run, Hmgr, (addItemLayer_run _ _ _ _ Hfresh).
    exists (after_add (itemLayer generated item (addToMapOptions item form))
              (registered (itemSource (mgr_tilerClient mgr) item (addToMapOptions item form))
                 (itemLayer generated item (addToMapOptions item form)) mgr) c).
    split.
    - unfold gets, control_zoomToLayer. f_equal. f_equal. simpl. unfold zoomToLayer.
      rewrite registered_layers, lookup_insert_eq. unfold itemLayer.
      by destruct (resolveItemParams item (addToMapOptions item form)) as [[? ?] ?].
    - unfold activeLayers_in. simpl. rewrite lookup_alter_eq, Harr. simpl.
      apply last_snoc. }
  - intros Hp He. unfold addToMapOptions. rewrite Hp. simpl.
    assert (JS.truthy (viz_expression form) = true) as -> by by destruct (viz_expression form).
    eexists. split; [reflexivity|]. split_and!; [done|done|done| |].
    + rewrite getAll_assets_query. done.
    + by apply expression_in_query.
  - intros Hp He Ha. unfold addToMapOptions. rewrite Hp, He. simpl.
    assert (JS.truthy (viz_asset form) = true) as -> by by destruct (viz_asset form).
    done.
  - intros preset collectionId Hp Hc Hne Hget. unfold addToMapOptions.
    assert (JS.truthy (viz_preset form) = true) as -> by by destruct (viz_preset form).
    rewrite Hc. unfold truthy_string.
    assert (JS.truthy collectionId = true) as -> by by destruct collectionId.
    unfold getPreset in Hget. unfold getPresetsForCollection.
    destruct (getRenderConfig collectionId); [by rewrite Hget|done].
Qed.

End Model.

(* ================================================================== *)
(** * Concrete runs (numbers are integers) *)
(* ================================================================== *)

(** ** Preset registry *)

Lemma preset_registry_lookups_witness :
  unknown_collection (number := Z) "goes-cmi" ∧
  getPresetsForCollection (number := Z) "goes-cmi" = [] ∧
  getDefaultPreset (number := Z) "goes-cmi" = None ∧
  getPreset (number := Z) "goes-cmi" "true-color" = None ∧
  getPreset (number := Z) "naip" "cir" =
    Some (preset "cir" "Color Infrared" "NIR-Red-Green composite"
            (Some ["image"]) None None None (Some [("image", "4,1,2")])) ∧
  ∃ config, config ∈ RENDER_CONFIGS (number := Z) ∧ cfg_collectionId config = "naip" ∧
            preset "cir" "Color Infrared" "NIR-Red-Green composite"
              (Some ["image"]) None None None (Some [("image", "4,1,2")])
              ∈ cfg_presets config.
Proof.
  assert (unknown_collection (number := Z) "goes-cmi") as Hu
    by by apply getRenderConfig_None.
  destruct (preset_registry_lookups (number := Z) "goes-cmi") as (H1 & _ & H3 & _ & H5).
  destruct (preset_registry_lookups (number := Z) "naip") as (_ & _ & _ & H4 & _).
  split_and!; [exact Hu | exact (H1 Hu) | | | reflexivity |].
  - apply H3. left. exact Hu.
  - apply H5. left. exact Hu.
  - destruct (H4 "cir" _ eq_refl) as (config & Hin & Hid & Hp & _).
    exists config. by split_and!.
Defined.

(** ** Token cache *)

(** C5, the counterexample.  The token service answers with an expiry that
    is not a date; the entry it leaves has an Invalid Date.  The next
    [getToken] fetches, although there is an entry and [expiry − now ≤ buffer]
    does not hold: the comparison with [NaN] is false either way. *)
Lemma invalid_expiry_counterexample :
  run_manager (getToken undated_service 0 "naip" (new_SASTokenManager None)) =
    undated_manager ∧
  run_fetched (getToken token_service 1000 "naip" undated_manager) =
    ["https://planetarycomputer.microsoft.com/api/sas/v1/token/naip"] ∧
  ¬ fetch_as_claimed 1000 "naip" undated_manager ∧
  ¬ (run_fetched (getToken token_service 1000 "naip" undated_manager) ≠ [] ↔
     fetch_as_claimed 1000 "naip" undated_manager).
Proof.
  assert (¬ fetch_as_claimed 1000 "naip" undated_manager) as Hno.
  { intros [Hn | (cached & Hc & Hle)]; [done|].
    change (cache undated_manager !! "naip")
      with (Some {| tc_token := "sv=undated"; tc_expiry := None |}) in Hc.
    injection Hc as <-. exact Hle. }
  split_and!; [reflexivity | reflexivity | exact Hno |].
  intros [Hfetch _]. apply Hno, Hfetch. discriminate.
Qed.

Lemma getToken_fetch_iff_stale_witness :
  must_fetch 700000 "naip" stale_manager ∧
  run_fetched (getToken token_service 700000 "naip" stale_manager) =
    ["https://planetarycomputer.microsoft.com/api/sas/v1/token/naip"] ∧
  must_fetch 1000 "naip" undated_manager ∧
  run_fetched (getToken token_service 1000 "naip" undated_manager) =
    ["https://planetarycomputer.microsoft.com/api/sas/v1/token/naip"] ∧
  (run_fetched (getToken token_service 600000 "naip" stale_manager) ≠ [] ↔
   (inject_Z (1000000 - 600000) <= inject_Z 300000)%Q) ∧
  getToken token_service 800000 "naip"
    (run_manager (getToken token_service 700000 "naip" stale_manager)) =
    {| run_result := Normal "sv=new";
       run_manager := run_manager (getToken token_service 700000 "naip" stale_manager);
       run_fetched := [] |}.
Proof.
  assert (must_fetch 700000 "naip" stale_manager) as Hm.
  { right. eexists. split; [reflexivity|]. left. by vm_compute. }
  assert (must_fetch 1000 "naip" undated_manager) as Hu.
  { right. eexists. split; [reflexivity|]. right. by left. }
  destruct (getToken_fetch_iff_stale token_service 700000 "naip" stale_manager)
    as (_ & H2 & _ & _ & _ & H6).
  destruct (getToken_fetch_iff_stale token_service 1000 "naip" undated_manager)
    as (_ & H2' & _).
  destruct (getToken_fetch_iff_stale token_service 600000 "naip" stale_manager)
    as (_ & _ & _ & H4 & _).
  split_and!; [exact Hm | exact (H2 Hm) | exact Hu | exact (H2' Hu) | |].
  - apply (H4 {| tc_token := "sv=old"; tc_expiry := Some 1000000 |} 1000000
             (inject_Z 300000)); [reflexivity..|]. by vm_compute.
  - apply H6; [reflexivity|].
    eexists. split; [reflexivity|]. by vm_compute.
Defined.

(** ** Tile-URL builder *)

Lemma query_lists_assets_in_order_witness :
  tp_assets (false_color (number := Z)) = Some ["B08"; "B04"; "B03"] ∧
  ["B08"; "B04"; "B03"] ≠ [] ∧
  tp_expression (false_color (number := Z)) = None ∧
  ∃ rest : URLSearchParams.t,
    Forall other_key rest ∧
    buildQueryParams (false_color (number := Z)) =
      map (pair "assets") ["B08"; "B04"; "B03"] ++ rest ∧
    buildQueryString (false_color (number := Z)) =
      JS.join "&" (map assets_entry ["B08"; "B04"; "B03"] ++ map URLSearchParams.entry rest) ∧
    URLSearchParams.getAll "assets" (buildQueryParams (false_color (number := Z))) =
      ["B08"; "B04"; "B03"] ∧
    URLSearchParams.has "expression" (buildQueryParams (false_color (number := Z))) = false.
Proof.
  split_and!; [reflexivity | discriminate | reflexivity |].
  apply (query_lists_assets_in_order false_color ["B08"; "B04"; "B03"]);
    [reflexivity | discriminate | reflexivity].
Defined.

Lemma mosaic_url_window_only_witness :
  same_window (sample_search (number := Z) (Some 10) None)
              (sample_search (Some 500) (Some ["S2B_T10"])) ∧
  getCollectionTileUrl (new_TiTilerClient None) "sentinel-2-l2a" false_color
    (Some (sample_search (Some 10) None)) =
  getCollectionTileUrl (new_TiTilerClient None) "sentinel-2-l2a" false_color
    (Some (sample_search (Some 500) (Some ["S2B_T10"]))) ∧
  getCollectionTileUrl (number := Z) (new_TiTilerClient None) "sentinel-2-l2a" false_color
    (Some (sample_search (Some 10) None)) =
  getCollectionTileUrl (new_TiTilerClient None) "sentinel-2-l2a" false_color None +:+
  "&datetime=2024-01-01%2F2024-12-31&bbox=-123,37,-122,38".
Proof.
  destruct (mosaic_url_window_only (number := Z) (new_TiTilerClient None) "sentinel-2-l2a"
              false_color (sample_search (Some 10) None)) as (Hsame & Hboth & _).
  split_and!; [by split | |].
  - apply (Hsame (sample_search (Some 500) (Some ["S2B_T10"]))). by split.
  - destruct (Hboth "2024-01-01/2024-12-31" sample_bbox eq_refl) as [_ Hurl];
      [discriminate | reflexivity |].
    etransitivity; [exact Hurl | reflexivity].
Defined.

(** ** Layer registry *)

Lemma sample_manager_fresh :
  fresh_ids (number := Z) (newLayerId (item_id sample_item) sample_generated) empty_manager.
Proof. split; apply lookup_empty. Qed.

Lemma sample_manager_registered :
  sample_manager (number := Z) =
    registered (itemSource sample_client sample_item None)
               (itemLayer sample_generated sample_item None) empty_manager.
Proof.
  unfold sample_manager. by rewrite (addItemLayer_run _ _ _ _ sample_manager_fresh).
Qed.

(** C6, the counterexample.  An entry whose only asset sits under the empty
    key, added without options in a collection without presets: the third
    stage of the scan finds the empty key, and the code selects no asset. *)
Lemma empty_key_counterexample :
  getDefaultPreset (number := Z)
    (default EmptyString (item_collection (nameless_item (number := Z)))) = None ∧
  heuristic_as_specified (item_assets (nameless_item (number := Z))) = [EmptyString] ∧
  getDefaultAssets (nameless_item (number := Z)) = [] ∧
  added_with_assets sample_generated (nameless_item (number := Z)) None empty_manager [] ∧
  ¬ selects_as_specified (nameless_item (number := Z)).
Proof.
  split_and!; [reflexivity | reflexivity | reflexivity | | discriminate].
  eexists _, _. split; [|split_and!].
  - apply addItemLayer_run. split; apply lookup_empty.
  - apply lookup_insert_eq.
  - reflexivity.
  - reflexivity.
Qed.

Lemma default_asset_heuristic_witness :
  getDefaultPreset (number := Z) "my-collection" = None ∧
  getDefaultAssets (sample_item (number := Z)) = ["data"] ∧
  heuristic_as_specified (item_assets (sample_item (number := Z))) = ["data"] ∧
  added_with_assets sample_generated (sample_item (number := Z)) None empty_manager ["data"] ∧
  getDefaultAssets (nameless_item (number := Z)) = [].
Proof.
  destruct (default_asset_heuristic (sample_item (number := Z)) None
              eq_refl eq_refl eq_refl) as (_ & H1 & H2 & H3).
  destruct (default_asset_heuristic (nameless_item (number := Z)) None
              eq_refl eq_refl eq_refl) as (H0 & _).
  split_and!; [reflexivity | | reflexivity | |].
  - exact (H3 _ _ eq_refl eq_refl).
  - exact (H2 sample_generated empty_manager sample_manager_fresh).
  - rewrite H0. reflexivity.
Defined.

(** C2, the counterexample.  An entry is added with both
    [renderParams = { assets: ['visual'] }] and [assets = ['B04']]: the layer
    gets [['B04']], not the list of the [renderParams] bundle. *)
Lemma renderParams_first_counterexample :
  (resolveItemParams (sentinel_item (number := Z))
     (item_options (Some ["B04"]) (Some true_color))).2 = ["B04"] ∧
  tp_assets (resolveItemParams (sentinel_item (number := Z))
               (item_options (Some ["B04"]) (Some true_color))).1.1 = Some ["B04"] ∧
  ¬ renderParams_first (sentinel_item (number := Z))
      (item_options (Some ["B04"]) (Some true_color)).
Proof.
  split_and!; [reflexivity..|].
  intros H. specialize (H true_color ["visual"] eq_refl eq_refl). discriminate H.
Qed.

Lemma asset_resolution_order_witness :
  item_options (number := Z) (Some ["B04"]) (Some true_color) ≫= opt_assets = Some ["B04"] ∧
  (resolveItemParams (sentinel_item (number := Z))
     (item_options (Some ["B04"]) (Some true_color))).2 = ["B04"] ∧
  getDefaultPreset (number := Z) "sentinel-2-l2a" =
    Some (preset "true-color" "True Color" "Natural color composite (RGB)"
            (Some ["visual"]) None None None None) ∧
  (resolveItemParams (sentinel_item (number := Z)) None).2 = ["visual"] ∧
  (resolveItemParams (sentinel_item (number := Z)) None).1.2 = Some "true-color".
Proof.
  destruct (asset_resolution_order (sentinel_item (number := Z))
              (item_options (Some ["B04"]) (Some true_color))) as (_ & H2 & _).
  destruct (asset_resolution_order (sentinel_item (number := Z)) None) as (_ & _ & _ & H4 & _).
  split_and!; [reflexivity | exact (proj1 (H2 _ eq_refl)) | reflexivity | |].
  - exact (proj1 (H4 _ eq_refl eq_refl eq_refl)).
  - exact (proj2 (proj2 (H4 _ eq_refl eq_refl eq_refl))).
Defined.


Lemma add_then_remove_leaves_nothing_witness :
  host_wf (number := Z) empty_map ∧
  removed_cleanly (number := Z) (itemLayer sample_generated sample_item None) sample_manager ∧
  removeLayer (number := Z) "no-such-layer" empty_manager = (Normal tt, empty_manager).
Proof.
  destruct (add_then_remove_leaves_nothing (number := Z)) as (H1 & _ & H3).
  split_and!; [exact host_wf_empty | |].
  - apply (H1 sample_generated sample_item None empty_manager sample_manager _ host_wf_empty).
    rewrite sample_manager_registered.
    exact (addItemLayer_run _ _ _ _ sample_manager_fresh).
  - apply H3. apply lookup_empty.
Defined.

Lemma sample_manager_ready :
  mgr_layers (sample_manager (number := Z)) !! sample_layerId =
    Some (itemLayer sample_generated sample_item None) ∧
  liveLayers (mgr_map (sample_manager (number := Z))) !! sample_layerId =
    Some (fresh_layer (sourceIdOf sample_layerId)) ∧
  sources (mgr_map (sample_manager (number := Z))) !! sourceIdOf sample_layerId =
    Some (itemSource sample_client sample_item None) ∧
  sole_user sample_layerId (sourceIdOf sample_layerId) (mgr_map (sample_manager (number := Z))).
Proof.
  rewrite sample_manager_registered.
  exact (registered_ready (itemSource sample_client sample_item None)
           (itemLayer sample_generated sample_item None) empty_manager
           host_wf_empty (lookup_empty _)).
Qed.



(** C1, at a failing input.  [sample_item] is added (its record satisfies
    the invariant, with assets [["data"]]) and then updated with
    [{ renderParams: { assets: ['B08'] } }]: the stored record keeps
    [assets = ["data"]] next to [renderParams.assets = ["B08"]], and the tile
    URL of the re-created source still asks for [data]. *)
Theorem updateLayer_breaks_assets_sync :
  ∃ added stored st2 src,
    mgr_layers (sample_manager (number := Z)) !! sample_layerId = Some added ∧
    assets_in_sync added ∧
    layer_assets added = ["data"] ∧
    updateLayer sample_layerId (update_renderParams (with_assets ["B08"] no_params))
      sample_manager = (Normal tt, st2) ∧
    mgr_layers st2 !! sample_layerId = Some stored ∧
    layer_assets stored = ["data"] ∧
    tp_assets (layer_renderParams stored) = Some ["B08"] ∧
    ¬ assets_in_sync stored ∧
    sources (mgr_map st2) !! layer_sourceId stored = Some src ∧
    src_tiles src =
      ["https://planetarycomputer.microsoft.com/api/data/v1/item/tiles/WebMercatorQuad/{z}/{x}/{y}@1x?collection=my-collection&item=S2A_MSIL2A.1&assets=data"].
Proof.
  eexists _, _, _, _.
  split; [vm_compute; reflexivity|].
  split; [reflexivity|]. split; [reflexivity|].
  split; [vm_compute; reflexivity|].
  split; [vm_compute; reflexivity|].
  split; [reflexivity|]. split; [reflexivity|].
  split; [by intros [=]|].
  split; [vm_compute; reflexivity|]. reflexivity.
Qed.

Example includes_ex : JS.includes "image/tiff; application=geotiff" "geotiff" = true.
Proof. reflexivity. Qed.
Example sanitize_ex : JS.sanitize "S2A_MSIL2A.2024/01" = "S2A_MSIL2A-2024-01".
Proof. reflexivity. Qed.
Example encode_ex : JS.encodeURIComponent "2024-01-01/2024-12-31" = "2024-01-01%2F2024-12-31".
Proof. reflexivity. Qed.
Example form_ex : JS.form_encode "(B08-B04)/(B08+B04) x" = "%28B08-B04%29%2F%28B08%2BB04%29+x".
Proof. reflexivity. Qed.
Example take_last_ex : JS.take_last 6 "lx3k2a-9f8e7d" = "9f8e7d".
Proof. reflexivity. Qed.

(** A difference beyond [2^53] is rounded to the nearest double, ties to the
    even significand; one below is exact. *)
Example round_to_double_ex :
  map round_to_double [2 ^ 53 + 1; 2 ^ 53 + 3; - (2 ^ 53 + 1); 2 ^ 54 + 6; 1000000 - 700000] =
  [2 ^ 53; 2 ^ 53 + 4; - 2 ^ 53; 2 ^ 54 + 8; 300000].
Proof. by vm_compute. Qed.

(** ** Further runs of the model *)

(** Every collection of the table has the preset it declares as default. *)
Example default_presets_exist :
  map (λ config, preset_name <$> getDefaultPreset (number := Z) (cfg_collectionId config))
      (RENDER_CONFIGS (number := Z)) =
  [Some "true-color"; Some "true-color"; Some "rgb"; Some "elevation"; Some "elevation"].
Proof. reflexivity. Qed.

(** The tile URL of an entry added with the band-math bundle [ndvi]. *)
Example expression_url :
  src_tiles <$>
    (sources (mgr_map (addItemLayer (number := Z) sample_generated sample_item
                         (item_options None (Some ndvi)) empty_manager).2)
       !! sourceIdOf sample_layerId) =
  Some ["https://planetarycomputer.microsoft.com/api/data/v1/item/tiles/WebMercatorQuad/{z}/{x}/{y}@1x?collection=my-collection&item=S2A_MSIL2A.1&assets=data&expression=%28B08-B04%29%2F%28B08%2BB04%29&rescale=-1%2C1&colormap_name=rdylgn"].
Proof. vm_compute. reflexivity. Qed.

(** A mosaic tile URL: of the search parameters, [datetime] and [bbox] only. *)
Example mosaic_url :
  getCollectionTileUrl (number := Z) sample_client "sentinel-2-l2a" true_color
    (Some (sample_search (Some 10) (Some ["S2B_T10"]))) =
  "https://planetarycomputer.microsoft.com/api/data/v1/mosaic/tiles/WebMercatorQuad/{z}/{x}/{y}@1x?collection=sentinel-2-l2a&assets=visual&datetime=2024-01-01%2F2024-12-31&bbox=-123,37,-122,38".
Proof. vm_compute. reflexivity. Qed.

(** An asset under the empty key is found by the last stage of the scan and
    then dropped by the truthiness test on the key. *)
Example empty_key_selects_nothing :
  getDefaultAssets (nameless_item (number := Z)) = [] ∧
  heuristic_as_specified (item_assets (nameless_item (number := Z))) = [EmptyString].
Proof. split; reflexivity. Qed.

(** [updateLayerSource] returns early on a record whose kind is neither an
    entry with its entry nor a collection with its collection. *)
Example mosaic_record_not_rebuilt :
  rebuiltTileUrl (number := Z) sample_client mosaic_record
    (update_renderParams (with_assets ["B08"] no_params)) = None.
Proof. reflexivity. Qed.

(** A trailing slash of the base URL is dropped, once. *)
Example base_url_ex :
  baseUrl (new_TiTilerClient (Some "https://tiles.example.org/api//")) =
  "https://tiles.example.org/api/".
Proof. reflexivity. Qed.

(* ================================================================== *)
(** * Concrete runs of the further properties *)
(* ================================================================== *)

Lemma sample_manager_consistent : consistent (sample_manager (number := Z)).
Proof.
  rewrite sample_manager_registered. apply registered_consistent.
  - apply consistent_new, host_wf_empty.
  - apply lookup_empty.
Qed.

Lemma sample_manager_keys (k : string) :
  is_Some (mgr_layers (sample_manager (number := Z)) !! k) → k ∈ [sample_layerId].
Proof.
  rewrite sample_manager_registered, registered_layers. intros [l Hl].
  apply lookup_insert_Some in Hl as [[<- _] | [_ Hl]].
  - apply elem_of_cons. by left.
  - exact (False_ind _ (lookup_empty_Some (M := gmap string) k l Hl)).
Qed.

Lemma operations_touch_one_layer_witness :
  consistent (sample_manager (number := Z)) ∧
  mgr_layers (sample_manager (number := Z)) !! sample_layerId =
    Some (itemLayer sample_generated sample_item None) ∧
  (∃ st', removeLayer (number := Z) sample_layerId sample_manager = (Normal tt, st') ∧
          same_elsewhere sample_layerId (sourceIdOf sample_layerId) sample_manager st') ∧
  (∃ st', updateLayer (number := Z) sample_layerId hide sample_manager = (Normal tt, st') ∧
          same_elsewhere sample_layerId (sourceIdOf sample_layerId) sample_manager st').
Proof.
  pose proof sample_manager_consistent as Hc.
  destruct sample_manager_ready as (Hrec & _).
  destruct (operations_touch_one_layer (number := Z) sample_layerId sample_manager _ Hc Hrec)
    as [H1 H2].
  split_and!; [exact Hc | exact Hrec | exact H1 | exact (H2 hide)].
Defined.

Lemma recreated_source_follows_record_witness :
  consistent (sample_manager (number := Z)) ∧
  mgr_layers (sample_manager (number := Z)) !! sample_layerId =
    Some (itemLayer sample_generated sample_item None) ∧
  origin_ok (number := Z) (itemLayer sample_generated sample_item None) ∧
  ∃ st' url stored,
    updateLayer (number := Z) sample_layerId
      (update_renderParams (with_assets ["B08"] no_params)) sample_manager = (Normal tt, st') ∧
    sources (mgr_map st') !! sourceIdOf sample_layerId =
      Some (raster_source url (Some sample_bbox)) ∧
    url = "https://planetarycomputer.microsoft.com/api/data/v1/item/tiles/WebMercatorQuad/{z}/{x}/{y}@1x?collection=my-collection&item=S2A_MSIL2A.1&assets=data" ∧
    mgr_layers st' !! sample_layerId = Some stored ∧
    tp_assets (layer_renderParams stored) = Some ["B08"] ∧
    layer_assets stored = ["data"].
Proof.
  pose proof sample_manager_consistent as Hc.
  destruct sample_manager_ready as (Hrec & _).
  assert (origin_ok (number := Z) (itemLayer sample_generated sample_item None)) as Horigin
    by exact (mk_is_Some _ _ eq_refl).
  destruct (recreated_source_follows_record (number := Z) sample_layerId
              (update_renderParams (with_assets ["B08"] no_params)) sample_manager _
              Hc Hrec Horigin (or_introl (mk_is_Some _ _ eq_refl)))
    as (st' & url & stored & Hrun & Hsrc & Hurl & _ & Hst & Hrp & Has).
  split_and!; [exact Hc | exact Hrec | exact Horigin |].
  exists st', url, stored. split_and!; [exact Hrun | exact Hsrc | | exact Hst | |].
  - rewrite sample_manager_registered in Hurl. exact Hurl.
  - by rewrite Hrp.
  - by rewrite Has.
Defined.

Lemma recreation_reverts_to_collection_extent_witness :
  consistent (empty_manager (number := Z)) ∧
  fresh_ids (number := Z) (newLayerId (collectionLayerName sample_collection) sample_generated)
    empty_manager ∧
  ∃ layer st1 src1 st2 src2,
    addCollectionLayer (number := Z) sample_generated sample_collection (Some bbox_options)
      empty_manager = (Normal layer, st1) ∧
    layer_id layer = sample_mosaicId ∧
    sources (mgr_map st1) !! layer_sourceId layer = Some src1 ∧
    src_bounds src1 = Some [-123; 37; -122; 38] ∧
    updateLayer (layer_id layer) (update_assets ["image"]) st1 = (Normal tt, st2) ∧
    sources (mgr_map st2) !! layer_sourceId layer = Some src2 ∧
    src_bounds src2 = Some [-125; 24; -66; 50].
Proof.
  assert (consistent (empty_manager (number := Z))) as Hc
    by exact (consistent_new _ _ host_wf_empty).
  assert (fresh_ids (number := Z)
            (newLayerId (collectionLayerName sample_collection) sample_generated)
            empty_manager) as Hfresh by (split; apply lookup_empty).
  destruct (recreation_reverts_to_collection_extent (number := Z) sample_generated
              sample_collection bbox_options sample_bbox (update_assets ["image"])
              empty_manager Hc Hfresh eq_refl (or_intror (mk_is_Some _ _ eq_refl)))
    as (layer & st1 & src1 & st2 & src2 & Hadd & Hs1 & Hb1 & Hupd & Hs2 & Hb2).
  split_and!; [exact Hc | exact Hfresh |].
  exists layer, st1, src1, st2, src2.
  split_and!; [exact Hadd | | exact Hs1 | exact Hb1 | exact Hupd | exact Hs2 | exact Hb2].
  rewrite (addCollectionLayer_run _ _ _ _ Hfresh) in Hadd. by injection Hadd as <- _.
Defined.

Lemma removeAllLayers_empties_registry_witness :
  consistent (sample_manager (number := Z)) ∧
  (∀ k, is_Some (mgr_layers (sample_manager (number := Z)) !! k) → k ∈ [sample_layerId]) ∧
  ∃ st', removeAllLayers (number := Z) [sample_layerId] sample_manager = (Normal tt, st') ∧
         mgr_layers st' = ∅ ∧
         liveLayers (mgr_map st') !! sample_layerId = None ∧
         sources (mgr_map st') !! sourceIdOf sample_layerId = None.
Proof.
  pose proof sample_manager_consistent as Hc.
  destruct sample_manager_ready as (Hrec & _).
  destruct (removeAllLayers_empties_registry (number := Z) [sample_layerId] sample_manager
              Hc sample_manager_keys) as (st' & Hrun & Hempty & _ & Hgone & _).
  split_and!; [exact Hc | exact sample_manager_keys |].
  exists st'. destruct (Hgone _ _ Hrec) as [Hl Hs].
  split_and!; [exact Hrun | exact Hempty | exact Hl | exact Hs].
Defined.

Lemma ids_differ_by_suffix_only_witness :
  fresh_ids (number := Z) (newLayerId (item_id sample_item) sample_generated) empty_manager ∧
  (∃ e, addItemLayer (number := Z) "m0000z-9f8e7d" sample_item None sample_manager =
          (Throw e, sample_manager)) ∧
  (∃ layer2 st2,
     addItemLayer (number := Z) "m0000z-1a2b3c" sample_item None sample_manager =
       (Normal layer2, st2) ∧
     layer_id layer2 = "S2A_MSIL2A-1-1a2b3c" ∧
     is_Some (mgr_layers st2 !! sample_layerId) ∧
     mgr_layers st2 !! layer_id layer2 = Some layer2).
Proof.
  destruct (ids_differ_by_suffix_only (number := Z) sample_generated "m0000z-9f8e7d"
              sample_item sample_item None None empty_manager eq_refl sample_manager_fresh)
    as (layer1 & st1 & Hadd1 & Hsame & _).
  destruct (ids_differ_by_suffix_only (number := Z) sample_generated "m0000z-1a2b3c"
              sample_item sample_item None None empty_manager eq_refl sample_manager_fresh)
    as (layer1' & st1' & Hadd1' & _ & Hdiff).
  assert (st1 = sample_manager) as -> by (unfold sample_manager; by rewrite Hadd1).
  assert (st1' = sample_manager) as -> by (unfold sample_manager; by rewrite Hadd1').
  split_and!; [exact sample_manager_fresh | exact (Hsame eq_refl) |].
  assert (JS.take_last 6 sample_generated ≠ JS.take_last 6 "m0000z-1a2b3c") as Hne
    by discriminate.
  assert (fresh_ids (number := Z) (newLayerId (item_id sample_item) "m0000z-1a2b3c")
            empty_manager) as Hfresh2 by (split; apply lookup_empty).
  destruct (Hdiff Hne Hfresh2) as (layer2 & st2 & Hadd2 & _ & Hl1 & Hl2).
  exists layer2, st2. split_and!; [exact Hadd2 | | | exact Hl2].
  - pose proof (addItemLayer_Normal _ _ _ _ _ _ Hadd2) as Hf.
    rewrite (addItemLayer_run _ _ _ _ Hf) in Hadd2. by injection Hadd2 as <- _.
  - rewrite (addItemLayer_run _ _ _ _ sample_manager_fresh) in Hadd1'.
    injection Hadd1' as <-. by eexists.
Defined.

Lemma sample_control_inv : control_inv (sample_control (number := Z)).
Proof.
  apply control_inv_onAdd; [|done|apply host_wf_empty].
  apply (control_inv_handlers (new_PlanetaryComputerControl quiet_options)); [done..|].
  apply control_inv_new.
Qed.

Lemma layered_control_run :
  control_addItemLayer (number := Z) sample_generated sample_item None sample_control =
    (Normal (itemLayer sample_generated sample_item None), layered_control).
Proof.
  unfold control_addItemLayer. rewrite control_add_run.
  change (ctl_layerManager (sample_control (number := Z))) with (Some (empty_manager (number := Z))).
  cbv beta iota. by rewrite (addItemLayer_run _ _ _ _ sample_manager_fresh).
Qed.

Lemma layered_control_inv : control_inv (layered_control (number := Z)).
Proof.
  pose proof layered_control_run as Hrun.
  unfold control_addItemLayer in Hrun. rewrite control_add_run in Hrun.
  refine (proj1 (control_add_inv (addItemLayer sample_generated sample_item None)
                  _ _ _ _ sample_control_inv Hrun)).
  intros mgr mgr' layer' Hc Hr.
  pose proof (addItemLayer_Normal _ _ _ _ _ _ Hr) as Hfresh.
  rewrite (addItemLayer_run _ _ _ _ Hfresh) in Hr. injection Hr as <- <-.
  eexists. split; [done|]. destruct Hfresh as [Hs Hl]. unfold itemLayer.
  by destruct (resolveItemParams sample_item None) as [[? ?] ?].
Qed.

Lemma layer_events_reach_subscribers_witness :
  control_inv (sample_control (number := Z)) ∧
  control_addItemLayer (number := Z) sample_generated sample_item None sample_control =
    (Normal (itemLayer sample_generated sample_item None), layered_control) ∧
  map (λ call, (call.1, evd_type call.2, evd_data call.2))
    (ctl_called (layered_control (number := Z))) =
    [(7%nat, ev_layer_add, None); (3%nat, ev_statechange, None)] ∧
  last (activeLayers_in (layered_control (number := Z)) (ctl_state layered_control)) =
    Some (itemLayer sample_generated sample_item None) ∧
  ∃ c', control_removeLayer (number := Z) "no-such-layer" sample_control = (Normal tt, c') ∧
        map (λ call, (call.1, evd_type call.2, evd_data call.2)) (ctl_called c') =
          [(3%nat, ev_statechange, None)].
Proof.
  destruct (layer_events_reach_subscribers (number := Z) sample_control sample_control_inv)
    as (Hadd & Hrem & _).
  destruct (Hadd (control_addItemLayer sample_generated sample_item None)
              (or_introl (ex_intro _ _ (ex_intro _ _ (ex_intro _ _ eq_refl))))) as [Hok _].
  destruct (Hok _ _ layered_control_run) as (_ & Hcalled & Hlast).
  destruct (Hrem "no-such-layer") as (c' & Hrun & Hcalled').
  split_and!; [exact sample_control_inv | exact layered_control_run | | exact Hlast |].
  - by rewrite Hcalled.
  - exists c'. split; [exact Hrun|]. rewrite Hcalled'.
    rewrite control_removeLayer_run in Hrun. simpl in Hrun. by injection Hrun as <-.
Defined.

Lemma snapshots_share_the_layer_array_witness :
  control_inv (sample_control (number := Z)) ∧
  activeLayers_in (sample_control (number := Z)) (getState sample_control) = [] ∧
  activeLayers_in (layered_control (number := Z)) (getState sample_control) =
    [itemLayer sample_generated sample_item None] ∧
  control_inv (layered_control (number := Z)) ∧
  ∃ c', control_removeLayer (number := Z) sample_layerId layered_control = (Normal tt, c') ∧
        activeLayers_in c' (getState layered_control) =
          [itemLayer sample_generated sample_item None] ∧
        activeLayers_in c' (getState c') = [].
Proof.
  destruct (snapshots_share_the_layer_array (number := Z) sample_control sample_control_inv)
    as (Hadd & _ & _).
  destruct (Hadd _ _ _ _ _ layered_control_run) as [Hshared _].
  destruct (snapshots_share_the_layer_array (number := Z) layered_control layered_control_inv)
    as (_ & _ & Hrem).
  assert (control_removeLayer (number := Z) sample_layerId layered_control =
            (Normal tt, (control_removeLayer sample_layerId layered_control).2)) as Hrun
    by (vm_compute; reflexivity).
  destruct (Hrem _ _ Hrun) as (Hold & Hnew & _).
  split_and!; [exact sample_control_inv | reflexivity | exact Hshared
              | exact layered_control_inv |].
  eexists. split; [exact Hrun|]. split.
  - rewrite Hold. reflexivity.
  - rewrite Hnew. reflexivity.
Defined.

Lemma onRemove_keeps_the_layer_list_witness :
  control_inv (layered_control (number := Z)) ∧
  ctl_layerManager (layered_control (number := Z)) = Some sample_manager ∧
  ∃ c' mgr',
    onRemove (number := Z) [sample_layerId] layered_control = (Normal tt, c') ∧
    ctl_layerManager c' = Some mgr' ∧ mgr_layers mgr' = ∅ ∧
    liveLayers (mgr_map mgr') !! sample_layerId = None ∧
    ctl_map c' = false ∧
    activeLayers_in c' (getState c') = [itemLayer sample_generated sample_item None] ∧
    ¬ control_inv c'.
Proof.
  assert (ctl_layerManager (layered_control (number := Z)) = Some sample_manager) as Hmgr
    by (by rewrite sample_manager_registered).
  destruct sample_manager_ready as (Hrec & _).
  destruct (onRemove_keeps_the_layer_list (number := Z) [sample_layerId] layered_control
              sample_manager layered_control_inv Hmgr sample_manager_keys)
    as (c' & mgr' & Hrun & Hm' & Hempty & Hgone & Hmap & _ & _ & _ & _ & _ & _ & Hlist
        & Hbroken & _).
  split_and!; [exact layered_control_inv | exact Hmgr |].
  exists c', mgr'.
  split_and!; [exact Hrun | exact Hm' | exact Hempty | exact (proj1 (Hgone _ _ Hrec))
              | exact Hmap | by rewrite Hlist | ].
  apply Hbroken. discriminate.
Defined.

Lemma superseded_search_reports_an_error_witness :
  stac_inv (ctl_stacClient (sample_control (number := Z))) ∧
  let c2 := (control_search_begin None
               (control_search_begin (Some (sample_search None None))
                  (sample_control (number := Z))).2).2 in
  let outcome :=
    stac_search_end (λ _, [])
      (fetch_fails (number := Z) (an_Error "AbortError" "The user aborted a request.")) in
  let c3 := (control_search_end outcome c2).2 in
  outcome = rejected (new_Error "Request was cancelled") ∧
  st_error (ctl_state c3) = Some "Request was cancelled" ∧
  st_searchLoading (ctl_state c3) = false ∧
  ∃ k1 k2, k1 ∈ stac_aborted (ctl_stacClient c3) ∧ (k2 ∉ stac_aborted (ctl_stacClient c3)) ∧
           stac_abortController (ctl_stacClient c3) = Some k2.
Proof.
  assert (stac_inv (ctl_stacClient (sample_control (number := Z)))) as Hinv
    by exact (stac_inv_new _).
  destruct (superseded_search_reports_an_error (number := Z) (λ _, [])
              (Some (sample_search None None)) None "The user aborted a request."
              sample_control Hinv)
    as (k1 & k2 & r1 & r2 & _ & _ & _ & Hk1 & Hk2 & Hcur & Ho & _ & He & Hl & _).
  split; [exact Hinv|]. cbv zeta.
  split_and!; [exact Ho | exact He | exact Hl |].
  exists k1, k2. split_and!; [exact Hk1 | exact Hk2 | exact Hcur].
Defined.

(** ** Token cache, second part *)

Lemma getToken_changes_its_entry_only_witness :
  must_fetch 0 "naip" (new_SASTokenManager None) ∧
  getToken refusing_service 0 "naip" (new_SASTokenManager None) =
    {| run_result := Throw "Failed to get SAS token for naip: Forbidden";
       run_manager := new_SASTokenManager None;
       run_fetched := ["https://planetarycomputer.microsoft.com/api/sas/v1/token/naip"] |} ∧
  run_result (getToken garbled_service 700000 "naip" stale_manager) =
    Throw "Unexpected token < in JSON at position 0" ∧
  run_manager (getToken garbled_service 700000 "naip" stale_manager) = stale_manager ∧
  cache (run_manager (getToken token_service 700000 "naip" stale_manager)) !! "naip" =
    Some {| tc_token := "sv=new"; tc_expiry := Some 5000000 |} ∧
  cache (run_manager (getToken undated_service 700000 "naip" stale_manager)) !! "naip" =
    Some {| tc_token := "sv=undated"; tc_expiry := None |} ∧
  cache (run_manager (getToken token_service 700000 "landsat-c2-l2" stale_manager)) !! "naip" =
    Some {| tc_token := "sv=old"; tc_expiry := Some 1000000 |}.
Proof.
  assert (must_fetch 700000 "naip" stale_manager) as Hstale.
  { right. eexists. split; [reflexivity|]. left. by vm_compute. }
  destruct (getToken_changes_its_entry_only refusing_service 0 "naip"
              (new_SASTokenManager None)) as (_ & _ & _ & Hthrow & _).
  destruct (Hthrow "Failed to get SAS token for naip: Forbidden" eq_refl)
    as (Hm & Hf & Hmust & _).
  destruct (getToken_changes_its_entry_only garbled_service 700000 "naip" stale_manager)
    as (_ & _ & _ & Hthrow' & Hbody & _).
  pose proof (Hbody "Unexpected token < in JSON at position 0" Hstale
                (or_intror (or_introl eq_refl))) as Hgarbled.
  destruct (Hthrow' _ Hgarbled) as (Hkept & _).
  destruct (getToken_changes_its_entry_only token_service 700000 "naip" stale_manager)
    as (_ & _ & Hok & _).
  destruct (getToken_changes_its_entry_only undated_service 700000 "naip" stale_manager)
    as (_ & _ & Hok' & _).
  destruct (getToken_changes_its_entry_only token_service 700000 "landsat-c2-l2"
              stale_manager) as (_ & Hother & _).
  split_and!; [exact Hmust | | exact Hgarbled | exact Hkept | | |].
  - destruct (getToken refusing_service 0 "naip" (new_SASTokenManager None))
      as [r m f] eqn:Hrun.
    simpl in Hm, Hf. rewrite Hm, Hf. f_equal.
    change r with (run_result {| run_result := r; run_manager := m; run_fetched := f |}).
    by rewrite <- Hrun.
  - exact (proj2 (Hok _ Hstale eq_refl)).
  - exact (proj2 (Hok' _ Hstale eq_refl)).
  - rewrite (Hother "naip") by discriminate. reflexivity.
Defined.

Lemma hasValidToken_predicts_getToken_witness :
  hasValidToken 700000 "naip" stale_manager = false ∧
  hasValidToken 600000 "naip" stale_manager = true ∧
  hasValidToken 0 "naip" undated_manager = false ∧
  getToken refusing_service 600000 "naip" stale_manager =
    {| run_result := Normal "sv=old"; run_manager := stale_manager; run_fetched := [] |} ∧
  run_fetched (getToken refusing_service 600000 "naip" (clearToken "naip" stale_manager)) =
    ["https://planetarycomputer.microsoft.com/api/sas/v1/token/naip"].
Proof.
  destruct (hasValidToken_predicts_getToken refusing_service 600000 "naip" stale_manager)
    as ((_ & Hhit & _) & _ & Hcleared & _).
  destruct (hasValidToken_predicts_getToken refusing_service 0 "naip" undated_manager)
    as ((_ & _ & _ & Hnan) & _).
  destruct (Hhit eq_refl) as (cached & Hc & Hrun).
  split_and!; [reflexivity | reflexivity | | | exact Hcleared].
  - apply (Hnan {| tc_token := "sv=undated"; tc_expiry := None |}); [reflexivity | by left].
  - rewrite Hrun.
    assert (cached = {| tc_token := "sv=old"; tc_expiry := Some 1000000 |}) as ->.
    { change (cache stale_manager !! "naip")
        with (Some {| tc_token := "sv=old"; tc_expiry := Some 1000000 |}) in Hc.
      by injection Hc as <-. }
    reflexivity.
Defined.

Lemma getDownloadUrl_signs_the_asset_witness :
  getDownloadUrl (number := Z) refusing_service 600000 "url is undefined" sample_item "B04"
    stale_manager =
    {| run_result := Throw "Asset 'B04' not found"; run_manager := stale_manager;
       run_fetched := [] |} ∧
  run_result (getDownloadUrl (number := Z) token_service 0 "url is undefined" sample_item
                "data" (new_SASTokenManager None)) =
    Normal "https://example.blob.core.windows.net/c/a.tif?sv=new" ∧
  run_fetched (getDownloadUrl (number := Z) token_service 0 "url is undefined" sample_item
                 "data" (new_SASTokenManager None)) =
    ["https://planetarycomputer.microsoft.com/api/sas/v1/token/my-collection"] ∧
  run_result (getDownloadUrl (number := Z) token_service 0 "url is undefined" sample_item
                "toString" (new_SASTokenManager None)) = Throw "url is undefined" ∧
  run_fetched (getDownloadUrl (number := Z) token_service 0 "url is undefined" sample_item
                 "toString" (new_SASTokenManager None)) =
    ["https://planetarycomputer.microsoft.com/api/sas/v1/token/my-collection"] ∧
  cache (run_manager (getDownloadUrl (number := Z) token_service 0 "url is undefined"
                        sample_item "toString" (new_SASTokenManager None)))
    !! "my-collection" = Some {| tc_token := "sv=new"; tc_expiry := Some 5000000 |}.
Proof.
  assert (∀ key, key ≠ "thumbnail" → key ≠ "data" →
                 key ∉ map fst (item_assets (sample_item (number := Z)))) as Hkeys.
  { intros key H1 H2 Hin.
    repeat (apply elem_of_cons in Hin as [Hin | Hin]; [done|]).
    by apply elem_of_nil in Hin. }
  destruct (getDownloadUrl_signs_the_asset (number := Z) refusing_service 600000
              "url is undefined" sample_item "B04" stale_manager) as ((Hmissing & _) & _).
  destruct (getDownloadUrl_signs_the_asset (number := Z) token_service 0
              "url is undefined" sample_item "data" (new_SASTokenManager None))
    as ((_ & Hfound & _) & Hsign).
  destruct (getDownloadUrl_signs_the_asset (number := Z) token_service 0
              "url is undefined" sample_item "toString" (new_SASTokenManager None))
    as ((_ & _ & Hinherited) & _).
  destruct Hfound as (asset & Hasset & Hrun & _).
  { apply elem_of_cons. right. apply elem_of_cons. by left. }
  injection Hasset as <-.
  destruct (Hsign (asset_href (sample_asset "image/tiff; application=geotiff"))
              "my-collection" (new_SASTokenManager None)) as (Hf & _ & _ & Htoken).
  destruct (Htoken "sv=new" eq_refl) as (signed & Hres & -> & _).
  destruct Hinherited as (Hf' & Hm' & _ & Hthrows & _).
  { apply Hkeys; discriminate. }
  { do 8 (apply elem_of_cons; right). apply elem_of_cons. by left. }
  split_and!.
  - apply Hmissing; [apply Hkeys; discriminate|].
    intros Hin. repeat (apply elem_of_cons in Hin as [Hin | Hin]; [discriminate|]).
    by apply elem_of_nil in Hin.
  - rewrite Hrun. exact Hres.
  - rewrite Hrun. etransitivity; [exact Hf | reflexivity].
  - exact (Hthrows "sv=new" eq_refl).
  - etransitivity; [exact Hf' | reflexivity].
  - rewrite Hm'. reflexivity.
Defined.

(** ** Tile-URL builder, second part *)

Lemma query_string_round_trip_witness :
  buildQueryString (ndvi (number := Z)) =
    "expression=%28B08-B04%29%2F%28B08%2BB04%29&rescale=-1%2C1&colormap_name=rdylgn" ∧
  parse_query (buildQueryString (ndvi (number := Z))) =
    [("expression", "(B08-B04)/(B08+B04)"); ("rescale", "-1,1"); ("colormap_name", "rdylgn")] ∧
  split_on "&" (buildQueryString (ndvi (number := Z))) =
    ["expression=%28B08-B04%29%2F%28B08%2BB04%29"; "rescale=-1%2C1"; "colormap_name=rdylgn"].
Proof.
  destruct (query_string_round_trip (ndvi (number := Z))) as (Hparse & Hsplit & _).
  split_and!; [reflexivity | by rewrite Hparse | by rewrite Hsplit].
Defined.

Lemma tile_url_without_parameters_witness :
  nothing_to_serialize (no_params (number := Z)) ∧
  ¬ nothing_to_serialize (true_color (number := Z)) ∧
  getItemTileUrl (number := Z) sample_client "my-collection" "S2A_MSIL2A.1" no_params =
    "https://planetarycomputer.microsoft.com/api/data/v1/item/tiles/WebMercatorQuad/{z}/{x}/{y}@1x?collection=my-collection&item=S2A_MSIL2A.1" ∧
  getCollectionTileUrl (number := Z) sample_client "naip" true_color None =
    "https://planetarycomputer.microsoft.com/api/data/v1/mosaic/tiles/WebMercatorQuad/{z}/{x}/{y}@1x?collection=naip&assets=visual".
Proof.
  assert (nothing_to_serialize (no_params (number := Z))) as Hnone by (by split_and!).
  assert (¬ nothing_to_serialize (true_color (number := Z))) as Hsome
    by (by intros [? _]).
  destruct (tile_url_without_parameters (number := Z) sample_client "my-collection"
              "S2A_MSIL2A.1" no_params) as (_ & Hbare & _).
  destruct (tile_url_without_parameters (number := Z) sample_client "naip"
              "S2A_MSIL2A.1" true_color) as (_ & _ & Hfull).
  split_and!; [exact Hnone | exact Hsome | |].
  - by rewrite (proj1 (Hbare Hnone)).
  - by rewrite (proj2 (Hfull Hsome)).
Defined.

(** ** Layer registry, second part *)

Lemma sample_manager_run :
  addItemLayer (number := Z) sample_generated sample_item None empty_manager =
    (Normal (itemLayer sample_generated sample_item None), sample_manager).
Proof.
  rewrite sample_manager_registered. apply (addItemLayer_run _ _ _ _ sample_manager_fresh).
Qed.

Lemma registry_stays_consistent_witness :
  host_wf (empty_map (number := Z)) ∧
  consistent (empty_manager (number := Z)) ∧
  consistent (sample_manager (number := Z)) ∧
  ∃ st', updateLayer (number := Z) sample_layerId hide sample_manager = (Normal tt, st') ∧
         consistent st'.
Proof.
  destruct (registry_stays_consistent (number := Z)) as (Hnew & Hadd & _ & _ & Hupd).
  pose proof (Hnew empty_map sample_client host_wf_empty) as H0.
  pose proof (Hadd _ _ _ _ _ _ H0 sample_manager_run) as H1.
  split_and!; [exact host_wf_empty | exact H0 | exact H1 |].
  exact (Hupd sample_layerId hide sample_manager H1 eq_refl).
Defined.

Lemma visibility_and_opacity_stay_in_sync_witness :
  views_in_sync (empty_manager (number := Z)) ∧
  views_in_sync (sample_manager (number := Z)) ∧
  ∃ st' layer l,
    updateLayer (number := Z) sample_layerId hide sample_manager = (Normal tt, st') ∧
    mgr_layers st' !! sample_layerId = Some layer ∧
    liveLayers (mgr_map st') !! sample_layerId = Some l ∧
    layer_visible layer = false ∧ lyr_visibility l = Some vis_none ∧
    views_in_sync st'.
Proof.
  assert (consistent (empty_manager (number := Z))) as Hc
    by exact (consistent_new _ _ host_wf_empty).
  assert (views_in_sync (empty_manager (number := Z))) as H0
    by (intros id layer l Hl; exact (False_ind _ (lookup_empty_Some (M := gmap string) _ _ Hl))).
  destruct (visibility_and_opacity_stay_in_sync (number := Z)) as (Hadd & _ & Hupd & _).
  pose proof (Hadd _ _ _ _ _ _ Hc H0 sample_manager_run) as H1.
  assert (updateLayer (number := Z) sample_layerId hide sample_manager =
            (Normal tt, (updateLayer sample_layerId hide sample_manager).2)) as Hrun
    by (vm_compute; reflexivity).
  split_and!; [exact H0 | exact H1 |].
  eexists _, _, _.
  split_and!; [exact Hrun | by vm_compute | by vm_compute | reflexivity | reflexivity |].
  exact (Hupd _ _ _ _ sample_manager_consistent H1 Hrun).
Defined.

Lemma failed_add_stores_no_record_witness :
  ∃ e st',
    addItemLayer (number := Z) sample_generated sample_item None
      (new_LayerManager crowded_map sample_client) = (Throw e, st') ∧
    mgr_layers st' = ∅ ∧
    is_Some (sources (mgr_map st') !! sourceIdOf sample_layerId) ∧
    removeLayer sample_layerId st' = (Normal tt, st').
Proof.
  destruct (failed_add_stores_no_record (number := Z) sample_generated
              (new_LayerManager crowded_map sample_client)) as [Hitem _].
  destruct (Hitem sample_item None) as (_ & _ & Hleft).
  destruct Hleft as (e & Hrun & Hl & Hs & Hrm); [by vm_compute | by eexists |].
  destruct (addItemLayer (number := Z) sample_generated sample_item None
              (new_LayerManager crowded_map sample_client)) as [r st'] eqn:Hadd.
  exists e, st'. simpl in Hl, Hs, Hrm. split_and!.
  - by injection Hrun as -> _.
  - exact Hl.
  - by eexists.
  - apply Hrm. apply lookup_empty.
Defined.

Lemma layer_id_shape_witness :
  newLayerId (item_id (sample_item (number := Z))) sample_generated = sample_layerId ∧
  all_chars JS.id_char (newLayerId (item_id (sample_item (number := Z))) sample_generated)
    = true ∧
  newLayerId "S2A_MSIL2A/1" sample_generated = sample_layerId ∧
  newLayerId (item_id (sample_item (number := Z))) "zzzzzz-9f8e7d" = sample_layerId.
Proof.
  destruct (layer_id_shape (item_id (sample_item (number := Z))) sample_generated)
    as (_ & _ & Hchars & Hsuffix & Hname & _).
  split_and!; [reflexivity | exact (Hchars eq_refl) | |].
  - symmetry. exact (Hname "S2A_MSIL2A/1" eq_refl).
  - symmetry. exact (proj2 (Hsuffix "zzzzzz-9f8e7d") eq_refl).
Defined.

Lemma collection_resolution_order_witness :
  resolveCollectionParams (number := Z) sample_collection None =
    (with_assets ["image"]
       (preset_params (preset "rgb" "RGB" "Natural color" (Some ["image"]) None None None
                         (Some [("image", "1,2,3")]))),
     Some "rgb", ["image"]) ∧
  (resolveCollectionParams (number := Z) bare_collection None).2 = [] ∧
  getCollectionTileUrl (number := Z) sample_client "my-collection"
    (resolveCollectionParams bare_collection None).1.1 None =
    "https://planetarycomputer.microsoft.com/api/data/v1/mosaic/tiles/WebMercatorQuad/{z}/{x}/{y}@1x?collection=my-collection".
Proof.
  pose proof (collection_resolution_order (number := Z) sample_collection None sample_client)
    as (_ & _ & _ & Hpreset & _).
  pose proof (collection_resolution_order (number := Z) bare_collection None sample_client)
    as (_ & _ & _ & _ & Hbare).
  destruct (Hbare eq_refl eq_refl eq_refl) as (_ & _ & _ & Hnone).
  destruct (Hnone eq_refl) as [Hassets Hurl].
  split_and!; [| exact Hassets | etransitivity; [exact Hurl | reflexivity]].
  destruct (getDefaultPreset (number := Z) (coll_id sample_collection)) as [dp|] eqn:Hdp;
    [|discriminate].
  destruct (Hpreset dp eq_refl eq_refl eq_refl) as (Ha & Hp & Hn).
  destruct (resolveCollectionParams (number := Z) sample_collection None) as [[p n] a].
  simpl in Ha, Hp, Hn. subst. by injection Hdp as <-.
Defined.

Lemma zoom_uses_origin_bounds_witness :
  ∃ layer st',
    addCollectionLayer (number := Z) sample_generated sample_collection (Some bbox_options)
      empty_manager = (Normal layer, st') ∧
    zoomToLayer (layer_id layer) st' = Some [[Some (-125); Some 24]; [Some (-66); Some 50]] ∧
    (src_bounds <$> sources (mgr_map st') !! layer_sourceId layer) =
      Some (Some [-123; 37; -122; 38]) ∧
    zoomToLayer (number := Z) sample_layerId sample_manager =
      Some [[Some (-123); Some 37]; [Some (-122); Some 38]].
Proof.
  assert (fresh_ids (number := Z)
            (newLayerId (collectionLayerName sample_collection) sample_generated)
            empty_manager) as Hfresh by (split; apply lookup_empty).
  destruct (zoom_uses_origin_bounds (number := Z)) as (Hitem & Hcoll & _).
  destruct (Hcoll _ _ _ _ _ _
              (addCollectionLayer_run _ sample_collection (Some bbox_options) _ Hfresh))
    as (Hzoom & src & Hsrc & Hb).
  destruct (Hitem _ _ _ _ _ _ sample_manager_run) as (Hzoom' & _).
  eexists _, _. split_and!; [exact (addCollectionLayer_run _ _ _ _ Hfresh) | | |].
  - etransitivity; [exact Hzoom | reflexivity].
  - rewrite Hsrc. simpl. by rewrite Hb.
  - etransitivity; [exact Hzoom' | reflexivity].
Defined.

(** ** STAC client *)

Lemma only_latest_search_is_live_witness :
  stac_abortController
    (stac_run (number := Z)
       [call_search (sample_search None None); call_getCollections;
        call_search (sample_search (Some 5) None)] (new_STACClient None)) = Some 1%nat ∧
  map (λ r, (req_method r, req_signal r))
    (stac_sent
       (stac_run (number := Z)
          [call_search (sample_search None None); call_getCollections;
           call_search (sample_search (Some 5) None)] (new_STACClient None))) =
    [(POST, Some 0%nat); (GET, None); (POST, Some 1%nat)] ∧
  0%nat ∈ stac_aborted
    (stac_run (number := Z)
       [call_search (sample_search None None); call_getCollections;
        call_search (sample_search (Some 5) None)] (new_STACClient None)) ∧
  ∀ k, stac_sent
         (stac_run (number := Z)
            [call_search (sample_search None None); call_getCollections;
             call_search (sample_search (Some 5) None); call_cancelPending]
            (new_STACClient None)) !! 2%nat ≫= req_signal = Some k →
       k ∈ stac_aborted
         (stac_run (number := Z)
            [call_search (sample_search None None); call_getCollections;
             call_search (sample_search (Some 5) None); call_cancelPending]
            (new_STACClient None)).
Proof.
  destruct (only_latest_search_is_live (number := Z) None
              [call_search (sample_search None None); call_getCollections])
    as (_ & _ & _ & Hnext).
  destruct (Hnext (sample_search (Some 5) None)) as (k & _ & Hk & _ & Hold).
  destruct (only_latest_search_is_live (number := Z) None
              [call_search (sample_search None None); call_getCollections;
               call_search (sample_search (Some 5) None); call_cancelPending])
    as (_ & _ & Hnone & _).
  split_and!; [reflexivity | reflexivity | |].
  - exact (Hold 0%nat _ 0%nat eq_refl eq_refl).
  - intros k' Hk'. exact (Hnone eq_refl 2%nat _ k' eq_refl Hk').
Defined.

Lemma abort_is_renamed_before_the_body_witness :
  fetch_settle (number := Z) (fetch_fails (an_Error "AbortError" "The user aborted a request."))
    = rejected (new_Error "Request was cancelled") ∧
  fetch_settle (number := Z)
    (responds_ok (rejected (an_Error "AbortError" "The user aborted a request.")))
    = rejected (an_Error "AbortError" "The user aborted a request.") ∧
  fetch_settle (number := Z) (responds_not_ok 404 "Not Found" (resolved "no such collection"))
    = rejected (new_Error "STAC API error: 404 Not Found - no such collection").
Proof.
  destruct (abort_is_renamed_before_the_body (number := Z)
              (fetch_fails (an_Error "AbortError" "The user aborted a request.")))
    as (_ & _ & Hfail & _).
  destruct (abort_is_renamed_before_the_body (number := Z)
              (responds_ok (rejected (an_Error "AbortError" "The user aborted a request."))))
    as (_ & Hbody & _).
  destruct (abort_is_renamed_before_the_body (number := Z)
              (responds_not_ok 404 "Not Found" (resolved "no such collection")))
    as (_ & _ & _ & Hstatus).
  split_and!.
  - apply (Hfail "The user aborted a request."). by left.
  - by apply Hbody.
  - exact (Hstatus _ _ _ eq_refl).
Defined.

(** ** Control *)

Lemma control_mirrors_registry_witness :
  control_inv (new_PlanetaryComputerControl (number := Z) quiet_options) ∧
  control_inv (sample_control (number := Z)) ∧
  control_inv (layered_control (number := Z)) ∧
  itemLayer sample_generated sample_item None ∈
    activeLayers_in (layered_control (number := Z)) (getState layered_control) ∧
  ∃ c', control_removeLayer (number := Z) sample_layerId layered_control = (Normal tt, c') ∧
        control_inv c' ∧
        itemLayer sample_generated sample_item None ∉ activeLayers_in c' (getState c').
Proof.
  destruct (control_mirrors_registry (number := Z)) as (Hnew & _ & Hadd & _ & Hrem & _).
  destruct (Hadd _ _ _ _ _ _ sample_control_inv layered_control_run) as [Hinv Hin].
  destruct (Hrem sample_layerId _ Hinv) as (c' & Hrun & Hinv' & Hout).
  split_and!; [exact (Hnew quiet_options) | exact sample_control_inv | exact Hinv
              | exact Hin |].
  exists c'. split_and!; [exact Hrun | exact Hinv' |].
  intros Hl. exact (Hout _ Hl eq_refl).
Defined.


Lemma expand_and_collapse_are_idempotent_witness :
  st_collapsed (ctl_state (sample_control (number := Z))) = true ∧
  control_collapse (number := Z) sample_control = (Normal tt, sample_control) ∧
  ∃ c', control_expand (number := Z) sample_control = (Normal tt, c') ∧
        control_toggle (number := Z) sample_control = (Normal tt, c') ∧
        st_collapsed (ctl_state c') = false ∧
        control_expand c' = (Normal tt, c').
Proof.
  destruct (expand_and_collapse_are_idempotent (number := Z) sample_control)
    as (_ & (c' & Hexp & Hopen & Hagain & _ & Htoggle) & (c'' & Hcol & _ & _ & Hsame & _)).
  split_and!; [reflexivity | |].
  - rewrite Hcol. by rewrite (Hsame eq_refl).
  - exists c'. split_and!; [exact Hexp | exact (Htoggle eq_refl) | exact Hopen | exact Hagain].
Defined.

Lemma search_sends_the_configured_limit_witness :
  ∃ c1 c2,
    control_selectCollection (number := Z) (Some sample_collection) sample_control =
      (Normal tt, c1) ∧
    control_search_begin None c1 = (Normal tt, c2) ∧
    st_searchParams (ctl_state c2) = collection_search "naip" 50 ∧
  ∃ c3,
    control_search_begin (number := Z)
      (Some (sample_search (Some 500) (Some ["S2B_T10"]))) sample_control =
      (Normal tt, c3) ∧
    sp_limit (st_searchParams (ctl_state c3)) = Some 50 ∧
    sp_collections (st_searchParams (ctl_state c3)) = Some ["sentinel-2-l2a"] ∧
    sp_ids (st_searchParams (ctl_state c3)) = Some ["S2B_T10"] ∧
    st_searchLoading (ctl_state c3) = true.
Proof.
  destruct (search_sends_the_configured_limit (number := Z)
              (Some (sample_search (Some 500) (Some ["S2B_T10"]))) sample_control)
    as [Hbegin Hselect].
  destruct (Hselect sample_collection) as (c1 & c2 & Hsel & _ & _ & Hrun & Hparams).
  destruct Hbegin as (c3 & Hrun3 & Hlimit & _ & _ & Hcoll & _ & Hids & _ & _ & _ & _
                      & Hsent & Hloading & _).
  exists c1, c2. split_and!; [exact Hsel | exact Hrun | exact Hparams |].
  exists c3. split_and!; [exact Hrun3 | | | | exact Hloading].
  - rewrite Hsent. exact Hlimit.
  - rewrite Hsent. etransitivity; [exact Hcoll | reflexivity].
  - rewrite Hsent. etransitivity; [exact Hids | reflexivity].
Defined.

(** ** Mosaic registration and helpers *)

Lemma registerMosaic_sends_four_fields_witness :
  registerMosaic (number := Z) register_service sample_client (sample_search None None)
    true_color =
  registerMosaic (number := Z) register_service sample_client
    (sample_search (Some 10) (Some ["S2B_T10"])) true_color ∧
  mosaic_request
    (registerMosaic (number := Z) register_service sample_client (sample_search None None)
       true_color) =
    ("https://planetarycomputer.microsoft.com/api/data/v1/mosaic/register",
     {| reg_collections := Some ["sentinel-2-l2a"]; reg_filter := None;
        reg_filter_lang := cql2_json; reg_sortby := None |}) ∧
  mosaic_result
    (registerMosaic (number := Z) register_service sample_client (sample_search None None)
       true_color) =
    Normal (Some "abc123",
            "https://planetarycomputer.microsoft.com/api/data/v1/mosaic/tiles/WebMercatorQuad/{z}/{x}/{y}@1x?searchid=abc123&assets=visual").
Proof.
  destruct (registerMosaic_sends_four_fields (number := Z) register_service sample_client
              (sample_search None None) true_color)
    as (Hsame & Hurl & Hcoll & Hfilter & Hsort & _ & Hlang & _ & _ & Hok).
  destruct (Hok _ _ eq_refl) as (searchId & tileUrl & Hres & Hid & _ & _ & Htile).
  split_and!.
  - symmetry. apply Hsame. by split_and!.
  - destruct (mosaic_request _) as [url body]. simpl in *.
    destruct body as [collections filter lang sortby]. simpl in *.
    by rewrite Hurl, Hcoll, Hfilter, Hsort, (Hlang eq_refl).
  - assert (searchId = Some "abc123") as -> by (by apply Hid).
    rewrite Hres, Htile by (by intros [? _]). reflexivity.
Defined.

Lemma truncate_is_idempotent_witness :
  truncate "This is a long string" 10 = "This is a ..." ∧
  truncate "Exact" 5 = "Exact" ∧
  truncate (truncate "This is a long string" 10) 10 = "This is a ..." ∧
  (String.length "abcd" < String.length (truncate "abcd" 3))%nat.
Proof.
  destruct (truncate_is_idempotent "This is a long string" 10) as (Hidem & _).
  destruct (truncate_is_idempotent "Exact" 5) as (_ & Hfits & _).
  destruct (truncate_is_idempotent "abcd" 3) as (_ & _ & _ & Hlonger).
  split_and!; [reflexivity | apply Hfits; simpl; lia | by rewrite Hidem
              | apply Hlonger; simpl; lia].
Defined.

Lemma clamp_stays_in_range_witness :
  (clamp 5 0 10 == 5)%Q ∧ (clamp 0 (-10) (-5) == -5)%Q ∧ (clamp 15 0 10 <= 10)%Q ∧
  (clamp 5 10 0 == 0)%Q.
Proof.
  destruct (clamp_stays_in_range 5 0 10) as (_ & Hin & _).
  destruct (clamp_stays_in_range 15 0 10) as (Hrange & _).
  destruct (clamp_stays_in_range 5 10 0) as (_ & _ & Hcrossed & _).
  split_and!; [by apply Hin | reflexivity | by apply Hrange | by apply Hcrossed].
Defined.

(** ** The [Add to Map] button *)

Lemma expression_drops_the_selected_asset_witness :
  (resolveItemParams (number := Z) sample_item
     (addToMapOptions sample_item (sample_form "(B08-B04)/(B08+B04)"))).2 = ["data"] ∧
  (resolveItemParams (number := Z) sample_item
     (addToMapOptions sample_item (sample_form EmptyString))).2 = ["thumbnail"] ∧
  ∃ c', addToMap (number := Z) sample_generated sample_item
          (sample_form "(B08-B04)/(B08+B04)") sample_control =
          (Normal (Some [[Some (-123); Some 37]; [Some (-122); Some 38]]), c') ∧
        layer_assets <$> last (activeLayers_in c' (getState c')) = Some ["data"].
Proof.
  destruct (expression_drops_the_selected_asset (number := Z) sample_item
              (sample_form "(B08-B04)/(B08+B04)")) as (Hexpr & _ & _ & Hadd).
  destruct (expression_drops_the_selected_asset (number := Z) sample_item
              (sample_form EmptyString)) as (_ & Hasset & _).
  destruct (Hexpr eq_refl) as (p & _ & _ & _ & Hassets & _); [discriminate|].
  destruct Hasset as [Hpicked _]; [done | done | discriminate |].
  destruct (Hadd sample_generated sample_control empty_manager sample_control_inv eq_refl
              sample_manager_fresh) as (c' & Hrun & Hlast).
  split_and!; [by rewrite Hassets | by rewrite Hpicked |].
  exists c'. split; [exact Hrun|]. by rewrite Hlast.
Defined.
